(* ===== verification/_CoqProject ===== *)
-Q . S2P
Prelude.v
Bytes.v
Protocol.v
RingQueue.v
RingSpec.v
RingRefine.v
RingProps.v
RingThreads.v
ThreadProps.v
ThreadStats.v
Text.v
Getopt.v
Timestamp.v
TimestampProps.v
Log.v
LogProps.v
SslErrors.v
LogThreads.v
LogThreadProps.v
CameraCapture.v
CameraProps.v
Main.v
Transport.v
TlsClient.v
TlsProps.v
TlsTheorems.v
TlsSteps.v
Files.v
Server.v
ServerProps.v
ServerTheorems.v
ServerMain.v
ServerFiles.v
CommandLine.v
EndToEnd.v
Pipeline.v
Process.v
ProcessProps.v
ProcessRefine.v
ProcessFlow.v
ProcessWire.v
ProcessSetup.v
ProcessMoves.v
ProcessShutdown.v
ProcessTeardown.v
ProcessTheorems.v
ProcessStreams.v
ProcessDelivery.v
ProcessFiles.v
