(* ===== verification/Prelude.v ===== *)
(** * Camera frame streamer: a verification library

    The program captures frames from a camera, queues them in a bounded ring in
    mmap'ed memory, and streams them over TLS to a server that parses the stream
    and saves the frames. This library models the program in Rocq and proves what
    makes it correct.

    ** The program and its models

    - include/protocol.hpp: file Protocol. The packed [FrameHeader] is a record of
      member values, [FrameHeader_image] its bytes in the memory of a host of
      either byte order; [htonll], [initFrameHeader], [pixelFormatToString].
      Bytes models memory images and htons/htonl/ntohs/ntohl.
    - src/ring_queue.cpp, include/ring_queue.hpp: file RingQueue. The region is a
      list of bytes, pointers are offsets into it, every access goes through
      [read_mem]/[write_mem]/[lookupZ]/[updateZ] and yields [None] outside its
      bounds. Constructor, destructor, [push], [pop] (waits are a list of wakeups
      with the queue seen after each), [releaseSlot], [frame_packet_free],
      [shutdown], [getStats]. RingSpec is the abstract queue of tickets that the
      ring implements, RingRefine the representation relation [ring_rep] and its
      step lemmas, RingProps the theorems about whole calls.
    - The same queue under its three threads: file RingThreads. A system state has
      the queue, the owner of the mutex, the program counter of the capture,
      network and main threads and the packets not yet freed; the steps cut
      push, pop, shutdown and the release of packets at every access another
      thread can see. ThreadProps has the theorems for every interleaving.
    - include/tls_client.hpp, src/tls_client.cpp: file TlsClient. [initialize],
      [createTcpConnection], [tlsConnect], [tlsDisconnect], [sslWriteAll], the
      backoff in binary32 arithmetic, [networkLoop], the destructor. What the
      system answers is in environment records, calls that acquire, release or
      wait are logged. OpenSSL's connection is the interface of Transport
      ([SslOps] with its laws [SslLaws], [SslProgress], [SslReliable]).
      TlsProps has the invariants, TlsTheorems the theorems.
    - src/camera_capture.cpp: file CameraCapture ([open], [start], [stop],
      [captureLoop] with the arguments of its [push] calls, the destructor);
      theorems in CameraProps.
    - src/main.cpp: file Main ([parseArgs], its error and usage texts; [main] as
      the calls it makes for each combination of failures). Getopt is the C
      library's getopt_long as both programs use it.
    - include/log.hpp: file Timestamp ([fillTimestamp]), file Log (the 512-byte
      message buffer, streaming, the bytes the destructor writes), file
      LogThreads (any number of threads inside log statements: pthread_once, the
      mutex, the two files); theorems in TimestampProps, LogProps and
      LogThreadProps. Text has the C library's decimal output and input.
    - server/server.cpp: file Server (the server's copy of the protocol,
      [sslReadAll], [saveFrame], [handleClient]) and ServerMain ([parseArgs],
      [createSslContext], [main] with the accept loop, the usage text). Files is
      the interface to the file system. ServerProps has the reference parser
      [parse] and the refinement lemmas, ServerTheorems the theorems about one
      client, ServerFiles those about the files over all clients.
    - CommandLine: the command lines of both programs, from [argv] to the
      configuration or the reported error. SslErrors: logSslErrors of client and
      server over OpenSSL's error queue.
    - The running client, src/main.cpp with its threads: file Process. [setup] is
      [main] up to the creation of the threads; a state [proc] has the queue's
      system state, [g_running], the camera, the TLS client and where the capture
      thread ([captureLoop]), the network thread ([networkLoop] with
      [sslWriteAll] cut into its SSL_write calls) and [main] are; [proc_step] is
      a step of one of them, or a signal. ProcessProps (the queue's runs, [main]'s
      order), ProcessRefine (the network thread's steps make up iterations of
      [networkLoop], with TlsSteps), ProcessFlow (capture thread, frames between
      the threads), ProcessWire (what each connection has carried at any moment)
      and ProcessSetup (what [setup] establishes) have the invariants;
      ProcessMoves has the measures of what a thread has left to do and drives it
      to the end of that, ProcessShutdown shows that after a signal every path
      ends at the end of [main], ProcessTeardown what the three deletes release.
      ProcessTheorems has the theorems about the end of the process and about
      its threads as sequential functions; ProcessStreams says what servers have
      received at any moment, ProcessDelivery that images can always get through,
      ProcessFiles puts these together from the camera to the servers' files.
    - EndToEnd puts a client and servers together; Pipeline follows frames from
      the camera through queue and network to the servers and their files.

    ** What the theorems show

    - Queue, one thread at a time: [push], [pop] and the constructor refine the
      abstract queue on every branch (RingProps: push_refines, pop_refines,
      constructor_establishes, push_refuses, pop_null_reason), what is dropped
      when (free_queue_drops_oldest, held_packet_drops_newest), timed waits and
      resources (pop_deadline_correct, lifecycle_balanced).
    - Queue, all interleavings: linearizability to the abstract queue, no access
      out of bounds, no race on slot memory, stable zero-copy views, FIFO
      delivery, no lost wakeup, progress of [push] (ThreadProps); the counters
      account for every frame (ThreadStats).
    - Client: every byte stream it produces is made of whole wire frames up to a
      cut at the end (session_streams), every socket, SSL object, context and
      packet is released once (client_lifecycle), each send and write is all or
      a prefix and terminates, the reconnect schedule (TlsTheorems).
    - Server: [handleClient] equals the reference parser whatever the chunking,
      saves exactly the payloads, leaks nothing (ServerTheorems, ServerMain);
      over all clients the files are the last frames received under their names
      (ServerFiles).
    - Together: headers cross hosts of different byte order, servers accept
      exactly the frames sent (EndToEnd).
    - The whole client, from [main]'s set-up on and for every interleaving of its
      threads and signals: frames reach the servers complete, unaltered and with
      increasing sequence numbers (ProcessFiles.client_delivers_in_order) and, in
      a directory whose name leaves room, are saved under names of their own
      (ProcessFiles.captured_frames_saved); at any moment servers hold exactly
      what has arrived completely (ProcessFiles.received_at_any_time), and as long
      as the network works the next image can get through
      (ProcessDelivery.image_gets_through); the threads compute what
      [captureLoop] and [networkLoop] compute one after the other, which
      discharges what Pipeline and TlsTheorems assume of them
      (ProcessTheorems.process_is_sequential); after a signal every path ends at
      the end of [main] (ProcessTheorems.shutdown_completes, by the measure and
      the progress lemmas of ProcessShutdown); nothing is in use when it is
      destroyed and everything is released once (ProcessTheorems.teardown_safe).
    - Logging: lines stay inside the buffers and are never mixed or reordered by
      threads, every statement completes, timestamps sort like the local times
      they show, and like the clock while the offset from UTC stays the same
      (LogProps, LogThreadProps, TimestampProps).
    - Camera: the exact calls of [push] for what the camera delivers
      (CameraProps); the lifetimes in [main] for every combination of failures
      (Main); command lines: the usable configurations are exactly those that a
      command line gives, every rejection has its reason (CommandLine).

    ** Conventions

    Machine integers are [Z] with the wrap-around written out ([u16], [u32],
    [u64], [i32]); size_t and long have 64 bits. Undefined behaviour and
    exhausted fuel are [None]. Loops whose length depends on the environment
    take a list of what each iteration meets (its first component is the value
    of the control flag) or fuel; [converges f r] says that [f] returns [r]
    from some fuel on, so the theorems that conclude it include termination.
    The termination hypotheses are the classes [SslProgress] and [FsProgress]:
    finitely many retries in a row. [inevitable step P a] says that from [a]
    every path of steps comes to [P]; ProcessShutdown proves it from a
    well-founded measure. Witnesses instantiate the interfaces with scripted
    connections and a scripted store.

    ** Not modelled

    The server's console output and final statistics; which log statements the
    components execute (Log models the statements, LogThreads their
    interleaving; the components' models leave them out). TLS itself, OpenCV,
    localtime_r and the kernel (their answers are parameters). A signal is a
    change of the control flag between two of its loads; SIGPIPE is not
    modelled: SSL_write returns. A connection attempt of the client with its
    back-off sleep is one step of the network thread, and so is a call of
    SSL_write; that these calls return is not in question in the model. Nothing
    bounds the wake-ups of pthread_cond_wait that have no reason: they are
    steps of every safety theorem, and left out of the paths that
    shutdown_completes ranges over. Undefined behaviour that the server's
    [main] can meet, SSL_new's null pointer, is its result [Undefined].
    getopt_long and the C library's text functions are not code of the
    repository: Getopt and Text define what their documentation says of the
    calls that the program makes. Socket options and cipher settings that only
    configure OpenSSL. Weak memory: mutex-protected and atomic accesses are
    taken as sequentially consistent. *)

From stdpp Require Export prelude list numbers option relations sets.
From stdpp Require Export gmap strings.
From coqutil Require Export Byte.
From coqutil Require Import Word.LittleEndianList.
From Stdlib Require Import ZArith Lia.

#[global] Open Scope Z_scope.

(** ** Machine integers

    A [w]-bit unsigned integer is a [Z] in [0, 2^w); conversions and wrapping
    arithmetic of the source are written with the functions below. *)

Definition wrap (w z : Z) : Z := z mod 2 ^ w.
Definition u16 (z : Z) : Z := wrap 16 z.
Definition u32 (z : Z) : Z := wrap 32 z.
Definition u64 (z : Z) : Z := wrap 64 z.
(** Two's complement conversion to a signed [w]-bit integer. *)
Definition swrap (w z : Z) : Z := wrap w (z + 2 ^ (w - 1)) - 2 ^ (w - 1).
Definition i32 (z : Z) : Z := swrap 32 z.

(** [in_width w z]: [z] is the value of a [w]-bit unsigned integer. *)
Definition in_width (w z : Z) : Prop := 0 <= z < 2 ^ w.

Lemma wrap_range w z : 0 <= w -> in_width w (wrap w z).
Proof. intros. apply Z.mod_pos_bound, Z.pow_pos_nonneg; lia. Qed.

Lemma wrap_id w z : in_width w z -> wrap w z = z.
Proof. apply Z.mod_small. Qed.

Lemma wrap_wrap w z : wrap w (wrap w z) = wrap w z.
Proof. apply Zmod_mod. Qed.

Lemma u64_range z : in_width 64 (u64 z).
Proof. by apply wrap_range. Qed.

Lemma u32_range z : in_width 32 (u32 z).
Proof. by apply wrap_range. Qed.

Lemma u16_range z : in_width 16 (u16 z).
Proof. by apply wrap_range. Qed.

Lemma u64_id z : 0 <= z < 2 ^ 64 -> u64 z = z.
Proof. apply wrap_id. Qed.

Lemma u32_id z : 0 <= z < 2 ^ 32 -> u32 z = z.
Proof. apply wrap_id. Qed.

Lemma u16_id z : 0 <= z < 2 ^ 16 -> u16 z = z.
Proof. apply wrap_id. Qed.

Lemma swrap_id w z : 0 < w -> - 2 ^ (w - 1) <= z < 2 ^ (w - 1) -> swrap w z = z.
Proof.
  intros Hw Hz. unfold swrap, wrap.
  assert (2 ^ w = 2 ^ (w - 1) + 2 ^ (w - 1)) as Hp.
  { replace w with (Z.succ (w - 1)) at 1 by lia. rewrite Z.pow_succ_r; lia. }
  rewrite Z.mod_small; lia.
Qed.

Lemma i32_id z : - 2 ^ 31 <= z < 2 ^ 31 -> i32 z = z.
Proof. intros. apply swrap_id; [done | by simpl]. Qed.

Lemma u64_add_mod a b : u64 (u64 a + b) = u64 (a + b).
Proof. unfold u64, wrap. by rewrite Z.add_mod_idemp_l. Qed.

Create HintDb width.
#[export] Hint Resolve wrap_range u64_range u32_range u16_range : width.

(** ** Arrays indexed by [Z]

    The source indexes arrays with [size_t]; an access outside the array is
    undefined behaviour, which the model makes visible as [None]. *)

Definition lookupZ {A} (l : list A) (i : Z) : option A :=
  if decide (0 <= i) then l !! Z.to_nat i else None.

Definition updateZ {A} (l : list A) (i : Z) (x : A) : option (list A) :=
  if decide (0 <= i < Z.of_nat (length l)) then Some (<[Z.to_nat i := x]> l) else None.

Section ArrayZ.
Context {A : Type}.
Implicit Types (l : list A) (i j : Z) (x : A).

Lemma lookupZ_is_Some l i :
  0 <= i < Z.of_nat (length l) -> exists x, lookupZ l i = Some x.
Proof.
  intros. unfold lookupZ. rewrite decide_True by lia.
  apply lookup_lt_is_Some_2. lia.
Qed.

Lemma lookupZ_Some_bound l i x :
  lookupZ l i = Some x -> 0 <= i < Z.of_nat (length l).
Proof.
  unfold lookupZ. case_decide; [|done]. intros ?%lookup_lt_Some. lia.
Qed.

Lemma updateZ_Some l i x :
  0 <= i < Z.of_nat (length l) -> updateZ l i x = Some (<[Z.to_nat i := x]> l).
Proof. intros. unfold updateZ. by rewrite decide_True. Qed.

Lemma updateZ_length l i x l' :
  updateZ l i x = Some l' -> length l' = length l.
Proof.
  unfold updateZ. case_decide; intros; simplify_eq. apply length_insert.
Qed.

Lemma updateZ_bound l i x l' :
  updateZ l i x = Some l' -> 0 <= i < Z.of_nat (length l).
Proof. unfold updateZ. by case_decide. Qed.

Lemma lookupZ_updateZ_eq l i x l' :
  updateZ l i x = Some l' -> lookupZ l' i = Some x.
Proof.
  unfold updateZ, lookupZ. case_decide; intros; simplify_eq.
  rewrite decide_True by lia. apply list_lookup_insert_eq. lia.
Qed.

Lemma lookupZ_updateZ_ne l i j x l' :
  updateZ l i x = Some l' -> i <> j -> lookupZ l' j = lookupZ l j.
Proof.
  unfold updateZ, lookupZ. case_decide; intros; simplify_eq.
  case_decide; [|done]. apply list_lookup_insert_ne. lia.
Qed.

Lemma lookupZ_replicate n x i :
  0 <= i < n -> lookupZ (replicate (Z.to_nat n) x) i = Some x.
Proof.
  intros. unfold lookupZ. rewrite decide_True by lia.
  apply lookup_replicate_2. lia.
Qed.
End ArrayZ.

(** The list without the first occurrence of [x]; [None] when there is none. *)
Fixpoint remove_one (x : Z) (l : list Z) : option (list Z) :=
  match l with
  | [] => None
  | y :: l => if decide (y = x) then Some l else cons y <$> remove_one x l
  end.

(** ** Byte memory *)

(** [read_mem m off n]: the [n] bytes at offset [off] of the region [m]. *)
Definition read_mem (m : list byte) (off n : Z) : option (list byte) :=
  if decide (0 <= off /\ 0 <= n /\ off + n <= Z.of_nat (length m))
  then Some (take (Z.to_nat n) (drop (Z.to_nat off) m)) else None.

(** [write_mem m off bs]: the region [m] after the bytes [bs] are stored at
    offset [off]. *)
Definition write_mem (m : list byte) (off : Z) (bs : list byte) : option (list byte) :=
  if decide (0 <= off /\ off + Z.of_nat (length bs) <= Z.of_nat (length m))
  then Some (take (Z.to_nat off) m ++ bs ++ drop (Z.to_nat off + length bs) m) else None.

Section Memory.
Implicit Types (m bs : list byte) (off n : Z).

Lemma read_mem_length m off n bs :
  read_mem m off n = Some bs -> Z.of_nat (length bs) = n.
Proof.
  unfold read_mem. case_decide; intros; simplify_eq.
  rewrite length_take, length_drop. lia.
Qed.

Lemma read_mem_is_Some m off n :
  0 <= off -> 0 <= n -> off + n <= Z.of_nat (length m) ->
  exists bs, read_mem m off n = Some bs.
Proof. intros. unfold read_mem. rewrite decide_True by lia. eauto. Qed.

Lemma write_mem_is_Some m off bs :
  0 <= off -> off + Z.of_nat (length bs) <= Z.of_nat (length m) ->
  exists m', write_mem m off bs = Some m'.
Proof. intros. unfold write_mem. rewrite decide_True by lia. eauto. Qed.

Lemma write_mem_length m off bs m' :
  write_mem m off bs = Some m' -> length m' = length m.
Proof.
  unfold write_mem. case_decide; intros; simplify_eq.
  rewrite !length_app, length_take, length_drop. lia.
Qed.

Lemma read_write_mem_eq m off bs m' :
  write_mem m off bs = Some m' ->
  read_mem m' off (Z.of_nat (length bs)) = Some bs.
Proof.
  intros Hw. pose proof (write_mem_length _ _ _ _ Hw) as Hl.
  unfold write_mem in Hw. case_decide as Hd; simplify_eq.
  unfold read_mem. rewrite decide_True by lia. f_equal.
  rewrite drop_app_length' by (rewrite length_take; lia).
  rewrite Nat2Z.id. by rewrite take_app_length.
Qed.

(** Splitting a read in two. *)
Lemma read_mem_app m off n1 n2 b1 b2 :
  read_mem m off n1 = Some b1 -> read_mem m (off + n1) n2 = Some b2 ->
  read_mem m off (n1 + n2) = Some (b1 ++ b2).
Proof.
  unfold read_mem. repeat case_decide; intros; simplify_eq; [|lia].
  f_equal. rewrite (Z2Nat.inj_add n1 n2), (Z2Nat.inj_add off n1) by lia.
  rewrite <- drop_drop, <- take_take_drop. done.
Qed.

(** Reading a part of a range that has been read. *)
Lemma read_mem_sub m off n bs k l :
  read_mem m off n = Some bs -> 0 <= k -> 0 <= l -> k + l <= n ->
  read_mem m (off + k) l = Some (take (Z.to_nat l) (drop (Z.to_nat k) bs)).
Proof.
  unfold read_mem. intros Hr ???. case_decide; simplify_eq.
  rewrite decide_True by lia. f_equal.
  rewrite skipn_firstn_comm, take_take, drop_drop.
  rewrite Z2Nat.inj_add by lia. f_equal. lia.
Qed.

(** A write leaves the bytes outside its range alone. *)
Lemma read_write_mem_disjoint m off bs m' off' n :
  write_mem m off bs = Some m' ->
  off' + n <= off \/ off + Z.of_nat (length bs) <= off' ->
  read_mem m' off' n = read_mem m off' n.
Proof.
  intros Hw Hdis. pose proof (write_mem_length _ _ _ _ Hw) as Hl.
  unfold write_mem in Hw. case_decide as Hd; simplify_eq.
  unfold read_mem. rewrite Hl. case_decide as Hr; [|done]. f_equal.
  destruct Hdis as [Hlt | Hge].
  - rewrite drop_app_le by (rewrite length_take; lia).
    rewrite take_app_le by (rewrite length_drop, length_take; lia).
    rewrite <- (take_drop (Z.to_nat off) m) at 2.
    rewrite drop_app_le by (rewrite length_take; lia).
    by rewrite take_app_le by (rewrite length_drop, length_take; lia).
  - rewrite app_assoc, drop_app_ge by (rewrite length_app, length_take; lia).
    rewrite length_app, length_take, drop_drop. do 2 f_equal. lia.
Qed.

Lemma read_mem_det m off n b1 b2 :
  read_mem m off n = Some b1 -> read_mem m off n = Some b2 -> b1 = b2.
Proof. congruence. Qed.
End Memory.

(** ** C strings

    A [char*] is the list of its bytes before the terminating NUL. *)
Definition chars (s : string) : list byte := String.list_byte_of_string s.

(** ** Bit masks and modular positions *)

(** Clearing the low [k] bits. *)
Lemma land_mask_down n k w :
  0 <= n < 2 ^ w -> 0 <= k <= w ->
  Z.land n (Z.shiftl (Z.ones (w - k)) k) = 2 ^ k * (n / 2 ^ k).
Proof.
  intros Hn Hk. rewrite Z.mul_comm, <- Z.shiftl_mul_pow2, <- Z.shiftr_div_pow2 by lia.
  apply Z.bits_inj'. intros i Hi. rewrite Z.land_spec, !Z.shiftl_spec by lia.
  destruct (Z.ltb_spec i k).
  - rewrite !(Z.testbit_neg_r _ (i - k)) by lia. apply andb_false_r.
  - rewrite Z.shiftr_spec by lia. replace (i - k + k) with i by lia.
    destruct (Z.ltb_spec (i - k) (w - k)).
    + rewrite Z.ones_spec_low by lia. apply andb_true_r.
    + rewrite Z.ones_spec_high by lia. rewrite andb_false_r. symmetry.
      rewrite <- (Z.mod_small n (2 ^ w)) by lia. apply Z.mod_pow2_bits_high. lia.
Qed.


Lemma mod_pos_inj c t i j :
  0 < c -> 0 <= i < c -> 0 <= j < c -> (t + i) mod c = (t + j) mod c -> i = j.
Proof.
  intros Hc Hi Hj He.
  pose proof (Z.div_mod (t + i) c) as H1. pose proof (Z.div_mod (t + j) c) as H2.
  rewrite He in H1.
  assert (i - j = c * ((t + i) / c - (t + j) / c)) as Hd by lia.
  destruct (Z.eq_dec ((t + i) / c - (t + j) / c) 0) as [Hz | Hz]; [lia | nia].
Qed.

Lemma succ_mod_add t k c : 0 < c -> ((t + 1) mod c + k) mod c = (t + (k + 1)) mod c.
Proof. intros. rewrite Z.add_mod_idemp_l by lia. f_equal. lia. Qed.

(** ** Fuel *)

(** [f] has a result from some fuel on. *)
Definition converges {A} (f : nat -> option A) (r : A) : Prop :=
  exists n, forall fuel, (n <= fuel)%nat -> f fuel = Some r.

Lemma converges_bind {A B} (f : nat -> option A) (g : nat -> A -> option B) a b :
  converges f a -> converges (fun n => g n a) b -> converges (fun n => x ← f n; g n x) b.
Proof.
  intros [n Hn] [m Hm]. exists (n `max` m)%nat. intros fuel Hf.
  rewrite Hn by lia. cbn. apply Hm. lia.
Qed.

Lemma converges_unique {A} (f : nat -> option A) a b : converges f a -> converges f b -> a = b.
Proof.
  intros [n Hn] [m Hm]. specialize (Hn (n `max` m)%nat ltac:(lia)). specialize (Hm (n `max` m)%nat ltac:(lia)). congruence.
Qed.

Lemma converges_const {A} (a : A) : converges (fun _ => Some a) a.
Proof. by exists 0%nat. Qed.

(** ** Inevitability *)

Section Inevitable.
Context {A : Type} (R : A -> A -> Prop) (G : A -> Prop).

(** Every path of [R] from [x] gets to [G]: [x] is there, or a step can be made
    and all the steps that can be made lead to such states again. *)
Inductive inevitable (x : A) : Prop :=
  | inevitable_now : G x -> inevitable x
  | inevitable_later : (exists y, R x y) -> (forall y, R x y -> inevitable y) -> inevitable x.

Lemma inevitable_measure {B} (less : B -> B -> Prop) (m : A -> B) (I : A -> Prop) :
  well_founded less ->
  (forall x, I x -> G x \/ exists y, R x y) ->
  (forall x y, I x -> R x y -> I y /\ less (m y) (m x)) ->
  forall x, I x -> inevitable x.
Proof.
  intros Hwf Hcan Hless x. remember (m x) as k eqn:E. revert x E.
  induction k as [k IH] using (well_founded_induction Hwf). intros x -> Hi.
  destruct (Hcan x Hi) as [Hg|Hs]; [by left|]. right; [done|]. intros y Hy.
  destruct (Hless x y Hi Hy) as [Hi' Hm]. by apply (IH _ Hm y).
Qed.

Lemma inevitable_path x : inevitable x -> exists y, rtc R x y /\ G y.
Proof.
  induction 1 as [x Hg|x [y Hy] _ IH]; [by exists x|].
  destruct (IH y Hy) as (z & H1 & H2). exists z. split; [by eapply rtc_l | done].
Qed.
End Inevitable.

(** ** Tactics *)

(** Open an [option]-monad computation in a hypothesis. *)
Ltac simplify_bind H :=
  repeat (first
    [ rewrite bind_Some in H; let x := fresh "x" in let Hx := fresh "Hx" in
      destruct H as (x & Hx & H)
    | progress simplify_eq/= ]).

(** Rewrite the wrap-around functions away where [lia] shows no wrap. *)
Ltac nowrap :=
  repeat first
    [ rewrite u64_id by lia | rewrite u32_id by lia | rewrite u16_id by lia
    | rewrite i32_id by lia ].
