(* ===== verification/Bytes.v ===== *)
(** * Integers in memory and in network byte order

    The bytes that an n-byte unsigned integer occupies in the memory of a host
    of either byte order, and the conversions of <arpa/inet.h> ([htons],
    [htonl] and their inverses) as POSIX documents them: [hton*] returns the
    integer whose memory representation is the big-endian one. *)

From S2P Require Import Prelude.
From coqutil Require Import Word.LittleEndianList.

(** The byte order of the host ([__BYTE_ORDER__]). *)
Inductive byte_order := ORDER_LITTLE_ENDIAN | ORDER_BIG_ENDIAN.

#[export] Instance byte_order_eq_dec : EqDecision byte_order.
Proof. solve_decision. Defined.

(** Big-endian bytes of [v], most significant first. *)
Definition be_split (n : nat) (v : Z) : list byte := rev (le_split n v).
Definition be_combine (bs : list byte) : Z := le_combine (rev bs).

(** The memory image of an [n]-byte integer, and the integer with a given image. *)
Definition to_mem (bo : byte_order) (n : nat) (v : Z) : list byte :=
  match bo with
  | ORDER_LITTLE_ENDIAN => le_split n v
  | ORDER_BIG_ENDIAN => be_split n v
  end.

Definition of_mem (bo : byte_order) (bs : list byte) : Z :=
  match bo with
  | ORDER_LITTLE_ENDIAN => le_combine bs
  | ORDER_BIG_ENDIAN => be_combine bs
  end.

(** Host to network and back, for [n]-byte integers. *)
Definition hton (bo : byte_order) (n : nat) (v : Z) : Z := of_mem bo (be_split n v).
Definition ntoh (bo : byte_order) (n : nat) (v : Z) : Z := be_combine (to_mem bo n v).

Definition htons bo v := hton bo 2 v.
Definition ntohs bo v := ntoh bo 2 v.
Definition htonl bo v := hton bo 4 v.
Definition ntohl bo v := ntoh bo 4 v.

Section Bytes.
Implicit Types (bo : byte_order) (n m : nat) (v : Z) (bs : list byte).

Definition nbits (n : nat) : Z := Z.of_nat n * 8.

Lemma length_be_split n v : length (be_split n v) = n.
Proof. unfold be_split. by rewrite length_rev, length_le_split. Qed.

Lemma length_to_mem bo n v : length (to_mem bo n v) = n.
Proof. destruct bo; [apply length_le_split | apply length_be_split]. Qed.

Lemma be_combine_split n v : be_combine (be_split n v) = v mod 2 ^ nbits n.
Proof. unfold be_combine, be_split. by rewrite rev_involutive, le_combine_split. Qed.

Lemma be_combine_split_id n v : in_width (nbits n) v -> be_combine (be_split n v) = v.
Proof. intros. rewrite be_combine_split. by apply Z.mod_small. Qed.

Lemma be_split_combine n bs : length bs = n -> be_split n (be_combine bs) = bs.
Proof.
  intros <-. unfold be_split, be_combine. rewrite <- length_rev.
  by rewrite split_le_combine, rev_involutive.
Qed.

Lemma be_split_inj n v v' :
  in_width (nbits n) v -> in_width (nbits n) v' -> be_split n v = be_split n v' -> v = v'.
Proof.
  intros Hv Hv' He. rewrite <- (be_combine_split_id n v), <- (be_combine_split_id n v') by done.
  by rewrite He.
Qed.

Lemma of_to_mem bo n v : of_mem bo (to_mem bo n v) = v mod 2 ^ nbits n.
Proof. destruct bo; [apply le_combine_split | apply be_combine_split]. Qed.

Lemma of_to_mem_id bo n v : in_width (nbits n) v -> of_mem bo (to_mem bo n v) = v.
Proof. intros. rewrite of_to_mem. by apply Z.mod_small. Qed.

Lemma to_of_mem bo n bs : length bs = n -> to_mem bo n (of_mem bo bs) = bs.
Proof.
  intros <-. destruct bo; [apply split_le_combine | by apply be_split_combine].
Qed.

Lemma of_mem_range bo bs : in_width (nbits (length bs)) (of_mem bo bs).
Proof.
  unfold in_width, nbits. rewrite Z.mul_comm. destruct bo; simpl.
  - apply le_combine_bound.
  - unfold be_combine. rewrite <- (length_rev bs). apply le_combine_bound.
Qed.

(** What the conversions are for: the memory image of [hton] is big-endian. *)
Lemma to_mem_hton bo n v : to_mem bo n (hton bo n v) = be_split n v.
Proof. apply to_of_mem, length_be_split. Qed.

Lemma ntoh_of_mem bo n bs : length bs = n -> ntoh bo n (of_mem bo bs) = be_combine bs.
Proof. intros. unfold ntoh. by rewrite to_of_mem. Qed.

Lemma hton_range bo n v : in_width (nbits n) (hton bo n v).
Proof. pose proof (of_mem_range bo (be_split n v)) as H. by rewrite length_be_split in H. Qed.

Lemma ntoh_hton bo n v : in_width (nbits n) v -> ntoh bo n (hton bo n v) = v.
Proof. intros. unfold ntoh. rewrite to_mem_hton. by apply be_combine_split_id. Qed.

Lemma hton_big n v : in_width (nbits n) v -> hton ORDER_BIG_ENDIAN n v = v.
Proof. apply be_combine_split_id. Qed.

Lemma ntoh_is_hton bo n v : in_width (nbits n) v -> ntoh bo n v = hton bo n v.
Proof.
  intros. destruct bo; [done|].
  unfold ntoh, hton. simpl. by rewrite !be_combine_split_id.
Qed.

(** Splitting at a byte boundary. *)
Lemma le_split_add n m v :
  le_split (n + m) v = le_split n v ++ le_split m (Z.shiftr v (nbits n)).
Proof.
  revert v. induction n as [|n IH]; intros v.
  - simpl. by rewrite Z.shiftr_0_r.
  - change (le_split (S n + m) v) with (byte.of_Z v :: le_split (n + m) (Z.shiftr v 8)).
    change (le_split (S n) v) with (byte.of_Z v :: le_split n (Z.shiftr v 8)).
    rewrite IH, Z.shiftr_shiftr by (unfold nbits; lia).
    replace (nbits (S n)) with (8 + nbits n) by (unfold nbits; lia). done.
Qed.

Lemma be_split_add n m v :
  be_split (n + m) v = be_split m (Z.shiftr v (nbits n)) ++ be_split n v.
Proof. unfold be_split. by rewrite le_split_add, rev_app_distr. Qed.

Lemma le_split_wrap n v : le_split n (v mod 2 ^ nbits n) = le_split n v.
Proof. symmetry. apply le_split_mod. Qed.

Lemma be_split_wrap n v : be_split n (v mod 2 ^ nbits n) = be_split n v.
Proof. unfold be_split. by rewrite le_split_wrap. Qed.

(** An 8-byte conversion out of the conversions of the halves. *)
Lemma hton_halves v :
  in_width 64 v ->
  Z.lor (u64 (Z.shiftl (hton ORDER_LITTLE_ENDIAN 4 (u32 (Z.land v 0xFFFFFFFF))) 32))
        (hton ORDER_LITTLE_ENDIAN 4 (u32 (Z.shiftr v 32)))
  = hton ORDER_LITTLE_ENDIAN 8 v.
Proof.
  intros Hv. unfold hton. cbn [of_mem].
  assert (in_width 32 (Z.shiftr v 32)) as Hhi.
  { rewrite Z.shiftr_div_pow2 by lia. unfold in_width in *.
    split; [apply Z.div_pos; lia | apply Z.div_lt_upper_bound; lia]. }
  rewrite (be_split_add 4 4 v : be_split 8 v = _), le_combine_app, length_be_split, Z.lor_comm.
  rewrite (u32_id (Z.shiftr v 32)) by exact Hhi. f_equal.
  replace (u32 (Z.land v 4294967295)) with (v mod 2 ^ nbits 4).
  2:{ change 4294967295 with (Z.ones 32). rewrite Z.land_ones by lia.
      symmetry. apply wrap_wrap. }
  rewrite be_split_wrap. apply wrap_id.
  pose proof (hton_range ORDER_LITTLE_ENDIAN 4 v) as Hr.
  unfold hton, in_width, nbits in *. cbn [of_mem] in Hr.
  rewrite Z.shiftl_mul_pow2 by lia. lia.
Qed.

Lemma byte_of_Z_val v : 0 <= v < 256 -> byte.unsigned (byte.of_Z v) = v.
Proof. intros. rewrite byte.unsigned_of_Z. by apply Z.mod_small. Qed.
End Bytes.

#[export] Hint Resolve hton_range of_mem_range : width.
Arguments nbits n : simpl never.
