(* ===== verification/Protocol.v ===== *)
(** * The frame protocol (include/protocol.hpp)

    The packed [FrameHeader], the 64-bit byte-order helpers and
    [initFrameHeader] as the client compiles them, on a host of either byte
    order, and the wire format that the file's comment promises. *)

From S2P Require Import Prelude Bytes.
From coqutil Require Import Word.LittleEndianList.
Definition PROTO_MAGIC : list byte := chars "FRAM".
Definition PROTO_MAGIC_LEN : Z := 4.
Definition PROTO_VERSION : Z := 1.

(** Pixel format identifiers. *)
Inductive PixelFormat := JPEG | BGR24 | RGB24 | YUYV | NV12 | GRAY.

Definition PixelFormat_value (f : PixelFormat) : Z :=
  match f with
  | JPEG => 0x47504A4D
  | BGR24 => 0x33524742
  | RGB24 => 0x33424752
  | YUYV => 0x56595559
  | NV12 => 0x3231564E
  | GRAY => 0x59415247
  end.

(** The packed frame header: the values of its members as the host sees them. *)
Record FrameHeader := mkFrameHeader {
  magic : list byte;
  version : Z;
  header_len : Z;
  seq : Z;
  timestamp_ns : Z;
  payload_len : Z;
  pixel_format : Z;
  width : Z;
  height : Z
}.

(** The bytes of a [FrameHeader] object in memory (no padding: pack(1)). *)
Definition FrameHeader_image (bo : byte_order) (h : FrameHeader) : list byte :=
  magic h ++ to_mem bo 2 (version h) ++ to_mem bo 2 (header_len h) ++
  to_mem bo 8 (seq h) ++ to_mem bo 8 (timestamp_ns h) ++
  to_mem bo 4 (payload_len h) ++ to_mem bo 4 (pixel_format h) ++
  to_mem bo 2 (width h) ++ to_mem bo 2 (height h).

(** sizeof(FrameHeader): the sum of the member sizes. *)
Definition FRAME_HEADER_SIZE : Z := PROTO_MAGIC_LEN + 2 + 2 + 8 + 8 + 4 + 4 + 2 + 2.

Definition htonll (bo : byte_order) (val : Z) : Z :=
  match bo with
  | ORDER_LITTLE_ENDIAN =>
      Z.lor (u64 (Z.shiftl (htonl bo (u32 (Z.land val 0xFFFFFFFF))) 32))
            (htonl bo (u32 (Z.shiftr val 32)))
  | ORDER_BIG_ENDIAN => val
  end.

Definition ntohll (bo : byte_order) (val : Z) : Z := htonll bo val.

Definition initFrameHeader (bo : byte_order)
    (seq timestamp_ns payload_len pixel_format width height : Z) : FrameHeader :=
  {| magic := take (Z.to_nat PROTO_MAGIC_LEN) PROTO_MAGIC;
     version := htons bo PROTO_VERSION;
     header_len := htons bo (u16 FRAME_HEADER_SIZE);
     seq := htonll bo seq;
     timestamp_ns := htonll bo timestamp_ns;
     payload_len := htonl bo payload_len;
     pixel_format := htonl bo pixel_format;
     width := htons bo width;
     height := htons bo height |}.

(** The five characters stored in [buf]. *)
Definition pixelFormatToString (format : Z) : list byte :=
  [ byte.of_Z (Z.land (Z.shiftr format 0) 0xFF);
    byte.of_Z (Z.land (Z.shiftr format 8) 0xFF);
    byte.of_Z (Z.land (Z.shiftr format 16) 0xFF);
    byte.of_Z (Z.land (Z.shiftr format 24) 0xFF);
    byte.of_Z 0 ].

(** The specification of the header: the fields that the comment of protocol.hpp
    lists, every integer big-endian, independent of any host; [header_len] is
    the size of the struct. (README.md says 40 bytes and a length field of 40:
    the code does not implement that.) *)
Definition wire_header (seq timestamp_ns payload_len pixel_format width height : Z)
    : list byte :=
  chars "FRAM" ++ be_split 2 1 ++ be_split 2 36 ++ be_split 8 seq ++
  be_split 8 timestamp_ns ++ be_split 4 payload_len ++ be_split 4 pixel_format ++
  be_split 2 width ++ be_split 2 height.

Example init_header_bytes :
  FrameHeader_image ORDER_LITTLE_ENDIAN (initFrameHeader ORDER_LITTLE_ENDIAN 7 1000 5 (PixelFormat_value JPEG) 1280 720)
  = wire_header 7 1000 5 (PixelFormat_value JPEG) 1280 720.
Proof. vm_compute. reflexivity. Qed.

(** ** Byte order of the 64-bit helpers *)

(** [htonll] built from two [htonl] calls is the 8-byte conversion. *)
Lemma htonll_hton bo val : in_width 64 val -> htonll bo val = hton bo 8 val.
Proof. intros Hv. destruct bo; [by apply hton_halves | symmetry; by apply hton_big]. Qed.

Lemma to_mem_htonll bo val : in_width 64 val -> to_mem bo 8 (htonll bo val) = be_split 8 val.
Proof. intros. rewrite htonll_hton by done. apply to_mem_hton. Qed.

Lemma htonll_range bo val : in_width 64 val -> in_width 64 (htonll bo val).
Proof. intros. rewrite htonll_hton by done. apply (hton_range bo 8). Qed.

Lemma htonll_involutive bo val : in_width 64 val -> htonll bo (htonll bo val) = val.
Proof.
  intros Hv. rewrite (htonll_hton bo (htonll bo val)) by auto using htonll_range.
  rewrite htonll_hton by done. rewrite <- ntoh_is_hton by apply (hton_range bo 8).
  by apply ntoh_hton.
Qed.


(** ** The wire image of an initialised header *)

Lemma header_image_wire bo seq ts len fmt w h :
  in_width 64 seq -> in_width 64 ts ->
  FrameHeader_image bo (initFrameHeader bo seq ts len fmt w h)
  = wire_header seq ts len fmt w h.
Proof.
  intros. unfold FrameHeader_image, initFrameHeader, wire_header.
  cbn [magic version header_len Protocol.seq timestamp_ns payload_len pixel_format width height].
  rewrite !to_mem_htonll by done. unfold htonl, htons. by rewrite !to_mem_hton.
Qed.

Lemma length_wire_header seq ts len fmt w h :
  length (wire_header seq ts len fmt w h) = 36%nat.
Proof. unfold wire_header. by rewrite !length_app, !length_be_split. Qed.
