(* ===== verification/RingQueue.v ===== *)
(** * The ring queue (include/ring_queue.hpp, src/ring_queue.cpp)

    The mmap-backed slots byte by byte, the constructor, [push], [pop],
    [releaseSlot], [shutdown], [getStats] and the destructor. An operation
    returns [None] when it would touch memory outside its region or array
    (undefined behaviour in the source); the theorems show that this never
    happens. The operations here are whole critical sections; RingThreads.v
    splits them into the steps that threads interleave. *)

From S2P Require Import Prelude Bytes.

(** ** Slot layout *)

Record SlotHeader := mkSlotHeader {
  sh_seq : Z;
  sh_timestamp_ns : Z;
  sh_pixel_format : Z;
  sh_width : Z;
  sh_height : Z;
  sh_len : Z
}.

(** sizeof(SlotHeader), a packed struct. *)
Definition sizeof_SlotHeader : Z := 8 + 8 + 4 + 2 + 2 + 4.

Definition SlotHeader_image (bo : byte_order) (h : SlotHeader) : list byte :=
  to_mem bo 8 (sh_seq h) ++ to_mem bo 8 (sh_timestamp_ns h) ++
  to_mem bo 4 (sh_pixel_format h) ++ to_mem bo 2 (sh_width h) ++
  to_mem bo 2 (sh_height h) ++ to_mem bo 4 (sh_len h).

(** The member values of the header object whose image is [bs]. *)
Definition SlotHeader_of (bo : byte_order) (bs : list byte) : SlotHeader :=
  {| sh_seq := of_mem bo (take 8 bs);
     sh_timestamp_ns := of_mem bo (take 8 (drop 8 bs));
     sh_pixel_format := of_mem bo (take 4 (drop 16 bs));
     sh_width := of_mem bo (take 2 (drop 20 bs));
     sh_height := of_mem bo (take 2 (drop 22 bs));
     sh_len := of_mem bo (take 4 (drop 24 bs)) |}.

Definition calcStride (max_frame_size : Z) : Z :=
  let sz := u64 (sizeof_SlotHeader + max_frame_size) in
  Z.land (u64 (sz + 63)) (u64 (Z.lnot 63)).

(** Pointers into the region are offsets from [mmap_base_]. *)
Definition slotHdr (stride idx : Z) : Z := u64 (idx * stride).
Definition slotData (stride idx : Z) : Z := u64 (idx * stride) + sizeof_SlotHeader.

(** Slots sized for frames of up to 4 MB. *)
Definition MAX_FRAME_SIZE : Z := 4 * 1024 * 1024.

(** ** State *)

Record RingQueue := mkRingQueue {
  mmap_base_ : option (list byte);  (** [None] is the null pointer *)
  slot_stride_ : Z;
  capacity_ : Z;
  max_frame_size_ : Z;
  head_ : Z;
  tail_ : Z;
  count_ : Z;
  slot_in_use_ : list bool;
  shutdown_ : bool;
  frames_pushed_ : Z;
  frames_dropped_ : Z;
  frames_popped_ : Z
}.

Definition set_mmap x q := mkRingQueue x (slot_stride_ q) (capacity_ q) (max_frame_size_ q) (head_ q) (tail_ q) (count_ q) (slot_in_use_ q) (shutdown_ q) (frames_pushed_ q) (frames_dropped_ q) (frames_popped_ q).
Definition set_head x q := mkRingQueue (mmap_base_ q) (slot_stride_ q) (capacity_ q) (max_frame_size_ q) x (tail_ q) (count_ q) (slot_in_use_ q) (shutdown_ q) (frames_pushed_ q) (frames_dropped_ q) (frames_popped_ q).
Definition set_tail x q := mkRingQueue (mmap_base_ q) (slot_stride_ q) (capacity_ q) (max_frame_size_ q) (head_ q) x (count_ q) (slot_in_use_ q) (shutdown_ q) (frames_pushed_ q) (frames_dropped_ q) (frames_popped_ q).
Definition set_count x q := mkRingQueue (mmap_base_ q) (slot_stride_ q) (capacity_ q) (max_frame_size_ q) (head_ q) (tail_ q) x (slot_in_use_ q) (shutdown_ q) (frames_pushed_ q) (frames_dropped_ q) (frames_popped_ q).
Definition set_in_use x q := mkRingQueue (mmap_base_ q) (slot_stride_ q) (capacity_ q) (max_frame_size_ q) (head_ q) (tail_ q) (count_ q) x (shutdown_ q) (frames_pushed_ q) (frames_dropped_ q) (frames_popped_ q).
Definition set_shutdown x q := mkRingQueue (mmap_base_ q) (slot_stride_ q) (capacity_ q) (max_frame_size_ q) (head_ q) (tail_ q) (count_ q) (slot_in_use_ q) x (frames_pushed_ q) (frames_dropped_ q) (frames_popped_ q).
Definition set_pushed x q := mkRingQueue (mmap_base_ q) (slot_stride_ q) (capacity_ q) (max_frame_size_ q) (head_ q) (tail_ q) (count_ q) (slot_in_use_ q) (shutdown_ q) x (frames_dropped_ q) (frames_popped_ q).
Definition set_dropped x q := mkRingQueue (mmap_base_ q) (slot_stride_ q) (capacity_ q) (max_frame_size_ q) (head_ q) (tail_ q) (count_ q) (slot_in_use_ q) (shutdown_ q) (frames_pushed_ q) x (frames_popped_ q).
Definition set_popped x q := mkRingQueue (mmap_base_ q) (slot_stride_ q) (capacity_ q) (max_frame_size_ q) (head_ q) (tail_ q) (count_ q) (slot_in_use_ q) (shutdown_ q) (frames_pushed_ q) (frames_dropped_ q) x.

Definition isValid (q : RingQueue) : bool :=
  match mmap_base_ q with Some _ => true | None => false end.

Definition isShutdown (q : RingQueue) : bool := shutdown_ q.

(** ** Construction and destruction *)

(** What the constructor and the destructor acquire and release. *)
Inductive resource_call :=
  | Mmap (len : Z) | Munmap (len : Z)
  | MallocFlags (len : Z) | FreeFlags
  | MutexInit | MutexDestroy | CondInit | CondDestroy.

#[export] Instance resource_call_eq_dec : EqDecision resource_call.
Proof. solve_decision. Defined.

(** [mmap len] is the anonymous mapping of [len] bytes, [malloc len] says
    whether the allocation succeeds: both are the system's. *)
Definition RingQueue_new (mmap : Z -> option (list byte)) (malloc : Z -> bool)
    (capacity max_frame_size : Z) : RingQueue * list resource_call :=
  let q0 := mkRingQueue None 0 capacity max_frame_size 0 0 0 [] false 0 0 0 in
  if (capacity =? 0) || (max_frame_size =? 0) then (q0, [])
  else
    let stride := calcStride max_frame_size in
    let total := u64 (stride * capacity) in
    let q1 := mkRingQueue None stride capacity max_frame_size 0 0 0 [] false 0 0 0 in
    match mmap total with
    | None => (q1, [])
    | Some region =>
        if negb (malloc (u64 (capacity * 1)))
        then (q1, [Mmap total; Munmap total])
        else (mkRingQueue (Some region) stride capacity max_frame_size 0 0 0
                (replicate (Z.to_nat capacity) false) false 0 0 0,
              [Mmap total; MallocFlags (u64 (capacity * 1)); MutexInit; CondInit])
    end.

Definition RingQueue_delete (q : RingQueue) : list resource_call :=
  match mmap_base_ q with
  | None => []
  | Some _ => [CondDestroy; MutexDestroy; FreeFlags; Munmap (u64 (slot_stride_ q * capacity_ q))]
  end.

(** ** push *)

(** A frame as callers see it: the metadata of [push] and the payload bytes. *)
Record frame := mkFrame {
  f_seq : Z;
  f_timestamp_ns : Z;
  f_pixel_format : Z;
  f_width : Z;
  f_height : Z;
  f_data : list byte
}.

Definition f_len (f : frame) : Z := Z.of_nat (length (f_data f)).

Definition drop_new (q : RingQueue) : RingQueue :=
  set_dropped (u64 (frames_dropped_ q + 1)) q.

(** The body of the DropOldest loop past its in-use test. *)
Definition evict (q : RingQueue) : RingQueue :=
  drop_new (set_count (u64 (count_ q - 1))
    (set_tail (u64 (tail_ q + 1) mod capacity_ q) q)).

(** The DropOldest loop: [false] is its early exit on a held slot. *)
Fixpoint drop_oldest (fuel : nat) (q : RingQueue) : option (bool * RingQueue) :=
  match fuel with
  | O => None
  | S fuel =>
      if capacity_ q <=? count_ q then
        in_use ← lookupZ (slot_in_use_ q) (tail_ q);
        if (in_use : bool) then Some (false, q) else drop_oldest fuel (evict q)
      else Some (true, q)
  end.

(** Metadata and payload go into the slot at [head_], then [head_], [count_]
    and [frames_pushed_] advance. *)
Definition write_slot (bo : byte_order) (q : RingQueue) (h : SlotHeader) (payload : list byte)
    : option RingQueue :=
  m ← mmap_base_ q;
  m ← write_mem m (slotHdr (slot_stride_ q) (head_ q)) (SlotHeader_image bo h);
  m ← write_mem m (slotData (slot_stride_ q) (head_ q)) payload;
  Some (set_mmap (Some m) q).

Definition commit_push (q : RingQueue) : RingQueue :=
  set_pushed (u64 (frames_pushed_ q + 1))
    (set_count (u64 (count_ q + 1))
      (set_head (u64 (head_ q + 1) mod capacity_ q) q)).

Definition push (bo : byte_order) (q : RingQueue) (seq timestamp_ns : Z)
    (data : option (list byte)) (len pixel_format width height : Z)
    : option (bool * RingQueue) :=
  match mmap_base_ q, data with
  | Some _, Some src =>
      if len =? 0 then Some (false, q)
      else if max_frame_size_ q <? len then Some (false, q)
      else if shutdown_ q then Some (false, q)
      else
        '(room, q) ← drop_oldest (S (S (Z.to_nat (count_ q)))) q;
        if negb (room : bool) then Some (false, drop_new q)
        else
          in_use ← lookupZ (slot_in_use_ q) (head_ q);
          if (in_use : bool) then Some (false, drop_new q)
          else
            payload ← read_mem src 0 len;
            q ← write_slot bo q (mkSlotHeader seq timestamp_ns pixel_format width height len) payload;
            Some (true, commit_push q)
  | _, _ => Some (false, q)
  end.

(** ** pop *)

(** A zero-copy view: [pkt_data] is an offset into the region. *)
Record FramePacket := mkFramePacket {
  pkt_seq : Z;
  pkt_timestamp_ns : Z;
  pkt_pixel_format : Z;
  pkt_width : Z;
  pkt_height : Z;
  pkt_len : Z;
  pkt_data : Z;
  pkt_slot_idx_ : Z
}.

Definition releaseSlot (q : RingQueue) (idx : Z) : option RingQueue :=
  flags ← updateZ (slot_in_use_ q) idx false;
  Some (set_in_use flags q).

Definition frame_packet_free (q : RingQueue) (pkt : option FramePacket) : option RingQueue :=
  match pkt with
  | None => Some q
  | Some p => releaseSlot q (pkt_slot_idx_ p)
  end.

(** The absolute deadline of a timed wait, from [clock_gettime]'s reading. *)
Definition pop_deadline (tv_sec tv_nsec timeout_ms : Z) : Z * Z :=
  let sec := tv_sec + Z.quot timeout_ms 1000 in
  let nsec := tv_nsec + Z.rem timeout_ms 1000 * 1000000 in
  if 1000000000 <=? nsec then (sec + 1, nsec - 1000000000) else (sec, nsec).

(** A wait releases the mutex: when it returns, other threads have left the
    queue in some state, and [pthread_cond_timedwait] says whether the deadline
    has passed. [waits] lists what the successive waits of one call see. *)
Record wakeup := mkWakeup { wake_etimedout : bool; wake_queue : RingQueue }.

Inductive wait_result :=
  | Proceed (q : RingQueue)       (** past the waiting code, mutex held *)
  | GiveUp (q : RingQueue)        (** returned nullptr from the waiting code *)
  | StillWaiting.                 (** [waits] is used up: blocked in the wait *)

Definition must_wait (q : RingQueue) : bool := (count_ q =? 0) && negb (shutdown_ q).

Fixpoint wait_loop (timed : bool) (q : RingQueue) (waits : list wakeup) : wait_result :=
  if must_wait q then
    match waits with
    | [] => StillWaiting
    | w :: waits =>
        if timed && wake_etimedout w then GiveUp (wake_queue w)
        else wait_loop timed (wake_queue w) waits
    end
  else Proceed q.

Definition pop_wait (timeout_ms : Z) (q : RingQueue) (waits : list wakeup) : wait_result :=
  if timeout_ms <? 0 then wait_loop false q waits
  else if timeout_ms =? 0 then
    if (count_ q =? 0) || shutdown_ q then GiveUp q else Proceed q
  else wait_loop true q waits.

(** The tail slot leaves the queue and is marked as held. *)
Definition take_tail (bo : byte_order) (q : RingQueue) : option (FramePacket * RingQueue) :=
  let idx := tail_ q in
  m ← mmap_base_ q;
  hdr ← read_mem m (slotHdr (slot_stride_ q) idx) sizeof_SlotHeader;
  flags ← updateZ (slot_in_use_ q) idx true;
  let h := SlotHeader_of bo hdr in
  Some (mkFramePacket (sh_seq h) (sh_timestamp_ns h) (sh_pixel_format h) (sh_width h)
          (sh_height h) (sh_len h) (slotData (slot_stride_ q) idx) idx,
        set_popped (u64 (frames_popped_ q + 1))
          (set_count (u64 (count_ q - 1))
            (set_tail (u64 (tail_ q + 1) mod capacity_ q) (set_in_use flags q)))).

Inductive pop_result :=
  | Popped (pkt : option FramePacket) (q : RingQueue)
  | Blocked.

Definition pop (bo : byte_order) (q : RingQueue) (timeout_ms : Z) (waits : list wakeup)
    (malloc_ok : bool) : option pop_result :=
  if negb (isValid q) then Some (Popped None q)
  else match pop_wait timeout_ms q waits with
  | StillWaiting => Some Blocked
  | GiveUp q => Some (Popped None q)
  | Proceed q =>
      if count_ q =? 0 then Some (Popped None q)
      else
        '(pkt, q) ← take_tail bo q;
        if malloc_ok then Some (Popped (Some pkt) q)
        else q ← releaseSlot q (pkt_slot_idx_ pkt); Some (Popped None q)
  end.

Definition shutdown (q : RingQueue) : RingQueue := set_shutdown true q.

Record Stats := mkStats { st_pushed : Z; st_dropped : Z; st_popped : Z }.

Definition getStats (q : RingQueue) : Stats :=
  mkStats (frames_pushed_ q) (frames_dropped_ q) (frames_popped_ q).

(** The payload bytes a packet's [data] pointer shows. *)
Definition packet_bytes (q : RingQueue) (p : FramePacket) : option (list byte) :=
  m ← mmap_base_ q; read_mem m (pkt_data p) (pkt_len p).

(** The frame a packet shows its reader. *)
Definition packet_frame (q : RingQueue) (p : FramePacket) : option frame :=
  data ← packet_bytes q p;
  Some (mkFrame (pkt_seq p) (pkt_timestamp_ns p) (pkt_pixel_format p) (pkt_width p)
          (pkt_height p) data).
