(* ===== verification/RingSpec.v ===== *)
(** * What the ring queue promises

    An abstract bounded queue of frames. Accepted frames get consecutive
    tickets; [sp_base] is the ticket of the oldest queued frame, [sp_held] maps
    the tickets whose packets the consumer has not freed to their frames. The
    counters are exact (unbounded) numbers. *)

From S2P Require Import Prelude RingQueue.

Record spec := mkSpec {
  sp_base : Z;
  sp_items : list frame;
  sp_held : gmap Z frame;
  sp_shut : bool;
  sp_pushed : Z;
  sp_dropped : Z;
  sp_popped : Z
}.

Definition sp_empty : spec := mkSpec 0 [] ∅ false 0 0 0.

(** The ticket that the next accepted frame gets. *)
Definition sp_next (s : spec) : Z := sp_base s + Z.of_nat (length (sp_items s)).

(** The frame with ticket [t], while it is queued or held. *)
Definition sp_live (s : spec) (t : Z) : option frame :=
  if decide (sp_base s <= t) then sp_items s !! Z.to_nat (t - sp_base s)
  else sp_held s !! t.

(** The frame accepted [cap] frames ago still occupies the slot that the next
    frame needs. *)
Definition sp_blocked (cap : Z) (s : spec) : bool :=
  match sp_held s !! (sp_next s - cap) with Some _ => true | None => false end.

Definition sp_full (cap : Z) (s : spec) : bool := cap <=? Z.of_nat (length (sp_items s)).

Definition sp_reject (s : spec) : spec :=
  mkSpec (sp_base s) (sp_items s) (sp_held s) (sp_shut s) (sp_pushed s) (sp_dropped s + 1) (sp_popped s).

Definition sp_evict (s : spec) : spec :=
  mkSpec (sp_base s + 1) (tail (sp_items s)) (sp_held s) (sp_shut s)
    (sp_pushed s) (sp_dropped s + 1) (sp_popped s).

Definition sp_append (f : frame) (s : spec) : spec :=
  mkSpec (sp_base s) (sp_items s ++ [f]) (sp_held s) (sp_shut s)
    (sp_pushed s + 1) (sp_dropped s) (sp_popped s).

Definition sp_make_room (cap : Z) (s : spec) : spec :=
  if sp_full cap s then sp_evict s else s.

(** One [push] of a frame of admissible size. *)
Definition sp_push (cap : Z) (f : frame) (s : spec) : bool * spec :=
  if sp_shut s then (false, s)
  else if sp_blocked cap s then (false, sp_reject s)
  else (true, sp_append f (sp_make_room cap s)).

(** One [pop] that finds the queue not empty. *)
Definition sp_take (s : spec) : option (Z * frame * spec) :=
  match sp_items s with
  | [] => None
  | f :: fs =>
      Some (sp_base s, f,
        mkSpec (sp_base s + 1) fs (<[sp_base s := f]> (sp_held s)) (sp_shut s)
          (sp_pushed s) (sp_dropped s) (sp_popped s + 1))
  end.

Definition sp_release (t : Z) (s : spec) : spec :=
  mkSpec (sp_base s) (sp_items s) (delete t (sp_held s)) (sp_shut s)
    (sp_pushed s) (sp_dropped s) (sp_popped s).

Definition sp_shutdown (s : spec) : spec :=
  mkSpec (sp_base s) (sp_items s) (sp_held s) true (sp_pushed s) (sp_dropped s) (sp_popped s).

(** Invariant of the abstract queue. *)
Record sp_ok (cap : Z) (s : spec) : Prop := mkSpOk {
  ok_base : 0 <= sp_base s;
  ok_len : Z.of_nat (length (sp_items s)) <= cap;
  ok_held : forall t f, sp_held s !! t = Some f -> sp_next s - cap <= t < sp_base s;
  ok_held_pos : forall t f, sp_held s !! t = Some f -> 0 <= t;
  ok_pushed : sp_pushed s = sp_next s;
  ok_popped : 0 <= sp_popped s <= sp_base s;
  ok_dropped : sp_base s - sp_popped s <= sp_dropped s
}.

Section Spec.
Context (cap : Z) (cap_pos : 0 < cap).
Implicit Types (s : spec) (f : frame) (t : Z).

Lemma sp_next_reject s : sp_next (sp_reject s) = sp_next s.
Proof. done. Qed.

Lemma sp_next_append f s : sp_next (sp_append f s) = sp_next s + 1.
Proof. unfold sp_next. simpl. rewrite length_app. simpl. lia. Qed.

Lemma sp_full_length s :
  sp_full cap s = true -> sp_ok cap s -> Z.of_nat (length (sp_items s)) = cap.
Proof. intros ?%Z.leb_le []. lia. Qed.

Lemma sp_next_evict s : sp_full cap s = true -> sp_next (sp_evict s) = sp_next s.
Proof.
  unfold sp_full, sp_next. intros H%Z.leb_le. destruct (sp_items s) eqn:E; simpl in *; [|rewrite E]; simpl; lia.
Qed.

Lemma sp_next_make_room s : sp_next (sp_make_room cap s) = sp_next s.
Proof. unfold sp_make_room. destruct (sp_full cap s) eqn:?; [by apply sp_next_evict | done]. Qed.

Lemma sp_make_room_length s :
  sp_ok cap s -> Z.of_nat (length (sp_items (sp_make_room cap s))) < cap.
Proof.
  intros []. unfold sp_make_room, sp_full. case Z.leb_spec; [|lia].
  simpl. destruct (sp_items s); simpl in *; lia.
Qed.

(** The window: a live ticket is one of the last [cap] tickets. *)
Lemma sp_live_window s t f :
  sp_ok cap s -> sp_live s t = Some f -> sp_next s - cap <= t < sp_next s.
Proof.
  intros [] Hl. unfold sp_live in Hl. case_decide.
  - apply lookup_lt_Some in Hl. unfold sp_next. lia.
  - apply ok_held0 in Hl. unfold sp_next in *. lia.
Qed.

Lemma sp_ok_empty : sp_ok cap sp_empty.
Proof. constructor; simpl; try done; unfold sp_next; simpl; try lia; intros ??; by rewrite lookup_empty. Qed.

Lemma sp_ok_reject s : sp_ok cap s -> sp_ok cap (sp_reject s).
Proof. intros []. constructor; simpl; eauto; lia. Qed.

Lemma sp_ok_evict s : sp_full cap s = true -> sp_ok cap s -> sp_ok cap (sp_evict s).
Proof.
  intros Hf [H1 H2 H3 H4 H5 H6 H7]. pose proof (sp_next_evict s Hf) as Hn. constructor; rewrite ?Hn; simpl; try lia; eauto.
  - destruct (sp_items s); simpl in *; lia.
  - intros t f Ht. apply H3 in Ht. lia.
Qed.

Lemma sp_ok_append f s :
  Z.of_nat (length (sp_items s)) < cap -> sp_blocked cap s = false ->
  sp_ok cap s -> sp_ok cap (sp_append f s).
Proof.
  intros Hl Hb [H1 H2 H3 H4 H5 H6 H7]. constructor; rewrite ?sp_next_append; simpl; try lia; eauto.
  - rewrite length_app. simpl. lia.
  - intros t g Ht. assert (t <> sp_next s - cap) as Hne.
    { intros ->. unfold sp_blocked in Hb. by rewrite Ht in Hb. }
    apply H3 in Ht. lia.
Qed.

Lemma sp_blocked_make_room s : sp_blocked cap (sp_make_room cap s) = sp_blocked cap s.
Proof.
  unfold sp_blocked. rewrite sp_next_make_room.
  unfold sp_make_room. by destruct (sp_full cap s).
Qed.

Lemma sp_ok_make_room s : sp_ok cap s -> sp_ok cap (sp_make_room cap s).
Proof. unfold sp_make_room. destruct (sp_full cap s) eqn:?; eauto using sp_ok_evict. Qed.

Lemma sp_ok_push f s : sp_ok cap s -> sp_ok cap (sp_push cap f s).2.
Proof.
  intros Hok. unfold sp_push. destruct (sp_shut s); [done|].
  destruct (sp_blocked cap s) eqn:Hb; [by apply sp_ok_reject|]. simpl.
  apply sp_ok_append; [by apply sp_make_room_length | by rewrite sp_blocked_make_room |].
  by apply sp_ok_make_room.
Qed.

Lemma sp_ok_take s t f s' : sp_take s = Some (t, f, s') -> sp_ok cap s -> sp_ok cap s'.
Proof.
  unfold sp_take. destruct (sp_items s) as [|g gs] eqn:E; [done|].
  intros [= <- <- <-] [H1 H2 H3 H4 H5 H6 H7].
  unfold sp_next in *. rewrite E in *. simpl in *.
  constructor; unfold sp_next; simpl; try lia.
  - intros t h [[<- <-] | [? Ht]]%lookup_insert_Some; [lia|]. apply H3 in Ht. lia.
  - intros t h [[<- <-] | [? Ht]]%lookup_insert_Some; [lia|]. by eapply H4.
Qed.

Lemma sp_ok_release s t : sp_ok cap s -> sp_ok cap (sp_release t s).
Proof.
  intros [H1 H2 H3 H4 H5 H6 H7]. constructor; simpl; try done.
  - intros u f [_ Hu]%lookup_delete_Some. by eapply H3.
  - intros u f [_ Hu]%lookup_delete_Some. by eapply H4.
Qed.

Lemma sp_ok_shutdown s : sp_ok cap s -> sp_ok cap (sp_shutdown s).
Proof. intros []. by constructor. Qed.

(** A full queue is never blocked: the next slot's ticket is queued, not held. *)
Lemma sp_full_not_blocked s : sp_ok cap s -> sp_full cap s = true -> sp_blocked cap s = false.
Proof.
  intros Hok Hf. unfold sp_blocked. destruct (sp_held s !! _) eqn:E; [|done].
  pose proof (sp_full_length s Hf Hok). apply Hok in E. unfold sp_next in E. lia.
Qed.
End Spec.

#[export] Hint Resolve sp_ok_empty sp_ok_reject sp_ok_evict sp_ok_push sp_ok_release
  sp_ok_shutdown sp_ok_make_room : core.
