(* ===== verification/RingRefine.v ===== *)
(** * The ring queue implements its abstract queue

    [ring_rep bo q s] relates a concrete queue to an abstract one; every
    operation of RingQueue.v run in a related state terminates without a
    memory fault and leads to a related state. *)

From S2P Require Import Prelude Bytes RingQueue RingSpec.

(** A frame whose members fit their fields. *)
Record frame_ok (max : Z) (f : frame) : Prop := mkFrameOk {
  fok_seq : in_width 64 (f_seq f);
  fok_ts : in_width 64 (f_timestamp_ns f);
  fok_fmt : in_width 32 (f_pixel_format f);
  fok_w : in_width 16 (f_width f);
  fok_h : in_width 16 (f_height f);
  fok_len : 0 < f_len f <= max;
  fok_len32 : in_width 32 (f_len f)
}.

(** The frame stored in slot [idx]. *)
Definition slot_frame (bo : byte_order) (q : RingQueue) (idx : Z) : option frame :=
  m ← mmap_base_ q;
  hdr ← read_mem m (slotHdr (slot_stride_ q) idx) sizeof_SlotHeader;
  let h := SlotHeader_of bo hdr in
  data ← read_mem m (slotData (slot_stride_ q) idx) (sh_len h);
  Some (mkFrame (sh_seq h) (sh_timestamp_ns h) (sh_pixel_format h) (sh_width h) (sh_height h) data).

(** Geometry: what the constructor fixes once and for all. *)
Record ring_geometry (q : RingQueue) : Prop := mkGeometry {
  geo_cap : 0 < capacity_ q;
  geo_max : 0 < max_frame_size_ q;
  geo_stride : sizeof_SlotHeader + max_frame_size_ q <= slot_stride_ q;
  geo_total : slot_stride_ q * capacity_ q < 2 ^ 64;
  geo_mem : exists m, mmap_base_ q = Some m /\
      Z.of_nat (length m) = slot_stride_ q * capacity_ q;
  geo_flags : Z.of_nat (length (slot_in_use_ q)) = capacity_ q
}.

Definition is_held (s : spec) (t : Z) : bool :=
  match sp_held s !! t with Some _ => true | None => false end.

Record ring_rep (bo : byte_order) (q : RingQueue) (s : spec) : Prop := mkRep {
  rep_geo : ring_geometry q;
  rep_ok : sp_ok (capacity_ q) s;
  rep_tail : tail_ q = sp_base s mod capacity_ q;
  rep_count : count_ q = Z.of_nat (length (sp_items s));
  rep_head : head_ q = sp_next s mod capacity_ q;
  rep_flags : forall t, sp_next s - capacity_ q <= t < sp_next s ->
      lookupZ (slot_in_use_ q) (t mod capacity_ q) = Some (is_held s t);
  rep_live : forall t f, sp_live s t = Some f ->
      slot_frame bo q (t mod capacity_ q) = Some f /\ frame_ok (max_frame_size_ q) f;
  rep_shut : shutdown_ q = sp_shut s;
  rep_pushed : frames_pushed_ q = u64 (sp_pushed s);
  rep_dropped : frames_dropped_ q = u64 (sp_dropped s);
  rep_popped : frames_popped_ q = u64 (sp_popped s)
}.

(** ** Slot layout *)

#[local] Arguments SlotHeader_of : simpl never.

Lemma length_SlotHeader_image bo h :
  Z.of_nat (length (SlotHeader_image bo h)) = sizeof_SlotHeader.
Proof. unfold SlotHeader_image. by rewrite !length_app, !length_to_mem. Qed.

Lemma SlotHeader_of_image bo h :
  in_width 64 (sh_seq h) -> in_width 64 (sh_timestamp_ns h) ->
  in_width 32 (sh_pixel_format h) -> in_width 16 (sh_width h) ->
  in_width 16 (sh_height h) -> in_width 32 (sh_len h) ->
  SlotHeader_of bo (SlotHeader_image bo h) = h.
Proof.
  intros. destruct h as [a b c d e f]; simpl in *. unfold SlotHeader_of, SlotHeader_image; simpl.
  assert (forall n v bs, take n (to_mem bo n v ++ bs) = to_mem bo n v) as Ht.
  { intros. apply take_app_length'. symmetry. apply length_to_mem. }
  assert (forall n k v bs, drop (n + k) (to_mem bo n v ++ bs) = drop k bs) as Hd.
  { intros. rewrite drop_app_ge by (rewrite length_to_mem; lia).
    rewrite length_to_mem. f_equal. lia. }
  f_equal.
  - rewrite Ht. by apply of_to_mem_id.
  - rewrite (Hd 8%nat 0%nat), drop_0, Ht. by apply of_to_mem_id.
  - rewrite (Hd 8%nat 8%nat), (Hd 8%nat 0%nat), drop_0, Ht. by apply of_to_mem_id.
  - rewrite (Hd 8%nat 12%nat), (Hd 8%nat 4%nat), (Hd 4%nat 0%nat), drop_0, Ht. by apply of_to_mem_id.
  - rewrite (Hd 8%nat 14%nat), (Hd 8%nat 6%nat), (Hd 4%nat 2%nat), (Hd 2%nat 0%nat), drop_0, Ht.
    by apply of_to_mem_id.
  - rewrite (Hd 8%nat 16%nat), (Hd 8%nat 8%nat), (Hd 4%nat 4%nat), (Hd 2%nat 2%nat),
      (Hd 2%nat 0%nat), drop_0.
    rewrite take_ge by (rewrite length_to_mem; lia). by apply of_to_mem_id.
Qed.

(** [calcStride] rounds up to a multiple of the cache line, with no overflow
    for every frame size the program uses. *)
Lemma calcStride_spec max :
  0 <= max -> sizeof_SlotHeader + max + 63 < 2 ^ 64 ->
  calcStride max = 64 * ((sizeof_SlotHeader + max + 63) / 64).
Proof.
  intros. unfold calcStride, sizeof_SlotHeader in *.
  rewrite (u64_id (8 + _ + _ + _ + _ + _ + _)) by lia. rewrite (u64_id (_ + 63)) by lia.
  change (u64 (Z.lnot 63)) with (Z.shiftl (Z.ones (64 - 6)) 6).
  rewrite land_mask_down by lia. done.
Qed.

Lemma calcStride_bounds max :
  0 <= max -> sizeof_SlotHeader + max + 63 < 2 ^ 64 ->
  sizeof_SlotHeader + max <= calcStride max < sizeof_SlotHeader + max + 64.
Proof.
  intros. rewrite calcStride_spec by done. unfold sizeof_SlotHeader in *.
  set (n := 8 + 8 + 4 + 2 + 2 + 4 + max) in *.
  pose proof (Z.div_mod (n + 63) 64). pose proof (Z.mod_pos_bound (n + 63) 64). lia.
Qed.

(** Slots of distinct indices do not overlap and lie in the region. *)
Lemma slot_in_region q idx :
  ring_geometry q -> 0 <= idx < capacity_ q ->
  slotHdr (slot_stride_ q) idx = idx * slot_stride_ q /\
  0 <= idx * slot_stride_ q /\
  idx * slot_stride_ q + slot_stride_ q <= slot_stride_ q * capacity_ q.
Proof.
  intros [Hc Hm Hs Ht _ _] Hi. unfold sizeof_SlotHeader in Hs.
  assert (0 <= idx * slot_stride_ q) by nia.
  assert (idx * slot_stride_ q + slot_stride_ q <= slot_stride_ q * capacity_ q) by nia.
  split; [|done]. apply u64_id. lia.
Qed.

Lemma slotData_slotHdr stride idx : slotData stride idx = slotHdr stride idx + sizeof_SlotHeader.
Proof. done. Qed.

Lemma slots_disjoint q i j :
  ring_geometry q -> 0 <= i < capacity_ q -> 0 <= j < capacity_ q -> i <> j ->
  slotHdr (slot_stride_ q) i + slot_stride_ q <= slotHdr (slot_stride_ q) j \/
  slotHdr (slot_stride_ q) j + slot_stride_ q <= slotHdr (slot_stride_ q) i.
Proof.
  intros Hg Hi Hj Hne.
  destruct (slot_in_region q i Hg Hi) as (-> & _ & _), (slot_in_region q j Hg Hj) as (-> & _ & _).
  destruct Hg. unfold sizeof_SlotHeader in *. nia.
Qed.

(** ** Reading and writing slots *)

Lemma slot_frame_ext bo q q' idx :
  mmap_base_ q' = mmap_base_ q -> slot_stride_ q' = slot_stride_ q ->
  slot_frame bo q' idx = slot_frame bo q idx.
Proof. unfold slot_frame. by intros -> ->. Qed.

Lemma geometry_ext q q' :
  capacity_ q' = capacity_ q -> max_frame_size_ q' = max_frame_size_ q ->
  slot_stride_ q' = slot_stride_ q -> length (slot_in_use_ q') = length (slot_in_use_ q) ->
  (exists m, mmap_base_ q' = Some m /\ Z.of_nat (length m) = slot_stride_ q * capacity_ q) ->
  ring_geometry q -> ring_geometry q'.
Proof. intros E1 E2 E3 E4 E5 []. constructor; rewrite ?E1, ?E2, ?E3, ?E4; done. Qed.

(** An operation that leaves the region in place keeps the geometry. *)
Lemma geometry_same_mem q q' :
  capacity_ q' = capacity_ q -> max_frame_size_ q' = max_frame_size_ q ->
  slot_stride_ q' = slot_stride_ q -> length (slot_in_use_ q') = length (slot_in_use_ q) ->
  mmap_base_ q' = mmap_base_ q -> ring_geometry q -> ring_geometry q'.
Proof.
  intros E1 E2 E3 E4 E5 Hg. eapply geometry_ext; try done. rewrite E5. by apply geo_mem.
Qed.

(** What a stored frame consists of. *)
Lemma slot_frame_Some bo q idx f :
  slot_frame bo q idx = Some f ->
  exists m hdr, mmap_base_ q = Some m /\
    read_mem m (slotHdr (slot_stride_ q) idx) sizeof_SlotHeader = Some hdr /\
    SlotHeader_of bo hdr = mkSlotHeader (f_seq f) (f_timestamp_ns f) (f_pixel_format f)
      (f_width f) (f_height f) (f_len f) /\
    read_mem m (slotData (slot_stride_ q) idx) (f_len f) = Some (f_data f).
Proof.
  unfold slot_frame. intros H. simplify_bind H. exists x, x0.
  pose proof (read_mem_length _ _ _ _ Hx1) as Hl. unfold f_len; simpl.
  rewrite Hl. by split_and!.
Qed.

Lemma slot_frame_intro bo q idx m hdr f :
  mmap_base_ q = Some m ->
  read_mem m (slotHdr (slot_stride_ q) idx) sizeof_SlotHeader = Some hdr ->
  SlotHeader_of bo hdr = mkSlotHeader (f_seq f) (f_timestamp_ns f) (f_pixel_format f)
    (f_width f) (f_height f) (f_len f) ->
  read_mem m (slotData (slot_stride_ q) idx) (f_len f) = Some (f_data f) ->
  slot_frame bo q idx = Some f.
Proof.
  intros Hm Hh He Hd. unfold slot_frame. rewrite Hm. cbn [mbind option_bind].
  rewrite Hh. cbn [mbind option_bind]. cbv zeta. rewrite He. cbn [sh_len].
  rewrite Hd. by destruct f.
Qed.

(** The header object that [push] fills in for a frame. *)
Definition frame_header (f : frame) : SlotHeader :=
  mkSlotHeader (f_seq f) (f_timestamp_ns f) (f_pixel_format f) (f_width f) (f_height f) (f_len f).

(** A write inside slot [i] leaves the frames of the other slots alone. *)
Lemma slot_frame_write_other bo q m off bs m' i idx g :
  ring_geometry q -> mmap_base_ q = Some m -> write_mem m off bs = Some m' ->
  0 <= i < capacity_ q -> slotHdr (slot_stride_ q) i <= off ->
  off + Z.of_nat (length bs) <= slotHdr (slot_stride_ q) i + slot_stride_ q ->
  0 <= idx < capacity_ q -> idx <> i ->
  slot_frame bo q idx = Some g -> frame_ok (max_frame_size_ q) g ->
  slot_frame bo (set_mmap (Some m') q) idx = Some g.
Proof.
  intros Hg Em W Hi Hlo Hhi Hidx Hne Hsf Hok.
  apply slot_frame_Some in Hsf as (m0 & hdr & Em0 & R1 & R2 & R3).
  rewrite Em in Em0. injection Em0 as <-.
  pose proof (slots_disjoint q idx i Hg Hidx Hi Hne) as Hdis.
  pose proof (fok_len _ _ Hok). pose proof (geo_stride q Hg).
  assert (0 <= sizeof_SlotHeader) by done.
  eapply slot_frame_intro; [done | | exact R2 |]; cbn [slot_stride_ set_mmap].
  - rewrite (read_write_mem_disjoint _ _ _ _ _ _ W) by lia. done.
  - rewrite (read_write_mem_disjoint _ _ _ _ _ _ W) by (rewrite slotData_slotHdr; lia). done.
Qed.

(** The two writes of [push] into slot [i]. *)
Lemma write_header_spec bo q f i m :
  ring_geometry q -> 0 <= i < capacity_ q -> mmap_base_ q = Some m ->
  exists m', write_mem m (slotHdr (slot_stride_ q) i) (SlotHeader_image bo (frame_header f)) = Some m' /\
    length m' = length m /\
    read_mem m' (slotHdr (slot_stride_ q) i) sizeof_SlotHeader = Some (SlotHeader_image bo (frame_header f)).
Proof.
  intros Hg Hi Em. destruct (geo_mem q Hg) as (m0 & Em0 & Hlen).
  rewrite Em in Em0. injection Em0 as <-.
  destruct (slot_in_region q _ Hg Hi) as (Eh & Hlo & Hhi).
  pose proof (geo_stride q Hg). pose proof (geo_max q Hg).
  pose proof (length_SlotHeader_image bo (frame_header f)) as Hil.
  destruct (write_mem_is_Some m (slotHdr (slot_stride_ q) i)
    (SlotHeader_image bo (frame_header f))) as [m1 W]; [lia..|].
  exists m1. split_and!; [done | by apply write_mem_length in W |].
  rewrite <- Hil. by apply read_write_mem_eq in W.
Qed.

Lemma write_payload_spec bo q f i m :
  ring_geometry q -> 0 <= i < capacity_ q -> mmap_base_ q = Some m ->
  frame_ok (max_frame_size_ q) f ->
  read_mem m (slotHdr (slot_stride_ q) i) sizeof_SlotHeader = Some (SlotHeader_image bo (frame_header f)) ->
  exists m', write_mem m (slotData (slot_stride_ q) i) (f_data f) = Some m' /\
    length m' = length m /\ slot_frame bo (set_mmap (Some m') q) i = Some f.
Proof.
  intros Hg Hi Em Hf Hh. destruct (geo_mem q Hg) as (m0 & Em0 & Hlen).
  rewrite Em in Em0. injection Em0 as <-.
  destruct (slot_in_region q _ Hg Hi) as (Eh & Hlo & Hhi).
  pose proof (geo_stride q Hg). pose proof (fok_len _ _ Hf) as Hfl. unfold f_len in Hfl.
  assert (0 <= sizeof_SlotHeader) by done.
  destruct (write_mem_is_Some m (slotData (slot_stride_ q) i) (f_data f)) as [m1 W];
    [rewrite slotData_slotHdr; lia..|].
  exists m1. split_and!; [done | by apply write_mem_length in W |].
  eapply slot_frame_intro; [done | | by apply SlotHeader_of_image; apply Hf |].
  - cbn [slot_stride_ set_mmap].
    by rewrite (read_write_mem_disjoint _ _ _ _ _ _ W) by (rewrite slotData_slotHdr; lia).
  - by apply read_write_mem_eq in W.
Qed.

(** ** Each step of an operation is a step of the abstract queue *)

Section Steps.
Context (bo : byte_order).
Implicit Types (q : RingQueue) (s : spec) (f : frame).

Lemma geo_cap_small q : ring_geometry q -> capacity_ q < 2 ^ 64.
Proof. intros []. unfold sizeof_SlotHeader in *. nia. Qed.

Lemma rep_tail_range q s : ring_rep bo q s -> 0 <= tail_ q < capacity_ q.
Proof. intros [[] _ -> _ _ _ _ _ _ _ _]. by apply Z.mod_pos_bound. Qed.

Lemma rep_head_range q s : ring_rep bo q s -> 0 <= head_ q < capacity_ q.
Proof. intros [[] _ _ _ -> _ _ _ _ _ _]. by apply Z.mod_pos_bound. Qed.

Lemma rep_full q s : ring_rep bo q s -> (capacity_ q <=? count_ q) = sp_full (capacity_ q) s.
Proof. intros R. unfold sp_full. by rewrite (rep_count _ _ _ R). Qed.

(** The slot indices of a window of [cap] tickets are distinct. *)
Lemma ticket_slot_inj c n t u :
  0 < c -> n - c <= t < n -> n - c <= u < n -> t mod c = u mod c -> t = u.
Proof.
  intros Hc Ht Hu He. enough (t - (n - c) = u - (n - c)) by lia.
  apply (mod_pos_inj c (n - c)); [lia..|]. by replace (n - c + (t - (n - c))) with t by lia;
    replace (n - c + (u - (n - c))) with u by lia.
Qed.

Lemma mod_add_period t c : 0 < c -> (t - c) mod c = t mod c.
Proof. intros. replace t with (t - c + 1 * c) at 2 by lia. by rewrite Z.mod_add by lia. Qed.

Lemma rep_flag_head q s :
  ring_rep bo q s -> lookupZ (slot_in_use_ q) (head_ q) = Some (sp_blocked (capacity_ q) s).
Proof.
  intros R. rewrite (rep_head _ _ _ R). pose proof (geo_cap q (rep_geo _ _ _ R)).
  rewrite <- (mod_add_period (sp_next s)) by done. rewrite (rep_flags _ _ _ R) by lia. done.
Qed.

Lemma rep_flag_tail q s :
  ring_rep bo q s -> sp_items s <> [] -> lookupZ (slot_in_use_ q) (tail_ q) = Some false.
Proof.
  intros R Hne. rewrite (rep_tail _ _ _ R). destruct (rep_ok _ _ _ R).
  assert (0 < Z.of_nat (length (sp_items s))) by (destruct (sp_items s); simpl in *; [done|lia]).
  rewrite (rep_flags _ _ _ R) by (unfold sp_next; lia).
  unfold is_held. destruct (sp_held s !! sp_base s) eqn:E; [|done].
  apply ok_held in E. lia.
Qed.

Lemma rep_reject q s : ring_rep bo q s -> ring_rep bo (drop_new q) (sp_reject s).
Proof.
  intros [H1 H2 H3 H4 H5 H6 H7 H8 H9 H10 H11]. constructor; simpl; try done.
  - by apply (geometry_same_mem q).
  - exact (sp_ok_reject _ s H2).
  - rewrite H10. apply u64_add_mod.
Qed.

Lemma rep_shutdown q s : ring_rep bo q s -> ring_rep bo (shutdown q) (sp_shutdown s).
Proof.
  intros [H1 H2 H3 H4 H5 H6 H7 H8 H9 H10 H11]. constructor; simpl; try done.
  - by apply (geometry_same_mem q).
  - exact (sp_ok_shutdown _ s H2).
Qed.

Lemma sp_live_evict s t f :
  sp_held s !! sp_base s = None -> sp_live (sp_evict s) t = Some f -> sp_live s t = Some f.
Proof.
  unfold sp_live. cbn [sp_evict sp_base sp_items sp_held]. intros Hn Hl.
  destruct (decide (sp_base s + 1 <= t)); [rewrite decide_True by lia|].
  - replace (Z.to_nat (t - sp_base s)) with (S (Z.to_nat (t - (sp_base s + 1)))) by lia.
    by destruct (sp_items s).
  - case_decide; [|done]. replace t with (sp_base s) in Hl by lia. congruence.
Qed.

Lemma ok_base_not_held cap s : sp_ok cap s -> sp_held s !! sp_base s = None.
Proof.
  intros Hok. destruct (sp_held s !! sp_base s) eqn:E; [|done].
  apply (ok_held _ _ Hok) in E. lia.
Qed.

Lemma rep_evict q s :
  ring_rep bo q s -> sp_full (capacity_ q) s = true -> ring_rep bo (evict q) (sp_evict s).
Proof.
  intros R Hf. pose proof (rep_tail_range q s R) as Ht.
  destruct R as [H1 H2 H3 H4 H5 H6 H7 H8 H9 H10 H11].
  pose proof (geo_cap_small q H1) as Hc'. pose proof (geo_cap q H1) as Hc.
  pose proof (sp_full_length _ s Hf H2) as Hl. pose proof (sp_next_evict _ Hc s Hf) as Hn.
  constructor; cbn; rewrite ?Hn; try done.
  - by apply (geometry_same_mem q).
  - exact (sp_ok_evict _ Hc s Hf H2).
  - rewrite u64_id by lia. rewrite H3. by rewrite Z.add_mod_idemp_l by lia.
  - rewrite u64_id by lia. rewrite H4. destruct (sp_items s); simpl in *; lia.
  - intros t f Hlv. apply sp_live_evict in Hlv; [|by eapply ok_base_not_held].
    apply H7 in Hlv as [Hsf Hfo]. split; [|done]. by rewrite <- Hsf.
  - rewrite H10. apply u64_add_mod.
Qed.

Lemma sp_live_append s f t g :
  0 <= sp_base s -> sp_live (sp_append f s) t = Some g ->
  sp_live s t = Some g \/ t = sp_next s /\ g = f.
Proof.
  intros Hb. unfold sp_live, sp_next. cbn. case_decide; [|by left].
  rewrite lookup_app_Some, list_lookup_singleton_Some. intros [|(? & ? & ?)]; [by left|].
  right. split; [lia|done].
Qed.

(** A write into the free slot at [head_] is invisible to the abstract queue. *)
Lemma rep_write_head q s m off bs m' :
  ring_rep bo q s -> sp_full (capacity_ q) s = false -> sp_blocked (capacity_ q) s = false ->
  mmap_base_ q = Some m -> write_mem m off bs = Some m' ->
  slotHdr (slot_stride_ q) (head_ q) <= off ->
  off + Z.of_nat (length bs) <= slotHdr (slot_stride_ q) (head_ q) + slot_stride_ q ->
  ring_rep bo (set_mmap (Some m') q) s.
Proof.
  intros R Hf Hb Em W Hlo Hhi. pose proof (rep_head_range q s R) as Hh.
  destruct R as [H1 H2 H3 H4 H5 H6 H7 H8 H9 H10 H11]. pose proof (geo_cap q H1) as Hc.
  apply Z.leb_gt in Hf. constructor; cbn; try done.
  - apply (geometry_ext q); try done. destruct (geo_mem q H1) as (m0 & Em0 & Hl).
    rewrite Em in Em0. injection Em0 as <-. exists m'. by rewrite (write_mem_length _ _ _ _ W).
  - intros t g Hl. pose proof (sp_live_window _ _ _ _ H2 Hl) as Hw.
    assert (t <> sp_next s - capacity_ q) as Hne.
    { intros ->. unfold sp_live in Hl. case_decide; [unfold sp_next in *; lia|].
      unfold sp_blocked in Hb. by rewrite Hl in Hb. }
    apply H7 in Hl as [Hsf Hg]. split; [|done].
    eapply slot_frame_write_other; try done; [by apply Z.mod_pos_bound|].
    rewrite H5. intros He. apply (ticket_slot_inj _ (sp_next s + 1)) in He; lia.
Qed.

(** Advancing [head_] over a slot that holds [f] appends [f]. *)
Lemma rep_commit q s f :
  ring_rep bo q s -> sp_full (capacity_ q) s = false -> sp_blocked (capacity_ q) s = false ->
  frame_ok (max_frame_size_ q) f -> slot_frame bo q (head_ q) = Some f ->
  ring_rep bo (commit_push q) (sp_append f s).
Proof.
  intros R Hf Hb Hfo Hsf. pose proof (rep_head_range q s R) as Hh.
  destruct R as [H1 H2 H3 H4 H5 H6 H7 H8 H9 H10 H11].
  pose proof (geo_cap_small q H1) as Hc'. pose proof (geo_cap q H1) as Hc.
  unfold sp_full in Hf. apply Z.leb_gt in Hf. pose proof (ok_base _ _ H2) as Hb0.
  constructor; cbn; rewrite ?sp_next_append; try done.
  - by apply (geometry_same_mem q).
  - exact (sp_ok_append _ f s Hf Hb H2).
  - rewrite u64_id by lia. rewrite length_app. simpl. lia.
  - rewrite u64_id by lia. rewrite H5. by rewrite Z.add_mod_idemp_l by lia.
  - intros t Ht. destruct (decide (t = sp_next s)) as [->|].
    + rewrite <- (mod_add_period (sp_next s)) by done. rewrite H6 by lia.
      change (is_held s (sp_next s - capacity_ q)) with (sp_blocked (capacity_ q) s).
      rewrite Hb. unfold is_held. cbn.
      destruct (sp_held s !! sp_next s) eqn:E; [|done].
      apply (ok_held _ _ H2) in E. unfold sp_next in E. lia.
    + rewrite H6 by lia. done.
  - intros t g Hl. apply sp_live_append in Hl as [Hl | [-> ->]]; [|rewrite <- H5; by split|done].
    by apply H7.
  - rewrite H9. apply u64_add_mod.
Qed.

Lemma rep_append q s f :
  ring_rep bo q s -> sp_full (capacity_ q) s = false -> sp_blocked (capacity_ q) s = false ->
  frame_ok (max_frame_size_ q) f ->
  exists m', write_slot bo q (frame_header f) (f_data f) = Some (set_mmap (Some m') q) /\
    ring_rep bo (commit_push (set_mmap (Some m') q)) (sp_append f s).
Proof.
  intros R Hf Hb Hfo. pose proof (rep_head_range q s R) as Hh. pose proof (rep_geo _ _ _ R) as Hg.
  destruct (geo_mem q Hg) as (m & Em & _). pose proof (geo_stride q Hg). pose proof (geo_max q Hg).
  pose proof (fok_len _ _ Hfo) as Hfl. unfold f_len in Hfl. assert (0 <= sizeof_SlotHeader) by done.
  destruct (write_header_spec bo q f _ m Hg Hh Em) as (m1 & W1 & _ & R1).
  assert (ring_rep bo (set_mmap (Some m1) q) s) as Rep1.
  { eapply rep_write_head; try done. rewrite length_SlotHeader_image. lia. }
  destruct (write_payload_spec bo (set_mmap (Some m1) q) f (head_ q) m1
    (rep_geo _ _ _ Rep1) Hh eq_refl Hfo R1) as (m2 & W2 & _ & Hsf).
  exists m2. split.
  - unfold write_slot. rewrite Em. cbn [mbind option_bind]. rewrite W1. cbn [mbind option_bind].
    cbn [slot_stride_ set_mmap] in W2. by rewrite W2.
  - apply rep_commit; try done.
    eapply (rep_write_head (set_mmap (Some m1) q)); try done; cbn [slot_stride_ head_ set_mmap];
      rewrite slotData_slotHdr; lia.
Qed.

Lemma sp_live_take s t f s' u g :
  sp_take s = Some (t, f, s') -> sp_live s' u = Some g -> sp_live s u = Some g.
Proof.
  unfold sp_take. destruct (sp_items s) as [|f0 fs] eqn:E; [done|]. intros [= <- <- <-].
  unfold sp_live. cbn. intros Hl. destruct (decide (sp_base s + 1 <= u)).
  - rewrite decide_True by lia. rewrite E.
    by replace (Z.to_nat (u - sp_base s)) with (S (Z.to_nat (u - (sp_base s + 1)))) by lia.
  - apply lookup_insert_Some in Hl as [[<- <-] | [? Hl]].
    + rewrite decide_True by lia. by rewrite E, Z.sub_diag.
    + by rewrite decide_False by lia.
Qed.

(** The packet that shows frame [f] in slot [idx]. *)
Definition packet_of q idx f : FramePacket :=
  mkFramePacket (f_seq f) (f_timestamp_ns f) (f_pixel_format f) (f_width f) (f_height f)
    (f_len f) (slotData (slot_stride_ q) idx) idx.

Lemma rep_take q s t f s' :
  ring_rep bo q s -> sp_take s = Some (t, f, s') ->
  exists q', take_tail bo q = Some (packet_of q (t mod capacity_ q) f, q') /\
    ring_rep bo q' s' /\ slot_stride_ q' = slot_stride_ q /\ capacity_ q' = capacity_ q /\
    mmap_base_ q' = mmap_base_ q.
Proof.
  intros R Htk. pose proof (rep_tail_range q s R) as Ht. pose proof (sp_live_take s t f s') as Hlive.
  destruct R as [H1 H2 H3 H4 H5 H6 H7 H8 H9 H10 H11].
  pose proof (geo_cap_small q H1) as Hc'. pose proof (geo_cap q H1) as Hc.
  pose proof (sp_ok_take _ _ _ _ _ Htk H2) as Hok'.
  specialize (fun u g => Hlive u g Htk) as Hlive'. clear Hlive.
  unfold sp_take in Htk. destruct (sp_items s) as [|f0 fs] eqn:E; [done|]. simplify_eq.
  pose proof (ok_len _ _ H2) as Hlen. rewrite E in Hlen. cbn [length] in *.
  assert (sp_live s (sp_base s) = Some f) as Hl0.
  { unfold sp_live. by rewrite decide_True, Z.sub_diag, E by lia. }
  destruct (H7 _ _ Hl0) as [Hsf Hfo]. rewrite <- H3 in Hsf.
  apply slot_frame_Some in Hsf as (m & hdr & Em & R1 & R2 & R3).
  pose proof (geo_flags q H1) as Hfl.
  pose proof (updateZ_Some (slot_in_use_ q) (tail_ q) true ltac:(lia)) as Hu.
  unfold take_tail. rewrite Em. cbn [mbind option_bind]. rewrite R1. cbn [mbind option_bind].
  rewrite Hu. cbn [mbind option_bind]. cbv zeta. rewrite R2, <- H3. eexists. split; [done|].
  split; [|done]. apply updateZ_length in Hu as Hul.
  constructor; cbn; try done.
  - apply (geometry_same_mem q); done.
  - rewrite u64_id by lia. rewrite H3. by rewrite Z.add_mod_idemp_l by lia.
  - rewrite u64_id by lia. lia.
  - rewrite H5. f_equal. unfold sp_next. cbn. rewrite E. simpl. lia.
  - unfold sp_next at 1 2. cbn. intros t Hw.
    assert (sp_next s - capacity_ q <= t < sp_next s) as Hw' by (unfold sp_next; rewrite E; simpl; lia).
    destruct (decide (t = sp_base s)) as [->|Hne].
    + unfold is_held. cbn. rewrite lookup_insert_eq, <- H3. by apply lookupZ_updateZ_eq in Hu.
    + unfold is_held. cbn. rewrite lookup_insert_ne by done.
      rewrite (lookupZ_updateZ_ne _ _ _ _ _ Hu).
      * by apply H6.
      * rewrite H3. intros He. apply Hne. symmetry.
        apply (ticket_slot_inj (capacity_ q) (sp_next s)); [done| |done..].
        pose proof (ok_len _ _ H2). unfold sp_next. rewrite E in *. simpl in *. lia.
  - intros u g Hg. by apply H7, Hlive'.
  - rewrite H11. apply u64_add_mod.
Qed.

Lemma rep_release q s t f :
  ring_rep bo q s -> sp_held s !! t = Some f ->
  exists q', releaseSlot q (t mod capacity_ q) = Some q' /\ ring_rep bo q' (sp_release t s) /\
    slot_stride_ q' = slot_stride_ q /\ capacity_ q' = capacity_ q /\ mmap_base_ q' = mmap_base_ q.
Proof.
  intros R Hh. destruct R as [H1 H2 H3 H4 H5 H6 H7 H8 H9 H10 H11].
  pose proof (geo_cap q H1) as Hc. pose proof (geo_flags q H1) as Hfl.
  pose proof (Z.mod_pos_bound t (capacity_ q) Hc) as Hi.
  pose proof (updateZ_Some (slot_in_use_ q) (t mod capacity_ q) false ltac:(lia)) as Hu.
  unfold releaseSlot. rewrite Hu. cbn [mbind option_bind]. eexists. split; [done|].
  split; [|done]. apply updateZ_length in Hu as Hul. pose proof (ok_held _ _ H2 _ _ Hh) as Hw.
  constructor; cbn; try done.
  - by apply (geometry_same_mem q).
  - by apply sp_ok_release.
  - intros u Hwu. change (sp_next (sp_release t s)) with (sp_next s) in Hwu.
    unfold is_held. cbn. destruct (decide (u = t)) as [->|Hne].
    + rewrite lookup_delete_eq. by apply lookupZ_updateZ_eq in Hu.
    + rewrite lookup_delete_ne by done. rewrite (lookupZ_updateZ_ne _ _ _ _ _ Hu).
      * by apply H6.
      * intros He. apply Hne. symmetry. apply (ticket_slot_inj (capacity_ q) (sp_next s)); [done| |done..].
        unfold sp_next in *. lia.
  - intros u g Hl. apply H7. unfold sp_live in *. cbn in Hl. case_decide; [done|].
    by apply lookup_delete_Some in Hl as [_ ?].
Qed.

(** A held packet's pointer shows the frame that was pushed. *)
Lemma rep_packet_frame q s t f :
  ring_rep bo q s -> sp_live s t = Some f ->
  packet_frame q (packet_of q (t mod capacity_ q) f) = Some f.
Proof.
  intros R Hl. apply (rep_live _ _ _ R) in Hl as [Hsf _].
  apply slot_frame_Some in Hsf as (m & hdr & Em & _ & _ & R3).
  unfold packet_frame, packet_bytes. rewrite Em. cbn [mbind option_bind pkt_data pkt_len packet_of].
  rewrite R3. by destruct f.
Qed.
End Steps.

(** ** The DropOldest loop *)

Section Operations.
Context (bo : byte_order).
Implicit Types (q : RingQueue) (s : spec) (f : frame).

Definition make_room q : RingQueue := if capacity_ q <=? count_ q then evict q else q.

Lemma rep_make_room q s :
  ring_rep bo q s -> ring_rep bo (make_room q) (sp_make_room (capacity_ q) s).
Proof.
  intros R. unfold make_room, sp_make_room. rewrite (rep_full bo q s R).
  destruct (sp_full _ _) eqn:E; [by apply rep_evict | done].
Qed.

Lemma make_room_static q :
  capacity_ (make_room q) = capacity_ q /\ max_frame_size_ (make_room q) = max_frame_size_ q /\
  shutdown_ (make_room q) = shutdown_ q /\ mmap_base_ (make_room q) = mmap_base_ q /\
  slot_stride_ (make_room q) = slot_stride_ q.
Proof. unfold make_room. by case_match. Qed.

Lemma rep_room q s :
  ring_rep bo q s -> sp_full (capacity_ q) (sp_make_room (capacity_ q) s) = false.
Proof.
  intros R. apply Z.leb_gt, sp_make_room_length; [apply (rep_geo _ _ _ R) | apply (rep_ok _ _ _ R)].
Qed.

(** The loop runs its body at most once and never takes its early exit. *)
Lemma drop_oldest_make_room q s fuel :
  ring_rep bo q s -> drop_oldest (S (S fuel)) q = Some (true, make_room q).
Proof.
  intros R. pose proof (rep_make_room q s R) as R'. pose proof (rep_room q s R) as Hroom.
  pose proof (rep_full bo _ _ R') as Hfull.
  rewrite (proj1 (make_room_static q)), Hroom in Hfull. clear Hroom. rename Hfull into Hroom.
  rewrite <- (proj1 (make_room_static q)) in Hroom. clear R'.
  unfold make_room in *. cbn [drop_oldest]. destruct (capacity_ q <=? count_ q) eqn:E; [|done].
  assert (sp_items s <> []) as Hne.
  { rewrite (rep_full bo q s R) in E. apply Z.leb_le in E. pose proof (geo_cap q (rep_geo _ _ _ R)).
    intros He. rewrite He in E. simpl in E. lia. }
  rewrite (rep_flag_tail bo q s R Hne). cbn [mbind option_bind]. by rewrite Hroom.
Qed.
End Operations.
