(* ===== verification/RingProps.v ===== *)
(** * Properties of the ring queue's operations

    About whole calls: constructor and destructor, [push] and [pop] against the
    abstract queue of RingSpec, refusals, waits and deadlines. *)

From S2P Require Import Prelude Bytes RingQueue RingSpec RingRefine.

Section Functional.
Context (bo : byte_order).
Implicit Types (q : RingQueue) (s : spec) (f : frame).

(** [push] called with a frame's members and a buffer that starts with its
    payload. *)
Definition push_frame q f src : option (bool * RingQueue) :=
  push bo q (f_seq f) (f_timestamp_ns f) (Some src) (f_len f) (f_pixel_format f)
    (f_width f) (f_height f).

Lemma push_frame_spec q s f src :
  ring_rep bo q s -> frame_ok (max_frame_size_ q) f ->
  read_mem src 0 (f_len f) = Some (f_data f) ->
  exists q', push_frame q f src = Some ((sp_push (capacity_ q) f s).1, q') /\
    ring_rep bo q' (sp_push (capacity_ q) f s).2 /\
    capacity_ q' = capacity_ q /\ max_frame_size_ q' = max_frame_size_ q.
Proof.
  intros R Hf Hsrc. destruct (geo_mem q (rep_geo _ _ _ R)) as (m & Em & _).
  pose proof (fok_len _ _ Hf) as Hl. unfold push_frame, push. rewrite Em.
  rewrite (proj2 (Z.eqb_neq (f_len f) 0)), (proj2 (Z.ltb_ge (max_frame_size_ q) (f_len f))) by lia.
  rewrite (rep_shut _ _ _ R). unfold sp_push. destruct (sp_shut s); [by eauto|].
  rewrite (drop_oldest_make_room bo q s _ R). cbn [mbind option_bind negb].
  pose proof (rep_make_room bo q s R) as R'. pose proof (rep_room bo q s R) as Hroom.
  destruct (make_room_static q) as (Ec & Emax & _).
  rewrite (rep_flag_head bo _ _ R'). cbn [mbind option_bind].
  rewrite Ec, sp_blocked_make_room by apply (rep_geo _ _ _ R).
  destruct (sp_blocked (capacity_ q) s) eqn:Hb.
  - assert (sp_full (capacity_ q) s = false) as Hfull.
    { destruct (sp_full _ s) eqn:E; [|done].
      pose proof (sp_full_not_blocked _ s (rep_ok _ _ _ R) E). congruence. }
    unfold make_room. rewrite (rep_full bo q s R), Hfull.
    exists (drop_new q). split; [done|]. split; [by apply rep_reject | done].
  - rewrite Hsrc. cbn [mbind option_bind].
    destruct (rep_append bo (make_room q) (sp_make_room (capacity_ q) s) f) as (m' & W & R'');
      [done| | | |]; rewrite ?Ec, ?Emax, ?sp_blocked_make_room; try done;
      [apply (rep_geo _ _ _ R)|].
    fold (frame_header f). rewrite W. cbn [mbind option_bind]. by eauto.
Qed.
End Functional.

(** ** Bursts of pushes *)

(** [n] bytes suffice: the buffers a caller passes are exactly the payloads. *)
Fixpoint push_all (bo : byte_order) (q : RingQueue) (fs : list frame) : option RingQueue :=
  match fs with
  | [] => Some q
  | f :: fs => r ← push_frame bo q f (f_data f); push_all bo r.2 fs
  end.

Definition sp_push_all (cap : Z) (fs : list frame) (s : spec) : spec :=
  fold_left (fun s f => (sp_push cap f s).2) fs s.

Lemma read_mem_whole bs : read_mem bs 0 (Z.of_nat (length bs)) = Some bs.
Proof.
  unfold read_mem. rewrite decide_True by lia. rewrite drop_0, Nat2Z.id. by rewrite take_ge.
Qed.

Lemma push_all_spec bo q s fs :
  ring_rep bo q s -> Forall (frame_ok (max_frame_size_ q)) fs ->
  exists q', push_all bo q fs = Some q' /\ ring_rep bo q' (sp_push_all (capacity_ q) fs s) /\
    capacity_ q' = capacity_ q.
Proof.
  revert q s. induction fs as [|f fs IH]; intros q s R Hfs; [by exists q|].
  apply Forall_cons in Hfs as [Hf Hfs]. cbn [push_all].
  destruct (push_frame_spec bo q s f (f_data f) R Hf) as (q1 & -> & R1 & Ec & Em);
    [apply read_mem_whole|].
  cbn [mbind option_bind snd]. rewrite <- Em in Hfs.
  destruct (IH q1 _ R1 Hfs) as (q2 & Hp & R2 & Ec2). exists q2.
  rewrite Ec in R2, Ec2. done.
Qed.

(** A consumer that frees each packet before the next [pop] holds at most the
    packet popped last. While it holds that one, pushes fill the remaining
    slots and then drop the new frames. *)
Lemma sp_push_held_one cap f s g :
  sp_ok cap s -> sp_shut s = false -> sp_held s = {[sp_base s - 1 := g]} ->
  (sp_push cap f s).2 =
    if decide (Z.of_nat (length (sp_items s)) = cap - 1) then sp_reject s else sp_append f s.
Proof.
  intros Hok Hsh Hh.
  assert (sp_held s !! (sp_base s - 1) = Some g) as Hg by (rewrite Hh; apply lookup_singleton_eq).
  pose proof (ok_held _ _ Hok _ _ Hg) as Hw. unfold sp_next in Hw.
  unfold sp_push. rewrite Hsh. unfold sp_blocked, sp_next. case_decide as Hd.
  - rewrite Hd. replace (sp_base s + (cap - 1) - cap) with (sp_base s - 1) by lia. by rewrite Hg.
  - rewrite Hh, lookup_singleton_ne by lia. cbn. unfold sp_make_room, sp_full.
    by rewrite (proj2 (Z.leb_gt cap _)) by lia.
Qed.

Lemma sp_push_all_held cap fs s g :
  0 < cap -> sp_ok cap s -> sp_shut s = false -> sp_held s = {[sp_base s - 1 := g]} ->
  sp_items (sp_push_all cap fs s) =
    sp_items s ++ take (Z.to_nat (cap - 1) - length (sp_items s)) fs.
Proof.
  intros Hc. revert s. induction fs as [|f fs IH]; intros s Hok Hsh Hh.
  { cbn. by rewrite take_nil, app_nil_r. }
  cbn [sp_push_all fold_left]. fold (sp_push_all cap fs (sp_push cap f s).2).
  pose proof (sp_ok_push cap Hc f s Hok) as Hok'.
  rewrite (sp_push_held_one cap f s g Hok Hsh Hh) in *. case_decide as Hd.
  - rewrite IH by done. cbn.
    by replace (Z.to_nat (cap - 1) - length (sp_items s))%nat with 0%nat by lia.
  - rewrite IH by done. cbn.
    assert (sp_held s !! (sp_base s - 1) = Some g) as Hg by (rewrite Hh; apply lookup_singleton_eq).
    pose proof (ok_held _ _ Hok _ _ Hg) as Hw. unfold sp_next in Hw.
    replace (Z.to_nat (cap - 1) - length (sp_items s))%nat
      with (S (Z.to_nat (cap - 1) - length (sp_items s ++ [f]))) by (rewrite length_app; simpl; lia).
    by rewrite <- app_assoc.
Qed.

(** With no packet held, pushes keep the [cap] most recent frames. *)
Lemma sp_push_all_free cap fs s :
  0 < cap -> sp_ok cap s -> sp_shut s = false -> sp_held s = ∅ ->
  sp_items (sp_push_all cap fs s) =
    drop (length (sp_items s ++ fs) - Z.to_nat cap) (sp_items s ++ fs).
Proof.
  intros Hc. revert s. induction fs as [|f fs IH]; intros s Hok Hsh Hh.
  { cbn. rewrite app_nil_r. pose proof (ok_len _ _ Hok).
    by replace (length (sp_items s) - Z.to_nat cap)%nat with 0%nat by lia. }
  cbn [sp_push_all fold_left]. fold (sp_push_all cap fs (sp_push cap f s).2).
  pose proof (sp_ok_push cap Hc f s Hok) as Hok'. pose proof (ok_len _ _ Hok) as Hlen.
  assert (sp_blocked cap s = false) as Hb by (unfold sp_blocked; by rewrite Hh, lookup_empty).
  unfold sp_push in *. rewrite Hsh, Hb in *. cbn [snd] in *. unfold sp_make_room, sp_full in *.
  destruct (Z.leb_spec cap (Z.of_nat (length (sp_items s)))) as [Hf|Hf].
  - rewrite IH by done. cbn. destruct (sp_items s) as [|x xs] eqn:E; [simpl in *; lia|].
    cbn [tail app]. rewrite <- app_assoc. cbn [length app].
    replace (S (length (xs ++ f :: fs)) - Z.to_nat cap)%nat
      with (S (length (xs ++ f :: fs) - Z.to_nat cap)) by (rewrite length_app; simpl in *; lia).
    done.
  - rewrite IH by done. cbn. by rewrite <- app_assoc.
Qed.

(** ** Construction *)

(** An anonymous mapping has the requested length. *)
Definition mmap_law (mmap : Z -> option (list byte)) : Prop :=
  forall len r, mmap len = Some r -> Z.of_nat (length r) = len.

Lemma new_rep bo mmap malloc capacity max :
  mmap_law mmap -> 0 < capacity -> 0 < max -> sizeof_SlotHeader + max + 63 < 2 ^ 64 ->
  calcStride max * capacity < 2 ^ 64 ->
  isValid (RingQueue_new mmap malloc capacity max).1 = true ->
  ring_rep bo (RingQueue_new mmap malloc capacity max).1 sp_empty.
Proof.
  intros Hmm Hc Hm Hs Ht. unfold RingQueue_new.
  rewrite (proj2 (Z.eqb_neq capacity 0)), (proj2 (Z.eqb_neq max 0)) by lia. cbn [orb].
  pose proof (calcStride_bounds max ltac:(lia) Hs) as Hst. unfold sizeof_SlotHeader in *.
  assert (u64 (calcStride max * capacity) = calcStride max * capacity) as -> by (apply u64_id; nia).
  destruct (mmap _) as [r|] eqn:Er; [|done]. destruct (malloc _); [|done]. intros _.
  cbn [negb fst]. apply Hmm in Er. constructor; cbn; try done.
  - constructor; cbn; try done; [unfold sizeof_SlotHeader; lia | by exists r |].
    rewrite length_replicate. lia.
  - by apply sp_ok_empty.
  - intros t _. apply lookupZ_replicate, Z.mod_pos_bound, Hc.
  - intros t f. unfold sp_live. cbn. case_decide; [by rewrite lookup_nil | by rewrite lookup_empty].
Qed.

(** No mapping takes half of a 64-bit address space or more. *)
Definition mmap_limit (mmap : Z -> option (list byte)) : Prop :=
  forall len, 2 ^ 63 <= len -> mmap len = None.

(** A capacity that was a negative [int] asks for such a mapping. *)
Lemma new_negative mmap malloc capacity :
  mmap_limit mmap -> 2 ^ 64 - 2 ^ 31 <= capacity < 2 ^ 64 ->
  isValid (RingQueue_new mmap malloc capacity MAX_FRAME_SIZE).1 = false.
Proof.
  intros Hlim Hc. unfold RingQueue_new. rewrite (proj2 (Z.eqb_neq capacity 0)) by lia.
  change (MAX_FRAME_SIZE =? 0) with false. cbn [orb]. rewrite Hlim; [done|].
  replace (calcStride MAX_FRAME_SIZE) with 4194368 by done. unfold u64, wrap.
  rewrite <- (Z_mod_plus_full _ (- 4194367)), Z.mod_small; lia.
Qed.

(** ** Resource accounting *)

Inductive resource := RegionOf (len : Z) | FlagArray | TheMutex | TheCond.

#[export] Instance resource_eq_dec : EqDecision resource.
Proof. solve_decision. Defined.

Fixpoint release_one (r : resource) (held : list resource) : option (list resource) :=
  match held with
  | [] => None
  | x :: held => if decide (x = r) then Some held else cons x <$> release_one r held
  end.

(** The resources held after a sequence of calls, [None] when a call releases
    what is not held. *)
Definition resource_step (held : list resource) (c : resource_call) : option (list resource) :=
  match c with
  | Mmap len => Some (RegionOf len :: held)
  | Munmap len => release_one (RegionOf len) held
  | MallocFlags _ => Some (FlagArray :: held)
  | FreeFlags => release_one FlagArray held
  | MutexInit => Some (TheMutex :: held)
  | MutexDestroy => release_one TheMutex held
  | CondInit => Some (TheCond :: held)
  | CondDestroy => release_one TheCond held
  end.

Fixpoint resources_after (held : list resource) (cs : list resource_call) : option (list resource) :=
  match cs with
  | [] => Some held
  | c :: cs => held ← resource_step held c; resources_after held cs
  end.

(** The constructor's calls are undone by the destructor's. *)
Lemma new_delete_balanced mmap malloc capacity max :
  let r := RingQueue_new mmap malloc capacity max in
  resources_after [] (r.2 ++ RingQueue_delete r.1) = Some [].
Proof.
  cbv zeta. unfold RingQueue_new. destruct ((capacity =? 0) || (max =? 0)); [done|].
  destruct (mmap _); [|done]. destruct (malloc _); cbn; by repeat (rewrite decide_True by done; cbn).
Qed.

(** ** Reasons for a null packet *)

Lemma wait_loop_cases timed q waits :
  match wait_loop timed q waits with
  | Proceed q' => must_wait q' = false
  | GiveUp q' => timed = true /\ exists w, w ∈ waits /\ wake_etimedout w = true /\ wake_queue w = q'
  | StillWaiting => True
  end.
Proof.
  revert q. induction waits as [|w ws IH]; intros q; cbn [wait_loop];
    destruct (must_wait q) eqn:E; try done.
  destruct (timed && wake_etimedout w) eqn:E2.
  - apply andb_true_iff in E2 as [-> ?]. split; [done|]. exists w. split; [left | done].
  - specialize (IH (wake_queue w)). destruct (wait_loop timed (wake_queue w) ws); try done.
    destruct IH as (? & w' & ? & ?). split; [done|]. exists w'. split; [by right | done].
Qed.

(** ** Fixtures for the witnesses: a queue of two four-byte slots *)

Definition demo_mmap (len : Z) : option (list byte) :=
  if decide (0 <= len) then Some (replicate (Z.to_nat len) Byte.x00) else None.

Definition demo_queue : RingQueue := (RingQueue_new demo_mmap (fun _ => true) 2 4).1.

Definition demo_frame (n : Z) : frame :=
  mkFrame n (1000 * n) 0x47504A4D 4 2 (to_mem ORDER_LITTLE_ENDIAN 3 n).

Lemma demo_mmap_law : mmap_law demo_mmap.
Proof.
  intros len r. unfold demo_mmap. case_decide; intros; simplify_eq.
  rewrite length_replicate. lia.
Qed.

Lemma demo_rep : ring_rep ORDER_LITTLE_ENDIAN demo_queue sp_empty.
Proof. apply new_rep; [apply demo_mmap_law | done..]. Qed.

Lemma demo_frame_ok n : 0 <= n < 2 ^ 32 -> frame_ok (max_frame_size_ demo_queue) (demo_frame n).
Proof. intros. by constructor; unfold in_width; cbn; try lia. Qed.

(** The queue after frame 1 has been pushed and popped, its packet not freed. *)
Definition demo_popped : option pop_result :=
  r ← push_frame ORDER_LITTLE_ENDIAN demo_queue (demo_frame 1) (f_data (demo_frame 1));
  pop ORDER_LITTLE_ENDIAN r.2 0 [] true.

Definition demo_held_queue : RingQueue :=
  match demo_popped with Some (Popped _ q) => q | _ => demo_queue end.

Definition demo_held_spec : spec := mkSpec 1 [] {[0 := demo_frame 1]} false 1 0 1.

Lemma demo_held_rep : ring_rep ORDER_LITTLE_ENDIAN demo_held_queue demo_held_spec.
Proof.
  destruct (push_frame_spec ORDER_LITTLE_ENDIAN demo_queue sp_empty (demo_frame 1)
    (f_data (demo_frame 1)) demo_rep) as (q1 & E1 & R1 & _); [by apply demo_frame_ok | done |].
  destruct (rep_take ORDER_LITTLE_ENDIAN q1 _ 0 (demo_frame 1) demo_held_spec R1)
    as (q2 & E2 & R2 & _); [done|].
  replace demo_held_queue with q2; [done|].
  unfold demo_held_queue, demo_popped. rewrite E1. cbn [mbind option_bind snd].
  assert (isValid q1 = true /\ count_ q1 = 1 /\ shutdown_ q1 = false) as (V & C & S).
  { destruct (geo_mem q1 (rep_geo _ _ _ R1)) as (m & Em & _). unfold isValid. rewrite Em.
    by rewrite (rep_count _ _ _ R1), (rep_shut _ _ _ R1). }
  unfold pop, pop_wait. rewrite V. cbn. rewrite C, S. cbn. rewrite C. cbn. by rewrite E2.
Qed.

(** ** Properties *)

(** C31: the constructor, with the frame size and every capacity that [main] can
    pass (a queue size from the command line: below 2^31, or a negative [int]
    wrapped around to 2^64 - 2^31 or more), given mappings of the requested
    length and none of 2^63 bytes or more: it either leaves the queue invalid
    (capacity zero, failed mmap, failed malloc) or builds an empty queue. Below
    2^31 the size computation does not wrap: mmap and malloc get the exact sizes;
    for a negative size it wraps to more than mmap can give, and the queue is
    invalid. (The constructor itself does not check the product.) *)
Theorem constructor_establishes bo mmap malloc capacity :
  mmap_law mmap -> mmap_limit mmap -> 0 <= capacity < 2 ^ 31 \/ 2 ^ 64 - 2 ^ 31 <= capacity < 2 ^ 64 ->
  let q := (RingQueue_new mmap malloc capacity MAX_FRAME_SIZE).1 in
  let total := calcStride MAX_FRAME_SIZE * capacity in
  isValid q = (0 <? capacity) && (capacity <? 2 ^ 31) && (if mmap total is Some _ then malloc capacity else false) /\
  (isValid q = true -> ring_rep bo q sp_empty).
Proof.
  intros Hmm Hlim Hcap q total. assert (total = 4194368 * capacity) as Et by done.
  destruct Hcap as [Hc|Hc].
  2: { assert (isValid q = false) as Hv by by apply new_negative. rewrite Hv.
       by rewrite (proj2 (Z.ltb_ge capacity (2 ^ 31))), andb_false_r by lia. }
  rewrite (proj2 (Z.ltb_lt capacity (2 ^ 31))), andb_true_r by lia. split.
  - unfold q, RingQueue_new. destruct (Z.eqb_spec capacity 0) as [->|]; [done|].
    rewrite (proj2 (Z.ltb_lt 0 capacity)) by lia.
    change (MAX_FRAME_SIZE =? 0) with false. cbn [orb andb]. fold total.
    rewrite (u64_id total), Z.mul_1_r, (u64_id capacity) by lia.
    destruct (mmap total); [|done]. by destruct (malloc capacity).
  - intros Hv. destruct (decide (capacity = 0)) as [->|]; [done|].
    apply new_rep; try done; [lia|]. fold total. lia.
Qed.

Lemma demo_mmap_limited : mmap_limit (fun len => if len <? 2 ^ 47 then demo_mmap len else None).
Proof. intros len H. by rewrite (proj2 (Z.ltb_ge len (2 ^ 47))) by lia. Qed.

Lemma constructor_establishes_witness :
  let mmap len := if len <? 2 ^ 47 then demo_mmap len else None in
  ring_rep ORDER_LITTLE_ENDIAN (RingQueue_new mmap (fun _ => true) 128 MAX_FRAME_SIZE).1 sp_empty /\
  isValid (RingQueue_new mmap (fun _ => true) (2 ^ 64 - 1) MAX_FRAME_SIZE).1 = false.
Proof.
  assert (mmap_law (fun len => if len <? 2 ^ 47 then demo_mmap len else None)) as Hlaw.
  { intros len r. destruct (len <? 2 ^ 47); [apply demo_mmap_law | done]. }
  split.
  - destruct (constructor_establishes ORDER_LITTLE_ENDIAN _ (fun _ => true) 128 Hlaw demo_mmap_limited) as [Hv Hr];
      [left; lia|]. apply Hr. rewrite Hv. reflexivity.
  - destruct (constructor_establishes ORDER_LITTLE_ENDIAN _ (fun _ => true) (2 ^ 64 - 1) Hlaw demo_mmap_limited) as [Hv _];
      [right; lia|]. rewrite Hv. reflexivity.
Defined.

(** C32: on every path (bad parameters, failed mmap, failed malloc, success) the
    calls of the constructor followed by those of the destructor release exactly
    the resources that were acquired, each once. *)
Theorem lifecycle_balanced mmap malloc capacity max :
  let r := RingQueue_new mmap malloc capacity max in
  resources_after [] (r.2 ++ RingQueue_delete r.1) = Some [] /\
  (isValid r.1 = false -> resources_after [] r.2 = Some []).
Proof.
  split; [apply new_delete_balanced|]. unfold RingQueue_new.
  destruct ((capacity =? 0) || (max =? 0)); [done|]. destruct (mmap _); [|done].
  destruct (malloc _); cbn; [done|]. by rewrite decide_True by done.
Qed.

(** C16: [push] of an admissible frame terminates without touching memory outside
    its region and does what the abstract queue does: refused after shutdown or
    when the slot it needs is still held, otherwise appended, evicting the
    oldest frame exactly when the queue is full. *)
Theorem push_refines bo q s f src :
  ring_rep bo q s -> frame_ok (max_frame_size_ q) f ->
  read_mem src 0 (f_len f) = Some (f_data f) ->
  exists q', push bo q (f_seq f) (f_timestamp_ns f) (Some src) (f_len f) (f_pixel_format f)
      (f_width f) (f_height f) = Some ((sp_push (capacity_ q) f s).1, q') /\
    ring_rep bo q' (sp_push (capacity_ q) f s).2.
Proof.
  intros R Hf Hs. destruct (push_frame_spec bo q s f src R Hf Hs) as (q' & E & R' & _). eauto.
Qed.

Lemma push_refines_witness :
  exists q', push ORDER_LITTLE_ENDIAN demo_queue 7 7000 (Some (f_data (demo_frame 7))) 3
      0x47504A4D 4 2 = Some (true, q') /\
    ring_rep ORDER_LITTLE_ENDIAN q' (sp_push 2 (demo_frame 7) sp_empty).2.
Proof.
  apply (push_refines ORDER_LITTLE_ENDIAN demo_queue sp_empty (demo_frame 7) (f_data (demo_frame 7))).
  - exact demo_rep.
  - apply demo_frame_ok. lia.
  - reflexivity.
Defined.

(** C36: [push] refuses a null buffer, an empty frame, an oversized frame and any
    frame on an invalid queue, and then changes nothing, its drop counter
    included. *)
Theorem push_refuses bo q seq ts data len fmt w h :
  isValid q = false \/ data = None \/ len = 0 \/ max_frame_size_ q < len ->
  push bo q seq ts data len fmt w h = Some (false, q).
Proof.
  unfold push, isValid. intros H.
  destruct (mmap_base_ q), data; try done.
  destruct (Z.eqb_spec len 0); [done|]. destruct (Z.ltb_spec (max_frame_size_ q) len); [done|].
  destruct H as [|[|[|]]]; done || lia.
Qed.

Lemma push_refuses_witness :
  push ORDER_LITTLE_ENDIAN demo_queue 1 1 (Some (replicate 5 Byte.x00)) 5 0 1 1
  = Some (false, demo_queue).
Proof. apply push_refuses. right. right. right. reflexivity. Defined.

(** C19: while the packet popped last is still held (the state of the network
    thread during every send), a burst of pushes keeps the queued frames and
    drops the new ones once [capacity - 1] frames wait: the policy is then
    drop-newest, not DROP_OLDEST. *)
Theorem held_packet_drops_newest bo q s fs g :
  ring_rep bo q s -> Forall (frame_ok (max_frame_size_ q)) fs ->
  sp_shut s = false -> sp_held s = {[sp_base s - 1 := g]} ->
  exists q' s', push_all bo q fs = Some q' /\ ring_rep bo q' s' /\
    sp_items s' = sp_items s ++ take (Z.to_nat (capacity_ q - 1) - length (sp_items s)) fs.
Proof.
  intros R Hfs Hsh Hh. destruct (push_all_spec bo q s fs R Hfs) as (q' & E & R' & _).
  exists q', (sp_push_all (capacity_ q) fs s). split_and!; [done..|].
  eapply sp_push_all_held; [apply (rep_geo _ _ _ R) | apply (rep_ok _ _ _ R) | done..].
Qed.

Lemma held_packet_drops_newest_witness :
  exists q' s', push_all ORDER_LITTLE_ENDIAN demo_held_queue (demo_frame <$> [2; 3; 4]) = Some q' /\
    ring_rep ORDER_LITTLE_ENDIAN q' s' /\ sp_items s' = demo_frame <$> [2].
Proof.
  destruct (held_packet_drops_newest ORDER_LITTLE_ENDIAN demo_held_queue demo_held_spec
    (demo_frame <$> [2; 3; 4]) (demo_frame 1)) as (q' & s' & E & R & I);
    [exact demo_held_rep| |reflexivity..|].
  - repeat constructor; apply demo_frame_ok; lia.
  - exists q', s'. split_and!; [exact E | exact R | rewrite I; reflexivity].
Defined.

(** With no packet held, a burst of pushes keeps exactly the [capacity] most
    recent frames (DROP_OLDEST). *)
Theorem free_queue_drops_oldest bo q s fs :
  ring_rep bo q s -> Forall (frame_ok (max_frame_size_ q)) fs ->
  sp_shut s = false -> sp_held s = ∅ ->
  exists q' s', push_all bo q fs = Some q' /\ ring_rep bo q' s' /\
    sp_items s' = drop (length (sp_items s ++ fs) - Z.to_nat (capacity_ q)) (sp_items s ++ fs).
Proof.
  intros R Hfs Hsh Hh. destruct (push_all_spec bo q s fs R Hfs) as (q' & E & R' & _).
  exists q', (sp_push_all (capacity_ q) fs s). split_and!; [done..|].
  apply sp_push_all_free; [apply (rep_geo _ _ _ R) | apply (rep_ok _ _ _ R) | done..].
Qed.

Lemma free_queue_drops_oldest_witness :
  exists q' s', push_all ORDER_LITTLE_ENDIAN demo_queue (demo_frame <$> [1; 2; 3]) = Some q' /\
    ring_rep ORDER_LITTLE_ENDIAN q' s' /\ sp_items s' = demo_frame <$> [2; 3].
Proof.
  destruct (free_queue_drops_oldest ORDER_LITTLE_ENDIAN demo_queue sp_empty
    (demo_frame <$> [1; 2; 3])) as (q' & s' & E & R & I); [exact demo_rep| |reflexivity..|].
  - repeat constructor; apply demo_frame_ok; lia.
  - exists q', s'. split_and!; [exact E | exact R | rewrite I; reflexivity].
Defined.

(** C17: when [pop] gets past its waiting code, it returns the oldest frame: the
    packet's members and the bytes its pointer shows are those pushed, the frame
    leaves the queue and its slot is protected until the packet is freed. If the
    packet cannot be allocated the slot is free again and the frame is lost. On
    an empty queue [pop] returns nullptr and changes nothing. *)
Theorem pop_refines bo q q1 s timeout_ms waits malloc_ok :
  isValid q = true -> pop_wait timeout_ms q waits = Proceed q1 -> ring_rep bo q1 s ->
  match sp_take s with
  | None => pop bo q timeout_ms waits malloc_ok = Some (Popped None q1)
  | Some (t, f, s') =>
      exists p q', pop bo q timeout_ms waits malloc_ok =
          Some (Popped (if malloc_ok then Some p else None) q') /\
        pkt_slot_idx_ p = t mod capacity_ q1 /\
        packet_frame q' p = Some f /\
        ring_rep bo q' (if malloc_ok then s' else sp_release t s')
  end.
Proof.
  intros V W R. unfold pop. rewrite V, W. cbn [negb].
  rewrite (rep_count _ _ _ R). destruct (sp_take s) as [[[t f] s']|] eqn:E.
  - assert (sp_live s' t = Some f /\ (Z.of_nat (length (sp_items s)) =? 0) = false /\
      sp_held s' !! t = Some f) as (Hl & -> & Hh).
    { unfold sp_take in E. destruct (sp_items s) eqn:E1; [done|]. simplify_eq.
      unfold sp_live. cbn. rewrite decide_False by lia. rewrite lookup_insert_eq. done. }
    destruct (rep_take bo q1 s t f s' R E) as (q2 & -> & R2 & Es & Ec & Em).
    cbn [mbind option_bind]. exists (packet_of q1 (t mod capacity_ q1) f).
    assert (packet_frame q2 (packet_of q1 (t mod capacity_ q1) f) = Some f) as Hp.
    { pose proof (rep_packet_frame bo q2 s' t f R2 Hl) as Hp. unfold packet_of in *.
      by rewrite Es, Ec in Hp. }
    destruct malloc_ok; [by exists q2|].
    destruct (rep_release bo q2 s' t f R2 Hh) as (q3 & E3 & R3 & Es3 & _ & Em3).
    rewrite <- Ec in Hp |- *. cbn [pkt_slot_idx_ packet_of]. rewrite E3. cbn [mbind option_bind].
    exists q3. split_and!; [done | done | | done].
    unfold packet_frame, packet_bytes in *. by rewrite Em3.
  - unfold sp_take in E. by destruct (sp_items s).
Qed.

Lemma pop_refines_witness :
  exists r q p q', push_frame ORDER_LITTLE_ENDIAN demo_queue (demo_frame 5) (f_data (demo_frame 5))
      = Some (r, q) /\
    pop ORDER_LITTLE_ENDIAN q 1000 [] true = Some (Popped (Some p) q') /\
    packet_frame q' p = Some (demo_frame 5).
Proof.
  destruct (push_frame_spec ORDER_LITTLE_ENDIAN demo_queue sp_empty (demo_frame 5)
    (f_data (demo_frame 5)) demo_rep) as (q1 & E1 & R1 & _);
    [apply demo_frame_ok; lia | reflexivity |].
  assert (must_wait q1 = false) as W.
  { unfold must_wait. rewrite (rep_count _ _ _ R1). reflexivity. }
  assert (isValid q1 = true) as V.
  { destruct (geo_mem q1 (rep_geo _ _ _ R1)) as (m & Em & _). unfold isValid. rewrite Em. reflexivity. }
  destruct (pop_refines ORDER_LITTLE_ENDIAN q1 q1 _ 1000 [] true V
    ltac:(unfold pop_wait; cbn; rewrite W; reflexivity) R1) as (p & q' & E & _ & P & _).
  exists true, q1, p, q'. split_and!; [exact E1 | exact E | exact P].
Defined.

(** Why [pop] returns nullptr, and the queue it leaves. *)
Inductive null_reason (bo : byte_order) (q : RingQueue) (timeout_ms : Z) (waits : list wakeup) (malloc_ok : bool)
    : RingQueue -> Prop :=
  | Null_invalid :
      isValid q = false -> null_reason bo q timeout_ms waits malloc_ok q
  | Null_polled :
      timeout_ms = 0 -> shutdown_ q = true \/ count_ q = 0 -> null_reason bo q timeout_ms waits malloc_ok q
  | Null_shut q' :
      timeout_ms <> 0 -> shutdown_ q' = true -> count_ q' = 0 -> null_reason bo q timeout_ms waits malloc_ok q'
  | Null_timeout w :
      0 < timeout_ms -> w ∈ waits -> wake_etimedout w = true ->
      null_reason bo q timeout_ms waits malloc_ok (wake_queue w)
  | Null_no_memory q1 pkt q2 q' :
      malloc_ok = false -> pop_wait timeout_ms q waits = Proceed q1 -> count_ q1 <> 0 ->
      take_tail bo q1 = Some (pkt, q2) -> releaseSlot q2 (pkt_slot_idx_ pkt) = Some q' ->
      null_reason bo q timeout_ms waits malloc_ok q'.

(** The reasons inside the waiting code, and right after it. *)
Lemma wait_null bo q timeout_ms waits malloc_ok q' :
  pop_wait timeout_ms q waits = GiveUp q' \/ pop_wait timeout_ms q waits = Proceed q' /\ count_ q' = 0 ->
  null_reason bo q timeout_ms waits malloc_ok q'.
Proof.
  assert (forall timed, timeout_ms <> 0 -> wait_loop timed q waits = Proceed q' -> count_ q' = 0 ->
    null_reason bo q timeout_ms waits malloc_ok q') as Hp.
  { intros timed Hne Hw Hc. apply Null_shut; [done | | done]. pose proof (wait_loop_cases timed q waits) as H.
    rewrite Hw in H. unfold must_wait in H. rewrite Hc in H. by destruct (shutdown_ q'). }
  unfold pop_wait. destruct (Z.ltb_spec timeout_ms 0); [|destruct (Z.eqb_spec timeout_ms 0) as [->|]].
  - intros [E|[E Hc]]; [|by eapply Hp; [lia|..]]. pose proof (wait_loop_cases false q waits) as Hg.
    rewrite E in Hg. by destruct Hg.
  - destruct (Z.eqb_spec (count_ q) 0); cbn [orb]; [|destruct (shutdown_ q) eqn:Es].
    + intros [[= <-]|[? _]]; [|done]. apply Null_polled; auto.
    + intros [[= <-]|[? _]]; [|done]. apply Null_polled; auto.
    + by intros [?|[[= <-] ?]].
  - intros [E|[E Hc]]; [|by eapply Hp]. pose proof (wait_loop_cases true q waits) as Hg.
    rewrite E in Hg. destruct Hg as (_ & w & Hw & Ht & <-). apply Null_timeout; [lia | done..].
Qed.

(** C35: [pop] returns nullptr only on an invalid queue, when polling (timeout 0)
    finds the queue empty or shut down, when it has waited and the queue is shut
    down and empty, when the timed wait reported the timeout, or when a frame
    was there but malloc failed for its packet (the frame is then gone and its
    slot free again). So an infinite wait ends with nullptr only after
    [shutdown] or for want of memory, and frames still queued at shutdown are
    delivered by waiting pops but not by polls. *)
Theorem pop_null_reason bo q timeout_ms waits malloc_ok q' :
  pop bo q timeout_ms waits malloc_ok = Some (Popped None q') -> null_reason bo q timeout_ms waits malloc_ok q'.
Proof.
  unfold pop. destruct (isValid q) eqn:V; cbn [negb]; [|intros [= <-]; by apply Null_invalid].
  destruct (pop_wait timeout_ms q waits) as [q1|q1|] eqn:E; [| |done].
  - destruct (Z.eqb_spec (count_ q1) 0) as [Hc|Hc]; [intros [= <-]; apply wait_null; by right|].
    intros H. destruct (take_tail bo q1) as [[pkt q2]|] eqn:Et; [|done]. cbn in H.
    destruct malloc_ok; [done|]. simplify_bind H. by eapply Null_no_memory.
  - intros [= <-]. apply wait_null. by left.
Qed.

Lemma pop_null_reason_witness :
  pop ORDER_LITTLE_ENDIAN demo_queue (-1) [mkWakeup false (shutdown demo_queue)] true
    = Some (Popped None (shutdown demo_queue)) /\
  null_reason ORDER_LITTLE_ENDIAN demo_queue (-1) [mkWakeup false (shutdown demo_queue)] true (shutdown demo_queue).
Proof.
  split; [reflexivity|].
  apply (pop_null_reason ORDER_LITTLE_ENDIAN demo_queue (-1) [mkWakeup false (shutdown demo_queue)] true). reflexivity.
Defined.

(** C37: the deadline of a timed wait is a normalised timespec exactly
    [timeout_ms] milliseconds after the clock reading, so
    [pthread_cond_timedwait] accepts it. *)
Theorem pop_deadline_correct tv_sec tv_nsec timeout_ms :
  0 <= tv_nsec < 1000000000 -> 0 < timeout_ms < 2 ^ 31 ->
  let d := pop_deadline tv_sec tv_nsec timeout_ms in
  0 <= d.2 < 1000000000 /\
  d.1 * 1000000000 + d.2 = tv_sec * 1000000000 + tv_nsec + timeout_ms * 1000000.
Proof.
  intros Hn Ht. unfold pop_deadline.
  pose proof (Z.quot_rem' timeout_ms 1000) as Hq.
  pose proof (Z.rem_bound_pos timeout_ms 1000 ltac:(lia) ltac:(lia)) as Hr.
  case Z.leb_spec; intros; cbn; lia.
Qed.

Lemma pop_deadline_correct_witness :
  pop_deadline 10 999000000 1500 = (12, 499000000) /\
  (0 <= (pop_deadline 10 999000000 1500).2 < 1000000000 /\
   (pop_deadline 10 999000000 1500).1 * 1000000000 + (pop_deadline 10 999000000 1500).2
   = 10 * 1000000000 + 999000000 + 1500 * 1000000).
Proof. split; [reflexivity | apply (pop_deadline_correct 10 999000000 1500); lia]. Defined.
