(* ===== verification/RingThreads.v ===== *)
(** * Threads on the ring queue

    The capture thread runs [push], the network thread runs [pop] and frees
    packets, the main thread runs [shutdown]. The steps below cut the functions
    of ring_queue.cpp at every access that another thread can see without the
    mutex: taking and releasing the mutex, the loads and stores of
    [slot_in_use_], the writes to slot memory, the late increment of
    [frames_dropped_], waits and signals of [not_empty_]. Packets may be freed at
    any moment, by any thread, and waits may wake spuriously. *)

From S2P Require Import Prelude Bytes RingQueue RingSpec RingRefine.

Inductive thread := Capture | Network | Main.

#[export] Instance thread_eq_dec : EqDecision thread.
Proof. solve_decision. Defined.

(** Where the capture thread is in [push]. *)
Inductive capture_pc :=
  | PIdle                       (** outside [push] *)
  | PLock (f : frame)           (** at pthread_mutex_lock *)
  | PCheck (f : frame)          (** at the shutdown test *)
  | PLoop (f : frame)           (** at the head of the DropOldest loop *)
  | PGuard (f : frame)          (** at the load of slot_in_use_[head_] *)
  | PHeader (f : frame)         (** at the header stores *)
  | PPayload (f : frame)        (** at the memcpy *)
  | PAdvance (f : frame)        (** at the update of head_ and count_ *)
  | PSignal                     (** at pthread_cond_signal *)
  | PUnlock                     (** at the unlock before return *)
  | PUnlockDrop                 (** at the unlock of a drop path *)
  | PCountDrop.                 (** unlocked, at frames_dropped_++ *)

(** Where the network thread is in [pop]. *)
Inductive network_pc :=
  | CIdle
  | CLock (timeout_ms : Z)
  | CTest (timeout_ms : Z)      (** mutex held, at the waiting code *)
  | CSleep (timeout_ms : Z) (signalled : bool)  (** in the wait, mutex released *)
  | CTake                       (** mutex held, past the waiting code *)
  | CUnlockNull                 (** at an unlock that returns nullptr *)
  | CUnlock (p : FramePacket)   (** at the unlock after the slot was taken *)
  | CAlloc (p : FramePacket).   (** unlocked, at malloc *)

Inductive main_pc := MRun | MLock | MSet | MUnlock | MBroadcast | MDone.

Record sys := mkSys {
  sy_q : RingQueue;
  sy_owner : option thread;     (** holder of [mutex_] *)
  sy_capture : capture_pc;
  sy_network : network_pc;
  sy_main : main_pc;
  sy_packets : list FramePacket (** packets returned by [pop], not freed *)
}.

(** What an outside observer sees. *)
Inductive event :=
  | EPush (f : frame) (accepted : bool)
  | EPop (f : frame)
  | ERelease
  | EShutdown.

Definition wake (c : network_pc) : network_pc :=
  match c with CSleep t _ => CSleep t true | _ => c end.

Section Steps.
Context (bo : byte_order).

Inductive capture_step : sys -> option event -> sys -> Prop :=
  | S_call q o c m h f :
      frame_ok (max_frame_size_ q) f ->
      capture_step (mkSys q o PIdle c m h) None (mkSys q o (PLock f) c m h)
  | S_lock q c m h f :
      capture_step (mkSys q None (PLock f) c m h) None (mkSys q (Some Capture) (PCheck f) c m h)
  | S_check_shut q o c m h f :
      shutdown_ q = true ->
      capture_step (mkSys q o (PCheck f) c m h) (Some (EPush f false)) (mkSys q o PUnlock c m h)
  | S_check_open q o c m h f :
      shutdown_ q = false ->
      capture_step (mkSys q o (PCheck f) c m h) None (mkSys q o (PLoop f) c m h)
  | S_loop_exit q o c m h f :
      (capacity_ q <=? count_ q) = false ->
      capture_step (mkSys q o (PLoop f) c m h) None (mkSys q o (PGuard f) c m h)
  | S_loop_held q o c m h f :
      (capacity_ q <=? count_ q) = true -> lookupZ (slot_in_use_ q) (tail_ q) = Some true ->
      capture_step (mkSys q o (PLoop f) c m h) (Some (EPush f false))
        (mkSys q o PUnlockDrop c m h)
  | S_loop_evict q o c m h f :
      (capacity_ q <=? count_ q) = true -> lookupZ (slot_in_use_ q) (tail_ q) = Some false ->
      capture_step (mkSys q o (PLoop f) c m h) None (mkSys (evict q) o (PLoop f) c m h)
  | S_guard_held q o c m h f :
      lookupZ (slot_in_use_ q) (head_ q) = Some true ->
      capture_step (mkSys q o (PGuard f) c m h) (Some (EPush f false))
        (mkSys q o PUnlockDrop c m h)
  | S_guard_free q o c m h f :
      lookupZ (slot_in_use_ q) (head_ q) = Some false ->
      capture_step (mkSys q o (PGuard f) c m h) None (mkSys q o (PHeader f) c m h)
  | S_header q o c m h f mem mem' :
      mmap_base_ q = Some mem ->
      write_mem mem (slotHdr (slot_stride_ q) (head_ q)) (SlotHeader_image bo (frame_header f)) = Some mem' ->
      capture_step (mkSys q o (PHeader f) c m h) None
        (mkSys (set_mmap (Some mem') q) o (PPayload f) c m h)
  | S_payload q o c m h f mem mem' :
      mmap_base_ q = Some mem ->
      write_mem mem (slotData (slot_stride_ q) (head_ q)) (f_data f) = Some mem' ->
      capture_step (mkSys q o (PPayload f) c m h) None
        (mkSys (set_mmap (Some mem') q) o (PAdvance f) c m h)
  | S_advance q o c m h f :
      capture_step (mkSys q o (PAdvance f) c m h) (Some (EPush f true))
        (mkSys (commit_push q) o PSignal c m h)
  | S_signal q o c m h :
      capture_step (mkSys q o PSignal c m h) None (mkSys q o PUnlock (wake c) m h)
  | S_unlock q o c m h :
      capture_step (mkSys q o PUnlock c m h) None (mkSys q None PIdle c m h)
  | S_unlock_drop q o c m h :
      capture_step (mkSys q o PUnlockDrop c m h) None (mkSys q None PCountDrop c m h)
  | S_count_drop q o c m h :
      capture_step (mkSys q o PCountDrop c m h) None (mkSys (drop_new q) o PIdle c m h).

(** The early exits of the waiting code that return nullptr at once. *)
Definition poll_null (timeout_ms : Z) (q : RingQueue) : bool :=
  (timeout_ms =? 0) && ((count_ q =? 0) || shutdown_ q).

Definition sleeps (timeout_ms : Z) (q : RingQueue) : bool :=
  negb (timeout_ms =? 0) && must_wait q.

Inductive network_step : sys -> option event -> sys -> Prop :=
  | N_call q o p m h t :
      network_step (mkSys q o p CIdle m h) None (mkSys q o p (CLock t) m h)
  | N_lock q p m h t :
      network_step (mkSys q None p (CLock t) m h) None (mkSys q (Some Network) p (CTest t) m h)
  | N_poll_null q o p m h t :
      poll_null t q = true ->
      network_step (mkSys q o p (CTest t) m h) None (mkSys q o p CUnlockNull m h)
  | N_sleep q o p m h t :
      sleeps t q = true ->
      network_step (mkSys q o p (CTest t) m h) None (mkSys q None p (CSleep t false) m h)
  | N_go q o p m h t :
      poll_null t q = false -> sleeps t q = false ->
      network_step (mkSys q o p (CTest t) m h) None (mkSys q o p CTake m h)
  | N_wake q p m h t b :
      network_step (mkSys q None p (CSleep t b) m h) None (mkSys q (Some Network) p (CTest t) m h)
  | N_timeout q p m h t b :
      0 < t ->
      network_step (mkSys q None p (CSleep t b) m h) None (mkSys q (Some Network) p CUnlockNull m h)
  | N_empty q o p m h :
      count_ q = 0 ->
      network_step (mkSys q o p CTake m h) None (mkSys q o p CUnlockNull m h)
  | N_take q o p m h pkt q' f :
      count_ q <> 0 -> take_tail bo q = Some (pkt, q') -> packet_frame q' pkt = Some f ->
      network_step (mkSys q o p CTake m h) (Some (EPop f)) (mkSys q' o p (CUnlock pkt) m h)
  | N_unlock_null q o p m h :
      network_step (mkSys q o p CUnlockNull m h) None (mkSys q None p CIdle m h)
  | N_unlock q o p m h pkt :
      network_step (mkSys q o p (CUnlock pkt) m h) None (mkSys q None p (CAlloc pkt) m h)
  | N_alloc q o p m h pkt :
      network_step (mkSys q o p (CAlloc pkt) m h) None (mkSys q o p CIdle m (pkt :: h))
  | N_alloc_fail q o p m h pkt q' :
      releaseSlot q (pkt_slot_idx_ pkt) = Some q' ->
      network_step (mkSys q o p (CAlloc pkt) m h) (Some ERelease) (mkSys q' o p CIdle m h).

(** [frame_packet_free] of one of the outstanding packets. *)
Inductive free_step : sys -> option event -> sys -> Prop :=
  | F_free q o p c m h1 pkt h2 q' :
      frame_packet_free q (Some pkt) = Some q' ->
      free_step (mkSys q o p c m (h1 ++ pkt :: h2)) (Some ERelease) (mkSys q' o p c m (h1 ++ h2)).

Inductive main_step : sys -> option event -> sys -> Prop :=
  | M_call q o p c h : main_step (mkSys q o p c MRun h) None (mkSys q o p c MLock h)
  | M_lock q p c h :
      main_step (mkSys q None p c MLock h) None (mkSys q (Some Main) p c MSet h)
  | M_set q o p c h :
      main_step (mkSys q o p c MSet h) (Some EShutdown) (mkSys (shutdown q) o p c MUnlock h)
  | M_unlock q o p c h :
      main_step (mkSys q o p c MUnlock h) None (mkSys q None p c MBroadcast h)
  | M_broadcast q o p c h :
      main_step (mkSys q o p c MBroadcast h) None (mkSys q o p (wake c) MDone h).

Inductive sys_step (a : sys) (e : option event) (b : sys) : Prop :=
  | By_capture : capture_step a e b -> sys_step a e b
  | By_network : network_step a e b -> sys_step a e b
  | By_free : free_step a e b -> sys_step a e b
  | By_main : main_step a e b -> sys_step a e b.

(** Runs with the list of their events. *)
Inductive run : sys -> list event -> sys -> Prop :=
  | run_nil a : run a [] a
  | run_silent a tr b c : run a tr b -> sys_step b None c -> run a tr c
  | run_event a tr b e c : run a tr b -> sys_step b (Some e) c -> run a (tr ++ [e]) c.

(** The next action of some thread would leave the region or the flag array. *)
Definition capture_faulty (a : sys) : Prop :=
  let q := sy_q a in
  match sy_capture a with
  | PLoop _ => (capacity_ q <=? count_ q) = true /\ lookupZ (slot_in_use_ q) (tail_ q) = None
  | PGuard _ => lookupZ (slot_in_use_ q) (head_ q) = None
  | PHeader f =>
      (m ← mmap_base_ q;
       write_mem m (slotHdr (slot_stride_ q) (head_ q)) (SlotHeader_image bo (frame_header f))) = None
  | PPayload f =>
      (m ← mmap_base_ q; write_mem m (slotData (slot_stride_ q) (head_ q)) (f_data f)) = None
  | _ => False
  end.

Definition network_faulty (a : sys) : Prop :=
  match sy_network a with
  | CTake => count_ (sy_q a) <> 0 /\ take_tail bo (sy_q a) = None
  | CAlloc p => releaseSlot (sy_q a) (pkt_slot_idx_ p) = None
  | _ => False
  end.

(** Reading or freeing an outstanding packet. *)
Definition packet_faulty (a : sys) : Prop :=
  exists p, p ∈ sy_packets a /\
    (packet_bytes (sy_q a) p = None \/ releaseSlot (sy_q a) (pkt_slot_idx_ p) = None).

Definition faulty (a : sys) : Prop :=
  capture_faulty a \/ network_faulty a \/ packet_faulty a.
End Steps.

(** A freshly constructed queue with all threads at their start. *)
Definition sys_init (q : RingQueue) : sys := mkSys q None PIdle CIdle MRun [].

(** ** The abstract runs *)

Inductive spec_step (cap : Z) : spec -> event -> spec -> Prop :=
  | sp_step_push f s : spec_step cap s (EPush f (sp_push cap f s).1) (sp_push cap f s).2
  | sp_step_pop t f s s' : sp_take s = Some (t, f, s') -> spec_step cap s (EPop f) s'
  | sp_step_release t f s : sp_held s !! t = Some f -> spec_step cap s ERelease (sp_release t s)
  | sp_step_shutdown s : spec_step cap s EShutdown (sp_shutdown s).

Inductive spec_run (cap : Z) : spec -> list event -> spec -> Prop :=
  | spec_nil s : spec_run cap s [] s
  | spec_snoc s tr s' e s'' :
      spec_run cap s tr s' -> spec_step cap s' e s'' -> spec_run cap s (tr ++ [e]) s''.

(** ** The simulation relation *)

Section Simulation.
Context (bo : byte_order) (cap max stride : Z).

(** How far the capture thread is ahead of, or behind, the abstract queue:
    inside the loop the eviction may already be done, after a drop decision
    [frames_dropped_] lags by one. *)
Definition capture_rel (pc : capture_pc) (q : RingQueue) (s : spec) : Prop :=
  let past_loop f := sp_ok cap s /\ sp_shut s = false /\ frame_ok max f /\ ring_rep bo q (sp_make_room cap s) in
  match pc with
  | PIdle | PSignal | PUnlock => ring_rep bo q s
  | PLock f | PCheck f => frame_ok max f /\ ring_rep bo q s
  | PLoop f => sp_ok cap s /\ sp_shut s = false /\ frame_ok max f /\
      (ring_rep bo q s \/ ring_rep bo q (sp_make_room cap s))
  | PGuard f => past_loop f
  | PHeader f => past_loop f /\ sp_blocked cap s = false
  | PPayload f => past_loop f /\ sp_blocked cap s = false /\
      exists m, mmap_base_ q = Some m /\
        read_mem m (slotHdr (slot_stride_ q) (head_ q)) sizeof_SlotHeader
        = Some (SlotHeader_image bo (frame_header f))
  | PAdvance f => past_loop f /\ sp_blocked cap s = false /\ slot_frame bo q (head_ q) = Some f
  | PUnlockDrop | PCountDrop => ring_rep bo (drop_new q) s
  end.

Definition capture_locks (pc : capture_pc) : bool :=
  match pc with PIdle | PLock _ | PCountDrop => false | _ => true end.

Definition network_locks (pc : network_pc) : bool :=
  match pc with CTest _ | CTake | CUnlockNull | CUnlock _ => true | _ => false end.

Definition main_locks (pc : main_pc) : bool :=
  match pc with MSet | MUnlock => true | _ => false end.

(** The owner field is the one thread inside its critical section. *)
Definition lock_ok (a : sys) : Prop :=
  capture_locks (sy_capture a) = bool_decide (sy_owner a = Some Capture) /\
  network_locks (sy_network a) = bool_decide (sy_owner a = Some Network) /\
  main_locks (sy_main a) = bool_decide (sy_owner a = Some Main).

(** Packets in the hands of the network thread, returned or not. *)
Definition in_flight (pc : network_pc) : list FramePacket :=
  match pc with CUnlock p | CAlloc p => [p] | _ => [] end.

Definition held_packet (t : Z) (f : frame) : FramePacket :=
  mkFramePacket (f_seq f) (f_timestamp_ns f) (f_pixel_format f) (f_width f) (f_height f)
    (f_len f) (slotData stride (t mod cap)) (t mod cap).

(** Outstanding packets are the held tickets of the abstract queue. *)
Definition packets_rel (ps : list FramePacket) (s : spec) : Prop :=
  exists tfs : list (Z * frame), ps = (fun tf => held_packet tf.1 tf.2) <$> tfs /\
    NoDup tfs.*1 /\
    forall t f, sp_held s !! t = Some f <-> (t, f) ∈ tfs.

Record sys_rel (a : sys) (s : spec) : Prop := mkSysRel {
  rel_static : capacity_ (sy_q a) = cap /\ max_frame_size_ (sy_q a) = max /\
    slot_stride_ (sy_q a) = stride;
  rel_lock : lock_ok a;
  rel_capture : capture_rel (sy_capture a) (sy_q a) s;
  rel_packets : packets_rel (in_flight (sy_network a) ++ sy_packets a) s
}.
End Simulation.

(** ** Commutation of releases and late drop counts with the other steps *)

Lemma releaseSlot_Some q idx q' :
  releaseSlot q idx = Some q' ->
  exists flags, updateZ (slot_in_use_ q) idx false = Some flags /\ q' = set_in_use flags q.
Proof. unfold releaseSlot. intros H. simplify_bind H. eauto. Qed.

Lemma releaseSlot_drop_new q idx : releaseSlot (drop_new q) idx = drop_new <$> releaseSlot q idx.
Proof. unfold releaseSlot. cbn. by destruct (updateZ _ _ _). Qed.

Lemma take_tail_drop_new bo q :
  take_tail bo (drop_new q) = (fun r => (r.1, drop_new r.2)) <$> take_tail bo q.
Proof.
  unfold take_tail. cbn [mmap_base_ drop_new set_dropped slot_stride_ tail_ slot_in_use_].
  destruct (mmap_base_ q); [|done]. cbn [mbind option_bind].
  destruct (read_mem _ _ _); [|done]. cbn [mbind option_bind]. by destruct (updateZ _ _ _).
Qed.

Lemma make_room_release cap t s :
  sp_make_room cap (sp_release t s) = sp_release t (sp_make_room cap s).
Proof. unfold sp_make_room. change (sp_full cap (sp_release t s)) with (sp_full cap s). by case_match. Qed.

Lemma blocked_release cap t s : sp_blocked cap s = false -> sp_blocked cap (sp_release t s) = false.
Proof.
  unfold sp_blocked. change (sp_next (sp_release t s)) with (sp_next s). cbn.
  destruct (delete t (sp_held s) !! _) eqn:E; [|done]. apply lookup_delete_Some in E as [_ E].
  by rewrite E.
Qed.

Lemma held_make_room cap s : sp_held (sp_make_room cap s) = sp_held s.
Proof. unfold sp_make_room. by case_match. Qed.

Lemma shut_make_room cap s : sp_shut (sp_make_room cap s) = sp_shut s.
Proof. unfold sp_make_room. by case_match. Qed.

(** Solves the mutex bookkeeping of one step. *)
Ltac solve_lock :=
  unfold lock_ok in *; cbn in *; destruct_and?;
  repeat match goal with
  | H : true = bool_decide (?o = Some _) |- _ =>
      symmetry in H; apply bool_decide_eq_true in H; try subst o
  | o : option thread |- _ => destruct o as [[]|]
  end;
  cbn in *; try done; split_and?; first [done | congruence | assumption | idtac].

Ltac rel_step :=
  constructor; [by split_and! | solve_lock | cbn; try done | cbn; try done].

Section Proofs.
Context (bo : byte_order) (cap max stride : Z).

(** The queue as it will be when a pending drop count has been made. *)
Definition lag (pc : capture_pc) (q : RingQueue) : RingQueue :=
  match pc with PUnlockDrop | PCountDrop => drop_new q | _ => q end.

Lemma capture_rel_unlocked pc q s :
  capture_locks pc = false ->
  capture_rel bo cap max pc q s <->
    ring_rep bo (lag pc q) s /\ match pc with PLock f => frame_ok max f | _ => True end.
Proof. destruct pc; cbn; try done; tauto. Qed.

(** Some abstract state whose held packets are those of [s] describes the
    concrete slots, at every program point. *)
Lemma capture_rel_view pc q s :
  capture_rel bo cap max pc q s ->
  exists s1, ring_rep bo (lag pc q) s1 /\ sp_held s1 = sp_held s.
Proof.
  pose proof (held_make_room cap s) as Hm.
  destruct pc; cbn; intros; destruct_and?; eauto.
  match goal with H : _ \/ _ |- _ => destruct H end; eauto.
Qed.

Lemma rep_release_flags q s t f :
  capacity_ q = cap -> ring_rep bo q s -> sp_held s !! t = Some f ->
  forall flags, updateZ (slot_in_use_ q) (t mod cap) false = Some flags ->
  ring_rep bo (set_in_use flags q) (sp_release t s).
Proof.
  intros Hc R Hh flags Hu. destruct (rep_release bo q s t f R Hh) as (q' & E & R' & _).
  rewrite Hc in E. apply releaseSlot_Some in E as (fl & Hu' & ->). by simplify_eq.
Qed.

(** Freeing a packet is possible at every program point of the capture thread. *)
Lemma capture_rel_release pc q s t f :
  capacity_ q = cap -> capture_rel bo cap max pc q s -> sp_held s !! t = Some f ->
  exists flags, releaseSlot q (t mod cap) = Some (set_in_use flags q) /\
    capture_rel bo cap max pc (set_in_use flags q) (sp_release t s).
Proof.
  intros Hc Hr Hh. destruct (capture_rel_view pc q s Hr) as (s1 & R1 & Hh1).
  rewrite <- Hh1 in Hh. destruct (rep_release bo (lag pc q) s1 t f R1 Hh) as (q1 & E & _).
  assert (exists flags, updateZ (slot_in_use_ q) (t mod cap) false = Some flags) as [flags Hu].
  { apply releaseSlot_Some in E as (fl & Hu & _). exists fl. rewrite <- Hc. by destruct pc. }
  exists flags. split; [unfold releaseSlot; by rewrite Hu|]. rewrite Hh1 in Hh.
  assert (forall q0 s0, capacity_ q0 = cap -> ring_rep bo q0 s0 -> sp_held s0 = sp_held s ->
    slot_in_use_ q0 = slot_in_use_ q -> ring_rep bo (set_in_use flags q0) (sp_release t s0)) as Hrel.
  { intros q0 s0 Hc0 R0 Hh0 Hf0. eapply rep_release_flags; [done | done | by rewrite Hh0 |].
    by rewrite Hf0. }
  pose proof (held_make_room cap s) as Hm. pose proof (blocked_release cap t s) as Hb.
  destruct pc; cbn in *; rewrite ?make_room_release; destruct_and?; split_and?; eauto.
  - match goal with H : _ \/ _ |- _ => destruct H end; eauto.
  - by apply (Hrel (drop_new q) s).
  - by apply (Hrel (drop_new q) s).
Qed.

Lemma packets_rel_ext ps s s' :
  sp_held s' = sp_held s -> packets_rel cap stride ps s -> packets_rel cap stride ps s'.
Proof. intros E (tfs & ? & ? & H). exists tfs. split_and!; [done..|]. intros. by rewrite E. Qed.

Lemma packets_rel_remove l1 p l2 s :
  packets_rel cap stride (l1 ++ p :: l2) s ->
  exists t f, p = held_packet cap stride t f /\ sp_held s !! t = Some f /\
    packets_rel cap stride (l1 ++ l2) (sp_release t s).
Proof.
  intros (tfs & E & Hnd & Hin). symmetry in E.
  apply fmap_app_inv in E as (t1 & t2' & -> & E2 & ->).
  symmetry in E2. destruct t2' as [|[t f] t2]; [done|]. cbn in E2. simplify_eq.
  exists t, f. split; [done|]. split; [apply Hin; set_solver|].
  exists (t1 ++ t2). rewrite !fmap_app in *. cbn in Hnd. split; [done|].
  apply NoDup_app in Hnd as (N1 & N12 & N2). apply NoDup_cons in N2 as [N3 N2].
  split.
  - apply NoDup_app. split_and!; [done | | done]. intros x Hx Hx2. apply (N12 x Hx). set_solver.
  - intros u g. cbn. rewrite lookup_delete_Some, Hin, !elem_of_app, elem_of_cons. split.
    + intros [Hne [? | [[= -> ->] | ?]]]; tauto.
    + intros H. split; [|tauto]. intros <-.
      assert (t ∈ t1.*1 \/ t ∈ t2.*1) as [Ht | Ht].
      { destruct H as [H|H]; [left|right]; apply list_elem_of_fmap; by exists (t, g). }
      * apply (N12 t Ht). set_solver.
      * done.
Qed.

Lemma packets_rel_add ps s t f s' :
  sp_held s !! t = None -> sp_held s' = <[t := f]> (sp_held s) ->
  packets_rel cap stride ps s -> packets_rel cap stride (held_packet cap stride t f :: ps) s'.
Proof.
  intros Hn E (tfs & -> & Hnd & Hin). exists ((t, f) :: tfs). split; [done|].
  assert (t ∉ tfs.*1) as Ht.
  { intros ((u & g) & Heq & Hu)%list_elem_of_fmap. cbn in Heq. subst u.
    apply Hin in Hu. congruence. }
  split; [by apply NoDup_cons|]. intros u g. rewrite E, lookup_insert_Some, elem_of_cons, <- Hin.
  split.
  - intros [[-> ->] | [_ ?]]; [by left | by right].
  - intros [[= -> ->] | Hu]; [by left|]. right. split; [congruence | done].
Qed.

#[local] Abbreviation rel := (sys_rel bo cap max stride).

Lemma rep_static_room q s : ring_rep bo q s -> capacity_ q = cap ->
  sp_full cap (sp_make_room cap s) = false /\ 0 < cap.
Proof. intros R Hc. rewrite <- Hc. split; [by apply (rep_room bo) | apply (rep_geo _ _ _ R)]. Qed.

(** Past the loop: the slot at [head_] may be written. *)
Lemma past_loop_room q s :
  ring_rep bo q (sp_make_room cap s) -> sp_ok cap s -> capacity_ q = cap ->
  sp_full (capacity_ q) (sp_make_room cap s) = false /\
  sp_blocked (capacity_ q) (sp_make_room cap s) = sp_blocked cap s.
Proof.
  intros R Hok Hc. rewrite Hc. pose proof (geo_cap q (rep_geo _ _ _ R)) as Hp. rewrite Hc in Hp.
  split; [|by apply sp_blocked_make_room].
  apply Z.leb_gt. by apply sp_make_room_length.
Qed.

(** The simulation, thread by thread: the abstract queue takes the event of
    the step, or stays where it is on a silent step. *)
Definition matches (s : spec) (e : option event) (s' : spec) : Prop :=
  match e with None => s' = s | Some e => spec_step cap s e s' end.

Lemma sim_guard_held q o c m h f s :
  lookupZ (slot_in_use_ q) (head_ q) = Some true ->
  rel (mkSys q o (PGuard f) c m h) s ->
  exists s', rel (mkSys q o PUnlockDrop c m h) s' /\ matches s (Some (EPush f false)) s'.
Proof.
  intros H [(Hc & Hm & Hs) Hl Hr Hp]. cbn in *.
  destruct Hr as (Hok & Hsh & Hf & R).
  destruct (past_loop_room q s R Hok Hc) as [Hf' Hb].
  rewrite (rep_flag_head bo q _ R), Hb in H. injection H as H.
  assert (sp_make_room cap s = s) as E.
  { unfold sp_make_room. destruct (sp_full _ s) eqn:E; [|done].
    pose proof (sp_full_not_blocked _ s Hok E). congruence. }
  rewrite E in R. exists (sp_reject s). split.
  - rel_step. by apply rep_reject.
  - pose proof (sp_step_push cap f s) as Hst. unfold sp_push in Hst. by rewrite Hsh, H in Hst.
Qed.

Lemma sim_header q o c m h f s mem mem' :
  mmap_base_ q = Some mem ->
  write_mem mem (slotHdr (slot_stride_ q) (head_ q)) (SlotHeader_image bo (frame_header f)) = Some mem' ->
  rel (mkSys q o (PHeader f) c m h) s ->
  exists s', rel (mkSys (set_mmap (Some mem') q) o (PPayload f) c m h) s' /\ matches s None s'.
Proof.
  intros H H0 [(Hc & Hm & Hs) Hl Hr Hp]. cbn in *.
  destruct Hr as ((Hok & Hsh & Hf & R) & Hb).
  destruct (past_loop_room q s R Hok Hc) as [Hf' Hb']. rewrite Hb in Hb'.
  destruct (write_header_spec bo q f (head_ q) mem (rep_geo _ _ _ R)
    (rep_head_range bo q _ R) H) as (m1 & W & _ & Rd). rewrite W in H0. injection H0 as <-.
  exists s. split; [|done]. rel_step. split_and!; try done.
  - eapply rep_write_head; try done. rewrite length_SlotHeader_image.
    pose proof (geo_stride q (rep_geo _ _ _ R)). pose proof (geo_max q (rep_geo _ _ _ R)). lia.
  - by exists m1.
Qed.

Lemma sim_payload q o c m h f s mem mem' :
  mmap_base_ q = Some mem ->
  write_mem mem (slotData (slot_stride_ q) (head_ q)) (f_data f) = Some mem' ->
  rel (mkSys q o (PPayload f) c m h) s ->
  exists s', rel (mkSys (set_mmap (Some mem') q) o (PAdvance f) c m h) s' /\ matches s None s'.
Proof.
  intros H H0 [(Hc & Hm & Hs) Hl Hr Hp]. cbn in *.
  destruct Hr as ((Hok & Hsh & Hf & R) & Hb & m0 & Em0 & Rd).
  destruct (past_loop_room q s R Hok Hc) as [Hf' Hb']. rewrite Hb in Hb'.
  rewrite H in Em0. injection Em0 as <-. rewrite <- Hm in Hf.
  destruct (write_payload_spec bo q f (head_ q) mem (rep_geo _ _ _ R)
    (rep_head_range bo q _ R) H Hf Rd) as (m1 & W & _ & Hsf). rewrite W in H0. injection H0 as <-.
  exists s. split; [|done]. rel_step. rewrite <- Hm. split_and!; try done.
  pose proof (geo_stride q (rep_geo _ _ _ R)) as Hst. pose proof (fok_len _ _ Hf) as Hfl.
  unfold f_len in Hfl. assert (0 <= sizeof_SlotHeader) by done.
  eapply rep_write_head; try done; rewrite slotData_slotHdr; lia.
Qed.

Lemma sim_capture a e b s :
  capture_step bo a e b -> rel a s -> exists s', rel b s' /\ matches s e s'.
Proof.
  intros Hstep Hrel. pose proof Hrel as [(Hc & Hm & Hs) Hl Hr Hp].
  destruct Hstep; cbn in Hc, Hm, Hs, Hl, Hr, Hp.
  - (* call *) exists s. split; [|done]. rewrite Hm in *. rel_step.
  - (* lock *) exists s. split; [|done]. rel_step.
  - (* refused after shutdown *) destruct Hr as [Hf R]. exists s. split; [rel_step|].
    assert (sp_push cap f s = (false, s)) as E.
    { unfold sp_push. by rewrite <- (rep_shut _ _ _ R), H. }
    pose proof (sp_step_push cap f s) as Hst. by rewrite E in Hst.
  - (* open *) destruct Hr as [Hf R]. exists s. split; [|done]. rel_step.
    rewrite <- Hc, <- (rep_shut _ _ _ R). split_and!; [apply (rep_ok _ _ _ R) | done | done | by left].
  - (* loop exit *) destruct Hr as (Hok & Hsh & Hf & Hr). exists s. split; [|done].
    rel_step. split_and!; [done..|].
    destruct Hr as [R|R]; [|done]. unfold sp_make_room.
    rewrite (rep_full bo q s R), Hc in H. by rewrite H.
  - (* held tail: dead code *) exfalso. destruct Hr as (Hok & Hsh & Hf & [R|R]).
    + rewrite (rep_flag_tail bo q s R) in H0; [done|].
      intros He. rewrite (rep_count _ _ _ R), He in H. apply Z.leb_le in H.
      pose proof (geo_cap q (rep_geo _ _ _ R)). simpl in *. lia.
    + destruct (past_loop_room q s R Hok Hc) as [Hf' _].
      rewrite (rep_full bo q _ R) in H. congruence.
  - (* evict *) destruct Hr as (Hok & Hsh & Hf & Hr). exists s. split; [|done].
    rel_step. split_and!; [done..|]. right. destruct Hr as [R|R].
    + rewrite (rep_full bo q s R) in H. unfold sp_make_room. rewrite <- Hc, H. by apply rep_evict.
    + destruct (past_loop_room q s R Hok Hc) as [Hf' _].
      rewrite (rep_full bo q _ R) in H. congruence.
  - by apply (sim_guard_held q o c m h f s).
  - (* guard free *) destruct Hr as (Hok & Hsh & Hf & R).
    destruct (past_loop_room q s R Hok Hc) as [Hf' Hb].
    rewrite (rep_flag_head bo q _ R), Hb in H. injection H as H. exists s. split; [|done].
    rel_step.
  - by apply (sim_header q o c m h f s mem mem').
  - by apply (sim_payload q o c m h f s mem mem').
  - (* advance *) destruct Hr as ((Hok & Hsh & Hf & R) & Hb & Hsf).
    destruct (past_loop_room q s R Hok Hc) as [Hf' Hb']. rewrite Hb in Hb'.
    exists (sp_append f (sp_make_room cap s)). split.
    + rel_step; [apply rep_commit; try done; by rewrite Hm|].
      eapply packets_rel_ext; [|done]. apply held_make_room.
    + pose proof (sp_step_push cap f s) as Hst. unfold sp_push in Hst. by rewrite Hsh, Hb in Hst.
  - (* signal *) exists s. split; [|done].
    rel_step; [by destruct c | by destruct c].
  - exists s. split; [|done]. rel_step.
  - exists s. split; [|done]. rel_step.
  - exists s. split; [|done]. rel_step.
Qed.

(** While another thread holds the mutex, the capture thread is outside. *)
Lemma capture_outside q o p c m h s :
  rel (mkSys q o p c m h) s -> network_locks c = true \/ main_locks m = true ->
  capture_locks p = false.
Proof.
  intros [_ (L1 & L2 & L3) _ _] [H|H]; cbn in *.
  - rewrite H in L2. symmetry in L2. apply bool_decide_eq_true in L2 as ->. by rewrite L1.
  - rewrite H in L3. symmetry in L3. apply bool_decide_eq_true in L3 as ->. by rewrite L1.
Qed.

Lemma packet_of_held q t f :
  capacity_ q = cap -> slot_stride_ q = stride ->
  packet_of q (t mod capacity_ q) f = held_packet cap stride t f.
Proof. unfold packet_of, held_packet. by intros -> ->. Qed.

(** The tail of the lagging queue and of the queue itself are taken alike. *)
Lemma take_lag p q pkt q' s :
  take_tail bo q = Some (pkt, q') -> ring_rep bo (lag p q) s -> count_ q <> 0 ->
  exists t f s', sp_take s = Some (t, f, s') /\ pkt = packet_of q (t mod capacity_ q) f /\
    ring_rep bo (lag p q') s' /\ packet_frame q' pkt = Some f /\
    slot_stride_ q' = slot_stride_ q /\ capacity_ q' = capacity_ q /\
    max_frame_size_ q' = max_frame_size_ q.
Proof.
  intros Ht R Hne.
  assert (exists t f s', sp_take s = Some (t, f, s')) as (t & f & s' & Htk).
  { pose proof (rep_count _ _ _ R) as Hc. unfold sp_take. destruct (sp_items s); [|by eauto].
    destruct p; cbn in Hc; lia. }
  exists t, f, s'. split; [done|].
  destruct (rep_take bo _ s t f s' R Htk) as (q2 & E & R2 & Es & Ec & Em).
  assert (take_tail bo (lag p q) = Some (pkt, lag p q')) as E'.
  { destruct p; cbn [lag]; rewrite ?take_tail_drop_new, Ht; done. }
  rewrite E' in E. injection E as E1 E2. subst q2.
  assert (max_frame_size_ q' = max_frame_size_ q) as Emax.
  { unfold take_tail in Ht. simplify_bind Ht. done. }
  assert (sp_live s' t = Some f) as Hl.
  { unfold sp_take in Htk. destruct (sp_items s) eqn:Ei; [done|]. simplify_eq.
    unfold sp_live. cbn. rewrite decide_False by lia. by rewrite lookup_insert_eq. }
  pose proof (rep_packet_frame bo _ s' t f R2 Hl) as Hp.
  assert (forall x, slot_stride_ (lag p x) = slot_stride_ x /\ capacity_ (lag p x) = capacity_ x /\
    mmap_base_ (lag p x) = mmap_base_ x) as Hlag by (by destruct p).
  destruct (Hlag q) as (L1 & L2 & L3), (Hlag q') as (L1' & L2' & L3').
  rewrite L1, L1' in Es. rewrite L2, L2' in Ec.
  assert (pkt = packet_of q (t mod capacity_ q) f) as ->.
  { rewrite E1. unfold packet_of. by rewrite L1, L2. }
  split_and!; try done.
  unfold packet_frame, packet_bytes, packet_of in *. cbn in *.
  by rewrite L3', L1', L2', Ec, Es in Hp.
Qed.

Lemma sim_network a e b s :
  network_step bo a e b -> rel a s -> exists s', rel b s' /\ matches s e s'.
Proof.
  intros Hstep Hrel. pose proof Hrel as [(Hc & Hm & Hs) Hl Hr Hp].
  destruct Hstep; cbn in *; try (exists s; split; [|done]; by rel_step).
  - (* take *)
    assert (capture_locks p = false) as Hout.
    { eapply capture_outside; [done|]. by left. }
    apply capture_rel_unlocked in Hr as [R Hf]; [|done].
    destruct (take_lag p q pkt q' s H0 R H) as (t & g & s' & Htk & -> & R' & Hpf & Es & Ec & Em).
    rewrite H1 in Hpf. injection Hpf as <-.
    exists s'. split; [|by eapply sp_step_pop].
    pose proof (ok_base_not_held _ _ (rep_ok _ _ _ R)) as Hnh.
    constructor; cbn.
    + by rewrite Ec, Em, Es.
    + solve_lock.
    + by apply capture_rel_unlocked.
    + rewrite packet_of_held by done. unfold sp_take in Htk.
      destruct (sp_items s) eqn:Ei; [done|]. injection Htk as <- <- <-. by eapply packets_rel_add.
  - (* failed allocation *)
    destruct (packets_rel_remove [] pkt h s Hp) as (t & f & -> & Hh & Hp').
    destruct (capture_rel_release p q s t f Hc Hr Hh) as (flags & E & Hr').
    cbn in H. rewrite E in H. injection H as <-.
    exists (sp_release t s). split; [|by eapply sp_step_release]. rel_step.
Qed.

Lemma sim_free a e b s :
  free_step a e b -> rel a s -> exists s', rel b s' /\ matches s e s'.
Proof.
  intros Hstep [(Hc & Hm & Hs) Hl Hr Hp]. destruct Hstep; cbn in *.
  rewrite app_assoc in Hp.
  destruct (packets_rel_remove _ pkt h2 s Hp) as (t & f & -> & Hh & Hp').
  destruct (capture_rel_release p q s t f Hc Hr Hh) as (flags & E & Hr').
  cbn in H. rewrite E in H. injection H as <-.
  exists (sp_release t s). split; [|by eapply sp_step_release].
  constructor; [by split_and! | done | done | cbn; by rewrite app_assoc].
Qed.

Lemma sim_main a e b s :
  main_step a e b -> rel a s -> exists s', rel b s' /\ matches s e s'.
Proof.
  intros Hstep Hrel. pose proof Hrel as [(Hc & Hm & Hs) Hl Hr Hp].
  destruct Hstep; cbn in *.
  - exists s. split; [|done]. rel_step.
  - exists s. split; [|done]. rel_step.
  - assert (capture_locks p = false) as Hout.
    { eapply capture_outside; [done|]. by right. }
    apply capture_rel_unlocked in Hr as [R Hf]; [|done].
    exists (sp_shutdown s). split; [|constructor].
    constructor; cbn; [by split_and! | solve_lock | | by eapply packets_rel_ext].
    apply capture_rel_unlocked; [done|]. split; [|done].
    apply rep_shutdown in R. by destruct p.
  - exists s. split; [|done]. rel_step.
  - exists s. split; [|done]. rel_step; by destruct c.
Qed.

Lemma simulation a e b s :
  sys_step bo a e b -> rel a s -> exists s', rel b s' /\ matches s e s'.
Proof. intros []; eauto using sim_capture, sim_network, sim_free, sim_main. Qed.

Lemma simulation_run a tr b s :
  run bo a tr b -> rel a s -> exists s', rel b s' /\ spec_run cap s tr s'.
Proof.
  induction 1 as [|a tr b c Hr IH Hs|a tr b e c Hr IH Hs]; intros Hrel.
  - exists s. split; [done | constructor].
  - destruct (IH Hrel) as (s1 & R1 & Hrun). destruct (simulation _ _ _ _ Hs R1) as (s2 & R2 & ->).
    by exists s1.
  - destruct (IH Hrel) as (s1 & R1 & Hrun). destruct (simulation _ _ _ _ Hs R1) as (s2 & R2 & Hst).
    exists s2. split; [done | by econstructor].
Qed.
End Proofs.
