(* ===== verification/ThreadProps.v ===== *)
(** * Properties of the ring queue under every interleaving of its threads

    A simulation of the threads' steps by the abstract queue of RingSpec and what
    follows from it: no fault, no race, stable packets, no lost wakeup. *)

From S2P Require Import Prelude Bytes RingQueue RingSpec RingRefine RingProps RingThreads.

Lemma init_rel bo q :
  ring_rep bo q sp_empty ->
  sys_rel bo (capacity_ q) (max_frame_size_ q) (slot_stride_ q) (sys_init q) sp_empty.
Proof.
  intros R. constructor; [done | done | done|]. exists []. split_and!; [done | constructor|].
  intros t f. cbn. rewrite lookup_empty. set_solver.
Qed.

Lemma run_rel bo q tr b :
  ring_rep bo q sp_empty -> run bo (sys_init q) tr b ->
  exists s, sys_rel bo (capacity_ q) (max_frame_size_ q) (slot_stride_ q) b s /\
    spec_run (capacity_ q) sp_empty tr s.
Proof. intros R Hrun. eapply simulation_run; [done|]. by apply init_rel. Qed.

Section View.
Context (bo : byte_order) (cap max stride : Z).
#[local] Abbreviation rel := (sys_rel bo cap max stride).

(** What the relation says about an outstanding packet. *)
Lemma rel_packet a s p :
  rel a s -> p ∈ in_flight (sy_network a) ++ sy_packets a ->
  exists t f, p = held_packet cap stride t f /\ sp_held s !! t = Some f.
Proof.
  intros [_ _ _ (tfs & E & _ & Hin)] Hp. rewrite E in Hp.
  apply list_elem_of_fmap in Hp as ([t f] & -> & Hp). exists t, f. split; [done|]. by apply Hin.
Qed.

Lemma lag_static pc q :
  capacity_ (lag pc q) = capacity_ q /\ slot_stride_ (lag pc q) = slot_stride_ q /\
  mmap_base_ (lag pc q) = mmap_base_ q /\ slot_in_use_ (lag pc q) = slot_in_use_ q /\
  head_ (lag pc q) = head_ q.
Proof. by destruct pc. Qed.

(** A held ticket's packet shows its frame. *)
Lemma rel_shows a s t f :
  rel a s -> sp_held s !! t = Some f ->
  packet_frame (sy_q a) (held_packet cap stride t f) = Some f.
Proof.
  intros [(Hc & Hm & Hs) _ Hr _] Hh.
  destruct (capture_rel_view bo cap max _ _ _ Hr) as (s1 & R1 & Hh1). rewrite <- Hh1 in Hh.
  assert (sp_live s1 t = Some f) as Hl.
  { unfold sp_live. pose proof (ok_held _ _ (rep_ok _ _ _ R1) _ _ Hh) as Hw.
    by rewrite decide_False by lia. }
  pose proof (rep_packet_frame bo _ s1 t f R1 Hl) as Hp.
  destruct (lag_static (sy_capture a) (sy_q a)) as (L1 & L2 & L3 & _).
  unfold packet_frame, packet_bytes, packet_of, held_packet in *. cbn in *.
  by rewrite L1, L2, L3, Hc, Hs in Hp.
Qed.

Lemma packet_frame_bytes q p f : packet_frame q p = Some f -> packet_bytes q p = Some (f_data f).
Proof. unfold packet_frame. intros H. by simplify_bind H. Qed.
End View.

(** ** Traces *)

Definition accepted_of (e : event) : option frame :=
  match e with EPush f true => Some f | _ => None end.
Definition popped_of (e : event) : option frame :=
  match e with EPop f => Some f | _ => None end.

(** The frames that pushes accepted, and those that pops returned, in order. *)
Definition accepted (tr : list event) : list frame := omap accepted_of tr.
Definition popped (tr : list event) : list frame := omap popped_of tr.

(** The queue is a suffix of what was accepted; what was popped is a
    subsequence of the rest. *)
Definition fifo_inv (tr : list event) (s : spec) : Prop :=
  0 <= sp_base s /\
  (Z.to_nat (sp_base s) <= length (accepted tr))%nat /\
  sp_items s = drop (Z.to_nat (sp_base s)) (accepted tr) /\
  popped tr `sublist_of` take (Z.to_nat (sp_base s)) (accepted tr).

Lemma omap_snoc {A B} (g : A -> option B) l x :
  omap g (l ++ [x]) = omap g l ++ (match g x with Some y => [y] | None => [] end).
Proof. rewrite omap_app. cbn. by destruct (g x). Qed.

Lemma drop_S_tail {A} n (l : list A) : drop (S n) l = tail (drop n l).
Proof. revert n. induction l as [|x l IH]; intros [|n]; cbn; done. Qed.

Lemma fifo_append tr s f cap :
  fifo_inv tr s -> 0 < cap -> sp_ok cap s ->
  fifo_inv (tr ++ [EPush f true]) (sp_append f (sp_make_room cap s)).
Proof.
  intros (Hb & Hle & Hi & Hp) Hc Hok. unfold fifo_inv, accepted, popped. rewrite !omap_snoc. cbn.
  fold (accepted tr) (popped tr). rewrite app_nil_r. unfold sp_make_room.
  destruct (sp_full cap s) eqn:Hf; cbn.
  - pose proof (sp_full_length cap s Hf Hok) as Hl. rewrite Hi, length_drop in Hl.
    replace (Z.to_nat (sp_base s + 1)) with (S (Z.to_nat (sp_base s))) by lia.
    split_and!; [lia | rewrite length_app; lia | |].
    + rewrite drop_app_le by lia. by rewrite drop_S_tail, Hi.
    + rewrite take_app_le by lia. rewrite <- Nat.add_1_r, <- take_take_drop.
      by apply sublist_inserts_r.
  - rewrite drop_app_le, take_app_le by lia. rewrite <- Hi.
    split_and!; [lia | rewrite length_app; lia | done | done].
Qed.

Lemma fifo_step cap tr s e s' :
  0 < cap -> sp_ok cap s -> spec_step cap s e s' -> fifo_inv tr s -> fifo_inv (tr ++ [e]) s'.
Proof.
  intros Hc Hok Hs Hi. destruct Hs as [f s|t f s s' Ht|t f s Hh|s].
  - pose proof (fifo_append tr s f cap Hi Hc Hok) as Ha. unfold sp_push.
    destruct (sp_shut s), (sp_blocked cap s); cbn; try done;
      unfold fifo_inv, accepted, popped in *; rewrite !omap_snoc; cbn; by rewrite !app_nil_r.
  - destruct Hi as (Hb & Hle & Hi & Hp). unfold sp_take in Ht.
    destruct (sp_items s) as [|g gs] eqn:E; [done|]. injection Ht as <- <- <-.
    unfold fifo_inv, accepted, popped. rewrite !omap_snoc. cbn. rewrite app_nil_r.
    fold (accepted tr) (popped tr).
    replace (Z.to_nat (sp_base s + 1)) with (S (Z.to_nat (sp_base s))) by lia.
    assert (accepted tr !! Z.to_nat (sp_base s) = Some g) as Hg.
    { rewrite <- (Nat.add_0_r (Z.to_nat (sp_base s))), <- lookup_drop. by rewrite <- Hi. }
    pose proof (lookup_lt_Some _ _ _ Hg). split_and!; [lia | lia | |].
    + by rewrite drop_S_tail, <- Hi.
    + rewrite (take_S_r _ _ _ Hg). by apply sublist_app.
  - unfold fifo_inv, accepted, popped in *. rewrite !omap_snoc. cbn. by rewrite !app_nil_r.
  - unfold fifo_inv, accepted, popped in *. rewrite !omap_snoc. cbn. by rewrite !app_nil_r.
Qed.

Lemma spec_step_ok cap s e s' : 0 < cap -> spec_step cap s e s' -> sp_ok cap s -> sp_ok cap s'.
Proof.
  intros Hc Hs Hok. destruct Hs.
  - by apply sp_ok_push.
  - by eapply sp_ok_take.
  - by apply sp_ok_release.
  - by apply sp_ok_shutdown.
Qed.

Lemma spec_run_fifo cap tr s :
  0 < cap -> spec_run cap sp_empty tr s -> sp_ok cap s /\ fifo_inv tr s.
Proof.
  intros Hc Hr. remember sp_empty as s0 eqn:E0. induction Hr as [s|s tr s' e s'' Hr IH Hs].
  - subst. split; [by apply sp_ok_empty|]. done.
  - destruct (IH E0) as [Hok Hf]. split; [by eapply spec_step_ok | by eapply fifo_step].
Qed.

(** ** Lost wakeups *)

(** A sleeping consumer that nobody has signalled has nothing to do, unless the
    signal is the next action of the thread that gave it something to do. *)
Definition wakeup_ok (a : sys) : Prop :=
  match sy_network a with
  | CSleep _ false =>
      must_wait (sy_q a) = true \/ sy_capture a = PSignal \/
      sy_main a = MUnlock \/ sy_main a = MBroadcast
  | _ => True
  end.

Lemma wakeup_step bo a e b :
  sys_step bo a e b -> 0 < capacity_ (sy_q a) -> wakeup_ok a -> wakeup_ok b.
Proof.
  intros [H|H|H|H] Hc Hw; destruct H; unfold wakeup_ok in *; cbn in *; try done;
    try (destruct c as [| | |? []| | | |]; cbn in *; try done; naive_solver).
  - destruct c as [| | |? []| | | |]; cbn in *; try done.
    destruct Hw as [Hw|[?|?]]; [|done|by auto]. apply Z.leb_le in H.
    unfold must_wait in Hw. apply andb_true_iff in Hw as [?%Z.eqb_eq _]. lia.
  - left. unfold sleeps in H. by apply andb_true_iff in H as [_ ?].
  - apply releaseSlot_Some in H as (fl & _ & ->). done.
Qed.

(** ** Progress *)

(** How many own steps the capture thread is from the end of [push]. *)
Definition capture_measure (a : sys) : nat :=
  match sy_capture a with
  | PIdle => 0
  | PCountDrop => 1
  | PUnlockDrop | PUnlock => 2
  | PSignal => 3
  | PAdvance _ => 4
  | PPayload _ => 5
  | PHeader _ => 6
  | PGuard _ => 7
  | PLoop _ => if (capacity_ (sy_q a) <=? count_ (sy_q a))%Z then 9 else 8
  | PCheck _ => 10
  | PLock _ => 11
  end%nat.

(** How many own steps the holder of the mutex is from releasing it. *)
Definition owner_measure (a : sys) : nat :=
  match sy_owner a with
  | Some Network =>
      match sy_network a with CTest _ => 3 | CTake => 2 | CUnlock _ | CUnlockNull => 1 | _ => 0 end
  | Some Main => match sy_main a with MSet => 2 | MUnlock => 1 | _ => 0 end
  | _ => 0
  end%nat.

Section Progress.
Context (bo : byte_order) (cap max stride : Z).
#[local] Abbreviation rel := (sys_rel bo cap max stride).

(** An eviction ends the DropOldest loop. *)
Lemma evict_room q o c m h f s :
  rel (mkSys q o (PLoop f) c m h) s -> (capacity_ q <=? count_ q) = true ->
  ring_rep bo q s /\ (capacity_ (evict q) <=? count_ (evict q)) = false.
Proof.
  intros [(Hc & _ & _) _ (Hok & Hsh & Hf & [R|R]) _] Hfull; cbn in *.
  - split; [done|]. pose proof (rep_evict bo q s R) as R'. pose proof (rep_room bo q s R) as Hroom.
    rewrite (rep_full bo q s R) in Hfull. unfold sp_make_room in Hroom. rewrite Hfull in Hroom.
    etrans; [exact (rep_full bo _ _ (R' Hfull)) | exact Hroom].
  - destruct (past_loop_room bo cap q s R Hok Hc) as [Hf' _]. rewrite (rep_full bo q _ R) in Hfull. congruence.
Qed.

(** Every step of [push] brings its end nearer. *)
Lemma capture_step_less a e b s :
  rel a s -> capture_step bo a e b -> sy_capture a <> PIdle -> (capture_measure b < capture_measure a)%nat.
Proof.
  intros Hrel H Hne. destruct H; unfold capture_measure; cbn [sy_capture sy_q]; try lia; try done.
  - destruct (_ <=? _); lia.
  - rewrite H. lia.
  - destruct (_ <=? _); lia.
  - destruct (evict_room _ _ _ _ _ _ _ Hrel H) as [_ Hroom]. rewrite H, Hroom. lia.
Qed.

(** And inside [push] there is one to take. *)
Lemma capture_can a s :
  rel a s -> sy_capture a <> PIdle -> (forall f, sy_capture a <> PLock f) -> exists e b, capture_step bo a e b.
Proof.
  intros Hrel Hne Hnl. pose proof Hrel as [(Hc & Hm & Hs) Hl Hr Hp].
  destruct a as [q o p c m h]; cbn in *. destruct p; try done; [by edestruct Hnl|..];
    try (do 2 eexists; by constructor).
  - destruct (shutdown_ q) eqn:E; do 2 eexists; by constructor.
  - destruct (capacity_ q <=? count_ q) eqn:Hfull; [|do 2 eexists; by constructor].
    destruct (evict_room _ _ _ _ _ _ _ Hrel Hfull) as [R _].
    do 2 eexists. apply S_loop_evict; [done|]. apply (rep_flag_tail bo q s R). intros He.
    apply Z.leb_le in Hfull. rewrite (rep_count _ _ _ R), He in Hfull.
    pose proof (geo_cap q (rep_geo _ _ _ R)). simpl in *. lia.
  - destruct Hr as (Hok & Hsh & Hf & R). pose proof (rep_flag_head bo q _ R) as Hfl.
    destruct (sp_blocked _ _); do 2 eexists; [by apply S_guard_held | by apply S_guard_free].
  - destruct Hr as ((Hok & Hsh & Hf & R) & Hb).
    destruct (geo_mem q (rep_geo _ _ _ R)) as (mem & Em & _).
    destruct (write_header_spec bo q f (head_ q) mem (rep_geo _ _ _ R)
      (rep_head_range bo q _ R) Em) as (m1 & W & _).
    do 2 eexists. by eapply S_header.
  - destruct Hr as ((Hok & Hsh & Hf & R) & Hb & mem & Em & Rd). rewrite <- Hm in Hf.
    destruct (write_payload_spec bo q f (head_ q) mem (rep_geo _ _ _ R)
      (rep_head_range bo q _ R) Em Hf Rd) as (m1 & W & _).
    do 2 eexists. by eapply S_payload.
Qed.

Lemma capture_progress a s :
  rel a s -> sy_capture a <> PIdle -> (forall f, sy_capture a <> PLock f) ->
  exists e b, capture_step bo a e b /\ (capture_measure b < capture_measure a)%nat.
Proof.
  intros Hrel Hne Hnl. destruct (capture_can a s Hrel Hne Hnl) as (e & b & H).
  exists e, b. split; [done|]. by eapply capture_step_less.
Qed.

(** The network thread, once it holds the mutex, gets on to its unlock. *)
Lemma network_owner_progress a s :
  rel a s -> sy_owner a = Some Network ->
  exists e b, network_step bo a e b /\ sy_capture b = sy_capture a /\ sy_main b = sy_main a /\
    (owner_measure b < owner_measure a)%nat.
Proof.
  intros Hrel Ho. pose proof Hrel as [_ (L1 & L2 & L3) Hr _].
  destruct a as [q o p c m h]; cbn in *. subst o. cbn in *.
  apply capture_rel_unlocked in Hr as [R _]; [|done].
  destruct c; try done.
  - destruct (poll_null timeout_ms q) eqn:E1; [|destruct (sleeps timeout_ms q) eqn:E2].
    + do 2 eexists. split_and!; [by eapply N_poll_null | done | done | cbn; lia].
    + do 2 eexists. split_and!; [by eapply N_sleep | done | done | cbn; lia].
    + do 2 eexists. split_and!; [by eapply N_go | done | done | cbn; lia].
  - destruct (decide (count_ q = 0)) as [|Hne].
    + do 2 eexists. split_and!; [by eapply N_empty | done | done | cbn; lia].
    + assert (exists pkt q', take_tail bo q = Some (pkt, q')) as (pkt & q' & Et).
      { destruct (sp_take s) as [[[t g] s']|] eqn:E.
        - destruct (rep_take bo _ s t g s' R E) as (q' & Et & _).
          destruct p; cbn [lag] in Et; rewrite ?take_tail_drop_new in Et; eauto;
            destruct (take_tail bo q) as [[pkt q1]|]; by eauto.
        - unfold sp_take in E. pose proof (rep_count _ _ _ R) as Hc. destruct (sp_items s); [|done].
          destruct p; cbn in Hc; lia. }
      destruct (take_lag bo p q pkt q' s Et R Hne) as (? & ? & ? & _ & _ & _ & Hpf & _).
      do 2 eexists. split_and!; [by eapply N_take | done | done | cbn; lia].
  - do 2 eexists. split_and!; [by eapply N_unlock_null | done | done | cbn; lia].
  - do 2 eexists. split_and!; [by eapply N_unlock | done | done | cbn; lia].
Qed.

(** A capture thread at the lock can take it, or the holder gets on. *)
Lemma owner_progress a s f :
  rel a s -> sy_capture a = PLock f ->
  (exists b, capture_step bo a None b /\ (capture_measure b < capture_measure a)%nat) \/
  exists e b, (network_step bo a e b \/ main_step a e b) /\ sy_capture b = PLock f /\
    (owner_measure b < owner_measure a)%nat.
Proof.
  intros Hrel Hp. pose proof Hrel as [_ (L1 & L2 & L3) Hr _].
  destruct (sy_owner a) as [[]|] eqn:Ho.
  - destruct a; cbn in *; subst. done.
  - right. destruct (network_owner_progress a s Hrel Ho) as (e & b & H1 & H2 & _ & H3).
    exists e, b. split_and!; [by left | congruence | done].
  - right. destruct a as [q o p c m h]; cbn in *. subst p o. cbn in *. destruct m; try done.
    + do 2 eexists. split_and!; [by eapply or_intror, M_set | done | cbn; lia].
    + do 2 eexists. split_and!; [by eapply or_intror, M_unlock | done | cbn; lia].
  - left. destruct a; cbn in *; subst. eexists. split; [by constructor | cbn; lia].
Qed.
End Progress.

(** ** A run for the witnesses *)

Lemma run_cons_silent bo a b tr c : sys_step bo a None b -> run bo b tr c -> run bo a tr c.
Proof.
  intros H. induction 1; [| by eapply run_silent; eauto | by eapply run_event; eauto].
  eapply run_silent; [constructor | done].
Qed.

Lemma run_cons_event bo a e b tr c :
  sys_step bo a (Some e) b -> run bo b tr c -> run bo a (e :: tr) c.
Proof.
  intros H. induction 1; [| by eapply run_silent; eauto |].
  - apply (run_event bo a [] a e a0); [constructor | done].
  - rewrite app_comm_cons. eapply run_event; eauto.
Qed.

Ltac demo_capture := first
  [ eapply run_cons_silent; [apply By_capture; econstructor; reflexivity|]
  | eapply run_cons_event; [apply By_capture; econstructor; reflexivity|] ].
Ltac demo_network := first
  [ eapply run_cons_silent; [apply By_network; econstructor; (reflexivity || discriminate)|]
  | eapply run_cons_event; [apply By_network; econstructor; (reflexivity || discriminate)|] ].

Definition demo_trace : list event := [EPush (demo_frame 1) true; EPop (demo_frame 1)].

(** Frame 1 is pushed and popped, its packet is outstanding, and the capture
    thread is about to write the payload of frame 2. *)
Lemma demo_run : exists b p,
  run ORDER_LITTLE_ENDIAN (sys_init demo_queue) demo_trace b /\
  sy_capture b = PPayload (demo_frame 2) /\ sy_network b = CIdle /\ sy_packets b = [p].
Proof.
  do 2 eexists. split_and!.
  - unfold sys_init, demo_trace.
    eapply run_cons_silent; [apply By_capture, (S_call _ _ _ _ _ _ (demo_frame 1)), demo_frame_ok; lia|].
    do 9 demo_capture.
    eapply run_cons_silent; [apply By_network, (N_call _ _ _ _ _ _ 1000)|].
    do 4 demo_network.
    eapply run_cons_silent; [apply By_network, N_alloc|].
    eapply run_cons_silent; [apply By_capture, (S_call _ _ _ _ _ _ (demo_frame 2)), demo_frame_ok; lia|].
    do 5 demo_capture. constructor.
  - reflexivity.
  - reflexivity.
  - reflexivity.
Qed.

(** ** Properties *)

(** C1: every interleaving of the capture, network and main threads is a run of
    the abstract queue: its events, in the order of the linearisation points,
    are events of atomic pushes, pops, releases and shutdowns, and between
    pushes the slots hold what the abstract queue holds. *)
Theorem ring_linearizable bo q tr b :
  ring_rep bo q sp_empty -> run bo (sys_init q) tr b ->
  exists s, spec_run (capacity_ q) sp_empty tr s /\
    (sy_capture b = PIdle -> ring_rep bo (sy_q b) s).
Proof.
  intros R Hr. destruct (run_rel bo q tr b R Hr) as (s & Hrel & Hsp). exists s. split; [done|].
  intros E. pose proof (rel_capture _ _ _ _ _ _ Hrel) as Hc. by rewrite E in Hc.
Qed.

Lemma ring_linearizable_witness :
  exists b s, run ORDER_LITTLE_ENDIAN (sys_init demo_queue) demo_trace b /\
    spec_run 2 sp_empty demo_trace s.
Proof.
  destruct demo_run as (b & p & Hr & _).
  destruct (ring_linearizable ORDER_LITTLE_ENDIAN demo_queue demo_trace b demo_rep Hr) as (s & H & _).
  exists b, s. split; [exact Hr | exact H].
Defined.

(** C10: in no reachable state is any thread about to access memory outside the
    mapped region or the flag array: slot writes, slot reads, packet reads and
    releases all stay inside. *)
Theorem ring_never_faults bo q tr b :
  ring_rep bo q sp_empty -> run bo (sys_init q) tr b -> ~ faulty bo b.
Proof.
  intros R Hr. destruct (run_rel bo q tr b R Hr) as (s & Hrel & _).
  pose proof Hrel as [(Hc & Hm & Hs) Hl Hcap Hp]. intros [Hf|[Hf|Hf]].
  - destruct (sy_capture b) eqn:E; unfold capture_faulty in Hf; rewrite E in Hf; try done.
    all: destruct (capture_progress bo _ _ _ b s Hrel) as (e & c & Hst & _);
      [by rewrite E | by rewrite E|]; destruct b as [bq o p c' m h]; cbn in *; subst p;
      inversion Hst; simplify_eq/=; try (destruct Hf; congruence); try congruence.
    all: match goal with H : mmap_base_ _ = Some _ |- _ => rewrite H in Hf end; cbn in Hf; congruence.
  - unfold network_faulty in Hf. destruct (sy_network b) eqn:E; try done.
    + destruct Hf as [Hne Hf]. destruct b as [bq o p c' m h]; cbn in *; subst.
      assert (capture_locks p = false) as Hout.
      { eapply capture_outside; [done|]. by left. }
      apply capture_rel_unlocked in Hcap as [R' _]; [|done].
      destruct (sp_take s) as [[[t g] s']|] eqn:Et.
      * destruct (rep_take bo _ s t g s' R' Et) as (q' & Etk & _).
        assert (take_tail bo (lag p bq) = None) as Hn
          by (destruct p; cbn [lag]; rewrite ?take_tail_drop_new; by rewrite Hf).
        congruence.
      * unfold sp_take in Et. pose proof (rep_count _ _ _ R').
        destruct (sp_items s); [|done]. destruct p; cbn in *; lia.
    + destruct (rel_packet bo _ _ _ b s p Hrel) as (t & f & -> & Hh); [rewrite E; set_solver|].
      destruct (capture_rel_release bo _ _ _ _ s t f Hc Hcap Hh) as (fl & Er & _).
      cbn in Hf. congruence.
  - destruct Hf as (p & Hin & Hf).
    destruct (rel_packet bo _ _ _ b s p Hrel) as (t & f & -> & Hh); [set_solver|].
    destruct Hf as [Hf|Hf].
    + pose proof (rel_shows bo _ _ _ b s t f Hrel Hh) as Hsh.
      apply packet_frame_bytes in Hsh. congruence.
    + destruct (capture_rel_release bo _ _ _ _ s t f Hc Hcap Hh) as (fl & Er & _).
      cbn in Hf. congruence.
Qed.

Lemma ring_never_faults_witness :
  exists b, sy_capture b = PPayload (demo_frame 2) /\ ~ faulty ORDER_LITTLE_ENDIAN b.
Proof.
  destruct demo_run as (b & p & Hr & E & _). exists b. split; [exact E|].
  apply (ring_never_faults ORDER_LITTLE_ENDIAN demo_queue demo_trace b demo_rep Hr).
Defined.

(** C11: no data race on slot memory: while the capture thread writes a slot's
    header or payload, the bytes of every outstanding packet (and of a packet
    that [pop] is about to return) lie outside that slot. *)
Theorem slot_writes_race_free bo q tr b p f :
  ring_rep bo q sp_empty -> run bo (sys_init q) tr b ->
  sy_capture b = PHeader f \/ sy_capture b = PPayload f ->
  p ∈ in_flight (sy_network b) ++ sy_packets b ->
  let lo := slotHdr (slot_stride_ (sy_q b)) (head_ (sy_q b)) in
  pkt_data p + pkt_len p <= lo \/ lo + sizeof_SlotHeader + f_len f <= pkt_data p.
Proof.
  intros R Hr Hpc Hin lo. destruct (run_rel bo q tr b R Hr) as (s & Hrel & _).
  pose proof Hrel as [(Hc & Hm & Hs) _ Hcap _].
  destruct (rel_packet bo _ _ _ b s p Hrel Hin) as (t & g & -> & Hh).
  assert (sp_ok (capacity_ q) s /\ frame_ok (max_frame_size_ q) f /\
    ring_rep bo (sy_q b) (sp_make_room (capacity_ q) s) /\ sp_blocked (capacity_ q) s = false)
    as (Hok & Hf & R' & Hb).
  { destruct Hpc as [E|E]; rewrite E in Hcap; cbn in Hcap; tauto. }
  assert (sp_held (sp_make_room (capacity_ q) s) !! t = Some g) as Hh' by by rewrite held_make_room.
  pose proof (rep_geo _ _ _ R') as Hg. pose proof (geo_cap _ Hg) as Hpos. rewrite Hc in Hpos.
  pose proof (ok_held _ _ Hok _ _ Hh) as Hw.
  assert (t <> sp_next s - capacity_ q) as Hne.
  { intros ->. unfold sp_blocked in Hb. by rewrite Hh in Hb. }
  assert (t mod capacity_ q <> head_ (sy_q b)) as Hslot.
  { rewrite (rep_head _ _ _ R'), Hc, sp_next_make_room by done. intros He.
    apply (ticket_slot_inj _ (sp_next s + 1)) in He; unfold sp_next in *; lia. }
  assert (sp_live (sp_make_room (capacity_ q) s) t = Some g) as Hl.
  { pose proof (ok_held _ _ (rep_ok _ _ _ R') _ _ Hh'). unfold sp_live. by rewrite decide_False by lia. }
  apply (rep_live _ _ _ R') in Hl as [_ Hgok]. rewrite Hm in Hgok.
  pose proof (slots_disjoint _ (t mod capacity_ q) (head_ (sy_q b)) Hg) as Hdis.
  rewrite Hc in Hdis. specialize (Hdis ltac:(by apply Z.mod_pos_bound)).
  pose proof (rep_head_range _ _ _ R') as Hhr. rewrite Hc in Hhr. specialize (Hdis Hhr Hslot).
  pose proof (geo_stride _ Hg). rewrite Hm in *. pose proof (fok_len _ _ Hf). pose proof (fok_len _ _ Hgok).
  subst lo. cbn [pkt_data pkt_len held_packet]. rewrite <- Hs, slotData_slotHdr.
  assert (0 <= sizeof_SlotHeader) by done. lia.
Qed.

Lemma slot_writes_race_free_witness :
  exists b p, sy_capture b = PPayload (demo_frame 2) /\ sy_packets b = [p] /\
    (pkt_data p + pkt_len p <= slotHdr (slot_stride_ (sy_q b)) (head_ (sy_q b)) \/
     slotHdr (slot_stride_ (sy_q b)) (head_ (sy_q b)) + sizeof_SlotHeader + f_len (demo_frame 2)
       <= pkt_data p).
Proof.
  destruct demo_run as (b & p & Hr & E & Ec & Ep). exists b, p. split_and!; [exact E | exact Ep |].
  apply (slot_writes_race_free ORDER_LITTLE_ENDIAN demo_queue demo_trace b p (demo_frame 2) demo_rep Hr).
  - right. exact E.
  - rewrite Ec, Ep. left.
Defined.

Lemma spec_run_held cap tr s t f :
  spec_run cap sp_empty tr s -> sp_held s !! t = Some f -> f ∈ popped tr.
Proof.
  remember sp_empty as s0 eqn:E0. intros Hr. revert t f.
  induction Hr as [s|s tr s' e s'' Hr IH Hs]; intros t f Hh.
  - subst. cbn in Hh. by rewrite lookup_empty in Hh.
  - specialize (IH E0). unfold popped. rewrite omap_snoc. apply elem_of_app.
    destruct Hs as [g s'|u g s' s'' Ht|u g s' Hu|s']; cbn in *.
    + left. eapply IH. unfold sp_push in Hh. destruct (sp_shut s'), (sp_blocked cap s'); cbn in Hh;
        rewrite ?held_make_room in Hh; done.
    + unfold sp_take in Ht. destruct (sp_items s') eqn:Ei; [done|]. injection Ht as <- <- <-.
      cbn in Hh. apply lookup_insert_Some in Hh as [[_ <-]|[_ Hh]]; [right; by left | left; by eapply IH].
    + apply lookup_delete_Some in Hh as [_ Hh]. left. by eapply IH.
    + left. by eapply IH.
Qed.

(** Only the slot writes of [push] change the region. *)
Lemma step_mmap bo a e b :
  sys_step bo a e b ->
  mmap_base_ (sy_q b) = mmap_base_ (sy_q a) \/
  e = None /\ sy_packets b = sy_packets a /\ sy_network b = sy_network a.
Proof.
  intros [H|H|H|H]; destruct H; cbn; auto; left.
  - unfold take_tail in *. by match goal with H : _ = Some (_, _) |- _ => simplify_bind H end.
  - by apply releaseSlot_Some in H as (? & _ & ->).
  - by apply releaseSlot_Some in H as (? & _ & ->).
Qed.

(** No step of any thread changes what a packet in the network thread's hands
    shows. *)
Lemma rel_view_stable bo cap max stride a e b s p :
  sys_rel bo cap max stride a s -> sys_step bo a e b -> p ∈ in_flight (sy_network a) ++ sy_packets a ->
  packet_frame (sy_q b) p = packet_frame (sy_q a) p.
Proof.
  intros Hrel Hst Hin.
  destruct (rel_packet bo _ _ _ a s p Hrel Hin) as (t & f & -> & Hh).
  destruct (step_mmap bo a e b Hst) as [E|(-> & _ & _)].
  - unfold packet_frame, packet_bytes. by rewrite E.
  - destruct (simulation bo _ _ _ a None b s Hst Hrel) as (s' & Hrel' & ->).
    trans (Some f); [by eapply rel_shows | symmetry; by eapply rel_shows].
Qed.

(** The frames behind outstanding packets are admissible. *)
Lemma rel_frame_ok bo cap max stride a s t f :
  sys_rel bo cap max stride a s -> sp_held s !! t = Some f -> frame_ok max f.
Proof.
  intros [(Hc & Hm & Hs) _ Hr _] Hh.
  destruct (capture_rel_view bo cap max _ _ _ Hr) as (s1 & R1 & Hh1). rewrite <- Hh1 in Hh.
  assert (sp_live s1 t = Some f) as Hl.
  { unfold sp_live. pose proof (ok_held _ _ (rep_ok _ _ _ R1) _ _ Hh) as Hw.
    by rewrite decide_False by lia. }
  apply (rep_live _ _ _ R1) in Hl as [_ Hok].
  replace max with (max_frame_size_ (lag (sy_capture a) (sy_q a))); [done|]. by destruct (sy_capture a).
Qed.

(** C12: zero-copy reads are stable: whatever step any thread makes, the bytes
    that an outstanding packet shows stay the same, and they are a frame that
    [pop] returned. *)
Theorem packet_view_stable bo q tr a e b p :
  ring_rep bo q sp_empty -> run bo (sys_init q) tr a -> sys_step bo a e b -> p ∈ sy_packets a ->
  packet_frame (sy_q b) p = packet_frame (sy_q a) p /\
  exists f, packet_frame (sy_q a) p = Some f /\ f ∈ popped tr.
Proof.
  intros R Hr Hst Hin. destruct (run_rel bo q tr a R Hr) as (s & Hrel & Hsp).
  split; [eapply rel_view_stable; [done | done | set_solver]|].
  destruct (rel_packet bo _ _ _ a s p Hrel) as (t & f & -> & Hh); [set_solver|].
  exists f. split; [by eapply rel_shows | by eapply spec_run_held].
Qed.

Lemma packet_view_stable_witness :
  exists a b p, sys_step ORDER_LITTLE_ENDIAN a None b /\ sy_packets a = [p] /\
    packet_frame (sy_q b) p = packet_frame (sy_q a) p.
Proof.
  destruct demo_run as (a & p & Hr & E & _ & Ep).
  destruct (run_rel _ _ _ a demo_rep Hr) as (s & Hrel & _).
  destruct (capture_progress ORDER_LITTLE_ENDIAN _ _ _ a s Hrel) as (e & b & Hst & _);
    [rewrite E; discriminate | rewrite E; discriminate |].
  assert (e = None) as He.
  { destruct a as [qa o pc c m h]; cbn in E; subst pc. inversion Hst; reflexivity. }
  rewrite He in Hst. exists a, b, p. split_and!; [apply By_capture; exact Hst | exact Ep |].
  apply (packet_view_stable ORDER_LITTLE_ENDIAN demo_queue demo_trace a None b p demo_rep Hr).
  - apply By_capture. exact Hst.
  - rewrite Ep. left.
Defined.

(** Frames are delivered in order and without duplication: what the pops of
    any run returned is a subsequence of what its pushes accepted. *)
Theorem fifo_delivery bo q tr b :
  ring_rep bo q sp_empty -> run bo (sys_init q) tr b -> popped tr `sublist_of` accepted tr.
Proof.
  intros R Hr. destruct (run_rel bo q tr b R Hr) as (s & _ & Hsp).
  destruct (spec_run_fifo (capacity_ q) tr s) as [_ (_ & _ & _ & H)];
    [apply (rep_geo _ _ _ R) | done |].
  trans (take (Z.to_nat (sp_base s)) (accepted tr)); [done|]. apply sublist_take.
Qed.

Lemma fifo_delivery_witness : popped demo_trace `sublist_of` accepted demo_trace.
Proof.
  destruct demo_run as (b & p & Hr & _).
  exact (fifo_delivery ORDER_LITTLE_ENDIAN demo_queue demo_trace b demo_rep Hr).
Defined.

(** C18: no wakeup is lost: when the network thread sleeps in [pop] and has not
    been signalled, either the queue is empty and not shut down, or the signal
    (or broadcast) is still to come from the thread that pushed or shut down. *)
Theorem no_lost_wakeup bo q tr b t :
  ring_rep bo q sp_empty -> run bo (sys_init q) tr b -> sy_network b = CSleep t false ->
  (count_ (sy_q b) = 0 /\ shutdown_ (sy_q b) = false) \/
  sy_capture b = PSignal \/ sy_main b = MUnlock \/ sy_main b = MBroadcast.
Proof.
  intros R Hr Hs. assert (wakeup_ok b) as Hw.
  { clear t Hs. remember (sys_init q) as a eqn:Ea.
    assert (forall tr b, run bo a tr b -> 0 < capacity_ (sy_q b)) as Hcap.
    { intros tr' b' Hr'. subst a. destruct (run_rel bo q tr' b' R Hr') as (s & Hrel & _).
      destruct (rel_static _ _ _ _ _ _ Hrel) as (-> & _). apply (rep_geo _ _ _ R). }
    induction Hr as [a|a tr b c Hr IH Hst|a tr b e c Hr IH Hst]; [by subst|..];
      (eapply wakeup_step; [done | by eapply Hcap | by apply IH]). }
  unfold wakeup_ok in Hw. rewrite Hs in Hw. destruct Hw as [Hw|Hw]; [|by right].
  left. unfold must_wait in Hw. apply andb_true_iff in Hw as [?%Z.eqb_eq ?%negb_true_iff]. done.
Qed.

Lemma no_lost_wakeup_witness :
  exists b, run ORDER_LITTLE_ENDIAN (sys_init demo_queue) [] b /\ sy_network b = CSleep 1000 false /\
    ((count_ (sy_q b) = 0 /\ shutdown_ (sy_q b) = false) \/
     sy_capture b = PSignal \/ sy_main b = MUnlock \/ sy_main b = MBroadcast).
Proof.
  assert (exists b, run ORDER_LITTLE_ENDIAN (sys_init demo_queue) [] b /\
    sy_network b = CSleep 1000 false) as (b & Hr & E).
  { eexists. split.
    - unfold sys_init. eapply run_cons_silent; [apply By_network, (N_call _ _ _ _ _ _ 1000)|].
      do 2 demo_network. constructor.
    - reflexivity. }
  exists b. split_and!; [exact Hr | exact E |].
  exact (no_lost_wakeup ORDER_LITTLE_ENDIAN demo_queue [] b 1000 demo_rep Hr E).
Defined.

(** The capture thread never blocks inside [push] except for the mutex: in
    every reachable state it either takes a step that brings it nearer to its
    return, or it waits at the lock and the thread holding the mutex has a step
    that brings it nearer to its unlock. *)
Theorem push_makes_progress bo q tr a :
  ring_rep bo q sp_empty -> run bo (sys_init q) tr a -> sy_capture a <> PIdle ->
  (exists e b, capture_step bo a e b /\ (capture_measure b < capture_measure a)%nat) \/
  (exists e b, sys_step bo a e b /\ sy_capture b = sy_capture a /\
     (owner_measure b < owner_measure a)%nat).
Proof.
  intros R Hr Hne. destruct (run_rel bo q tr a R Hr) as (s & Hrel & _).
  destruct (sy_capture a) eqn:E; try done;
    try (left; apply (capture_progress bo _ _ _ a s Hrel); by rewrite E).
  destruct (owner_progress bo _ _ _ a s f Hrel E) as [(b & Hb)|(e & b & Hs & Hb & Hm)]; [left; eauto|right].
  exists e, b. split_and!; [|done..]. destruct Hs; [by apply By_network | by apply By_main].
Qed.

Lemma push_makes_progress_witness :
  exists a, sy_capture a = PPayload (demo_frame 2) /\
    ((exists e b, capture_step ORDER_LITTLE_ENDIAN a e b /\ (capture_measure b < capture_measure a)%nat) \/
     (exists e b, sys_step ORDER_LITTLE_ENDIAN a e b /\ sy_capture b = sy_capture a /\
        (owner_measure b < owner_measure a)%nat)).
Proof.
  destruct demo_run as (a & p & Hr & E & _). exists a. split; [exact E|].
  apply (push_makes_progress ORDER_LITTLE_ENDIAN demo_queue demo_trace a demo_rep Hr).
  rewrite E. discriminate.
Defined.
