(* ===== verification/ThreadStats.v ===== *)
(** * The queue's counters under every interleaving

    What [frames_pushed_], [frames_dropped_] and [frames_popped_] count, stated
    on the events of a run. *)

From S2P Require Import Prelude Bytes RingQueue RingSpec RingRefine RingProps RingThreads ThreadProps.

Definition has_shutdown (tr : list event) : bool :=
  existsb (fun e => match e with EShutdown => true | _ => false end) tr.

(** Frames offered while the queue was open. *)
Fixpoint offered_open (tr : list event) : Z :=
  match tr with
  | [] => 0
  | EShutdown :: _ => 0
  | EPush _ _ :: tr => 1 + offered_open tr
  | _ :: tr => offered_open tr
  end.

Definition count_of {A} (l : list A) : Z := Z.of_nat (length l).

Lemma has_shutdown_snoc tr e :
  has_shutdown (tr ++ [e]) = has_shutdown tr || match e with EShutdown => true | _ => false end.
Proof. unfold has_shutdown. rewrite existsb_app. cbn. by rewrite orb_false_r. Qed.

Lemma offered_open_snoc tr e :
  offered_open (tr ++ [e]) =
  offered_open tr + match e with EPush _ _ => if has_shutdown tr then 0 else 1 | _ => 0 end.
Proof.
  induction tr as [|e' tr IH]; cbn; [destruct e; cbn; lia|].
  destruct e'; cbn; rewrite ?IH; unfold has_shutdown; cbn; try lia. destruct e; lia.
Qed.

Lemma count_omap_snoc {A B} (g : A -> option B) l x :
  count_of (omap g (l ++ [x])) = count_of (omap g l) + match g x with Some _ => 1 | None => 0 end.
Proof. unfold count_of. rewrite omap_snoc, length_app. destruct (g x); cbn; lia. Qed.

(** The abstract counters, exactly. *)
Record spec_counts (tr : list event) (s : spec) : Prop := mkSpecCounts {
  sc_shut : sp_shut s = has_shutdown tr;
  sc_pushed : sp_pushed s = count_of (accepted tr);
  sc_popped : sp_popped s = count_of (popped tr);
  sc_total : offered_open tr = sp_popped s + count_of (sp_items s) + sp_dropped s
}.

Lemma spec_counts_push cap tr s f :
  0 < cap -> spec_counts tr s -> spec_counts (tr ++ [EPush f (sp_push cap f s).1]) (sp_push cap f s).2.
Proof.
  intros Hcap [H1 H2 H3 H4]. unfold sp_push.
  destruct (sp_shut s) eqn:Es; [|destruct (sp_blocked cap s)]; cbn [fst snd].
  1,2: constructor; rewrite ?has_shutdown_snoc, ?offered_open_snoc; unfold accepted, popped;
    rewrite ?count_omap_snoc; cbn [accepted_of popped_of sp_reject sp_shut sp_pushed sp_popped sp_items sp_dropped];
    rewrite <- ?H1, ?orb_false_r; unfold accepted, popped in *; try done; lia.
  unfold sp_make_room. destruct (sp_full cap s) eqn:Ef;
    constructor; rewrite ?has_shutdown_snoc, ?offered_open_snoc; unfold accepted, popped;
    rewrite ?count_omap_snoc;
    cbn [accepted_of popped_of sp_append sp_evict sp_shut sp_pushed sp_popped sp_items sp_dropped];
    rewrite <- ?H1, ?orb_false_r; unfold accepted, popped in *; try done; try lia;
    rewrite H4; unfold count_of; rewrite length_app; cbn [length]; [|lia].
  unfold sp_full in Ef. apply Z.leb_le in Ef. destruct (sp_items s); cbn [length tail] in *; lia.
Qed.

Lemma spec_counts_step cap tr s e s' :
  0 < cap -> spec_step cap s e s' -> spec_counts tr s -> spec_counts (tr ++ [e]) s'.
Proof.
  intros Hcap Hs Hc. destruct Hs as [f s|t f s s' Ht|t f s Hh|s]; [by apply spec_counts_push|..];
    destruct Hc as [H1 H2 H3 H4].
  - unfold sp_take in Ht. destruct (sp_items s) as [|g gs] eqn:E; [done|]. injection Ht as <- <- <-.
    constructor; rewrite ?has_shutdown_snoc, ?offered_open_snoc; unfold accepted, popped;
      rewrite ?count_omap_snoc; cbn; rewrite ?orb_false_r; unfold accepted, popped in *; try done; try lia.
    rewrite H4. unfold count_of. cbn [length]. lia.
  - constructor; rewrite ?has_shutdown_snoc, ?offered_open_snoc; unfold accepted, popped;
      rewrite ?count_omap_snoc; cbn; rewrite ?orb_false_r; unfold accepted, popped in *; try done; lia.
  - constructor; rewrite ?has_shutdown_snoc, ?offered_open_snoc; unfold accepted, popped;
      rewrite ?count_omap_snoc; cbn; rewrite ?orb_true_r; unfold accepted, popped in *; try done; lia.
Qed.

Lemma spec_run_counts cap tr s : 0 < cap -> spec_run cap sp_empty tr s -> spec_counts tr s.
Proof.
  intros Hc Hr. remember sp_empty as s0 eqn:E0. induction Hr as [s|s tr s' e s'' Hr IH Hs].
  - subst. by constructor.
  - eapply spec_counts_step; eauto.
Qed.

(** Eviction moves a frame from the queue to the dropped ones. *)
Lemma make_room_counts cap s :
  0 < cap -> let s1 := sp_make_room cap s in
  sp_pushed s1 = sp_pushed s /\ sp_popped s1 = sp_popped s /\
  count_of (sp_items s1) + sp_dropped s1 = count_of (sp_items s) + sp_dropped s.
Proof.
  intros Hc. unfold sp_make_room, sp_full. destruct (Z.leb_spec cap (Z.of_nat (length (sp_items s)))); [|done].
  cbn. split_and!; [done..|]. unfold count_of. destruct (sp_items s); cbn [length tail] in *; lia.
Qed.

(** The counters of the queue, as soon as a drop that [push] has decided is
    counted, are those of the abstract queue after, or before, an eviction. *)
Lemma rel_counters bo cap max stride a s :
  0 < cap -> sys_rel bo cap max stride a s ->
  exists s1, ring_rep bo (lag (sy_capture a) (sy_q a)) s1 /\
    sp_pushed s1 = sp_pushed s /\ sp_popped s1 = sp_popped s /\
    count_of (sp_items s1) + sp_dropped s1 = count_of (sp_items s) + sp_dropped s.
Proof.
  intros Hcap [_ _ Hr _]. pose proof (make_room_counts cap s Hcap) as Hm. cbv zeta in Hm.
  destruct (sy_capture a); cbn in *; destruct_and?; eauto 6.
  match goal with H : _ \/ _ |- _ => destruct H end; eauto 6.
Qed.

(** C20: the statistics account for every frame. The frames here are those of
    admissible size: [push] refuses an empty or oversized one before it takes
    the mutex, and counts it nowhere. In every reachable state, the capture
    thread inside [push] or not, the three counters (modulo 2^64) are: pushed,
    the number of pushes that were accepted; popped, the number of frames taken
    from the queue; dropped, such that every frame offered before the shutdown
    is popped, dropped or still queued. ([lag] is the identity except between
    the unlock of a drop path and the increment that follows it, where it makes
    this increment.) *)
Theorem stats_account bo q tr b :
  ring_rep bo q sp_empty -> run bo (sys_init q) tr b ->
  getStats (lag (sy_capture b) (sy_q b)) =
    mkStats (u64 (count_of (accepted tr)))
            (u64 (offered_open tr - count_of (popped tr) - count_ (sy_q b)))
            (u64 (count_of (popped tr))) /\
  0 <= count_ (sy_q b) <= capacity_ q /\
  count_of (popped tr) + count_ (sy_q b) <= offered_open tr.
Proof.
  intros R Hr. destruct (run_rel bo q tr b R Hr) as (s & Hrel & Hsp).
  pose proof (geo_cap _ (rep_geo _ _ _ R)) as Hcap.
  destruct (rel_counters _ _ _ _ _ _ Hcap Hrel) as (s1 & R1 & Hp & Ho & Hd).
  destruct (spec_run_counts _ _ _ Hcap Hsp) as [_ H2 H3 H4].
  assert (count_ (lag (sy_capture b) (sy_q b)) = count_ (sy_q b) /\
    capacity_ (lag (sy_capture b) (sy_q b)) = capacity_ q) as [Hlc Hlq].
  { destruct Hrel as [(<- & _) _ _ _]. by destruct (sy_capture b). }
  pose proof (rep_count _ _ _ R1) as Hcount. pose proof (rep_ok _ _ _ R1) as Hok. rewrite Hlq in Hok. rewrite Hlc in Hcount.
  unfold count_of in *. split_and!.
  - unfold getStats. rewrite (rep_pushed _ _ _ R1), (rep_popped _ _ _ R1), (rep_dropped _ _ _ R1), Hp, Ho, H2, H3.
    f_equal. f_equal. lia.
  - lia.
  - rewrite Hcount. apply Hok.
  - pose proof (ok_dropped _ _ Hok). pose proof (ok_popped _ _ Hok). lia.
Qed.

Lemma demo_idle_run : exists b,
  run ORDER_LITTLE_ENDIAN (sys_init demo_queue) [EPush (demo_frame 1) true; EPop (demo_frame 1)] b /\
  sy_capture b = PIdle.
Proof.
  eexists. split.
  - unfold sys_init.
    eapply run_cons_silent; [apply By_capture, (S_call _ _ _ _ _ _ (demo_frame 1)), demo_frame_ok; lia|].
    do 9 demo_capture.
    eapply run_cons_silent; [apply By_network, (N_call _ _ _ _ _ _ 1000)|].
    do 4 demo_network. constructor.
  - reflexivity.
Qed.

Example stats_account_witness :
  exists b, sy_capture b = PIdle /\ st_pushed (getStats (sy_q b)) = 1 /\ st_popped (getStats (sy_q b)) = 1.
Proof.
  destruct demo_idle_run as (b & Hr & Hi). exists b. split; [exact Hi|].
  destruct (stats_account ORDER_LITTLE_ENDIAN demo_queue _ b demo_rep Hr) as [H _].
  rewrite Hi in H. change (lag PIdle (sy_q b)) with (sy_q b) in H. rewrite H. split; reflexivity.
Defined.
