(* ===== verification/Text.v ===== *)
(** * Text as the C library reads and writes it

    C strings, decimal output ([snprintf] with %lu, %08lu, %d) and decimal input
    ([strtol], [atoi]), on lists of bytes. *)

From S2P Require Import Prelude.
From Stdlib Require Import Strings.Byte.

#[export] Instance byte_eq_dec : EqDecision byte := Stdlib.Strings.Byte.byte_eq_dec.

(** The C string that starts at the head of an array. *)
Fixpoint c_string (bs : list byte) : list byte :=
  match bs with
  | [] => []
  | b :: bs => if decide (b = x00) then [] else b :: c_string bs
  end.

Definition newline : list byte := [x0a].

(** ** Output *)

Definition digit (d : Z) : byte := byte.of_Z (48 + d).

Fixpoint dec_digits (fuel : nat) (n : Z) : list byte :=
  match fuel with
  | O => []
  | S fuel => if n <? 10 then [digit n] else dec_digits fuel (n / 10) ++ [digit (n mod 10)]
  end.

(** %lu: twenty digits hold every 64-bit value. *)
Definition decimal (n : Z) : list byte := dec_digits 20 n.

(** %d, %ld *)
Definition signed_decimal (n : Z) : list byte :=
  if n <? 0 then chars "-" ++ decimal (- n) else decimal n.

(** %0<k>lu *)
Definition pad_zero (k : nat) (bs : list byte) : list byte := replicate (k - length bs) (digit 0) ++ bs.

(** %0<k>d *)
Definition padded (k : nat) (n : Z) : list byte :=
  if n <? 0 then chars "-" ++ pad_zero (k - 1) (decimal (- n)) else pad_zero k (decimal n).

(** snprintf(buf + off, size, ...) of a given text: stores at most [size] - 1
    characters and a NUL, returns the length of the whole text. *)
Definition snprintf_at (buf : list byte) (off size : Z) (text : list byte) : option (list byte * Z) :=
  let n := Z.of_nat (length text) in
  if size <=? 0 then Some (buf, n)
  else buf ← write_mem buf off (take (Z.to_nat (size - 1)) text ++ [x00]); Some (buf, n).

(** The sign of strcmp, on NUL-free texts. *)
Fixpoint strcmp (s t : list byte) : comparison :=
  match s, t with
  | [], [] => Eq
  | [], _ :: _ => Lt
  | _ :: _, [] => Gt
  | a :: s, b :: t =>
      match byte.unsigned a ?= byte.unsigned b with Eq => strcmp s t | r => r end
  end.

(** ** Input *)

Definition is_digit (b : byte) : bool :=
  let c := byte.unsigned b in (48 <=? c) && (c <=? 57).

Definition is_space (b : byte) : bool :=
  let c := byte.unsigned b in (c =? 32) || ((9 <=? c) && (c <=? 13)).

Definition digits_value (bs : list byte) : Z :=
  foldl (fun acc b => acc * 10 + (byte.unsigned b - 48)) 0 bs.

Fixpoint span (p : byte -> bool) (bs : list byte) : list byte * list byte :=
  match bs with
  | [] => ([], [])
  | b :: rest => if p b then let r := span p rest in (b :: r.1, r.2) else ([], bs)
  end.

Definition LONG_MAX : Z := 2 ^ 63 - 1.
Definition LONG_MIN : Z := - 2 ^ 63.

(** strtol(s, &end, 10): the value, saturated to [long], and what [end] points
    to; without digits [end] is [s]. *)
Definition strtol (s : list byte) : Z * list byte :=
  let body := (span is_space s).2 in
  let '(neg, body) := match body with
                      | b :: rest => if decide (b = x2d) then (true, rest)
                                     else if decide (b = x2b) then (false, rest) else (false, body)
                      | [] => (false, [])
                      end in
  let '(ds, rest) := span is_digit body in
  match ds with
  | [] => (0, s)
  | _ => let v := digits_value ds in
         (Z.max LONG_MIN (Z.min LONG_MAX (if neg then - v else v)), rest)
  end.

(** glibc's atoi: the value of strtol converted to [int]. *)
Definition atoi (s : list byte) : Z := i32 (strtol s).1.

(** ** Lemmas *)

Lemma digit_value d : 0 <= d < 10 -> byte.unsigned (digit d) = 48 + d.
Proof. intros. unfold digit. rewrite byte.unsigned_of_Z. apply Z.mod_small. lia. Qed.

Lemma digit_is_digit d : 0 <= d < 10 -> is_digit (digit d) = true.
Proof. intros. unfold is_digit. rewrite digit_value by done. lia. Qed.

Lemma digits_value_snoc bs d :
  0 <= d < 10 -> digits_value (bs ++ [digit d]) = digits_value bs * 10 + d.
Proof. intros. unfold digits_value. rewrite foldl_app. cbn. rewrite digit_value by done. lia. Qed.

Lemma div10 n : 10 <= n -> 0 <= n mod 10 < 10 /\ n / 10 < n /\ 0 <= n / 10 /\ n = n / 10 * 10 + n mod 10.
Proof. intros. pose proof (Z.div_mod n 10). pose proof (Z.mod_pos_bound n 10). lia. Qed.

Lemma dec_digits_value fuel n :
  0 <= n < 10 ^ Z.of_nat fuel -> digits_value (dec_digits fuel n) = n.
Proof.
  revert n. induction fuel as [|fuel IH]; intros n Hn; [cbn in *; lia|]. cbn [dec_digits].
  destruct (Z.ltb_spec n 10).
  - unfold digits_value. cbn [foldl]. rewrite digit_value by lia. lia.
  - destruct (div10 n) as (H1 & H2 & H3 & H4); [done|]. rewrite digits_value_snoc, IH by
      (rewrite ?Nat2Z.inj_succ, ?Z.pow_succ_r in Hn by lia; lia). lia.
Qed.

Lemma dec_digits_digits fuel n : 0 <= n -> Forall (fun b => is_digit b = true) (dec_digits fuel n).
Proof.
  revert n. induction fuel as [|fuel IH]; intros n Hn; [constructor|]. cbn [dec_digits].
  destruct (Z.ltb_spec n 10).
  - constructor; [apply digit_is_digit; lia | constructor].
  - destruct (div10 n) as (H1 & H2 & H3 & H4); [done|]. apply Forall_app_2; [by apply IH|].
    constructor; [by apply digit_is_digit | constructor].
Qed.

Lemma length_dec_digits fuel n : (length (dec_digits fuel n) <= fuel)%nat.
Proof.
  revert n. induction fuel as [|fuel IH]; intros n; [done|]. cbn [dec_digits].
  destruct (n <? 10); [cbn; lia|]. rewrite length_app. cbn. specialize (IH (n / 10)). lia.
Qed.

Lemma dec_digits_nonempty fuel n : (0 < length (dec_digits (S fuel) n))%nat.
Proof. cbn [dec_digits]. destruct (n <? 10); [cbn; lia|]. rewrite length_app. cbn. lia. Qed.

Lemma decimal_value n : in_width 64 n -> digits_value (decimal n) = n.
Proof. unfold in_width. intros. apply dec_digits_value. lia. Qed.

Lemma pad_zero_value k bs : digits_value (pad_zero k bs) = digits_value bs.
Proof.
  unfold pad_zero, digits_value. rewrite foldl_app. f_equal.
  induction (k - length bs)%nat as [|j IH]; [done|]. cbn [replicate foldl]. exact IH.
Qed.

Lemma pad_zero_digits k n : 0 <= n -> Forall (fun b => is_digit b = true) (pad_zero k (decimal n)).
Proof.
  intros. apply Forall_app_2; [|by apply dec_digits_digits].
  apply Forall_replicate. by apply digit_is_digit.
Qed.

Lemma length_pad_zero k bs : length (pad_zero k bs) = (k `max` length bs)%nat.
Proof. unfold pad_zero. rewrite length_app, length_replicate. lia. Qed.

Lemma pad_decimal_inj k n m :
  in_width 64 n -> in_width 64 m -> pad_zero k (decimal n) = pad_zero k (decimal m) -> n = m.
Proof.
  intros Hn Hm H. rewrite <- (decimal_value n), <- (decimal_value m) by done.
  by rewrite <- (pad_zero_value k (decimal n)), H, pad_zero_value.
Qed.

Lemma span_all p bs rest :
  Forall (fun b => p b = true) bs -> (forall b r, rest = b :: r -> p b = false) ->
  span p (bs ++ rest) = (bs, rest).
Proof.
  intros H Hr. induction H as [|b bs Hb _ IH]; cbn; [|by rewrite Hb, IH].
  destruct rest as [|b r]; [done|]. cbn. by rewrite (Hr b r).
Qed.

Lemma span_digits_not_space bs :
  Forall (fun b => is_digit b = true) bs -> span is_space bs = ([], bs).
Proof.
  destruct 1 as [|b bs Hb]; [done|]. cbn.
  replace (is_space b) with false; [done|]. unfold is_digit, is_space in *.
  destruct (byte.unsigned b =? 32) eqn:E; lia.
Qed.

(** Digits after an optional minus sign. *)
Lemma strtol_digits (neg : bool) ds :
  Forall (fun b => is_digit b = true) ds -> ds <> [] ->
  strtol ((if neg then [x2d] else []) ++ ds) =
    (Z.max LONG_MIN (Z.min LONG_MAX (if neg then - digits_value ds else digits_value ds)), []).
Proof.
  intros Hd Hne. destruct ds as [|b bs]; [done|].
  assert (span is_digit (b :: bs) = (b :: bs, [])) as Hs by (rewrite <- (app_nil_r (b :: bs)) at 1; by apply span_all).
  unfold strtol. destruct neg; cbn [app].
  - replace (span is_space (x2d :: b :: bs)) with ([] : list byte, x2d :: b :: bs) by reflexivity. cbn [snd].
    rewrite decide_True by done. by rewrite Hs.
  - rewrite span_digits_not_space by done. cbn [snd].
    assert (b <> x2d /\ b <> x2b) as [H1 H2].
    { inversion Hd as [|? ? Hb]; subst. split; intros ->; by vm_compute in Hb. }
    rewrite !decide_False by done. by rewrite Hs.
Qed.

Lemma decimal_nonempty n : decimal n <> [].
Proof. pose proof (dec_digits_nonempty 19 n) as H. fold (decimal n) in H. intros E. rewrite E in H. cbn in H. lia. Qed.

(** Reading back what %ld printed. *)
Lemma strtol_signed_decimal n : LONG_MIN <= n <= LONG_MAX -> strtol (signed_decimal n) = (n, []).
Proof.
  unfold LONG_MIN, LONG_MAX, signed_decimal. intros Hn. destruct (Z.ltb_spec n 0).
  - change (chars "-") with (if true then [x2d] else []).
    rewrite strtol_digits; [|by apply dec_digits_digits; lia | apply decimal_nonempty].
    rewrite decimal_value by (unfold in_width; lia). f_equal. unfold LONG_MIN, LONG_MAX. lia.
  - change (decimal n) with ((if false then [x2d] else []) ++ decimal n).
    rewrite strtol_digits; [|by apply dec_digits_digits; lia | apply decimal_nonempty].
    rewrite decimal_value by (unfold in_width; lia). f_equal. unfold LONG_MIN, LONG_MAX. lia.
Qed.

(** Reading back what %lu printed. *)
Lemma strtol_decimal n : 0 <= n <= LONG_MAX -> strtol (decimal n) = (n, []).
Proof.
  intros Hn. replace (decimal n) with (signed_decimal n); [|unfold signed_decimal; by rewrite (proj2 (Z.ltb_ge n 0)) by lia].
  apply strtol_signed_decimal. unfold LONG_MIN. lia.
Qed.

(** Reading back what %d printed. *)
Lemma atoi_signed_decimal n : - 2 ^ 31 <= n < 2 ^ 31 -> atoi (signed_decimal n) = n.
Proof. intros. unfold atoi. rewrite strtol_signed_decimal by (unfold LONG_MIN, LONG_MAX; lia). by apply i32_id. Qed.

Lemma atoi_range s : - 2 ^ 31 <= atoi s < 2 ^ 31.
Proof. unfold atoi, i32, swrap. pose proof (wrap_range 32 ((strtol s).1 + 2 ^ (32 - 1))) as H. unfold in_width in H. lia. Qed.
