(* ===== verification/Getopt.v ===== *)
(** * Command lines as getopt_long reads them

    The C library's getopt_long as both programs use it: options anywhere among
    the arguments, none with an optional argument, no flag pointers, operands
    ignored. A result is the option character and [optarg] (empty when the option
    takes no argument); errors give the character '?'. *)

From S2P Require Import Prelude Text.
From Stdlib Require Import Strings.Byte.

Definition option_read : Type := byte * list byte.

Inductive arg_kind := no_argument | required_argument.

#[export] Instance arg_kind_eq_dec : EqDecision arg_kind.
Proof. solve_decision. Defined.

(** A row of the [long_options] table. *)
Record long_option := mkLong { lo_name : list byte; lo_has_arg : arg_kind; lo_val : byte }.

(** Whether the short option takes an argument; [None]: there is no such option. *)
Fixpoint short_option (optstring : list byte) (c : byte) : option bool :=
  match optstring with
  | [] => None
  | b :: rest =>
      if decide (c = x3a \/ c = x3b) then None
      else if decide (b = c) then Some (match rest with x3a :: _ => true | _ => false end)
      else short_option rest c
  end.

Definition abbreviates (name : list byte) (o : long_option) : bool :=
  bool_decide (take (length name) (lo_name o) = name).

(** The row of a name or of an abbreviation that is not ambiguous. *)
Definition find_long (longs : list long_option) (name : list byte) : option long_option :=
  match List.find (fun o => bool_decide (lo_name o = name)) longs with
  | Some o => Some o
  | None =>
      match List.filter (abbreviates name) longs with
      | [] => None
      | o :: os =>
          if forallb (fun o' => bool_decide (lo_has_arg o' = lo_has_arg o /\ lo_val o' = lo_val o)) os
          then Some o else None
      end
  end.

Definition bad_option : option_read := (x3f, []).

(** "--body": the result, and whether the next argument was taken. *)
Definition long_result (longs : list long_option) (body : list byte) (next : option (list byte))
    : option_read * bool :=
  let '(name, rest) := span (fun b => negb (bool_decide (b = x3d))) body in
  match find_long longs name with
  | None => (bad_option, false)
  | Some o =>
      match lo_has_arg o, rest, next with
      | no_argument, [], _ => ((lo_val o, []), false)
      | no_argument, _ :: _, _ => (bad_option, false)
      | required_argument, _ :: value, _ => ((lo_val o, value), false)
      | required_argument, [], Some value => ((lo_val o, value), true)
      | required_argument, [], None => (bad_option, false)
      end
  end.

(** "-cs": the results, and the last option when its argument is still to come. *)
Fixpoint cluster (optstring cs : list byte) : list option_read * option byte :=
  match cs with
  | [] => ([], None)
  | c :: rest =>
      match short_option optstring c with
      | None => let r := cluster optstring rest in (bad_option :: r.1, r.2)
      | Some false => let r := cluster optstring rest in ((c, []) :: r.1, r.2)
      | Some true => match rest with [] => ([], Some c) | _ => ([(c, rest)], None) end
      end
  end.

(** All results for the arguments after the program name. *)
Fixpoint getopt_long (optstring : list byte) (longs : list long_option) (args : list (list byte))
    : list option_read :=
  match args with
  | [] => []
  | (x2d :: x2d :: []) :: _ => []
  | (x2d :: x2d :: body) :: rest =>
      let '(r, taken) := long_result longs body (head rest) in
      r :: (if taken then match rest with [] => [] | _ :: rest => getopt_long optstring longs rest end
            else getopt_long optstring longs rest)
  | (x2d :: c :: cs) :: rest =>
      let '(rs, waiting) := cluster optstring (c :: cs) in
      rs ++ match waiting with
            | None => getopt_long optstring longs rest
            | Some o => match rest with
                        | [] => [bad_option]
                        | value :: rest => (o, value) :: getopt_long optstring longs rest
                        end
            end
  | _ :: rest => getopt_long optstring longs rest
  end.
