(* ===== verification/Timestamp.v ===== *)
(** * The time in a log line (include/log.hpp, [fillTimestamp]) *)

From S2P Require Import Prelude Text.
From Stdlib Require Import Strings.Byte.

(** What localtime_r fills in. *)
Record tm := mkTm {
  tm_year : Z;     (** years since 1900 *)
  tm_mon : Z;      (** 0..11 *)
  tm_mday : Z;
  tm_hour : Z;
  tm_min : Z;
  tm_sec : Z
}.

(** What the function meets: the clock's [tv_nsec], what localtime_r makes of its
    [tv_sec], and the uninitialised arrays [date_buf] and (the caller's) [ts]. *)
Record time_env := mkTimeEnv {
  te_nsec : Z;
  te_tm : tm;
  te_date_buf : list byte;
  te_ts : list byte
}.

Definition date_text (t : tm) : list byte :=
  signed_decimal (tm_year t + 1900) ++ chars "-" ++ padded 2 (tm_mon t + 1) ++ chars "-" ++
  padded 2 (tm_mday t) ++ chars " " ++ padded 2 (tm_hour t) ++ chars ":" ++ padded 2 (tm_min t) ++
  chars ":" ++ padded 2 (tm_sec t).

(** strftime(buf, max, "%Y-%m-%d %H:%M:%S", t). When text and NUL do not fit the
    contents of [buf] are unspecified, and using them is an error. *)
Definition strftime (buf : list byte) (max : Z) (t : tm) : option (list byte) :=
  if Z.of_nat (length (date_text t)) <? max then write_mem buf 0 (date_text t ++ [x00]) else None.

Definition fillTimestamp (e : time_env) (buf : list byte) (bufsize : Z) : option (list byte) :=
  date_buf ← strftime (te_date_buf e) 24 (te_tm e);
  '(buf, _) ← snprintf_at buf 0 bufsize
                (c_string date_buf ++ chars "." ++ padded 3 (i32 (te_nsec e ÷ 1000000)));
  Some buf.
