(* ===== verification/TimestampProps.v ===== *)
(** * Properties of log timestamps

    The text and its width, what strcmp on two of them says, and the calendar
    that relates local times to clock readings. *)

From S2P Require Import Prelude Text Timestamp.
From Stdlib Require Import Strings.Byte.

(** ** Digits and their order *)

#[local] Abbreviation digits bs := (Forall (fun b => is_digit b = true) bs).

Lemma digits_value_cons b bs :
  digits_value (b :: bs) = (byte.unsigned b - 48) * 10 ^ Z.of_nat (length bs) + digits_value bs.
Proof.
  induction bs as [|c bs IH] using rev_ind; [cbn; lia|].
  change (b :: bs ++ [c]) with ((b :: bs) ++ [c]). unfold digits_value in *. rewrite !foldl_app, IH.
  cbn [foldl]. rewrite length_app. cbn [length]. rewrite Nat2Z.inj_add, Z.pow_add_r by lia. lia.
Qed.

Lemma is_digit_range b : is_digit b = true -> 0 <= byte.unsigned b - 48 <= 9.
Proof. unfold is_digit. lia. Qed.

Lemma digits_value_range bs : digits bs -> 0 <= digits_value bs < 10 ^ Z.of_nat (length bs).
Proof.
  induction 1 as [|b bs Hb%is_digit_range _ IH]; [cbn; lia|]. rewrite digits_value_cons. cbn [length].
  rewrite Nat2Z.inj_succ, Z.pow_succ_r by lia. nia.
Qed.

Lemma strcmp_digits s t :
  digits s -> digits t -> length s = length t -> strcmp s t = (digits_value s ?= digits_value t).
Proof.
  intros Hs. revert t. induction Hs as [|a s Ha%is_digit_range Hs IH]; intros [|b t] Ht Hl; try done.
  apply Forall_cons in Ht as [Hb%is_digit_range Ht]. injection Hl as Hl. cbn [strcmp]. rewrite !digits_value_cons, <- Hl.
  pose proof (digits_value_range s Hs) as R1. pose proof (digits_value_range t Ht) as R2. rewrite <- Hl in R2.
  destruct (Z.compare_spec (byte.unsigned a) (byte.unsigned b)) as [E|L|G].
  - rewrite IH, E by done. symmetry. apply Z.add_compare_mono_l.
  - symmetry. apply Z.compare_lt_iff. nia.
  - symmetry. apply Z.compare_gt_iff. nia.
Qed.

Lemma strcmp_app a b c d :
  length a = length b -> strcmp (a ++ c) (b ++ d) = match strcmp a b with Eq => strcmp c d | r => r end.
Proof.
  revert b. induction a as [|x a IH]; intros [|y b] H; try done. injection H as H. cbn.
  destruct (_ ?= _); [by apply IH | done..].
Qed.

Lemma strcmp_app_l a c d : strcmp (a ++ c) (a ++ d) = strcmp c d.
Proof.
  rewrite strcmp_app by done. replace (strcmp a a) with Eq; [done|].
  induction a; cbn; [done|]. by rewrite Z.compare_refl.
Qed.

Lemma length_decimal_le k n : (0 < k)%nat -> 0 <= n < 10 ^ Z.of_nat k -> (length (decimal n) <= k)%nat.
Proof.
  unfold decimal. generalize 20%nat as fuel. intros fuel. revert k n.
  induction fuel as [|fuel IH]; intros k n Hk Hn; cbn [dec_digits]; [cbn; lia|].
  destruct (Z.ltb_spec n 10); [cbn; lia|]. rewrite length_app. cbn [length].
  destruct k as [|k]; [lia|]. rewrite Nat2Z.inj_succ, Z.pow_succ_r in Hn by lia.
  assert (0 < k)%nat by (destruct k; [cbn in Hn; lia | lia]).
  specialize (IH k (n / 10)). pose proof (div10 n). lia.
Qed.

Lemma padded_pos k n : 0 <= n -> padded k n = pad_zero k (decimal n).
Proof. intros. unfold padded. by rewrite (proj2 (Z.ltb_ge _ _)). Qed.

Lemma padded_spec k n :
  (0 < k <= 19)%nat -> 0 <= n < 10 ^ Z.of_nat k ->
  length (padded k n) = k /\ digits (padded k n) /\ digits_value (padded k n) = n.
Proof.
  intros Hk Hn. rewrite padded_pos by lia. split_and!.
  - rewrite length_pad_zero. pose proof (length_decimal_le k n). lia.
  - apply pad_zero_digits. lia.
  - rewrite pad_zero_value. apply decimal_value. unfold in_width.
    assert (10 ^ Z.of_nat k <= 10 ^ 19) by (apply Z.pow_le_mono_r; lia). lia.
Qed.

Lemma signed_decimal_padded k n :
  (0 < k <= 19)%nat -> 10 ^ (Z.of_nat k - 1) <= n < 10 ^ Z.of_nat k -> signed_decimal n = padded k n.
Proof.
  intros Hk Hn. assert (0 < 10 ^ (Z.of_nat k - 1)) by lia.
  rewrite padded_pos by lia. unfold signed_decimal. rewrite (proj2 (Z.ltb_ge _ _)) by lia.
  unfold pad_zero. replace (k - length (decimal n))%nat with 0%nat; [done|].
  pose proof (digits_value_range (decimal n) (dec_digits_digits 20 n ltac:(lia))) as R.
  assert (10 ^ Z.of_nat k <= 10 ^ 19) by (apply Z.pow_le_mono_r; lia).
  rewrite decimal_value in R by (unfold in_width; lia).
  destruct (decide (length (decimal n) < k)%nat); [|lia].
  assert (10 ^ Z.of_nat (length (decimal n)) <= 10 ^ (Z.of_nat k - 1)) by (apply Z.pow_le_mono_r; lia). lia.
Qed.

Lemma strcmp_padded k n m c d :
  (0 < k <= 19)%nat -> 0 <= n < 10 ^ Z.of_nat k -> 0 <= m < 10 ^ Z.of_nat k ->
  strcmp (padded k n ++ c) (padded k m ++ d) = match n ?= m with Eq => strcmp c d | r => r end.
Proof.
  intros Hk Hn Hm. destruct (padded_spec k n Hk Hn) as (L1 & D1 & V1). destruct (padded_spec k m Hk Hm) as (L2 & D2 & V2).
  rewrite strcmp_app, strcmp_digits by congruence. by rewrite V1, V2.
Qed.

(** ** C strings *)

Lemma c_string_app s rest : x00 ∉ s -> c_string (s ++ x00 :: rest) = s.
Proof.
  induction s as [|b s IH]; cbn; intros Hs; [done|]. apply not_elem_of_cons in Hs as [Hb Hs].
  rewrite decide_False by congruence. by rewrite IH.
Qed.

Lemma digits_no_nul bs : digits bs -> x00 ∉ bs.
Proof. intros H Hin. rewrite Forall_forall in H. by apply H in Hin. Qed.

(** ** The text *)

Record time_ok (e : time_env) : Prop := mkTimeOk {
  tk_nsec : 0 <= te_nsec e < 10 ^ 9;
  tk_year : 1000 <= tm_year (te_tm e) + 1900 <= 9999;
  tk_mon : 0 <= tm_mon (te_tm e) <= 11;
  tk_mday : 1 <= tm_mday (te_tm e) <= 31;
  tk_hour : 0 <= tm_hour (te_tm e) <= 23;
  tk_min : 0 <= tm_min (te_tm e) <= 59;
  tk_sec : 0 <= tm_sec (te_tm e) <= 60;
  tk_date_buf : Z.of_nat (length (te_date_buf e)) = 24
}.

Definition te_ms (e : time_env) : Z := te_nsec e / 1000000.

(** YYYY-MM-DD HH:MM:SS.mmm *)
Definition stamp (e : time_env) : list byte :=
  let t := te_tm e in
  padded 4 (tm_year t + 1900) ++ chars "-" ++ padded 2 (tm_mon t + 1) ++ chars "-" ++
  padded 2 (tm_mday t) ++ chars " " ++ padded 2 (tm_hour t) ++ chars ":" ++ padded 2 (tm_min t) ++
  chars ":" ++ padded 2 (tm_sec t) ++ chars "." ++ padded 3 (te_ms e).

(** The fields as the text shows them, the most significant one first. *)
Definition stamp_fields (e : time_env) : list Z :=
  let t := te_tm e in
  [tm_year t + 1900; tm_mon t + 1; tm_mday t; tm_hour t; tm_min t; tm_sec t; te_ms e].

Fixpoint lex_compare (l k : list Z) : comparison :=
  match l, k with
  | [], [] => Eq
  | [], _ => Lt
  | _, [] => Gt
  | a :: l, b :: k => match a ?= b with Eq => lex_compare l k | r => r end
  end.

Section Stamp.
Context (e : time_env) (He : time_ok e).

Lemma ms_range : 0 <= te_ms e < 1000.
Proof. destruct He as [Hns _ _ _ _ _ _ _]. unfold te_ms. split; [apply Z.div_pos; lia | apply Z.div_lt_upper_bound; lia]. Qed.

Lemma ms_text : padded 3 (i32 (te_nsec e ÷ 1000000)) = padded 3 (te_ms e).
Proof.
  pose proof ms_range as R. destruct He as [Hns _ _ _ _ _ _ _].
  rewrite Z.quot_div_nonneg by lia. fold (te_ms e). f_equal. unfold i32, swrap, wrap.
  change (2 ^ (32 - 1)) with 2147483648. rewrite Z.mod_small by lia. lia.
Qed.

Lemma stamp_date : stamp e = date_text (te_tm e) ++ chars "." ++ padded 3 (te_ms e).
Proof.
  destruct He as [_ Hy _ _ _ _ _ _]. unfold stamp, date_text.
  rewrite (signed_decimal_padded 4) by (cbn; lia). by rewrite <- !app_assoc.
Qed.

Lemma date_text_ok : length (date_text (te_tm e)) = 19%nat /\ x00 ∉ date_text (te_tm e).
Proof.
  destruct He as [_ Hy Hmo Hd Hh Hmi Hs _]. unfold date_text. rewrite (signed_decimal_padded 4) by (cbn; lia).
  destruct (padded_spec 4 (tm_year (te_tm e) + 1900)) as (L1 & D1 & _); [lia | cbn; lia |].
  destruct (padded_spec 2 (tm_mon (te_tm e) + 1)) as (L2 & D2 & _); [lia | cbn; lia |].
  destruct (padded_spec 2 (tm_mday (te_tm e))) as (L3 & D3 & _); [lia | cbn; lia |].
  destruct (padded_spec 2 (tm_hour (te_tm e))) as (L4 & D4 & _); [lia | cbn; lia |].
  destruct (padded_spec 2 (tm_min (te_tm e))) as (L5 & D5 & _); [lia | cbn; lia |].
  destruct (padded_spec 2 (tm_sec (te_tm e))) as (L6 & D6 & _); [lia | cbn; lia |].
  split; [rewrite !length_app, L1, L2, L3, L4, L5, L6; reflexivity|].
  rewrite !not_elem_of_app. split_and!; try (by apply digits_no_nul); by vm_compute; set_solver.
Qed.

Lemma length_stamp : length (stamp e) = 23%nat.
Proof.
  rewrite stamp_date, !length_app, (proj1 date_text_ok).
  destruct (padded_spec 3 (te_ms e)) as (-> & _); [lia | pose proof ms_range; cbn; lia | reflexivity].
Qed.
End Stamp.

Lemma timestamp_text e buf :
  time_ok e -> length buf = 32%nat ->
  fillTimestamp e buf 32 = Some (stamp e ++ x00 :: drop 24 buf) /\ length (stamp e) = 23%nat.
Proof.
  intros He Hl. split; [|by apply length_stamp]. destruct (date_text_ok e He) as [L N].
  unfold fillTimestamp, strftime. rewrite L. change (Z.of_nat 19 <? 24) with true. cbn match.
  unfold write_mem. rewrite length_app, L, decide_True by (pose proof (tk_date_buf e He); cbn; lia).
  cbn [mbind option_bind]. change (Z.to_nat 0) with 0%nat. rewrite take_0. cbn [app].
  rewrite <- app_assoc. cbn [app]. rewrite c_string_app by done.
  rewrite ms_text, <- stamp_date by done. unfold snprintf_at, write_mem. change (32 <=? 0) with false.
  cbn match. rewrite take_ge by (rewrite length_stamp by done; cbn; lia).
  rewrite length_app, length_stamp, Hl, decide_True by (done || cbn; lia).
  cbn [mbind option_bind]. change (Z.to_nat 0) with 0%nat. rewrite take_0. cbn [app]. by rewrite <- app_assoc.
Qed.

(** For every clock reading and every broken-down time of the years 1000 to
    9999 (leap seconds included) [fillTimestamp] writes nothing outside the
    24 bytes of [date_buf] and the 32 bytes of its caller's buffer, and leaves
    there the 23 characters "YYYY-MM-DD HH:MM:SS.mmm" and a NUL, the rest of
    the buffer untouched. *)
Theorem timestamp_format e buf :
  time_ok e -> length buf = 32%nat ->
  fillTimestamp e buf 32 = Some (stamp e ++ x00 :: drop 24 buf) /\ length (stamp e) = 23%nat.
Proof. apply timestamp_text. Qed.

Lemma stamp_text now rest : time_ok now -> c_string (stamp now ++ x00 :: rest) = stamp now.
Proof.
  intros H. apply c_string_app. rewrite stamp_date by done. destruct (date_text_ok now H) as [_ Hd].
  rewrite !not_elem_of_app. split_and!; [done | by vm_compute; set_solver | apply digits_no_nul].
  apply padded_spec; [lia|]. by apply ms_range.
Qed.

Lemma strcmp_stamps e e' :
  time_ok e -> time_ok e' ->
  strcmp (stamp e) (stamp e') = lex_compare (stamp_fields e) (stamp_fields e').
Proof.
  intros H H'. pose proof (ms_range e H). pose proof (ms_range e' H').
  destruct H as [_ Hy Hmo Hd Hh Hmi Hs _]. destruct H' as [_ Hy' Hmo' Hd' Hh' Hmi' Hs' _].
  unfold stamp, stamp_fields. cbn [lex_compare].
  repeat (rewrite strcmp_padded by first [lia | cbn; lia]; rewrite strcmp_app_l;
    match goal with |- match ?c with _ => _ end = _ => destruct c; [|done..] end).
  rewrite <- (app_nil_r (padded 3 (te_ms e))), <- (app_nil_r (padded 3 (te_ms e'))).
  by rewrite strcmp_padded by first [lia | cbn; lia].
Qed.

(** ** The calendar *)

Definition leap (y : Z) : bool := (y mod 4 =? 0) && negb (y mod 100 =? 0) || (y mod 400 =? 0).

(** Days of the Gregorian calendar before year [y]. *)
Definition year_start (y : Z) : Z := 365 * (y - 1) + (y - 1) / 4 - (y - 1) / 100 + (y - 1) / 400.

Definition month_lengths (y : Z) : list Z := [31; if leap y then 29 else 28; 31; 30; 31; 30; 31; 31; 30; 31; 30; 31].

Definition sum (l : list Z) : Z := foldr Z.add 0 l.

Definition month_length (y m : Z) : Z := nth (Z.to_nat m) (month_lengths y) 0.
Definition month_start (y m : Z) : Z := sum (take (Z.to_nat m) (month_lengths y)).

(** The day [d] of month [m] (from 0), counted from the beginning of the calendar. *)
Definition day_number (y m d : Z) : Z := year_start y + month_start y m + d.

(** Seconds since 1970-01-01 00:00:00 on the clock that shows [t]. *)
Definition civil_seconds (t : tm) : Z :=
  (((day_number (tm_year t + 1900) (tm_mon t) (tm_mday t) - day_number 1970 0 1) * 24 + tm_hour t) * 60 + tm_min t) * 60
  + tm_sec t.

Example civil_seconds_epoch : civil_seconds (mkTm 70 0 1 0 0 0) = 0.
Proof. reflexivity. Qed.
Example civil_seconds_leap_day : civil_seconds (mkTm 124 1 29 23 59 7) = 1709251147.
Proof. reflexivity. Qed.

(** What localtime_r makes of [sec] where the local clock is [offset] seconds
    ahead of UTC. *)
Definition local_time (offset sec : Z) (t : tm) : Prop :=
  civil_seconds t = sec + offset /\ 0 <= tm_mon t <= 11 /\
  1 <= tm_mday t <= month_length (tm_year t + 1900) (tm_mon t) /\
  0 <= tm_hour t < 24 /\ 0 <= tm_min t < 60 /\ 0 <= tm_sec t < 60.

Lemma year_start_succ y : year_start (y + 1) = year_start y + sum (month_lengths y).
Proof.
  replace (sum (month_lengths y)) with (365 + if leap y then 1 else 0) by (unfold sum, month_lengths; cbn; by destruct (leap y)).
  unfold year_start, leap. replace (y + 1 - 1) with y by lia.
  destruct (Z.eqb_spec (y mod 4) 0), (Z.eqb_spec (y mod 100) 0), (Z.eqb_spec (y mod 400) 0); cbn [negb andb orb];
    Z.to_euclidean_division_equations; lia.
Qed.

Lemma year_start_mono y y' : y < y' -> year_start (y + 1) <= year_start y'.
Proof. intros. unfold year_start. Z.to_euclidean_division_equations; lia. Qed.

Lemma month_start_bounds y m :
  0 <= m <= 11 ->
  0 <= month_start y m /\ month_start y m + month_length y m <= sum (month_lengths y) /\
  forall m', m < m' <= 11 -> month_start y m + month_length y m <= month_start y m'.
Proof.
  intros Hm. assert (m = 0 \/ m = 1 \/ m = 2 \/ m = 3 \/ m = 4 \/ m = 5 \/ m = 6 \/ m = 7 \/ m = 8 \/ m = 9 \/ m = 10 \/ m = 11)
    as Hin by lia.
  unfold month_start, month_length, month_lengths, sum.
  split_and!; [| | intros m' Hm'].
  1,2: destruct (leap y); destruct_or?; subst; by vm_compute.
  assert (m' = 1 \/ m' = 2 \/ m' = 3 \/ m' = 4 \/ m' = 5 \/ m' = 6 \/ m' = 7 \/ m' = 8 \/ m' = 9 \/ m' = 10 \/ m' = 11)
    as Hin' by lia.
  clear Hm. destruct (leap y); destruct_or?; subst; first [by vm_compute | exfalso; lia].
Qed.

(** Two digits of a mixed radix. *)
Lemma compare_radix n a b a' b' :
  0 <= b < n -> 0 <= b' < n -> (a * n + b ?= a' * n + b') = match a ?= a' with Eq => b ?= b' | r => r end.
Proof.
  intros Hb Hb'. destruct (Z.compare_spec a a') as [->|H|H].
  - apply Z.add_compare_mono_l.
  - apply Z.compare_lt_iff. nia.
  - apply Z.compare_gt_iff. nia.
Qed.

Lemma compare_days y m d y' m' d' :
  0 <= m <= 11 -> 0 <= m' <= 11 -> 1 <= d <= month_length y m -> 1 <= d' <= month_length y' m' ->
  (day_number y m d ?= day_number y' m' d') =
  match y ?= y' with Eq => match m ?= m' with Eq => d ?= d' | r => r end | r => r end.
Proof.
  intros Hm Hm' Hd Hd'. unfold day_number.
  destruct (month_start_bounds y m Hm) as (A1 & A2 & A3), (month_start_bounds y' m' Hm') as (B1 & B2 & B3).
  pose proof (year_start_succ y) as Sy. pose proof (year_start_succ y') as Sy'.
  destruct (Z.compare_spec y y') as [->|Hy|Hy].
  - destruct (Z.compare_spec m m') as [->|Hlt|Hgt].
    + apply Z.add_compare_mono_l.
    + apply Z.compare_lt_iff. specialize (A3 m'). lia.
    + apply Z.compare_gt_iff. specialize (B3 m). lia.
  - apply Z.compare_lt_iff. pose proof (year_start_mono y y' Hy). lia.
  - apply Z.compare_gt_iff. pose proof (year_start_mono y' y Hy). lia.
Qed.

(** The order of the fields is the order of the readings. *)
Lemma compare_readings offset sec sec' e e' :
  time_ok e -> time_ok e' -> local_time offset sec (te_tm e) -> local_time offset sec' (te_tm e') ->
  lex_compare (stamp_fields e) (stamp_fields e') = (sec * 1000 + te_ms e ?= sec' * 1000 + te_ms e').
Proof.
  intros He He' (C & Hmo & Hd & Hh & Hmi & Hs) (C' & Hmo' & Hd' & Hh' & Hmi' & Hs').
  rewrite compare_radix by (by apply ms_range).
  replace (sec ?= sec') with (civil_seconds (te_tm e) ?= civil_seconds (te_tm e'))
    by (rewrite C, C', !(Z.add_comm _ offset); apply Z.add_compare_mono_l).
  unfold civil_seconds. rewrite !compare_radix by lia. rewrite <- !Z.add_opp_r, !(Z.add_comm _ (- day_number 1970 0 1)).
  rewrite Z.add_compare_mono_l, compare_days by done. unfold stamp_fields. cbn [lex_compare].
  replace (tm_mon (te_tm e) + 1 ?= tm_mon (te_tm e') + 1) with (tm_mon (te_tm e) ?= tm_mon (te_tm e'))
    by (rewrite !(Z.add_comm _ 1); symmetry; apply Z.add_compare_mono_l).
  repeat (match goal with |- context [?a ?= ?b] => destruct (a ?= b) end; try done).
Qed.

(** C39: sorting log lines by their timestamp text. strcmp on two timestamps gives
    the lexicographic order of the local (year, month, day, hour, minute, second,
    millisecond); the text determines all seven. For two clock readings at which
    localtime_r applies the same offset from UTC this is the order of the
    readings, in milliseconds. (When the clocks are set back, for the end of
    daylight saving time say, a later line may sort before an earlier one:
    [fall_back].) *)
Theorem timestamps_sort e e' buf buf' ts ts' :
  time_ok e -> time_ok e' -> length buf = 32%nat -> length buf' = 32%nat ->
  fillTimestamp e buf 32 = Some ts -> fillTimestamp e' buf' 32 = Some ts' ->
  strcmp (c_string ts) (c_string ts') = lex_compare (stamp_fields e) (stamp_fields e') /\
  forall offset sec sec', local_time offset sec (te_tm e) -> local_time offset sec' (te_tm e') ->
    strcmp (c_string ts) (c_string ts') = (sec * 1000 + te_ms e ?= sec' * 1000 + te_ms e').
Proof.
  intros He He' Hb Hb'. destruct (timestamp_text e buf He Hb) as [-> _]. destruct (timestamp_text e' buf' He' Hb') as [-> _].
  intros [= <-] [= <-]. rewrite !stamp_text, strcmp_stamps by done. split; [done|].
  intros offset sec sec' H H'. by eapply compare_readings.
Qed.

Definition demo_time (sec nsec : Z) : time_env :=
  mkTimeEnv nsec (mkTm 124 1 29 23 59 sec) (replicate 24 x41) (replicate 32 x42).

Lemma demo_time_ok sec nsec : 0 <= sec <= 60 -> 0 <= nsec < 10 ^ 9 -> time_ok (demo_time sec nsec).
Proof. intros. constructor; cbn; lia. Qed.

Example timestamp_format_witness :
  fillTimestamp (demo_time 7 45999999) (replicate 32 x42) 32 =
    Some (chars "2024-02-29 23:59:07.045" ++ x00 :: replicate 8 x42).
Proof.
  destruct (timestamp_format (demo_time 7 45999999) (replicate 32 x42)) as [H _];
    [apply demo_time_ok; cbn; lia | by rewrite length_replicate |].
  rewrite H. vm_compute. reflexivity.
Defined.

(** 23:59:07.045 and 23:59:59.000 on 2024-02-29, in a zone an hour ahead of UTC. *)
Example timestamps_sort_witness :
  strcmp (chars "2024-02-29 23:59:07.045") (chars "2024-02-29 23:59:59.000") =
    (1709247547 * 1000 + 45 ?= 1709247599 * 1000 + 0).
Proof.
  refine (proj2 (timestamps_sort (demo_time 7 45999999) (demo_time 59 0) (replicate 32 x42) (replicate 32 x42)
    (chars "2024-02-29 23:59:07.045" ++ x00 :: replicate 8 x42) (chars "2024-02-29 23:59:59.000" ++ x00 :: replicate 8 x42)
    ltac:(apply demo_time_ok; cbn; lia) ltac:(apply demo_time_ok; cbn; lia) eq_refl eq_refl
    ltac:(vm_compute; reflexivity) ltac:(vm_compute; reflexivity)) 3600 1709247547 1709247599 _ _).
  - split; [reflexivity | vm_compute; intuition discriminate].
  - split; [reflexivity | vm_compute; intuition discriminate].
Defined.

(** 2024-10-27 in Berlin: 02:59:59 summer time, and a second later 02:00:00. *)
Example fall_back :
  let before := mkTm 124 9 27 2 59 59 in let after := mkTm 124 9 27 2 0 0 in
  local_time 7200 1729990799 before /\ local_time 3600 1729990800 after /\
  strcmp (date_text before) (date_text after) = Gt.
Proof. cbv zeta. unfold local_time. split_and!; try reflexivity; vm_compute; intuition discriminate. Qed.
