(* ===== verification/Log.v ===== *)
(** * Logging (include/log.hpp)

    [LogMessage] with its fixed 512-byte buffer: every [snprintf] and character
    store goes through [write_mem], which fails outside the buffer. A message is
    a constructor call, a sequence of [operator<<] calls and the destructor. *)

From S2P Require Import Prelude Text Timestamp.
From Stdlib Require Import Strings.Byte Floats.SpecFloat.

Inductive LogLevel := Error | Warn | Info | Debug.

Definition LogLevel_value (l : LogLevel) : Z :=
  match l with Error => 0 | Warn => 1 | Info => 2 | Debug => 3 end.

Definition levelToString (l : LogLevel) : list byte :=
  match l with
  | Error => chars "ERROR"
  | Warn => chars "WARN "
  | Info => chars "INFO "
  | Debug => chars "DEBUG"
  end.

Definition STDERR_FILENO : Z := 2.

(** The value of [g_log_fd], from what open() returned. *)
Definition openLogFile (fd : Z) : Z := if fd <? 0 then STDERR_FILENO else fd.

(** std::strrchr(path, '/'): what follows the last slash. *)
Fixpoint after_last_slash (path : list byte) : option (list byte) :=
  match path with
  | [] => None
  | b :: rest =>
      match after_last_slash rest with
      | Some r => Some r
      | None => if decide (b = x2f) then Some rest else None
      end
  end.

Definition extractFilename (path : list byte) : list byte :=
  match after_last_slash path with Some file => file | None => path end.

(** ** The buffer *)

Definition BUF_SIZE : Z := 512.

Record LogMessage := mkLogMessage {
  should_log_ : bool;
  buf_ : list byte;
  pos_ : Z
}.

(** The shared body of [append_s] and [appendFmt]. *)
Definition append_s (m : LogMessage) (text : list byte) : option LogMessage :=
  if BUF_SIZE - 1 <=? pos_ m then Some m
  else
    '(buf, n) ← snprintf_at (buf_ m) (pos_ m) (BUF_SIZE - 1 - pos_ m) text;
    let pos := if 0 <? n then
                 (if BUF_SIZE - 1 <=? pos_ m + n then BUF_SIZE - 2 else pos_ m + n)
               else pos_ m in
    Some (mkLogMessage (should_log_ m) buf pos).

(** "%.2f" of a double: the exact value rounded to hundredths, ties to even. *)
Definition round_quotient (n d : Z) : Z :=
  let q := n / d in
  match (2 * (n mod d)) ?= d with
  | Lt => q
  | Gt => q + 1
  | Eq => if Z.even q then q else q + 1
  end.

Definition hundredths (m : positive) (e : Z) : Z :=
  round_quotient (100 * Zpos m * 2 ^ Z.max 0 e) (2 ^ Z.max 0 (- e)).

Definition with_sign (s : bool) (text : list byte) : list byte := if s then chars "-" ++ text else text.

(** 310 digits hold every finite double. *)
Definition fixed_text (h : Z) : list byte := dec_digits 310 (h / 100) ++ chars "." ++ pad_zero 2 (decimal (h mod 100)).

Definition fixed2 (x : spec_float) : list byte :=
  match x with
  | S754_zero s => with_sign s (fixed_text 0)
  | S754_infinity s => with_sign s (chars "inf")
  | S754_nan => chars "nan"
  | S754_finite s m e => with_sign s (fixed_text (hundredths m e))
  end.

(** What can be streamed. *)
Inductive log_arg :=
  | LStr (s : option (list byte))    (** const char*, possibly null *)
  | LChar (c : byte)
  | LBool (b : bool)
  | LInt (z : Z)                     (** every integer overload *)
  | LDouble (x : spec_float).

Definition log_text (a : log_arg) : list byte :=
  match a with
  | LStr (Some s) => c_string s
  | LStr None => []
  | LChar c => [c]
  | LBool b => if b then chars "true" else chars "false"
  | LInt z => signed_decimal z
  | LDouble x => fixed2 x
  end.

(** operator<< *)
Definition log_put (m : LogMessage) (a : log_arg) : option LogMessage :=
  if negb (should_log_ m) then Some m
  else match a with
  | LStr None => Some m
  | LChar c =>
      if pos_ m <? BUF_SIZE - 2 then
        buf ← write_mem (buf_ m) (pos_ m) [c];
        Some (mkLogMessage true buf (pos_ m + 1))
      else Some m
  | _ => append_s m (log_text a)
  end.

Fixpoint log_puts (m : LogMessage) (args : list log_arg) : option LogMessage :=
  match args with
  | [] => Some m
  | a :: args => m ← log_put m a; log_puts m args
  end.

(** The text "[LEVEL] [timestamp] [file:line] ". *)
Definition log_prefix (level : LogLevel) (ts file : list byte) (line : Z) : list byte :=
  chars "[" ++ levelToString level ++ chars "] [" ++ ts ++ chars "] [" ++
  extractFilename file ++ chars ":" ++ signed_decimal line ++ chars "] ".

(** [raw] is the uninitialised array, [threshold] is [g_log_level]. *)
Definition LogMessage_new (raw : list byte) (threshold level : LogLevel) (now : time_env) (file : list byte)
    (line : Z) : option LogMessage :=
  if LogLevel_value level <=? LogLevel_value threshold then
    ts ← fillTimestamp now (te_ts now) 32;
    '(buf, n) ← snprintf_at raw 0 (BUF_SIZE - 1) (log_prefix level (c_string ts) file line);
    Some (mkLogMessage true buf (if 0 <? n then (if n <? BUF_SIZE - 1 then n else BUF_SIZE - 2) else 0))
  else Some (mkLogMessage false raw 0).

(** The destructor up to its system calls: the bytes it is going to write. *)
Definition finish_line (m : LogMessage) : option (list byte) :=
  m ← (if pos_ m <? BUF_SIZE - 1
       then buf ← write_mem (buf_ m) (pos_ m) [x0a]; Some (mkLogMessage true buf (pos_ m + 1))
       else Some m);
  buf ← write_mem (buf_ m) (pos_ m) [x00];
  read_mem buf 0 (pos_ m).

(** The destructor: the write() calls, with descriptor and bytes. *)
Definition LogMessage_delete (g_log_fd : Z) (m : LogMessage) : option (list (Z * list byte)) :=
  if negb (should_log_ m) then Some []
  else
    bytes ← finish_line m;
    Some ((g_log_fd, bytes) :: (if g_log_fd =? STDERR_FILENO then [] else [(STDERR_FILENO, bytes)])).

(** [LOG_X << a1 << a2 ...;] *)
Definition log_statement (raw : list byte) (threshold level : LogLevel) (fd : Z) (now : time_env)
    (file : list byte) (line : Z) (args : list log_arg) : option (list (Z * list byte)) :=
  m ← LogMessage_new raw threshold level now file line;
  m ← log_puts m args;
  LogMessage_delete (openLogFile fd) m.

(** What [LogErrnoMessage]'s destructor appends first. *)
Definition errno_args (err_num : Z) (strerror : list byte) : list log_arg :=
  if negb (err_num =? 0)
  then [LStr (Some (chars ": ")); LStr (Some strerror); LStr (Some (chars " (errno=")); LInt err_num;
        LStr (Some (chars ")"))]
  else [].

(** [LOG_ERRNO(e) << a1 << ...;] *)
Definition log_errno_statement (raw : list byte) (threshold : LogLevel) (fd : Z) (now : time_env)
    (file : list byte) (line err_num : Z) (strerror : list byte) (args : list log_arg)
    : option (list (Z * list byte)) :=
  log_statement raw threshold Error fd now file line (args ++ errno_args err_num strerror).
