(* ===== verification/LogProps.v ===== *)
(** * Properties of logging *)

From S2P Require Import Prelude Text Timestamp TimestampProps Log.
From Stdlib Require Import Strings.Byte Floats.SpecFloat.

(** Bytes stored right after a known prefix of the buffer extend it. *)
Lemma write_extends buf pos old bs tl :
  read_mem buf 0 pos = Some old -> 0 <= pos ->
  pos + Z.of_nat (length (bs ++ tl)) <= Z.of_nat (length buf) ->
  exists buf', write_mem buf pos (bs ++ tl) = Some buf' /\ length buf' = length buf /\
    read_mem buf' 0 (pos + Z.of_nat (length bs)) = Some (old ++ bs).
Proof.
  intros Hr Hp Hl. destruct (write_mem_is_Some buf pos (bs ++ tl)) as [buf' Hw]; [done..|].
  exists buf'. split_and!; [done | by eapply write_mem_length |].
  apply read_mem_app.
  - rewrite (read_write_mem_disjoint _ _ _ _ _ _ Hw) by lia. done.
  - pose proof (read_mem_sub _ _ _ _ 0 (Z.of_nat (length bs)) (read_write_mem_eq _ _ _ _ Hw)) as H.
    rewrite length_app, Z.add_0_r, drop_0, Nat2Z.id, take_app_length in H. apply H; lia.
Qed.

(** The buffer holds the first 510 bytes of the text so far. *)
Definition holds (m : LogMessage) (text : list byte) : Prop :=
  should_log_ m = true /\ Z.of_nat (length (buf_ m)) = BUF_SIZE /\
  pos_ m = Z.min (BUF_SIZE - 2) (Z.of_nat (length text)) /\
  read_mem (buf_ m) 0 (pos_ m) = Some (take 510 text).

Lemma take_510_app (text s : list byte) pos :
  pos = Z.min 510 (Z.of_nat (length text)) ->
  take 510 (text ++ s) = take 510 text ++ take (Z.to_nat (510 - pos)) s.
Proof. intros ->. rewrite take_app. do 2 f_equal. lia. Qed.

Lemma append_s_holds m text s : holds m text -> exists m', append_s m s = Some m' /\ holds m' (text ++ s).
Proof.
  intros (Hs & Hl & Hp & Hr). unfold BUF_SIZE in *. unfold append_s, snprintf_at, BUF_SIZE.
  rewrite (proj2 (Z.leb_gt _ (pos_ m))) by lia. rewrite (proj2 (Z.leb_gt (512 - 1 - pos_ m) 0)) by lia.
  replace (512 - 1 - pos_ m - 1) with (510 - pos_ m) by lia.
  destruct (write_extends (buf_ m) (pos_ m) _ (take (Z.to_nat (510 - pos_ m)) s) [x00] Hr) as (buf' & Hw & Hl' & Hr').
  { lia. }
  { rewrite length_app, length_take. cbn. lia. }
  rewrite Hw. cbn. eexists. split; [done|]. unfold holds, BUF_SIZE. cbn. rewrite length_app.
  split_and!; [done | by rewrite Hl' | |].
  - destruct (Z.ltb_spec 0 (Z.of_nat (length s))); [|lia].
    destruct (Z.leb_spec (512 - 1) (pos_ m + Z.of_nat (length s))); lia.
  - rewrite (take_510_app text s (pos_ m)) by lia. rewrite <- Hr'. f_equal.
    rewrite length_take. destruct (Z.ltb_spec 0 (Z.of_nat (length s))); [|lia].
    destruct (Z.leb_spec (512 - 1) (pos_ m + Z.of_nat (length s))); lia.
Qed.

Lemma log_put_holds m text a : holds m text -> exists m', log_put m a = Some m' /\ holds m' (text ++ log_text a).
Proof.
  intros Hm. pose proof Hm as (Hs & Hl & Hp & Hr). unfold log_put. rewrite Hs. cbn [negb].
  destruct a as [[s|]|c|b|z|t]; try by apply append_s_holds.
  - exists m. by rewrite app_nil_r.
  - unfold BUF_SIZE in *. destruct (Z.ltb_spec (pos_ m) (512 - 2)) as [Hlt|Hge].
    + destruct (write_extends (buf_ m) (pos_ m) _ [c] [] Hr) as (buf' & Hw & Hl' & Hr'); [lia | cbn; lia |].
      cbn in Hw. rewrite Hw. cbn. eexists. split; [done|]. unfold holds, BUF_SIZE. cbn. rewrite length_app.
      split_and!; [done | by rewrite Hl' | cbn; lia |].
      rewrite (take_510_app text [c] (pos_ m)) by lia. rewrite (take_ge [c]) by (cbn; lia). exact Hr'.
    + exists m. split; [done|]. unfold holds, BUF_SIZE. rewrite length_app.
      split_and!; [done | done | cbn; lia |]. cbn [log_text]. rewrite (take_510_app text [c] (pos_ m)) by lia.
      replace (Z.to_nat (510 - pos_ m)) with 0%nat by lia. by rewrite take_0, app_nil_r.
Qed.

Lemma log_puts_holds m text args :
  holds m text -> exists m', log_puts m args = Some m' /\ holds m' (text ++ concat (map log_text args)).
Proof.
  revert m text. induction args as [|a args IH]; intros m text Hm; cbn.
  { exists m. by rewrite app_nil_r. }
  destruct (log_put_holds m text a Hm) as (m1 & -> & H1). cbn.
  destruct (IH m1 _ H1) as (m2 & H2 & H3). exists m2. by rewrite app_assoc.
Qed.

Lemma new_holds raw threshold level now file line :
  Z.of_nat (length raw) = BUF_SIZE -> time_ok now -> length (te_ts now) = 32%nat ->
  LogLevel_value level <= LogLevel_value threshold ->
  exists m, LogMessage_new raw threshold level now file line = Some m /\
    holds m (log_prefix level (stamp now) file line).
Proof.
  intros Hl Hnow Hts Hlev. unfold LogMessage_new, snprintf_at, BUF_SIZE in *. rewrite (proj2 (Z.leb_le _ _) Hlev).
  destruct (timestamp_text now (te_ts now) Hnow Hts) as [-> _]. cbn [mbind option_bind Z.sub Z.leb].
  rewrite stamp_text by done. set (p := log_prefix level (stamp now) file line).
  assert (0 < length p)%nat as Hp by (apply Nat.lt_0_succ). clearbody p.
  destruct (write_extends raw 0 [] (take 510 p) [x00]) as (buf' & Hw & Hl' & Hr').
  { unfold read_mem. by rewrite decide_True by lia. }
  { lia. }
  { rewrite length_app, length_take. cbn [length]. lia. }
  change (512 - 1 <=? 0) with false. change (Z.to_nat (512 - 1 - 1)) with 510%nat. cbn match.
  rewrite Hw. cbn [mbind option_bind]. eexists. split; [done|]. unfold holds, BUF_SIZE. cbn [should_log_ buf_ pos_].
  rewrite length_take in Hr'.
  destruct (Z.ltb_spec 0 (Z.of_nat (length p))); [|lia].
  destruct (Z.ltb_spec (Z.of_nat (length p)) (512 - 1)); (split_and!; [done | by rewrite Hl' | lia |]);
    cbn [app] in Hr'; rewrite <- Hr'; f_equal; lia.
Qed.

Lemma finish_holds m text : holds m text -> finish_line m = Some (take 510 text ++ [x0a]).
Proof.
  intros (Hs & Hl & Hp & Hr). unfold finish_line, BUF_SIZE in *. rewrite (proj2 (Z.ltb_lt _ _)) by lia.
  destruct (write_extends (buf_ m) (pos_ m) _ [x0a] [] Hr) as (buf1 & Hw1 & Hl1 & Hr1); [lia | cbn; lia |].
  cbn in Hw1. rewrite Hw1. cbn [mbind option_bind buf_ pos_].
  destruct (write_extends buf1 (pos_ m + 1) _ [] [x00] Hr1) as (buf2 & Hw2 & Hl2 & Hr2); [lia | cbn; lia |].
  cbn in Hw2. rewrite Hw2. cbn [mbind option_bind]. cbn [length] in Hr2. rewrite Z.add_0_r, app_nil_r in Hr2.
  by rewrite Hr2.
Qed.

Lemma delete_holds fd m text :
  holds m text ->
  LogMessage_delete fd m =
    Some ((fd, take 510 text ++ [x0a]) :: (if fd =? STDERR_FILENO then [] else [(STDERR_FILENO, take 510 text ++ [x0a])])).
Proof.
  intros H. pose proof H as [Hs _]. unfold LogMessage_delete. by rewrite Hs, (finish_holds m text H).
Qed.

(** C38: a log statement never writes outside its 512-byte buffer, and writes one
    line to the log file and the same line to stderr (only once when the log
    file could not be opened): prefix and arguments in order, cut after 510
    bytes if they are longer, and a newline, which is never cut. A statement
    above the threshold writes nothing. *)
Theorem log_line_bounded raw threshold level fd now file line args :
  Z.of_nat (length raw) = BUF_SIZE -> time_ok now -> length (te_ts now) = 32%nat ->
  let text := log_prefix level (stamp now) file line ++ concat (map log_text args) in
  let out := take 510 text ++ [x0a] in
  log_statement raw threshold level fd now file line args =
    Some (if LogLevel_value level <=? LogLevel_value threshold then
            (if fd <? 0 then [(STDERR_FILENO, out)]
             else if fd =? STDERR_FILENO then [(fd, out)] else [(fd, out); (STDERR_FILENO, out)])
          else []).
Proof.
  intros Hl Hnow Hts text out. unfold log_statement. destruct (Z.leb_spec (LogLevel_value level) (LogLevel_value threshold)) as [Hlev|Hlev].
  - destruct (new_holds raw threshold level now file line Hl Hnow Hts Hlev) as (m & -> & Hm). cbn [mbind option_bind].
    destruct (log_puts_holds m _ args Hm) as (m' & -> & Hm'). cbn [mbind option_bind].
    rewrite (delete_holds _ _ _ Hm'). fold text. fold out. unfold openLogFile.
    destruct (fd <? 0); [done|]. by destruct (fd =? STDERR_FILENO).
  - unfold LogMessage_new. rewrite (proj2 (Z.leb_gt _ _) Hlev). cbn [mbind option_bind].
    assert (log_puts (mkLogMessage false raw 0) args = Some (mkLogMessage false raw 0)) as ->.
    { induction args as [|a args IH]; [done|]. cbn. exact IH. }
    done.
Qed.

Lemma after_last_slash_spec path :
  match after_last_slash path with
  | Some r => x2f ∉ r /\ exists dir, path = dir ++ x2f :: r
  | None => x2f ∉ path
  end.
Proof.
  induction path as [|b path IH]; cbn; [set_solver|].
  destruct (after_last_slash path) as [r|].
  - destruct IH as [H [dir ->]]. split; [done|]. by exists (b :: dir).
  - case_decide; [subst; split; [done|]; by exists []|]. rewrite not_elem_of_cons. by split.
Qed.

(** [extractFilename] returns what follows the last slash of the path, the
    whole path when it has none. *)
Lemma extract_filename_correct path :
  x2f ∉ extractFilename path /\
  (extractFilename path = path \/ exists dir, path = dir ++ x2f :: extractFilename path).
Proof.
  unfold extractFilename. pose proof (after_last_slash_spec path) as H.
  destruct (after_last_slash path) as [r|]; [|by split; [|left]].
  destruct H as [H1 H2]. by split; [|right].
Qed.

(** ** Doubles *)

Lemma round_quotient_nearest n d : 0 < d -> 2 * Z.abs (n - round_quotient n d * d) <= d.
Proof.
  intros Hd. unfold round_quotient. pose proof (Z.div_mod n d ltac:(lia)) as E. pose proof (Z.mod_pos_bound n d Hd).
  destruct (Z.compare_spec (2 * (n mod d)) d); [destruct (Z.even (n / d))|..]; nia.
Qed.

(** The number printed is a nearest hundredth: with x = m * 2^e written as the
    fraction of [m * 2^max(0,e)] and [2^max(0,-e)]. *)
Lemma hundredths_nearest m e :
  let d := 2 ^ Z.max 0 (- e) in
  2 * Z.abs (100 * (Zpos m * 2 ^ Z.max 0 e) - hundredths m e * d) <= d.
Proof.
  cbv zeta. unfold hundredths. rewrite <- Z.mul_assoc. apply round_quotient_nearest. apply Z.pow_pos_nonneg; lia.
Qed.

Example fixed2_demo :
  fixed2 (S754_finite true 5 (-3)) = chars "-0.62" /\ fixed2 (S754_finite false 30 0) = chars "30.00".
Proof. split; reflexivity. Qed.

Example log_line_bounded_witness :
  log_statement (replicate 512 x41) Info Warn 3 (demo_time 7 45999999) (chars "src/src/main.cpp") 42
    [LStr (Some (chars "n=")); LInt (-7)] =
  Some [(3, chars "[WARN ] [2024-02-29 23:59:07.045] [main.cpp:42] n=-7" ++ [x0a]);
        (2, chars "[WARN ] [2024-02-29 23:59:07.045] [main.cpp:42] n=-7" ++ [x0a])].
Proof.
  rewrite (log_line_bounded (replicate 512 x41) Info Warn 3 (demo_time 7 45999999) (chars "src/src/main.cpp") 42);
    [vm_compute; reflexivity | rewrite length_replicate; reflexivity | apply demo_time_ok; cbn; lia | reflexivity].
Defined.
