(* ===== verification/SslErrors.v ===== *)
(** * The error queue of OpenSSL (logSslErrors of tls_client.cpp and server.cpp)

    OpenSSL keeps the errors of a thread in a queue; ERR_get_error takes the
    oldest one out and returns 0 when there is none. *)

From S2P Require Import Prelude Text Log.
From Stdlib Require Import Strings.Byte.

Class ErrOps := {
  errors : Type;
  (** ERR_get_error(): the code, and the queue afterwards *)
  ERR_get_error : errors -> Z * errors;
  (** The text that ERR_error_string_n writes for a code, before it is cut. *)
  error_string : Z -> list byte
}.

Class ErrLaws (O : ErrOps) := {
  queued : errors -> list Z;
  get_error_spec e :
    match queued e with
    | [] => (ERR_get_error e).1 = 0 /\ queued (ERR_get_error e).2 = []
    | code :: codes => (ERR_get_error e).1 = code /\ code <> 0 /\ queued (ERR_get_error e).2 = codes
    end
}.

Section Errors.
Context {Err : ErrOps}.

(** ERR_error_string_n into [buf[256]]. *)
Definition error_buf (code : Z) : list byte := take 255 (c_string (error_string code)).

(** The loop; [emit] makes of a code what is written for it. *)
Fixpoint drain_errors {A} (emit : Z -> A) (fuel : nat) (e : errors) : option (list A * errors) :=
  match fuel with
  | O => None
  | S fuel =>
      let '(err, e) := ERR_get_error e in
      if err =? 0 then Some ([], e)
      else '(out, e) ← drain_errors emit fuel e; Some (emit err :: out, e)
  end.

(** The client's: the arguments of a LOG_ERROR statement for each error. *)
Definition logSslErrors (context : list byte) : nat -> errors -> option (list (list log_arg) * errors) :=
  drain_errors (fun err => [LStr (Some context); LStr (Some (chars ": ")); LStr (Some (error_buf err))]).

(** The server's: a line on stderr for each. *)
Definition server_logSslErrors (ctx : list byte) : nat -> errors -> option (list (list byte) * errors) :=
  drain_errors (fun err => chars "[ERROR] " ++ ctx ++ chars ": " ++ error_buf err ++ newline).

Context {Laws : ErrLaws Err}.

Lemma drain_errors_spec {A} (emit : Z -> A) e :
  exists e', queued e' = [] /\ converges (fun n => drain_errors emit n e) (emit <$> queued e, e').
Proof.
  remember (queued e) as codes eqn:Hq. symmetry in Hq. revert e Hq.
  induction codes as [|code codes IH]; intros e Hq; pose proof (get_error_spec e) as H; rewrite Hq in H;
    destruct (ERR_get_error e) as [err e1] eqn:E; cbn in H.
  - destruct H as [-> H]. exists e1. split; [done|]. exists 1%nat. intros [|n] Hn; [lia|]. cbn. by rewrite E.
  - destruct H as (-> & Hne & H). destruct (IH e1 H) as (e2 & H2 & [n Hn]). exists e2. split; [done|].
    exists (S n). intros [|m] Hm; [lia|]. cbn. rewrite E, (proj2 (Z.eqb_neq code 0)) by done. by rewrite Hn by lia.
Qed.

(** Both loops end whatever is queued: they write one line for each queued
    error, oldest first, and leave the queue empty, so that no later call
    reports an error of an earlier one. *)
Theorem ssl_errors_logged ctx e :
  exists e1 e2, queued e1 = [] /\ queued e2 = [] /\
    converges (fun n => logSslErrors ctx n e)
      ((fun err => [LStr (Some ctx); LStr (Some (chars ": ")); LStr (Some (error_buf err))]) <$> queued e, e1) /\
    converges (fun n => server_logSslErrors ctx n e)
      ((fun err => chars "[ERROR] " ++ ctx ++ chars ": " ++ error_buf err ++ newline) <$> queued e, e2).
Proof.
  destruct (drain_errors_spec (fun err => [LStr (Some ctx); LStr (Some (chars ": ")); LStr (Some (error_buf err))]) e)
    as (e1 & H1 & H2).
  destruct (drain_errors_spec (fun err => chars "[ERROR] " ++ ctx ++ chars ": " ++ error_buf err ++ newline) e)
    as (e2 & H3 & H4).
  by exists e1, e2.
Qed.
End Errors.

(** A queue of codes. *)
#[local] Instance list_errors : ErrOps := {
  errors := list positive;
  ERR_get_error e := match e with [] => (0, []) | c :: cs => (Z.pos c, cs) end;
  error_string c := chars "error:" ++ decimal c
}.

#[local] Program Instance list_errors_laws : ErrLaws list_errors := { queued := map Z.pos }.
Next Obligation. by intros [|c cs]. Qed.

Definition demo_errors : @errors list_errors := [7%positive; 8%positive].

Example ssl_errors_logged_witness :
  exists e2 : @errors list_errors, queued e2 = [] /\ converges (fun n => server_logSslErrors (chars "SSL_accept") n demo_errors)
    ([chars "[ERROR] SSL_accept: error:7" ++ newline; chars "[ERROR] SSL_accept: error:8" ++ newline], e2).
Proof.
  destruct (ssl_errors_logged (chars "SSL_accept") demo_errors) as (e1 & e2 & _ & H1 & _ & H2).
  exists e2. split; [exact H1 | exact H2].
Defined.
