(* ===== verification/LogThreads.v ===== *)
(** * Threads logging at the same time (include/log.hpp)

    Any number of threads execute log statements. A statement's buffer is its
    thread's own; the threads share [g_log_once], [g_log_fd], [g_log_mutex] and
    the two files. The destructor is cut at every access to these. *)

From S2P Require Import Prelude Text Timestamp Log.
From stdpp Require Import functions.
From Stdlib Require Import Strings.Byte.

#[local] Open Scope Z_scope.

#[local] Abbreviation thread := nat.

(** Where a thread is; [line] are the bytes [finish_line] gave. *)
Inductive log_pc :=
  | LIdle                        (** not logging *)
  | LOnce (line : list byte)     (** at pthread_once *)
  | LOpen (line : list byte)     (** in openLogFile, at open() *)
  | LCheck (line : list byte)    (** in openLogFile, [g_log_fd] assigned *)
  | LLock (line : list byte)     (** at pthread_mutex_lock *)
  | LFile (line : list byte)     (** at write(g_log_fd, ...) *)
  | LErr (line : list byte)      (** at the test for stderr *)
  | LUnlock (line : list byte).  (** at pthread_mutex_unlock *)

Inductive once_state := OnceInit | OnceBusy (t : thread) | OnceDone.

Record log_sys := mkLogSys {
  ls_once : once_state;
  ls_fd : Z;                                   (** [g_log_fd] *)
  ls_owner : option thread;                    (** of [g_log_mutex] *)
  ls_pcs : thread -> log_pc;
  ls_opens : list Z;                           (** history: what the calls of open() returned *)
  ls_writes : list (Z * list byte);            (** history: descriptors and bytes they took *)
  ls_issued : list (thread * list byte)        (** history: statements begun *)
}.

Definition log_init : log_sys := mkLogSys OnceInit (-1) None (fun _ => LIdle) [] [] [].

Definition at_pc (t : thread) (pc : log_pc) (s : log_sys) : log_sys :=
  mkLogSys (ls_once s) (ls_fd s) (ls_owner s) (<[t := pc]> (ls_pcs s)) (ls_opens s) (ls_writes s) (ls_issued s).
Definition set_once (o : once_state) (s : log_sys) : log_sys :=
  mkLogSys o (ls_fd s) (ls_owner s) (ls_pcs s) (ls_opens s) (ls_writes s) (ls_issued s).
Definition set_fd (fd : Z) (s : log_sys) : log_sys :=
  mkLogSys (ls_once s) fd (ls_owner s) (ls_pcs s) (ls_opens s) (ls_writes s) (ls_issued s).
Definition set_log_owner (o : option thread) (s : log_sys) : log_sys :=
  mkLogSys (ls_once s) (ls_fd s) o (ls_pcs s) (ls_opens s) (ls_writes s) (ls_issued s).
Definition did_open (fd : Z) (s : log_sys) : log_sys :=
  mkLogSys (ls_once s) (ls_fd s) (ls_owner s) (ls_pcs s) (ls_opens s ++ [fd]) (ls_writes s) (ls_issued s).
Definition did_write (w : list (Z * list byte)) (s : log_sys) : log_sys :=
  mkLogSys (ls_once s) (ls_fd s) (ls_owner s) (ls_pcs s) (ls_opens s) (ls_writes s ++ w) (ls_issued s).
Definition issue (t : thread) (line : list byte) (s : log_sys) : log_sys :=
  mkLogSys (ls_once s) (ls_fd s) (ls_owner s) (ls_pcs s) (ls_opens s) (ls_writes s) (ls_issued s ++ [(t, line)]).

(** write() takes some of the bytes, or none when it fails; the result is not
    looked at. *)
Inductive log_step : log_sys -> log_sys -> Prop :=
  | Log_begin s t m line :
      ls_pcs s t = LIdle -> should_log_ m = true -> finish_line m = Some line ->
      log_step s (issue t line (at_pc t (LOnce line) s))
  | Log_once_first s t line :
      ls_pcs s t = LOnce line -> ls_once s = OnceInit ->
      log_step s (set_once (OnceBusy t) (at_pc t (LOpen line) s))
  | Log_once_done s t line :
      ls_pcs s t = LOnce line -> ls_once s = OnceDone ->
      log_step s (at_pc t (LLock line) s)
  | Log_open s t line fd :
      ls_pcs s t = LOpen line ->
      log_step s (did_open fd (set_fd fd (at_pc t (LCheck line) s)))
  | Log_check s t line :
      ls_pcs s t = LCheck line ->
      log_step s (set_fd (openLogFile (ls_fd s)) (set_once OnceDone (at_pc t (LLock line) s)))
  | Log_lock s t line :
      ls_pcs s t = LLock line -> ls_owner s = None ->
      log_step s (set_log_owner (Some t) (at_pc t (LFile line) s))
  | Log_file s t line k :
      ls_pcs s t = LFile line ->
      log_step s (did_write [(ls_fd s, take k line)] (at_pc t (LErr line) s))
  | Log_same s t line :
      ls_pcs s t = LErr line -> ls_fd s = STDERR_FILENO ->
      log_step s (at_pc t (LUnlock line) s)
  | Log_stderr s t line k :
      ls_pcs s t = LErr line -> ls_fd s <> STDERR_FILENO ->
      log_step s (did_write [(STDERR_FILENO, take k line)] (at_pc t (LUnlock line) s))
  | Log_unlock s t line :
      ls_pcs s t = LUnlock line ->
      log_step s (set_log_owner None (at_pc t LIdle s)).

Definition log_reaches : log_sys -> log_sys -> Prop := rtc log_step.
