(* ===== verification/LogThreadProps.v ===== *)
(** * What concurrent logging guarantees *)

From S2P Require Import Prelude Text Timestamp TimestampProps Log LogProps LogThreads.
From stdpp Require Import functions.
From Stdlib Require Import Strings.Byte.

#[local] Open Scope Z_scope.

(** ** Statements and what they write *)

(** A finished statement: its thread, its line, and how much of it the two
    write() calls took. *)
Record written := mkWritten { w_thread : nat; w_line : list byte; w_file : nat; w_stderr : nat }.

Definition emits (fd : Z) (w : written) : list (Z * list byte) :=
  (fd, take (w_file w) (w_line w)) ::
  (if fd =? STDERR_FILENO then [] else [(STDERR_FILENO, take (w_stderr w) (w_line w))]).

Definition pending (pc : log_pc) : list (list byte) :=
  match pc with
  | LIdle => []
  | LOnce l | LOpen l | LCheck l | LLock l | LFile l | LErr l | LUnlock l => [l]
  end.

Definition lines_of (t : nat) (l : list (nat * list byte)) : list (list byte) :=
  omap (fun x => if decide (x.1 = t) then Some x.2 else None) l.

Definition statement_of (w : written) : nat * list byte := (w_thread w, w_line w).

(** ** The invariant *)

Definition before_open (pc : log_pc) : Prop := match pc with LIdle | LOnce _ => True | _ => False end.
Definition opening (pc : log_pc) : Prop := match pc with LOpen _ | LCheck _ => True | _ => False end.
Definition locked (pc : log_pc) : Prop := match pc with LFile _ | LErr _ | LUnlock _ => True | _ => False end.

Definition once_ok (s : log_sys) : Prop :=
  match ls_once s with
  | OnceInit => ls_opens s = [] /\ forall t, before_open (ls_pcs s t)
  | OnceBusy t =>
      match ls_pcs s t with
      | LOpen _ => ls_opens s = []
      | LCheck _ => ls_opens s = [ls_fd s]
      | _ => False
      end /\ forall u, u <> t -> before_open (ls_pcs s u)
  | OnceDone => (exists ret, ls_opens s = [ret] /\ ls_fd s = openLogFile ret) /\ forall t, ~ opening (ls_pcs s t)
  end.

Definition mutex_ok (s : log_sys) : Prop := forall t, locked (ls_pcs s t) <-> ls_owner s = Some t.

(** What the holder of the mutex has written so far. *)
Definition current (s : log_sys) (cur : list (Z * list byte)) : Prop :=
  match ls_owner s with
  | None => cur = []
  | Some t =>
      match ls_pcs s t with
      | LErr line => exists k, cur = [(ls_fd s, take k line)]
      | LUnlock line => exists k k', cur = emits (ls_fd s) (mkWritten t line k k')
      | _ => cur = []
      end
  end.

Record log_inv (ws : list written) (s : log_sys) : Prop := mkLogInv {
  li_once : once_ok s;
  li_mutex : mutex_ok s;
  li_writes : exists cur, ls_writes s = concat (emits (ls_fd s) <$> ws) ++ cur /\ current s cur;
  li_early : ls_once s <> OnceDone -> ls_writes s = [] /\ ws = [];
  li_issued : forall t, lines_of t (ls_issued s) = lines_of t (statement_of <$> ws) ++ pending (ls_pcs s t)
}.

Lemma lines_of_snoc t l x :
  lines_of t (l ++ [x]) = lines_of t l ++ (if decide (x.1 = t) then [x.2] else []).
Proof. unfold lines_of. rewrite omap_app. cbn. by destruct (decide (x.1 = t)). Qed.

Lemma log_inv_init : log_inv [] log_init.
Proof. constructor; try done. by exists []. Qed.

(** One thread moves, the others stay. *)
Ltac at_thread u t :=
  cbn [at_pc issue set_once set_fd set_log_owner did_open did_write ls_pcs ls_once ls_fd ls_owner ls_opens ls_writes ls_issued] in *;
  destruct (decide (u = t)) as [->|?];
  [rewrite ?fn_lookup_insert in * | rewrite ?fn_lookup_insert_ne in * by done].

Lemma once_moves s t pc pc' :
  once_ok s -> ls_pcs s t = pc -> (ls_once s <> OnceDone -> before_open pc -> before_open pc') -> (opening pc <-> opening pc') ->
  (opening pc -> pc = pc') -> once_ok (at_pc t pc' s).
Proof.
  unfold once_ok. intros H Hpc H1 H2 H3. cbn. destruct (ls_once s) as [|u|].
  - destruct H as [Ho H]. split; [done|]. intros u. at_thread u t; [|done]. apply H1; [done|]. rewrite <- Hpc. apply H.
  - destruct H as [Ho H]. at_thread u t.
    + rewrite Hpc in Ho. assert (opening pc) as Hop by (by destruct pc). rewrite <- (H3 Hop). split; [done|].
      intros v Hv. rewrite fn_lookup_insert_ne by done. by apply H.
    + split; [done|]. intros v Hv. at_thread v t; [|by apply H]. apply H1; [done|]. rewrite <- Hpc. by apply H.
  - destruct H as [Ho H]. split; [done|]. intros u. at_thread u t; [|done]. rewrite <- H2, <- Hpc. apply H.
Qed.

Lemma mutex_moves s t pc pc' :
  mutex_ok s -> ls_pcs s t = pc -> (locked pc <-> locked pc') -> mutex_ok (at_pc t pc' s).
Proof.
  intros H Hpc Hl u. at_thread u t; [|apply H]. rewrite <- Hl, <- Hpc. apply H.
Qed.

Lemma current_moves s t pc pc' cur :
  mutex_ok s -> ls_pcs s t = pc -> ~ locked pc -> current s cur -> current (at_pc t pc' s) cur.
Proof.
  intros H Hpc Hl Hc. unfold current in *. cbn. destruct (ls_owner s) as [u|] eqn:E; [|done].
  rewrite fn_lookup_insert_ne; [done|]. intros <-. apply Hl. rewrite <- Hpc. by apply H.
Qed.

Lemma issued_moves ws s t pc pc' :
  (forall t, lines_of t (ls_issued s) = lines_of t (statement_of <$> ws) ++ pending (ls_pcs s t)) ->
  ls_pcs s t = pc -> pending pc = pending pc' ->
  forall u, lines_of u (ls_issued s) = lines_of u (statement_of <$> ws) ++ pending (<[t := pc']> (ls_pcs s) u).
Proof. intros H Hpc Hp u. at_thread u t; [|apply H]. by rewrite <- Hp, <- Hpc. Qed.

Lemma unlocked_opening s t : once_ok s -> mutex_ok s -> opening (ls_pcs s t) -> ls_owner s = None /\ ls_once s = OnceBusy t.
Proof.
  unfold once_ok. intros Ho Hm Ht. destruct (ls_once s) as [|u|].
  - destruct Ho as [_ Ho]. specialize (Ho t). by destruct (ls_pcs s t).
  - destruct Ho as [Hu Ho]. destruct (decide (t = u)) as [->|Hne].
    + split; [|done]. destruct (ls_owner s) as [v|] eqn:E; [|done]. apply Hm in E.
      destruct (decide (v = u)) as [->|Hv]; [by destruct (ls_pcs s u)|].
      specialize (Ho v Hv). by destruct (ls_pcs s v).
    + specialize (Ho t Hne). by destruct (ls_pcs s t).
  - destruct Ho as [_ Ho]. by destruct (Ho t).
Qed.

Lemma locked_done s t : once_ok s -> locked (ls_pcs s t) -> ls_once s = OnceDone.
Proof.
  unfold once_ok. intros Ho Ht. destruct (ls_once s) as [|u|]; [| |done].
  - destruct Ho as [_ Ho]. specialize (Ho t). by destruct (ls_pcs s t).
  - destruct Ho as [Hu Ho]. destruct (decide (t = u)) as [->|Hne]; [by destruct (ls_pcs s u)|].
    specialize (Ho t Hne). by destruct (ls_pcs s t).
Qed.

(** A move of a thread that does not touch anything shared. *)
Lemma quiet_move ws s t pc pc' :
  log_inv ws s -> ls_pcs s t = pc -> pending pc = pending pc' -> ~ locked pc -> ~ locked pc' ->
  ~ opening pc -> ~ opening pc' -> ls_once s = OnceDone -> log_inv ws (at_pc t pc' s).
Proof.
  intros [H1 H2 (cur & H3 & H4) H5 H6] Hpc. intros. constructor.
  - apply (once_moves s t pc); tauto.
  - apply (mutex_moves s t pc); tauto.
  - exists cur. split; [done|]. by apply (current_moves s t pc).
  - done.
  - by apply (issued_moves ws s t pc).
Qed.

Lemma inv_begin ws s t line :
  log_inv ws s -> ls_pcs s t = LIdle -> log_inv ws (issue t line (at_pc t (LOnce line) s)).
Proof.
  intros [H1 H2 (cur & H3 & H4) H5 H6] Hpc. constructor.
  - by apply (once_moves s t LIdle).
  - by apply (mutex_moves s t LIdle).
  - exists cur. split; [done|]. apply (current_moves s t LIdle (LOnce line) cur); auto.
  - done.
  - intros u. cbn [issue at_pc ls_issued ls_pcs]. rewrite lines_of_snoc, (H6 u). cbn [fst snd]. at_thread u t.
    + by rewrite decide_True, Hpc, !app_nil_r by done.
    + by rewrite decide_False, app_nil_r by congruence.
Qed.

Lemma inv_once_first ws s t line :
  log_inv ws s -> ls_pcs s t = LOnce line -> ls_once s = OnceInit ->
  log_inv ws (set_once (OnceBusy t) (at_pc t (LOpen line) s)).
Proof.
  intros [H1 H2 (cur & H3 & H4) H5 H6] Hpc Ho. constructor.
  - unfold once_ok in *. rewrite Ho in H1. destruct H1 as [H1 H1']. cbn. rewrite fn_lookup_insert.
    split; [done|]. intros u Hu. by rewrite fn_lookup_insert_ne.
  - by apply (mutex_moves s t (LOnce line)).
  - exists cur. split; [done|]. apply (current_moves s t (LOnce line) (LOpen line) cur); auto.
  - intros _. apply H5. congruence.
  - by apply (issued_moves ws s t (LOnce line)).
Qed.

Lemma inv_open ws s t line fd :
  log_inv ws s -> ls_pcs s t = LOpen line -> log_inv ws (did_open fd (set_fd fd (at_pc t (LCheck line) s))).
Proof.
  intros [H1 H2 (cur & H3 & H4) H5 H6] Hpc.
  destruct (unlocked_opening s t H1 H2) as [Hno Hb]; [by rewrite Hpc|].
  destruct H5 as [Hw ->]; [congruence|]. constructor.
  - unfold once_ok in *. rewrite Hb in H1. cbn. rewrite Hb, fn_lookup_insert. rewrite Hpc in H1.
    destruct H1 as [H1 H1']. rewrite H1. split; [done|]. intros u Hu. rewrite fn_lookup_insert_ne by done. by apply H1'.
  - by apply (mutex_moves s t (LOpen line)).
  - exists []. split; [done|]. unfold current. cbn. by rewrite Hno.
  - by intros _.
  - by apply (issued_moves [] s t (LOpen line)).
Qed.

Lemma inv_check ws s t line :
  log_inv ws s -> ls_pcs s t = LCheck line ->
  log_inv ws (set_fd (openLogFile (ls_fd s)) (set_once OnceDone (at_pc t (LLock line) s))).
Proof.
  intros [H1 H2 (cur & H3 & H4) H5 H6] Hpc.
  destruct (unlocked_opening s t H1 H2) as [Hno Hb]; [by rewrite Hpc|].
  destruct H5 as [Hw ->]; [congruence|]. constructor.
  - unfold once_ok in *. rewrite Hb in H1. cbn. rewrite Hpc in H1. destruct H1 as [H1 H1'].
    split; [by exists (ls_fd s)|]. intros u. at_thread u t; [by intros []|]. specialize (H1' u ltac:(done)). destruct (ls_pcs s u); cbn in *; tauto.
  - by apply (mutex_moves s t (LCheck line)).
  - exists []. split; [done|]. unfold current. cbn. by rewrite Hno.
  - done.
  - by apply (issued_moves [] s t (LCheck line)).
Qed.

Lemma inv_lock ws s t line :
  log_inv ws s -> ls_pcs s t = LLock line -> ls_owner s = None ->
  log_inv ws (set_log_owner (Some t) (at_pc t (LFile line) s)).
Proof.
  intros [H1 H2 (cur & H3 & H4) H5 H6] Hpc Hno. constructor.
  - by apply (once_moves s t (LLock line)).
  - intros u. at_thread u t; [by split|]. rewrite (H2 u), Hno. split; congruence.
  - unfold current in H4. rewrite Hno in H4. subst cur. exists []. split; [done|].
    unfold current. cbn. by rewrite fn_lookup_insert.
  - done.
  - by apply (issued_moves ws s t (LLock line)).
Qed.

(** The holder of the mutex moves inside its critical section. *)
Lemma inv_critical ws s t pc pc' new :
  log_inv ws s -> ls_pcs s t = pc -> locked pc -> locked pc' -> pending pc = pending pc' ->
  (forall cur, current s cur -> current (at_pc t pc' s) (cur ++ new)) ->
  log_inv ws (did_write new (at_pc t pc' s)).
Proof.
  intros [H1 H2 (cur & H3 & H4) H5 H6] Hpc L L' Hp Hnew.
  assert (ls_once s = OnceDone) as Hd by (eapply (locked_done s t); [done | by rewrite Hpc]).
  constructor.
  - eapply once_moves; [done | exact Hpc | by destruct pc | by destruct pc, pc' | by destruct pc].
  - by apply (mutex_moves s t pc).
  - exists (cur ++ new). cbn. rewrite H3, app_assoc. split; [done | by apply Hnew].
  - done.
  - by apply (issued_moves ws s t pc).
Qed.

Lemma inv_unlock ws s t line :
  log_inv ws s -> ls_pcs s t = LUnlock line ->
  exists w, log_inv (ws ++ [w]) (set_log_owner None (at_pc t LIdle s)).
Proof.
  intros [H1 H2 (cur & H3 & H4) H5 H6] Hpc.
  assert (ls_owner s = Some t) as Hown by (apply H2; by rewrite Hpc).
  assert (ls_once s = OnceDone) as Hd by (eapply (locked_done s t); [done | by rewrite Hpc]).
  unfold current in H4. rewrite Hown, Hpc in H4. destruct H4 as (k & k' & ->).
  exists (mkWritten t line k k'). constructor.
  - by apply (once_moves s t (LUnlock line)).
  - intros u. at_thread u t; [by split|]. rewrite (H2 u), Hown. split; congruence.
  - exists []. rewrite fmap_app, concat_app. cbn [fmap list_fmap concat]. rewrite !app_nil_r. by split.
  - done.
  - intros u. cbn [set_log_owner at_pc ls_issued ls_pcs].
    change (statement_of <$> ws ++ [mkWritten t line k k']) with (statement_of <$> (ws ++ [mkWritten t line k k'])).
    rewrite fmap_app. cbn [fmap list_fmap statement_of w_thread w_line].
    rewrite (lines_of_snoc u (statement_of <$> ws) (t, line)), (H6 u). cbn [fst snd]. at_thread u t.
    + by rewrite Hpc, decide_True, app_nil_r by done.
    + rewrite decide_False by congruence. by rewrite app_nil_r.
Qed.

Lemma log_inv_step ws s s' : log_inv ws s -> log_step s s' -> exists ws', log_inv ws' s'.
Proof.
  intros H Hs. destruct Hs as [s t m line Hpc|s t line Hpc Ho|s t line Hpc Ho|s t line fd Hpc|s t line Hpc
    |s t line Hpc Ho|s t line k Hpc|s t line Hpc Hfd|s t line k Hpc Hfd|s t line Hpc].
  - exists ws. by apply inv_begin.
  - exists ws. by apply inv_once_first.
  - exists ws. apply (quiet_move ws s t (LOnce line)); try done; by intros [].
  - exists ws. by apply inv_open.
  - exists ws. by apply inv_check.
  - exists ws. by apply inv_lock.
  - exists ws. eapply inv_critical; [done | exact Hpc | done..|].
    pose proof (li_mutex _ _ H t) as [Hm _]. rewrite Hpc in Hm. specialize (Hm I).
    unfold current. cbn. rewrite Hm, Hpc, fn_lookup_insert. intros cur ->. by exists k.
  - exists ws. pose proof (li_mutex _ _ H t) as [Hm _]. rewrite Hpc in Hm. specialize (Hm I).
    assert (at_pc t (LUnlock line) s = did_write [] (at_pc t (LUnlock line) s)) as ->
      by (unfold did_write; cbn; by rewrite app_nil_r).
    eapply inv_critical; [done | exact Hpc | done..|].
    unfold current. cbn. rewrite Hm, Hpc, fn_lookup_insert. intros cur (k & ->). exists k, 0%nat.
    unfold emits. by rewrite Hfd.
  - exists ws. pose proof (li_mutex _ _ H t) as [Hm _]. rewrite Hpc in Hm. specialize (Hm I).
    eapply inv_critical; [done | exact Hpc | done..|].
    unfold current. cbn. rewrite Hm, Hpc, fn_lookup_insert. intros cur (j & ->). exists j, k.
    unfold emits. by rewrite (proj2 (Z.eqb_neq _ _) Hfd).
  - destruct (inv_unlock ws s t line H Hpc) as (w & Hw). by exists (ws ++ [w]).
Qed.

Lemma log_reaches_inv s : log_reaches log_init s -> exists ws, log_inv ws s.
Proof.
  intros H. assert (exists ws, log_inv ws log_init) as Hi by (exists []; apply log_inv_init).
  revert Hi. induction H as [s|s s1 s' Hs _ IH]; intros [ws Hw]; [by exists ws|].
  apply IH. by eapply log_inv_step.
Qed.

(** C24: concurrent log statements are written one after the other. Under every
    interleaving of any number of threads, the calls of write() up to any
    moment are those of finished statements, one whole statement after the
    other, plus at most the beginning of the statement of the thread that
    holds the mutex: no two lines are mixed, and the log file and stderr get
    the lines in the same order. Each thread's statements appear in the order
    in which it made them, none twice; the log file is opened at most once,
    and nothing is written before that. *)
Theorem log_lines_serial s :
  log_reaches log_init s ->
  exists (ws : list written) (cur : list (Z * list byte)) (fd : Z),
    ls_writes s = concat (emits fd <$> ws) ++ cur /\
    match ls_owner s with
    | None => cur = []
    | Some t => exists line k k', prefix cur (emits fd (mkWritten t line k k'))
    end /\
    (forall t, lines_of t (ls_issued s) = lines_of t (statement_of <$> ws) ++ pending (ls_pcs s t)) /\
    (ls_writes s <> [] -> exists ret, ls_opens s = [ret] /\ fd = openLogFile ret) /\
    (length (ls_opens s) <= 1)%nat.
Proof.
  intros Hr. destruct (log_reaches_inv s Hr) as (ws & [H1 H2 (cur & H3 & H4) H5 H6]).
  exists ws, cur, (ls_fd s). split_and!; [done| |done|..].
  - unfold current in H4. destruct (ls_owner s) as [t|]; [|done].
    destruct (ls_pcs s t); try (subst cur; exists [], 0%nat, 0%nat; apply prefix_nil).
    + destruct H4 as (k & ->). exists line, k, 0%nat. unfold emits. apply prefix_cons, prefix_nil.
    + destruct H4 as (k & k' & ->). by exists line, k, k'.
  - intros Hw. unfold once_ok in H1. destruct (ls_once s) eqn:E; [by destruct H5..|]. by destruct H1 as [H1 _].
  - unfold once_ok in H1. destruct (ls_once s); [by destruct H1 as [-> _]; cbn; lia| |].
    + destruct H1 as [H1 _]. destruct (ls_pcs s t); try done; rewrite H1; cbn; lia.
    + destruct H1 as [(ret & -> & _) _]. done.
Qed.

(** ** Completion *)

Definition pc_rank (pc : log_pc) : nat :=
  match pc with
  | LIdle => 0 | LUnlock _ => 1 | LErr _ => 2 | LFile _ => 3 | LLock _ => 4
  | LCheck _ => 5 | LOpen _ => 6 | LOnce _ => 7
  end.

(** What is left for thread [t]: its own steps, and those of the thread it is
    waiting for. *)
Definition log_left (t : nat) (s : log_sys) : nat :=
  10 * pc_rank (ls_pcs s t) +
  match ls_pcs s t with
  | LOnce _ => match ls_once s with OnceBusy u => pc_rank (ls_pcs s u) | _ => 0 end
  | LLock _ => match ls_owner s with Some u => pc_rank (ls_pcs s u) | None => 0 end
  | _ => 0
  end.

Lemma log_owner_moves ws s u :
  log_inv ws s -> locked (ls_pcs s u) ->
  exists s', log_step s s' /\ ls_issued s' = ls_issued s /\
    (pc_rank (ls_pcs s' u) < pc_rank (ls_pcs s u))%nat /\
    (forall v, v <> u -> ls_pcs s' v = ls_pcs s v) /\ (ls_owner s' = ls_owner s \/ ls_owner s' = None).
Proof.
  intros Hi Hl. destruct (ls_pcs s u) as [|l|l|l|l|l|l|l] eqn:E; try done.
  - eexists. split; [by apply (Log_file s u l 0)|]. cbn. rewrite fn_lookup_insert.
    split_and!; [done | cbn; lia | intros; by rewrite fn_lookup_insert_ne | by left].
  - destruct (decide (ls_fd s = STDERR_FILENO)).
    + eexists. split; [by apply (Log_same s u l)|]. cbn. rewrite fn_lookup_insert.
      split_and!; [done | cbn; lia | intros; by rewrite fn_lookup_insert_ne | by left].
    + eexists. split; [by apply (Log_stderr s u l 0)|]. cbn. rewrite fn_lookup_insert.
      split_and!; [done | cbn; lia | intros; by rewrite fn_lookup_insert_ne | by left].
  - eexists. split; [by apply (Log_unlock s u l)|]. cbn. rewrite fn_lookup_insert.
    split_and!; [done | cbn; lia | intros; by rewrite fn_lookup_insert_ne | by right].
Qed.

Lemma pc_rank_le pc : (pc_rank pc <= 7)%nat.
Proof. destruct pc; cbn; lia. Qed.

Lemma log_left_le t s : (log_left t s <= 10 * pc_rank (ls_pcs s t) + 7)%nat.
Proof.
  unfold log_left. destruct (ls_pcs s t); try lia.
  - destruct (ls_once s) as [|u|]; try lia. pose proof (pc_rank_le (ls_pcs s u)). lia.
  - destruct (ls_owner s) as [u|]; try lia. pose proof (pc_rank_le (ls_pcs s u)). lia.
Qed.

Lemma log_left_ge t s : (10 * pc_rank (ls_pcs s t) <= log_left t s)%nat.
Proof. unfold log_left. lia. Qed.

Lemma log_left_less t s s' : (pc_rank (ls_pcs s' t) < pc_rank (ls_pcs s t))%nat -> (log_left t s' < log_left t s)%nat.
Proof. pose proof (log_left_le t s'). pose proof (log_left_ge t s). lia. Qed.

(** Thread [t]'s own step is possible. *)
Ltac own_step t c :=
  eexists; split; [by eapply c|]; split; [done|]; apply log_left_less;
  cbn [at_pc set_once set_fd did_open set_log_owner ls_pcs]; rewrite fn_lookup_insert;
  match goal with E : ls_pcs _ t = _ |- _ => rewrite E end; cbn; lia.

Lemma log_once_moves ws s t line u :
  log_inv ws s -> ls_pcs s t = LOnce line -> ls_once s = OnceBusy u ->
  exists s', log_step s s' /\ ls_issued s' = ls_issued s /\ (log_left t s' < log_left t s)%nat.
Proof.
  intros [H1 _ _ _ _] Hpc Ho. unfold once_ok in H1. rewrite Ho in H1. destruct H1 as [H1 _].
  assert (u <> t) as Hne by (intros ->; by rewrite Hpc in H1).
  destruct (ls_pcs s u) as [| |l|l| | | |] eqn:E; try done.
  - eexists. split; [by apply (Log_open s u l 0)|]. split; [done|]. unfold log_left. cbn.
    rewrite Ho, fn_lookup_insert, fn_lookup_insert_ne, Hpc, E by done. cbn. lia.
  - eexists. split; [by apply (Log_check s u l)|]. split; [done|]. unfold log_left. cbn.
    rewrite Ho, fn_lookup_insert_ne, Hpc, E by done. cbn. lia.
Qed.

Lemma log_lock_moves ws s t line u :
  log_inv ws s -> ls_pcs s t = LLock line -> ls_owner s = Some u ->
  exists s', log_step s s' /\ ls_issued s' = ls_issued s /\ (log_left t s' < log_left t s)%nat.
Proof.
  intros Hi Hpc Ho. assert (locked (ls_pcs s u)) as Hl by (by apply (li_mutex _ _ Hi)).
  destruct (log_owner_moves ws s u Hi Hl) as (s' & Hs & Hiss & Hr & Hv & Ho').
  exists s'. split_and!; [done..|]. unfold log_left.
  assert (t <> u) as Hne by (intros ->; by rewrite Hpc in Hl). rewrite (Hv t Hne), Hpc, Ho.
  destruct Ho' as [-> | ->]; [rewrite Ho|]; lia.
Qed.

Lemma log_moves ws s t :
  log_inv ws s -> ls_pcs s t <> LIdle ->
  exists s', log_step s s' /\ ls_issued s' = ls_issued s /\ (log_left t s' < log_left t s)%nat.
Proof.
  intros Hi Hpc.
  assert (locked (ls_pcs s t) -> exists s', log_step s s' /\ ls_issued s' = ls_issued s /\ (log_left t s' < log_left t s)%nat)
    as Hl.
  { intros Hl. destruct (log_owner_moves ws s t Hi Hl) as (s' & Hs & Hiss & Hr & _).
    exists s'. split_and!; [done..|]. by apply log_left_less. }
  destruct (ls_pcs s t) as [|l|l|l|l|l|l|l] eqn:E; try done; try (by apply Hl).
  - destruct (ls_once s) as [|u|] eqn:Eo; [own_step t Log_once_first | | own_step t Log_once_done].
    by eapply log_once_moves.
  - eexists. split; [by apply (Log_open s t l 0)|]. split; [done|]. apply log_left_less. cbn.
    rewrite fn_lookup_insert, E. cbn. lia.
  - own_step t Log_check.
  - destruct (ls_owner s) as [u|] eqn:Eo; [by eapply log_lock_moves | own_step t Log_lock].
Qed.

(** C25: a log statement always completes. From every reachable state, whatever
    the other threads are doing, a thread inside a log statement gets to its
    end, without any thread beginning another statement: neither pthread_once
    nor the mutex can block for ever. *)
Theorem log_statement_completes s t :
  log_reaches log_init s ->
  exists s', log_reaches s s' /\ ls_pcs s' t = LIdle /\ ls_issued s' = ls_issued s.
Proof.
  intros Hr. destruct (log_reaches_inv s Hr) as (ws & Hi). clear Hr. revert ws Hi.
  induction (Nat.lt_wf_0_projected (log_left t) s) as [s _ IH]. intros ws Hi.
  destruct (decide (pending (ls_pcs s t) = [])) as [Hp|Hp].
  { exists s. split_and!; [apply rtc_refl | by destruct (ls_pcs s t) | done]. }
  destruct (log_moves ws s t Hi) as (s1 & Hs & Hiss & Hless); [intros E; by rewrite E in Hp|].
  destruct (log_inv_step ws s s1 Hi Hs) as (ws1 & Hi1).
  destruct (IH s1 Hless ws1 Hi1) as (s' & H1 & H2 & H3). exists s'.
  split_and!; [by eapply rtc_l | done | congruence].
Qed.

(** ** A concrete run

    Threads 1 and 2 log; thread 1 opens the file, thread 2 gets the mutex first
    and its write to the file is cut short. *)

Definition demo_line (c : byte) : LogMessage := mkLogMessage true [c; c; c] 1.

Lemma demo_log_reached : exists s, log_reaches log_init s /\ ls_writes s = [(3, [x42]); (2, [x42; x0a])] /\
  ls_owner s = None /\ ls_pcs s 1%nat = LLock [x41; x0a].
Proof.
  eexists. split.
  - eapply rtc_l; [by apply (Log_begin _ 1%nat (demo_line x41) [x41; x0a])|].
    eapply rtc_l; [by apply (Log_once_first _ 1%nat [x41; x0a])|].
    eapply rtc_l; [by apply (Log_begin _ 2%nat (demo_line x42) [x42; x0a])|].
    eapply rtc_l; [by apply (Log_open _ 1%nat [x41; x0a] 3)|].
    eapply rtc_l; [by apply (Log_check _ 1%nat [x41; x0a])|].
    eapply rtc_l; [by apply (Log_once_done _ 2%nat [x42; x0a])|].
    eapply rtc_l; [by apply (Log_lock _ 2%nat [x42; x0a])|].
    eapply rtc_l; [by apply (Log_file _ 2%nat [x42; x0a] 1%nat)|].
    eapply rtc_l; [by apply (Log_stderr _ 2%nat [x42; x0a] 2%nat)|].
    eapply rtc_once. by apply (Log_unlock _ 2%nat [x42; x0a]).
  - by split_and!.
Qed.

Example log_lines_serial_witness :
  exists s (ws : list written) (fd : Z),
    ls_writes s = [(3, [x42]); (2, [x42; x0a])] /\ ls_writes s = concat (emits fd <$> ws).
Proof.
  destruct demo_log_reached as (s & Hr & Hw & Ho & _).
  destruct (log_lines_serial s Hr) as (ws & cur & fd & H1 & H2 & _).
  rewrite Ho in H2. subst cur. rewrite app_nil_r in H1. exists s, ws, fd. split; [exact Hw | exact H1].
Defined.

Example log_statement_completes_witness :
  exists s s', ls_pcs s 1%nat = LLock [x41; x0a] /\ log_reaches s s' /\ ls_pcs s' 1%nat = LIdle.
Proof.
  destruct demo_log_reached as (s & Hr & _ & _ & Hpc).
  destruct (log_statement_completes s 1%nat Hr) as (s' & H1 & H2 & _).
  exists s, s'. split_and!; [exact Hpc | exact H1 | exact H2].
Defined.
