(* ===== verification/CameraCapture.v ===== *)
(** * The camera (include/camera_capture.hpp, src/camera_capture.cpp)

    Opening the device, [start]/[stop], and [captureLoop] with the sequence
    numbers and arguments of its [push] calls. OpenCV's answers are environment
    records; a [double] it returns is given by its integer part. *)

From S2P Require Import Prelude Text Protocol RingQueue.

Record CameraConfig := mkCameraConfig {
  device : list byte;
  cam_width : Z;
  cam_height : Z;
  fps : Z;
  use_jpeg : bool;
  jpeg_quality : Z
}.

Definition CameraConfig_default : CameraConfig := mkCameraConfig (chars "0") 1280 720 30 true 85.

Record CameraCapture := mkCameraCapture {
  cam_config_ : CameraConfig;
  cap_opened_ : bool;          (** cap_.isOpened() *)
  actual_width_ : Z;
  actual_height_ : Z;
  actual_fps_ : Z;
  pixel_format_ : Z;
  streaming_ : bool;
  frame_seq_ : Z
}.

Definition CameraCapture_new (config : CameraConfig) : CameraCapture :=
  mkCameraCapture config false 0 0 0 0 false 0.

(** OpenCV's parameter of that name. *)
Definition IMWRITE_JPEG_QUALITY : Z := 1.

(** The member the constructor initialises; its configuration never changes. *)
Definition jpeg_params_ (c : CameraCapture) : list Z :=
  [IMWRITE_JPEG_QUALITY; jpeg_quality (cam_config_ c)].

Definition isOpened (c : CameraCapture) : bool := cap_opened_ c.

(** ** Opening *)

(** The device index, -1 when the string is not a number. *)
Definition device_index (device : list byte) : Z :=
  let '(val, rest) := strtol device in
  match rest with
  | [] => if decide (device = []) then -1 else i32 val
  | _ => -1
  end.

(** Calls of cv::VideoCapture::open. *)
Inductive open_call :=
  | OpenIndex (index : Z) (v4l2 : bool)
  | OpenPath (path : list byte) (v4l2 : bool).

Record camera_env := mkCameraEnv {
  ve_open : open_call -> bool;
  ve_width : Z;                (** cap_.get(CAP_PROP_FRAME_WIDTH) *)
  ve_height : Z;
  ve_fps : Z
}.

(** [double] to an unsigned type of [w] bits: undefined out of range. *)
Definition of_double (w z : Z) : option Z := if decide (0 <= z < 2 ^ w) then Some z else None.

Definition open_calls (device : list byte) (v4l2 : bool) : open_call :=
  if 0 <=? device_index device then OpenIndex (device_index device) v4l2 else OpenPath device v4l2.

Definition open (e : camera_env) (c : CameraCapture) : option (bool * CameraCapture) :=
  let cfg := cam_config_ c in
  let opened := if ve_open e (open_calls (device cfg) true) then true
                else ve_open e (open_calls (device cfg) false) in
  if negb opened then
    Some (false, mkCameraCapture cfg false (actual_width_ c) (actual_height_ c) (actual_fps_ c)
                   (pixel_format_ c) (streaming_ c) (frame_seq_ c))
  else
    w ← of_double 16 (ve_width e);
    h ← of_double 16 (ve_height e);
    f ← of_double 32 (ve_fps e);
    let fmt := PixelFormat_value (if use_jpeg cfg then JPEG else BGR24) in
    Some (true, mkCameraCapture cfg true w h f fmt (streaming_ c) (frame_seq_ c)).

Definition start (c : CameraCapture) : bool * CameraCapture :=
  if negb (cap_opened_ c) then (false, c)
  else (true, mkCameraCapture (cam_config_ c) (cap_opened_ c) (actual_width_ c) (actual_height_ c)
                (actual_fps_ c) (pixel_format_ c) true 0).

Definition stop (c : CameraCapture) : CameraCapture :=
  if streaming_ c then
    mkCameraCapture (cam_config_ c) (cap_opened_ c) (actual_width_ c) (actual_height_ c)
      (actual_fps_ c) (pixel_format_ c) false (frame_seq_ c)
  else c.

(** Whether [cap_.release()] is called, and the object it leaves. *)
Definition CameraCapture_delete (c : CameraCapture) : bool * CameraCapture :=
  let c := stop c in
  if cap_opened_ c then
    (true, mkCameraCapture (cam_config_ c) false (actual_width_ c) (actual_height_ c)
             (actual_fps_ c) (pixel_format_ c) (streaming_ c) (frame_seq_ c))
  else (false, c).

(** ** Capturing *)

Definition getTimestampNs (tv_sec tv_nsec : Z) : Z :=
  u64 (u64 (u64 tv_sec * 1000000000) + u64 tv_nsec).

(** A cv::Mat: its size and its bytes. *)
Record mat := mkMat { m_cols : Z; m_rows : Z; m_data : list byte }.

(** What one iteration of the loop meets. *)
Record capture_env := mkCaptureEnv {
  ce_read : option mat;                (** cap_.read *)
  ce_clock : Z * Z;                    (** clock_gettime *)
  ce_imencode : list Z -> option (list byte)   (** cv::imencode of the image with parameters *)
}.

Definition encodeJpeg (e : capture_env) (c : CameraCapture) : option (list byte) :=
  ce_imencode e (jpeg_params_ c).

(** The arguments of [queue.push]. *)
Record push_args := mkPushArgs {
  pa_seq : Z;
  pa_timestamp_ns : Z;
  pa_data : list byte;
  pa_len : Z;
  pa_pixel_format : Z;
  pa_width : Z;
  pa_height : Z
}.

(** One iteration: the call of [push], if the iteration gets there. *)
Definition capture_body (e : capture_env) (c : CameraCapture) : option push_args * CameraCapture :=
  match ce_read e with
  | None => (None, c)
  | Some m =>
      if decide (m_data m = []) then (None, c)
      else
        let timestamp_ns := getTimestampNs (ce_clock e).1 (ce_clock e).2 in
        let prepared := if use_jpeg (cam_config_ c) then encodeJpeg e c else Some (m_data m) in
        match prepared with
        | None => (None, c)
        | Some data =>
            let seq := frame_seq_ c in
            (Some (mkPushArgs seq timestamp_ns data (u32 (Z.of_nat (length data))) (pixel_format_ c)
                     (u16 (m_cols m)) (u16 (m_rows m))),
             mkCameraCapture (cam_config_ c) (cap_opened_ c) (actual_width_ c) (actual_height_ c)
               (actual_fps_ c) (pixel_format_ c) (streaming_ c) (u64 (seq + 1)))
        end
  end.

(** [envs] pairs the value of [running.load()] with what the iteration meets. *)
Fixpoint captureLoop (envs : list (bool * capture_env)) (c : CameraCapture)
    : option (list push_args * CameraCapture) :=
  match envs with
  | [] => None
  | (running, e) :: envs =>
      if negb (running && streaming_ c) then Some ([], c)
      else
        let '(call, c) := capture_body e c in
        '(calls, c) ← captureLoop envs c;
        Some (match call with Some a => a :: calls | None => calls end, c)
  end.
