(* ===== verification/CameraProps.v ===== *)
(** * Properties of the camera component *)

From S2P Require Import Prelude Text Protocol RingQueue RingRefine CameraCapture.
From Stdlib Require Import Strings.Byte.

(** ** Devices *)

Lemma device_index_decimal n : 0 <= n <= LONG_MAX -> device_index (decimal n) = i32 n.
Proof.
  intros Hn. unfold device_index. rewrite strtol_decimal by done.
  rewrite decide_False; [done | apply decimal_nonempty].
Qed.

Lemma device_index_path rest : device_index (x2f :: rest) = -1.
Proof. reflexivity. Qed.

(** The device a string stands for: an index or a path. *)
Definition names_device (device : list byte) (target : bool -> open_call) : Prop :=
  (exists n, 0 <= n < 2 ^ 31 /\ device = decimal n /\ target = OpenIndex n) \/
  (exists rest, device = x2f :: rest /\ target = OpenPath device).

Definition sane_env (e : camera_env) : Prop :=
  0 <= ve_width e < 2 ^ 16 /\ 0 <= ve_height e < 2 ^ 16 /\ 0 <= ve_fps e < 2 ^ 32.

(** [open] on the decimal text of an [int] opens the camera with that index,
    on a text that starts with a slash the device with that path: first through
    V4L2, then without. It succeeds exactly when one attempt does, and then the
    negotiated size and rate and the configured pixel format are recorded. *)
Theorem open_device e c target :
  names_device (device (cam_config_ c)) target -> sane_env e ->
  exists c', open e c = Some (ve_open e (target true) || ve_open e (target false), c') /\
    cap_opened_ c' = ve_open e (target true) || ve_open e (target false) /\
    frame_seq_ c' = frame_seq_ c /\ streaming_ c' = streaming_ c /\
    (cap_opened_ c' = true ->
      actual_width_ c' = ve_width e /\ actual_height_ c' = ve_height e /\ actual_fps_ c' = ve_fps e /\
      pixel_format_ c' = PixelFormat_value (if use_jpeg (cam_config_ c) then JPEG else BGR24)).
Proof.
  intros Hdev (Hw & Hh & Hf).
  assert (forall b, open_calls (device (cam_config_ c)) b = target b) as Hcalls.
  { intros b. unfold open_calls. destruct Hdev as [(n & Hn & -> & ->)|(rest & -> & ->)].
    - rewrite device_index_decimal by (unfold LONG_MAX; lia).
      rewrite i32_id by lia. by rewrite (proj2 (Z.leb_le 0 n)) by lia.
    - done. }
  unfold open. rewrite !Hcalls. unfold of_double. rewrite !decide_True by done.
  destruct (ve_open e (target true)); cbn; [by eexists|].
  destruct (ve_open e (target false)); cbn; by eexists.
Qed.

(** A larger number is reduced to 32 bits: this one opens camera 0. *)
Lemma device_index_wraps v4l2 : open_calls (chars "4294967296") v4l2 = OpenIndex 0 v4l2.
Proof. reflexivity. Qed.

(** ** The capture loop *)

(** The frame a call of [push] offers. *)
Definition offered_frame (a : push_args) : frame :=
  mkFrame (pa_seq a) (pa_timestamp_ns a) (pa_pixel_format a) (pa_width a) (pa_height a) (pa_data a).

Lemma captureLoop_seq envs c calls c' :
  captureLoop envs c = Some (calls, c') -> in_width 64 (frame_seq_ c) ->
  pa_seq <$> calls = (fun i => u64 (frame_seq_ c + Z.of_nat i)) <$> List.seq 0 (length calls).
Proof.
  revert c calls. induction envs as [|[running e] envs IH]; intros c calls H Hw; [done|]. cbn in H.
  destruct (running && streaming_ c); cbn in H; [|by injection H as <- <-].
  destruct (capture_body e c) as [call c1] eqn:Eb.
  destruct (captureLoop envs c1) as [[calls1 c2]|] eqn:E; [|done]. injection H as <- ->.
  unfold capture_body in Eb.
  destruct (ce_read e) as [m|]; [case_decide|];
    [by injection Eb as <- <-; apply IH | |by injection Eb as <- <-; apply IH].
  destruct (if use_jpeg _ then _ else _) as [data|]; injection Eb as <- <-; [|by apply IH].
  pose proof (IH _ _ E (u64_range _)) as H1. cbn in H1.
  cbn [fmap list_fmap length List.seq]. cbn [pa_seq]. f_equal.
  - by rewrite Z.add_0_r, u64_id.
  - change (pa_seq <$> calls1 = (fun i => u64 (frame_seq_ c + Z.of_nat i)) <$> List.seq 1 (length calls1)).
    rewrite H1, <- fmap_S_seq, <- list_fmap_compose. apply list_fmap_ext. intros i x _.
    cbn. rewrite u64_add_mod. apply (f_equal u64). lia.
Qed.

(** ** What is captured *)

(** The iterations of the loop before [running] is seen false. *)
Fixpoint running_iterations (envs : list (bool * capture_env)) : list capture_env :=
  match envs with (true, e) :: envs => e :: running_iterations envs | _ => [] end.

(** An image as the camera is configured to deliver it. *)
Record image := mkImage {
  im_timestamp_ns : Z;
  im_cols : Z;
  im_rows : Z;
  im_data : list byte
}.

(** The image an iteration delivers: none when the read fails, the frame is
    empty or the encoder fails; JPEG data from the encoder called with the
    configured quality when JPEG is configured, the frame's own bytes otherwise. *)
Definition image_of (config : CameraConfig) (e : capture_env) : option image :=
  m ← ce_read e;
  guard (m_data m <> []);;
  data ← if use_jpeg config then ce_imencode e [IMWRITE_JPEG_QUALITY; jpeg_quality config] else Some (m_data m);
  Some (mkImage (getTimestampNs (ce_clock e).1 (ce_clock e).2) (m_cols m) (m_rows m) data).

(** The format of the data: "MJPG" or "BGR3", the first letter in the low byte. *)
Definition announced (config : CameraConfig) : Z := if use_jpeg config then 0x47504A4D else 0x33524742.

(** The call of [push] for an image. *)
Definition call_of (config : CameraConfig) (seq : Z) (im : image) : push_args :=
  mkPushArgs seq (im_timestamp_ns im) (im_data im) (u32 (Z.of_nat (length (im_data im))))
    (announced config) (u16 (im_cols im)) (u16 (im_rows im)).

Lemma capture_body_image config e c call c' :
  capture_body e c = (call, c') -> cam_config_ c = config -> pixel_format_ c = announced config ->
  call = call_of config (frame_seq_ c) <$> image_of config e /\
  frame_seq_ c' = match image_of config e with Some _ => u64 (frame_seq_ c + 1) | None => frame_seq_ c end /\
  cam_config_ c' = config /\ pixel_format_ c' = announced config /\ streaming_ c' = streaming_ c.
Proof.
  intros H Hc Hf. unfold capture_body in H. unfold image_of.
  destruct (ce_read e) as [m|]; cbn; [|by injection H as <- <-].
  case_decide as Hm; [rewrite option_guard_False by (intros []; auto); by injection H as <- <-|].
  rewrite option_guard_True by done. rewrite Hc in H. unfold encodeJpeg, jpeg_params_ in H. rewrite Hc in H.
  destruct (use_jpeg config) eqn:Ej.
  - destruct (ce_imencode e _); injection H as <- <-; cbn; [|done]. unfold call_of. by rewrite Hf.
  - injection H as <- <-. cbn. unfold call_of. by rewrite Hf.
Qed.

Lemma captureLoop_images config envs c calls c' :
  captureLoop envs c = Some (calls, c') -> streaming_ c = true -> cam_config_ c = config ->
  pixel_format_ c = announced config -> in_width 64 (frame_seq_ c) ->
  let images := omap (image_of config) (running_iterations envs) in
  calls = imap (fun i im => call_of config (u64 (frame_seq_ c + Z.of_nat i)) im) images /\
  frame_seq_ c' = u64 (frame_seq_ c + Z.of_nat (length images)).
Proof.
  intros H Hs Hc Hf Hw. revert c calls H Hs Hc Hf Hw.
  induction envs as [|[running e] envs IH]; intros c calls H Hs Hc Hf Hw; [done|]. cbn in H. rewrite Hs, andb_true_r in H.
  destruct running; cbn in H; [|injection H as <- <-; cbn; by rewrite Z.add_0_r, u64_id by done].
  destruct (capture_body e c) as [call c1] eqn:Eb.
  destruct (captureLoop envs c1) as [[calls1 c2]|] eqn:E; [|done]. injection H as <- ->.
  destruct (capture_body_image config e c call c1 Eb Hc Hf) as (-> & H2 & H3 & H4 & H5).
  destruct (IH c1 calls1 E) as [IH1 IH2]; [congruence | done | done | |].
  { rewrite H2. destruct (image_of config e); [apply u64_range | done]. }
  cbv zeta in *. cbn [running_iterations omap list_omap]. rewrite IH1, IH2, H2.
  destruct (image_of config e) as [im|]; cbn; [|done]. split.
  - change (Z.of_nat 0) with 0. rewrite Z.add_0_r, (u64_id (frame_seq_ c)) by done. f_equal.
    apply imap_ext. intros i x _. cbn. f_equal. rewrite u64_add_mod. apply (f_equal u64). lia.
  - rewrite u64_add_mod. apply (f_equal u64). lia.
Qed.

(** C33: the frames of a camera. After [open] and [start], the calls of [push]
    that [captureLoop] makes before [running] is seen false are exactly one for
    each iteration that reads a non-empty frame and, with JPEG, encodes it, in
    order, numbered 0, 1, 2, ... without gaps or repetition (frames that [push]
    then refuses included); each call passes the iteration's data (the encoder's
    output for the configured quality when JPEG is configured, else the raw
    bytes), its length modulo 2^32, the pixel format of just this data ("MJPG"
    or "BGR3"), the timestamp and the dimensions; and [frameCount] is their
    number. *)
Theorem capture_numbers_frames config ve envs c calls c' :
  open ve (CameraCapture_new config) = Some (true, c) -> captureLoop envs (start c).2 = Some (calls, c') ->
  Z.of_nat (length calls) < 2 ^ 64 ->
  calls = imap (fun i => call_of config (Z.of_nat i)) (omap (image_of config) (running_iterations envs)) /\
  frame_seq_ c' = Z.of_nat (length calls).
Proof.
  intros Hopen Hrun Hlen.
  assert (cam_config_ c = config /\ pixel_format_ c = announced config /\ cap_opened_ c = true) as (Hc & Hf & Ho).
  { unfold open in Hopen. destruct (if ve_open ve _ then _ else _); [|done]. cbn in Hopen. simplify_bind Hopen.
    cbn. unfold announced. by destruct (use_jpeg config). }
  unfold start in Hrun. rewrite Ho in Hrun. cbn in Hrun.
  destruct (captureLoop_images config _ _ _ _ Hrun) as [H1 H2]; [done..|]. cbn in H1, H2.
  assert (length calls = length (omap (image_of config) (running_iterations envs))) as Hl by (rewrite H1; apply length_imap).
  rewrite <- Hl in H2. split; [|by rewrite H2, u64_id by lia].
  rewrite H1 at 1. apply imap_ext. intros i x Hx. apply lookup_lt_Some in Hx. by rewrite u64_id by lia.
Qed.

(** Capture timestamps do not go backwards while the monotonic clock does not:
    for clock readings with a normalised nanosecond part, below 2^64 ns, the
    timestamp is the reading in nanoseconds. *)
Theorem timestamp_monotone s ns s' ns' :
  0 <= s -> 0 <= ns < 1000000000 -> 0 <= ns' < 1000000000 ->
  s' * 1000000000 + ns' < 2 ^ 64 -> s < s' \/ s = s' /\ ns <= ns' ->
  getTimestampNs s ns <= getTimestampNs s' ns' /\ getTimestampNs s' ns' = s' * 1000000000 + ns'.
Proof.
  intros Hs Hns Hns' Hmax Hle. unfold getTimestampNs. rewrite !(u64_id s), !(u64_id s') by lia.
  rewrite !(u64_id ns), !(u64_id ns') by lia. rewrite !(u64_id (_ * _)) by lia. rewrite !u64_id by lia. lia.
Qed.

(** ** The end *)

Lemma capture_body_keeps e c call c' :
  capture_body e c = (call, c') -> isOpened c' = isOpened c /\ jpeg_params_ c' = jpeg_params_ c.
Proof. unfold capture_body. intros Eb. repeat case_match; by simplify_eq. Qed.

Lemma captureLoop_keeps envs c calls c' :
  captureLoop envs c = Some (calls, c') -> isOpened c' = isOpened c /\ jpeg_params_ c' = jpeg_params_ c.
Proof.
  revert c calls. induction envs as [|[running e] envs IH]; intros c calls H; [done|]. cbn in H.
  destruct (running && streaming_ c); cbn in H; [|by injection H as _ <-].
  destruct (capture_body e c) as [call c1] eqn:Eb. cbn in H.
  destruct (captureLoop envs c1) as [[calls1 c2]|] eqn:E; [|done]. injection H as _ <-. destruct (IH _ _ E) as [-> ->].
  by eapply capture_body_keeps.
Qed.

(** The destructor releases the device exactly when [open] got one, whatever was
    captured in between, and leaves it released and the camera stopped. *)
Lemma camera_released e config c ok envs calls c' :
  open e (CameraCapture_new config) = Some (ok, c) -> captureLoop envs (start c).2 = Some (calls, c') ->
  (CameraCapture_delete c').1 = ok /\ isOpened (CameraCapture_delete c').2 = false /\
  streaming_ (CameraCapture_delete c').2 = false.
Proof.
  intros Ho Hl. apply captureLoop_keeps in Hl as [Hl _].
  assert (isOpened c = ok) as Hok.
  { unfold open in Ho. destruct (if ve_open e _ then _ else _); cbn in Ho; [|by injection Ho as <- <-].
    unfold of_double in Ho. repeat case_match; by simplify_eq/=. }
  assert (isOpened c' = ok) as Hc'.
  { rewrite Hl, <- Hok. unfold start, isOpened. by destruct (cap_opened_ c) eqn:E; cbn; rewrite ?E. }
  unfold isOpened in *. unfold CameraCapture_delete, stop.
  destruct (streaming_ c') eqn:Es; cbn; rewrite Hc'; destruct ok; cbn; by rewrite ?Hc'.
Qed.

(** ** Concrete runs *)

Definition demo_camera : CameraCapture := CameraCapture_new CameraConfig_default.
Definition demo_camera_env : camera_env :=
  mkCameraEnv (fun o => match o with OpenIndex 0 false => true | _ => false end) 1280 720 30.

Example open_device_witness :
  exists c', open demo_camera_env demo_camera = Some (true, c') /\ actual_width_ c' = 1280.
Proof.
  destruct (open_device demo_camera_env demo_camera (OpenIndex 0)) as (c' & H & Ho & _ & _ & Hc).
  - left. exists 0. split_and!; [lia | lia | reflexivity | reflexivity].
  - unfold sane_env. cbn. lia.
  - exists c'. split; [exact H|]. by apply Hc.
Defined.

Definition demo_open_camera : CameraCapture :=
  mkCameraCapture CameraConfig_default true 4 2 30 (PixelFormat_value JPEG) false 9.

Definition demo_mat : mat := mkMat 4 2 (chars "pixels").

(** A frame, a failed read, a failed encoding, and another frame. *)
Definition demo_iterations : list (bool * capture_env) :=
  [(true, mkCaptureEnv (Some demo_mat) (1, 5) (fun _ => Some (chars "abc")));
   (true, mkCaptureEnv None (1, 6) (fun _ => None));
   (true, mkCaptureEnv (Some demo_mat) (1, 7) (fun _ => None));
   (true, mkCaptureEnv (Some demo_mat) (1, 8) (fun _ => Some (chars "de")));
   (false, mkCaptureEnv None (1, 9) (fun _ => None))].

Definition demo_ready : CameraCapture := from_option snd demo_camera (open demo_camera_env demo_camera).

Example capture_numbers_frames_witness :
  exists calls c', captureLoop demo_iterations (start demo_ready).2 = Some (calls, c') /\
    calls = [mkPushArgs 0 1000000005 (chars "abc") 3 0x47504A4D 4 2; mkPushArgs 1 1000000008 (chars "de") 2 0x47504A4D 4 2] /\
    frame_seq_ c' = 2.
Proof.
  do 2 eexists. split; [vm_compute; reflexivity|].
  destruct (capture_numbers_frames CameraConfig_default demo_camera_env demo_iterations demo_ready
    [mkPushArgs 0 1000000005 (chars "abc") 3 0x47504A4D 4 2; mkPushArgs 1 1000000008 (chars "de") 2 0x47504A4D 4 2]
    (mkCameraCapture CameraConfig_default true 1280 720 30 0x47504A4D true 2)) as (H1 & H2);
    [vm_compute; reflexivity | vm_compute; reflexivity | reflexivity | split; [exact H1 | exact H2]].
Defined.

(** Without JPEG the bytes of the frame go out as they are. *)
Example raw_frame :
  call_of (mkCameraConfig (chars "0") 4 2 30 false 85) 0 <$>
    image_of (mkCameraConfig (chars "0") 4 2 30 false 85) (mkCaptureEnv (Some demo_mat) (0, 7) (fun _ => None))
  = Some (mkPushArgs 0 7 (chars "pixels") 6 0x33524742 4 2).
Proof. vm_compute. reflexivity. Qed.

Example timestamp_monotone_witness : getTimestampNs 1 999999999 <= getTimestampNs 2 0.
Proof. apply (timestamp_monotone 1 999999999 2 0); lia. Defined.
