(* ===== verification/Main.v ===== *)
(** * The client program (src/main.cpp)

    [parseArgs] over the options getopt_long reports, with what it prints, and
    [main]: what it creates, starts, joins and destroys, in order, for every
    combination of failures. *)

From S2P Require Import Prelude Text Getopt Log RingQueue CameraCapture.
From Stdlib Require Import Strings.Byte.

(** ** Configuration *)

Record Config := mkConfig {
  device : list byte;
  width : Z;
  height : Z;
  fps : Z;
  use_jpeg : bool;
  jpeg_quality : Z;
  host : option (list byte);
  port : Z;
  ca_path : option (list byte);
  queue_size : Z;
  verbose : bool
}.

Definition DEFAULT_DEVICE : list byte := chars "0".
Definition DEFAULT_WIDTH : Z := 1280.
Definition DEFAULT_HEIGHT : Z := 720.
Definition DEFAULT_FPS : Z := 30.
Definition DEFAULT_PORT : Z := 4433.
Definition DEFAULT_QUEUE_SIZE : Z := 128.
Definition DEFAULT_JPEG_QUALITY : Z := 85.

Definition Config_default : Config :=
  mkConfig DEFAULT_DEVICE DEFAULT_WIDTH DEFAULT_HEIGHT DEFAULT_FPS true DEFAULT_JPEG_QUALITY
    None DEFAULT_PORT None DEFAULT_QUEUE_SIZE false.

(** ** Arguments *)

Definition optstring : list byte := chars "d:W:H:f:JQ:h:p:c:q:v?".

Definition long_options : list long_option :=
  [ mkLong (chars "device") required_argument "d"%byte;
    mkLong (chars "width") required_argument "W"%byte;
    mkLong (chars "height") required_argument "H"%byte;
    mkLong (chars "fps") required_argument "f"%byte;
    mkLong (chars "no-jpeg") no_argument "J"%byte;
    mkLong (chars "jpeg-quality") required_argument "Q"%byte;
    mkLong (chars "host") required_argument "h"%byte;
    mkLong (chars "port") required_argument "p"%byte;
    mkLong (chars "ca") required_argument "c"%byte;
    mkLong (chars "queue-size") required_argument "q"%byte;
    mkLong (chars "verbose") no_argument "v"%byte;
    mkLong (chars "help") no_argument "?"%byte ].

(** Why [parseArgs] returns false. *)
Inductive parse_error :=
  | BadQuality
  | ShowUsage
  | NoHost
  | BadDimensions
  | BadFps
  | BadQueueSize.

(** The switch. *)
Definition parse_option (o : option_read) (c : Config) : parse_error + Config :=
  let '(opt, optarg) := o in
  let '(mkConfig dev w h f jpeg q hst prt ca qs v) := c in
  match opt with
  | "d"%byte => inr (mkConfig optarg w h f jpeg q hst prt ca qs v)
  | "W"%byte => inr (mkConfig dev (u16 (atoi optarg)) h f jpeg q hst prt ca qs v)
  | "H"%byte => inr (mkConfig dev w (u16 (atoi optarg)) f jpeg q hst prt ca qs v)
  | "f"%byte => inr (mkConfig dev w h (u32 (atoi optarg)) jpeg q hst prt ca qs v)
  | "J"%byte => inr (mkConfig dev w h f false q hst prt ca qs v)
  | "Q"%byte =>
      let q := atoi optarg in
      if (q <? 1) || (100 <? q) then inl BadQuality else inr (mkConfig dev w h f jpeg q hst prt ca qs v)
  | "h"%byte => inr (mkConfig dev w h f jpeg q (Some optarg) prt ca qs v)
  | "p"%byte => inr (mkConfig dev w h f jpeg q hst (u16 (atoi optarg)) ca qs v)
  | "c"%byte => inr (mkConfig dev w h f jpeg q hst prt (Some optarg) qs v)
  | "q"%byte => inr (mkConfig dev w h f jpeg q hst prt ca (u64 (atoi optarg)) v)
  | "v"%byte => inr (mkConfig dev w h f jpeg q hst prt ca qs true)
  | _ => inl ShowUsage
  end.

Fixpoint parse_options (os : list option_read) (c : Config) : parse_error + Config :=
  match os with
  | [] => inr c
  | o :: os => match parse_option o c with inl e => inl e | inr c => parse_options os c end
  end.

(** The checks after the loop. *)
Definition check_config (c : Config) : option parse_error :=
  if (match host c with Some (_ :: _) => false | _ => true end) then Some NoHost
  else if (width c =? 0) || (height c =? 0) then Some BadDimensions
  else if fps c =? 0 then Some BadFps
  else if queue_size c <? 2 then Some BadQueueSize
  else None.

Definition parse (os : list option_read) : parse_error + Config :=
  match parse_options os Config_default with
  | inl e => inl e
  | inr c => match check_config c with Some e => inl e | None => inr c end
  end.

(** The configuration, when [parseArgs] returns true. *)
Definition parseArgs (os : list option_read) : option Config :=
  match parse os with inl _ => None | inr c => Some c end.

(** [parseArgs] on [argv]. *)
Definition parse_command_line (argv : list (list byte)) : parse_error + Config :=
  parse (getopt_long optstring long_options (tail argv)).

(** [fprintf] of the usage text. *)
Definition printUsage (prog : list byte) : list byte :=
  concat (map (fun line => line ++ newline)
    [ chars "Usage: " ++ prog ++ chars " [options]";
      [];
      chars "Camera frame streaming over TLS (OpenCV-based)";
      [];
      chars "Camera options:";
      chars "  --device PATH/INDEX  Camera device or index (default: " ++ DEFAULT_DEVICE ++ chars ")";
      chars "  --width N            Frame width (default: " ++ decimal DEFAULT_WIDTH ++ chars ")";
      chars "  --height N           Frame height (default: " ++ decimal DEFAULT_HEIGHT ++ chars ")";
      chars "  --fps N              Frames per second (default: " ++ decimal DEFAULT_FPS ++ chars ")";
      chars "  --no-jpeg            Send raw BGR instead of JPEG";
      chars "  --jpeg-quality N     JPEG quality 1-100 (default: " ++ signed_decimal DEFAULT_JPEG_QUALITY ++ chars ")";
      [];
      chars "Network options:";
      chars "  --host HOSTNAME      Remote server hostname (required)";
      chars "  --port N             Remote server port (default: " ++ decimal DEFAULT_PORT ++ chars ")";
      chars "  --ca PATH            CA certificate bundle path (default: system)";
      [];
      chars "Other options:";
      chars "  --queue-size N       Frame queue size (default: " ++ decimal DEFAULT_QUEUE_SIZE ++ chars ")";
      chars "  --verbose, -v        Enable verbose logging";
      chars "  --help, -h           Show this help";
      [];
      chars "Example:";
      chars "  " ++ prog ++ chars " --device 0 --width 1280 --height 720 \";
      chars "     --fps 30 --host stream.example.com --port 4433";
      [] ]).

(** What [parseArgs] itself prints to stderr. *)
Definition error_text (prog : list byte) (e : parse_error) : list byte :=
  match e with
  | BadQuality => chars "Error: JPEG quality must be 1-100" ++ newline
  | ShowUsage => printUsage prog
  | NoHost => chars "Error: --host is required" ++ newline ++ newline ++ printUsage prog
  | BadDimensions => chars "Error: invalid dimensions" ++ newline
  | BadFps => chars "Error: invalid fps" ++ newline
  | BadQueueSize => chars "Error: queue size must be at least 2" ++ newline
  end.

(** ** main *)

Inductive signal := SIGINT | SIGTERM.

#[export] Instance signal_eq_dec : EqDecision signal.
Proof. solve_decision. Defined.

Inductive main_call :=
  | SetLogLevel (level : LogLevel)   (** g_log_level = *)
  | SigAction (sig : signal)         (** sigaction with [signalHandler] *)
  | NewQueue | DeleteQueue
  | NewCapture | DeleteCapture
  | NewTls | DeleteTls
  | CreateCaptureThread | JoinCaptureThread
  | CreateNetworkThread | JoinNetworkThread
  | StopRunning                 (** g_running = false *)
  | QueueShutdown.

(** The answers that decide the way through [main]. *)
Record main_env := mkMainEnv {
  me_queue_valid : bool;
  me_capture_open : bool;
  me_tls_initialize : bool;
  me_capture_start : bool;
  me_create_capture : bool;
  me_create_network : bool
}.

Definition EXIT_SUCCESS : Z := 0.
Definition EXIT_FAILURE : Z := 1.

(** What [main] does before it creates anything. *)
Definition main_prepare (c : Config) : list main_call :=
  (if verbose c then [SetLogLevel Debug] else []) ++ [SigAction SIGINT; SigAction SIGTERM].

(** The exit code and the calls, after the waiting loop has seen [g_running]
    false. *)
Definition main (os : list option_read) (e : main_env) : Z * list main_call :=
  match parseArgs os with
  | None => (EXIT_FAILURE, [])
  | Some c =>
      let '(code, calls) :=
        if negb (me_queue_valid e) then (EXIT_FAILURE, [NewQueue; DeleteQueue])
        else if negb (me_capture_open e) then (EXIT_FAILURE, [NewQueue; NewCapture])
        else if negb (me_tls_initialize e) then (EXIT_FAILURE, [NewQueue; NewCapture; NewTls])
        else if negb (me_capture_start e) then (EXIT_FAILURE, [NewQueue; NewCapture; NewTls])
        else if negb (me_create_capture e) then (EXIT_FAILURE, [NewQueue; NewCapture; NewTls])
        else if negb (me_create_network e) then
          (EXIT_FAILURE, [NewQueue; NewCapture; NewTls; CreateCaptureThread;
                          StopRunning; QueueShutdown; JoinCaptureThread])
        else
          (EXIT_SUCCESS, [NewQueue; NewCapture; NewTls; CreateCaptureThread; CreateNetworkThread;
                          StopRunning; QueueShutdown; JoinCaptureThread; JoinNetworkThread;
                          DeleteTls; DeleteCapture; DeleteQueue]) in
      (code, main_prepare c ++ calls)
  end.

(** ** Command lines *)

(** What a valid configuration guarantees to the rest of the program. *)
Definition config_ok (c : Config) : Prop :=
  (exists b rest, host c = Some (b :: rest)) /\
  0 < width c < 2 ^ 16 /\ 0 < height c < 2 ^ 16 /\ 0 < fps c < 2 ^ 32 /\
  1 <= jpeg_quality c <= 100 /\ 0 <= port c < 2 ^ 16 /\ 2 <= queue_size c < 2 ^ 64.

Definition widths_ok (c : Config) : Prop :=
  in_width 16 (width c) /\ in_width 16 (height c) /\ in_width 32 (fps c) /\
  1 <= jpeg_quality c <= 100 /\ in_width 16 (port c) /\ in_width 64 (queue_size c).

Lemma parse_option_widths o c c' : parse_option o c = inr c' -> widths_ok c -> widths_ok c'.
Proof.
  destruct o as [opt optarg], c as [dev w h f jpeg q hst prt ca qs v]. unfold widths_ok. cbn.
  intros H (H1 & H2 & H3 & H4 & H5 & H6).
  destruct opt; try done;
    try (injection H as <-; cbn; split_and!; auto with width; lia).
  destruct ((atoi optarg <? 1) || (100 <? atoi optarg)) eqn:E; [done|].
  injection H as <-. cbn. apply orb_false_iff in E. split_and!; auto with width; lia.
Qed.

Lemma parse_options_widths os c c' : parse_options os c = inr c' -> widths_ok c -> widths_ok c'.
Proof.
  revert c. induction os as [|o os IH]; intros c H Hc; cbn in H; [by injection H as <-|].
  destruct (parse_option o c) as [|c1] eqn:E; [done|]. eapply IH; [done | by eapply parse_option_widths].
Qed.

Lemma default_widths : widths_ok Config_default.
Proof. unfold widths_ok, in_width. vm_compute. intuition discriminate. Qed.

Lemma check_config_ok c : check_config c = None -> widths_ok c -> config_ok c.
Proof.
  unfold check_config, config_ok, widths_ok, in_width. destruct (host c) as [[|b rest]|]; try done.
  destruct ((width c =? 0) || (height c =? 0)) eqn:E1; [done|]. destruct (fps c =? 0) eqn:E2; [done|].
  destruct (queue_size c <? 2) eqn:E3; [done|]. intros _ H. split; [by do 2 eexists|]. lia.
Qed.

Lemma parseArgs_ok os c : parseArgs os = Some c -> config_ok c.
Proof.
  unfold parseArgs, parse. destruct (parse_options os Config_default) as [|c1] eqn:E; [done|].
  destruct (check_config c1) as [e|] eqn:V; [done|]. intros [= <-].
  eapply check_config_ok, parse_options_widths; [done | exact E | apply default_widths].
Qed.

(** A queue size that [atoi] can give: one of [int], the negative ones wrapped
    around to the top of [size_t]. *)
Definition size_from_int (c : Config) : Prop := queue_size c < 2 ^ 31 \/ 2 ^ 64 - 2 ^ 31 <= queue_size c.

Lemma u64_of_int s : u64 (atoi s) < 2 ^ 31 \/ 2 ^ 64 - 2 ^ 31 <= u64 (atoi s).
Proof.
  pose proof (atoi_range s). destruct (decide (0 <= atoi s)); [left; rewrite u64_id by lia; lia | right].
  unfold u64, wrap. rewrite <- (Z_mod_plus_full (atoi s) 1), Z.mod_small by lia. lia.
Qed.

Lemma parse_options_size os c c' : parse_options os c = inr c' -> size_from_int c -> size_from_int c'.
Proof.
  revert c. induction os as [|[opt optarg] os IH]; intros c; cbn [parse_options]; [by intros [= <-]|].
  destruct (parse_option (opt, optarg) c) as [e|c1] eqn:E; [done|]. intros H Hc. apply (IH c1 H).
  destruct c as [dev w h f jpeg q hst prt ca qs v]. unfold size_from_int in *. cbn in E, Hc.
  destruct opt; try discriminate E; try (injection E as <-; first [exact Hc | apply u64_of_int]).
  destruct (_ || _); [done|]. by injection E as <-.
Qed.

Lemma parse_size os c : parse os = inr c -> size_from_int c.
Proof.
  unfold parse. destruct (parse_options os Config_default) as [|c1] eqn:E; [done|].
  destruct (check_config c1); [done|]. intros [= <-]. eapply parse_options_size; [exact E|]. by left.
Qed.


Lemma atoi_decimal n : 0 <= n < 2 ^ 31 -> atoi (decimal n) = n.
Proof. intros. unfold atoi. rewrite strtol_decimal by (unfold LONG_MAX; lia). cbn. by rewrite i32_id by lia. Qed.

(** A command line that gives every numeric option as a decimal number within
    its type (and a host) is accepted with exactly these numbers. *)
Theorem parse_numbers w h f q prt qs name :
  0 < w < 2 ^ 16 -> 0 < h < 2 ^ 16 -> 0 < f < 2 ^ 31 -> 1 <= q <= 100 -> 0 <= prt < 2 ^ 16 ->
  2 <= qs < 2 ^ 31 -> name <> [] ->
  parseArgs [("W"%byte, decimal w); ("H"%byte, decimal h); ("f"%byte, decimal f); ("Q"%byte, decimal q);
             ("h"%byte, name); ("p"%byte, decimal prt); ("q"%byte, decimal qs)] =
  Some (mkConfig (chars "0") w h f true q (Some name) prt None qs false).
Proof.
  intros Hw Hh Hf Hq Hp Hqs Hn. unfold parseArgs, parse, Config_default. cbn [parse_options parse_option].
  rewrite !atoi_decimal by lia. replace ((q <? 1) || (100 <? q)) with false by lia.
  rewrite !u16_id, u32_id, u64_id by lia. unfold check_config.
  cbn [host width height fps queue_size]. destruct name as [|b rest]; [done|].
  replace ((w =? 0) || (h =? 0)) with false by lia. replace (f =? 0) with false by lia.
  replace (qs <? 2) with false by lia. done.
Qed.

(** A negative queue size passes the check: it wraps to a huge unsigned number. *)
Lemma negative_queue_size :
  (c ← parseArgs [("h"%byte, chars "x"); ("q"%byte, chars "-1")]; Some (queue_size c)) = Some (2 ^ 64 - 1).
Proof. reflexivity. Qed.

(** ** Lifetimes *)

Record main_state := mkMainState {
  ms_queue : bool; ms_capture : bool; ms_tls : bool;     (** exists *)
  ms_capture_thread : bool; ms_network_thread : bool;    (** created, not joined *)
  ms_running : bool;                                     (** g_running *)
  ms_shutdown : bool;                                    (** queue->shutdown() was called *)
  ms_handled : list signal;                              (** signals with a handler *)
  ms_level : LogLevel                                    (** g_log_level *)
}.

(** [None]: an object used while it does not exist, destroyed while a thread may
    use it, a thread created while a signal still kills the process, or a join of
    a thread that has not been told to end. *)
Definition main_step (s : main_state) (c : main_call) : option main_state :=
  let '(mkMainState q cap tls ct nt run shut h lvl) := s in
  let when (b : bool) s := if b then Some s else None in
  let handled := bool_decide (SIGINT ∈ h /\ SIGTERM ∈ h) in
  match c with
  | SetLogLevel lvl => Some (mkMainState q cap tls ct nt run shut h lvl)
  | SigAction sig => Some (mkMainState q cap tls ct nt run shut (sig :: h) lvl)
  | NewQueue => when (negb q) (mkMainState true cap tls ct nt run shut h lvl)
  | DeleteQueue => when (q && negb ct && negb nt) (mkMainState false cap tls ct nt run shut h lvl)
  | NewCapture => when (negb cap) (mkMainState q true tls ct nt run shut h lvl)
  | DeleteCapture => when (cap && negb ct) (mkMainState q false tls ct nt run shut h lvl)
  | NewTls => when (negb tls) (mkMainState q cap true ct nt run shut h lvl)
  | DeleteTls => when (tls && negb nt) (mkMainState q cap false ct nt run shut h lvl)
  | CreateCaptureThread => when (q && cap && negb ct && handled) (mkMainState q cap tls true nt run shut h lvl)
  | CreateNetworkThread => when (q && tls && negb nt && handled) (mkMainState q cap tls ct true run shut h lvl)
  | JoinCaptureThread => when (ct && negb run) (mkMainState q cap tls false nt run shut h lvl)
  | JoinNetworkThread => when (nt && negb run && shut) (mkMainState q cap tls ct false run shut h lvl)
  | StopRunning => Some (mkMainState q cap tls ct nt false shut h lvl)
  | QueueShutdown => when q (mkMainState q cap tls ct nt run true h lvl)
  end.

Fixpoint main_run (s : main_state) (cs : list main_call) : option main_state :=
  match cs with
  | [] => Some s
  | c :: cs => s ← main_step s c; main_run s cs
  end.

Definition main_start : main_state := mkMainState false false false false false true false [] Info.

(** Every step up to the start of the threads succeeded. *)
Definition all_succeed (e : main_env) : bool :=
  me_queue_valid e && me_capture_open e && me_tls_initialize e && me_capture_start e &&
  me_create_capture e && me_create_network e.

(** C26: for every command line and every combination of failures, [main] uses
    nothing that does not exist, destroys nothing a thread still uses, creates
    threads only once both signals are handled, joins a thread only after it has
    been told to end, and leaves no thread running; it logs at the level the
    options ask for. It returns success exactly when the arguments are valid and every
    initialisation step succeeds, and then everything has been destroyed. *)
Theorem main_lifetimes os e :
  exists s, main_run main_start (main os e).2 = Some s /\
    ms_capture_thread s = false /\ ms_network_thread s = false /\
    ms_level s = (if from_option verbose false (parseArgs os) then Debug else Info) /\
    ((main os e).1 = EXIT_SUCCESS <-> (exists c, parseArgs os = Some c) /\ all_succeed e = true) /\
    ((main os e).1 = EXIT_SUCCESS -> ms_queue s = false /\ ms_capture s = false /\ ms_tls s = false /\
       ms_running s = false /\ ms_shutdown s = true).
Proof.
  unfold main. destruct (parseArgs os) as [c|].
  2:{ eexists. split_and!; try done. split; [done|]. by intros [[c ?] _]. }
  unfold main_prepare. cbn [from_option].
  destruct e as [[] [] [] [] [] []], (verbose c); cbn; eexists;
    (split_and!; [reflexivity | reflexivity | reflexivity | reflexivity | | try done]);
    (split; [try done | intros [_ H]; (reflexivity || discriminate H)]);
    intros _; (split; [by exists c | done]).
Qed.

(** After a failed initialisation the objects made so far are not destroyed. *)
Lemma main_error_leaks os c :
  parseArgs os = Some c ->
  main os (mkMainEnv true false true true true true) = (EXIT_FAILURE, main_prepare c ++ [NewQueue; NewCapture]).
Proof. intros H. unfold main. by rewrite H. Qed.


Example parse_numbers_witness :
  parseArgs [("W"%byte, chars "640"); ("H"%byte, chars "480"); ("f"%byte, chars "15"); ("Q"%byte, chars "90");
             ("h"%byte, chars "host"); ("p"%byte, chars "443"); ("q"%byte, chars "16")] =
  Some (mkConfig (chars "0") 640 480 15 true 90 (Some (chars "host")) 443 None 16 false).
Proof. apply (parse_numbers 640 480 15 90 443 16 (chars "host")); (lia || discriminate). Defined.
