(* ===== verification/Transport.v ===== *)
(** * The TLS connection as the program sees it

    OpenSSL is not part of the program: its connection object is a parameter.
    [SslOps] lists the calls the program makes on an established connection,
    [SslLaws] what OpenSSL documents about them, [SslProgress] that "would
    block" answers do not go on for ever. *)

From S2P Require Import Prelude.

(** The values of SSL_get_error that the program distinguishes. *)
Inductive ssl_error :=
  | SSL_ERROR_WANT_READ
  | SSL_ERROR_WANT_WRITE
  | SSL_ERROR_SYSCALL
  | SSL_ERROR_ZERO_RETURN
  | SSL_ERROR_OTHER (code : Z).

#[export] Instance ssl_error_eq_dec : EqDecision ssl_error.
Proof. solve_decision. Defined.

Definition EINTR : Z := 4.

Class SslOps := {
  conn : Type;
  (** [SSL_write c buf num]: the return value for the buffer that starts with
      [buf], and the connection afterwards. *)
  SSL_write : conn -> list byte -> Z -> Z * conn;
  (** [SSL_read c num]: the return value, the bytes stored, the connection. *)
  SSL_read : conn -> Z -> Z * list byte * conn;
  SSL_get_error : conn -> Z -> ssl_error;
  (** [errno] after the last call on the connection. *)
  conn_errno : conn -> Z
}.

(** The program retries after these outcomes of a failed call. *)
Definition retries {O : SslOps} (c : conn) (n : Z) : bool :=
  match SSL_get_error c n with
  | SSL_ERROR_WANT_READ | SSL_ERROR_WANT_WRITE => true
  | SSL_ERROR_SYSCALL => conn_errno c =? EINTR
  | _ => false
  end.

Class SslLaws (O : SslOps) := {
  (** The bytes of the stream to the peer. A call that fails for good may have
      flushed some records of its buffer; a call that must be retried counts
      when the retry succeeds. *)
  sent : conn -> list byte;
  (** Bytes that are still to be read from the peer. *)
  incoming : conn -> list byte;
  SSL_write_some c buf num n c' :
    SSL_write c buf num = (n, c') -> 0 < n ->
    n <= num /\ sent c' = sent c ++ take (Z.to_nat n) buf /\ incoming c' = incoming c;
  SSL_write_none c buf num n c' :
    SSL_write c buf num = (n, c') -> n <= 0 ->
    incoming c' = incoming c /\
    exists k, sent c' = sent c ++ take k buf /\ Z.of_nat k <= Z.max 0 num /\
      (retries c' n = true -> k = 0%nat);
  SSL_read_some c num n bs c' :
    SSL_read c num = (n, bs, c') -> 0 < n ->
    n <= num /\ Z.of_nat (length bs) = n /\ incoming c = bs ++ incoming c' /\ sent c' = sent c;
  SSL_read_none c num n bs c' :
    SSL_read c num = (n, bs, c') -> n <= 0 ->
    bs = [] /\ incoming c' = incoming c /\ sent c' = sent c
}.

Class SslProgress (O : SslOps) := {
  (** An upper bound on the retries before the next call that succeeds or fails
      for good. *)
  patience : conn -> nat;
  write_retry c buf num n c' :
    SSL_write c buf num = (n, c') -> n <= 0 -> retries c' n = true ->
    (patience c' < patience c)%nat;
  read_retry c num n bs c' :
    SSL_read c num = (n, bs, c') -> n <= 0 -> retries c' n = true ->
    (patience c' < patience c)%nat
}.

(** A connection on which reading stops for good only at the end of the peer's
    stream (no network failure in between). *)
Class SslReliable (O : SslOps) {L : SslLaws O} := {
  steady : conn -> Prop;
  read_steady c num n bs c' :
    SSL_read c num = (n, bs, c') -> 0 < num -> steady c ->
    steady c' /\ (n <= 0 -> retries c' n = false -> incoming c = [])
}.

(** ** A scripted connection

    The next outcomes of the calls are listed; after them reads deliver what is
    there and writes fail with SSL_ERROR_ZERO_RETURN. It instantiates the
    interface for the witnesses. *)

Inductive scripted_outcome :=
  | Moves (n : nat)       (** transfers at most [n] + 1 bytes *)
  | Would (e : ssl_error) (** returns -1 with this error *)
  | Interrupted.          (** returns -1, SSL_ERROR_SYSCALL with EINTR *)

Record scripted := mkScripted {
  sc_script : list scripted_outcome;
  sc_sent : list byte;
  sc_incoming : list byte;
  sc_error : ssl_error;
  sc_errno : Z
}.

Definition scripted_fail (c : scripted) (e : ssl_error) (errno : Z) : scripted :=
  mkScripted (tail (sc_script c)) (sc_sent c) (sc_incoming c) e errno.

Definition scripted_write (c : scripted) (buf : list byte) (num : Z) : Z * scripted :=
  match sc_script c with
  | [] => (0, scripted_fail c SSL_ERROR_ZERO_RETURN 0)
  | Would e :: _ => (-1, scripted_fail c e 0)
  | Interrupted :: _ => (-1, scripted_fail c SSL_ERROR_SYSCALL EINTR)
  | Moves n :: rest =>
      let k := Z.min (Z.of_nat (S n)) num in
      if k <=? 0 then (0, scripted_fail c SSL_ERROR_ZERO_RETURN 0)
      else (k, mkScripted rest (sc_sent c ++ take (Z.to_nat k) buf) (sc_incoming c) (sc_error c) 0)
  end.

Definition scripted_deliver (c : scripted) (most : Z) : Z * list byte * scripted :=
  let k := Z.min most (Z.of_nat (length (sc_incoming c))) in
  if k <=? 0 then (0, [], scripted_fail c SSL_ERROR_ZERO_RETURN 0)
  else (k, take (Z.to_nat k) (sc_incoming c),
        mkScripted (tail (sc_script c)) (sc_sent c) (drop (Z.to_nat k) (sc_incoming c)) (sc_error c) 0).

Definition scripted_read (c : scripted) (num : Z) : Z * list byte * scripted :=
  match sc_script c with
  | [] => scripted_deliver c num
  | Would e :: _ => (-1, [], scripted_fail c e 0)
  | Interrupted :: _ => (-1, [], scripted_fail c SSL_ERROR_SYSCALL EINTR)
  | Moves n :: _ => scripted_deliver c (Z.min (Z.of_nat (S n)) num)
  end.

Lemma scripted_deliver_some c most n bs c' :
  scripted_deliver c most = (n, bs, c') -> 0 < n ->
  n <= most /\ Z.of_nat (length bs) = n /\ sc_incoming c = bs ++ sc_incoming c' /\ sc_sent c' = sc_sent c.
Proof.
  unfold scripted_deliver. case Z.leb_spec; intros ? [= <- <- <-] ?; [lia|]. cbn.
  rewrite length_take, take_drop. split_and!; [lia | lia | done | done].
Qed.

Lemma scripted_deliver_none c most n bs c' :
  scripted_deliver c most = (n, bs, c') -> n <= 0 ->
  bs = [] /\ sc_incoming c' = sc_incoming c /\ sc_sent c' = sc_sent c /\
  sc_error c' = SSL_ERROR_ZERO_RETURN.
Proof. unfold scripted_deliver. case Z.leb_spec; intros ? [= <- <- <-] ?; [done | lia]. Qed.

Lemma scripted_deliver_script c most n bs c' :
  scripted_deliver c most = (n, bs, c') -> sc_script c' = tail (sc_script c).
Proof. unfold scripted_deliver. by case Z.leb_spec; intros ? [= <- <- <-]. Qed.

#[export] Instance scripted_ops : SslOps := {
  conn := scripted;
  SSL_write := scripted_write;
  SSL_read := scripted_read;
  SSL_get_error c _ := sc_error c;
  conn_errno := sc_errno
}.

#[export] Program Instance scripted_laws : SslLaws scripted_ops := {
  sent := sc_sent;
  incoming := sc_incoming
}.
Next Obligation.
  intros c buf num n c'. cbn. unfold scripted_write.
  destruct (sc_script c) as [|[k|e|] rest]; try (intros [= <- <-]; lia).
  case Z.leb_spec; intros ? [= <- <-] ?; [lia|]. cbn. split; [lia | done].
Qed.
Next Obligation.
  intros c buf num n c'. cbn. unfold scripted_write.
  destruct (sc_script c) as [|[k|e|] rest];
    [| case Z.leb_spec; intros ? [= <- <-] ?; [|lia] | |];
    try intros [= <- <-] _; (split; [done|]; exists 0%nat; cbn; split_and!; [by rewrite app_nil_r | lia | done]).
Qed.
Next Obligation.
  intros c num n bs c'. cbn. unfold scripted_read.
  destruct (sc_script c) as [|[k|e|] rest]; try (intros [= <- <- <-]; lia).
  - intros H Hn. destruct (scripted_deliver_some _ _ _ _ _ H Hn) as (? & ?). split; [lia | done].
  - intros H Hn. destruct (scripted_deliver_some _ _ _ _ _ H Hn) as (? & ?). split; [lia | done].
Qed.
Next Obligation.
  intros c num n bs c'. cbn. unfold scripted_read.
  destruct (sc_script c) as [|[k|e|] rest]; try (intros [= <- <- <-]; done);
    intros H Hn; destruct (scripted_deliver_none _ _ _ _ _ H Hn) as (? & ? & ? & ?); by split_and!.
Qed.

#[export] Program Instance scripted_progress : SslProgress scripted_ops := {
  patience c := length (sc_script c)
}.
Next Obligation.
  intros c buf num n c'. cbn. unfold scripted_write, retries.
  destruct (sc_script c) as [|[k|e|] rest] eqn:E; cbn.
  - intros [= <- <-] _. cbn. done.
  - case Z.leb_spec; intros ? [= <- <-] ?; cbn; rewrite ?E; cbn; lia.
  - intros [= <- <-] _ _. cbn. rewrite E. cbn. lia.
  - intros [= <- <-] _ _. cbn. rewrite E. cbn. lia.
Qed.
Next Obligation.
  intros c num n bs c'. cbn. unfold scripted_read, retries.
  destruct (sc_script c) as [|[k|e|] rest] eqn:E; cbn; intros H Hn.
  1,2: destruct (scripted_deliver_none _ _ _ _ _ H Hn) as (_ & _ & _ & ->); done.
  all: injection H as <- <- <-; cbn; rewrite E; cbn; lia.
Qed.

Definition transient (o : scripted_outcome) : Prop :=
  match o with
  | Would e => e = SSL_ERROR_WANT_READ \/ e = SSL_ERROR_WANT_WRITE
  | _ => True
  end.

#[export] Program Instance scripted_reliable : SslReliable scripted_ops := {
  steady c := Forall transient (sc_script c)
}.
Next Obligation.
  intros c num n bs c'. cbn. unfold scripted_read, retries.
  destruct (sc_script c) as [|[k|e|] rest] eqn:E; cbn; intros H Hnum Hst.
  1,2: split; [rewrite (scripted_deliver_script _ _ _ _ _ H), E; by inversion Hst |];
    intros Hn _; revert H; unfold scripted_deliver; case Z.leb_spec; intros Hle H; injection H as <- <- <-; [|lia];
    destruct (sc_incoming c); [done | cbn in *; lia].
  all: injection H as <- <- <-; cbn; rewrite E; cbn.
  - inversion Hst as [|? ? He Hr]; subst. split; [done|]. by destruct He as [-> | ->].
  - inversion Hst; subst. split; [done|]. done.
Qed.
