(* ===== verification/TlsClient.v ===== *)
(** * The TLS client (include/tls_client.hpp, src/tls_client.cpp)

    Configuration and state of [TlsClient], context creation, the TCP connect
    loop over the resolved addresses, [tlsConnect] and [tlsDisconnect],
    [sslWriteAll], the reconnect backoff with its single-precision multiplier,
    and [networkLoop]. Answers of the system and of OpenSSL come in environment
    records; the calls that acquire or release something are logged. *)

From S2P Require Import Prelude Bytes Protocol RingQueue Transport.
From Stdlib Require Import Floats.SpecFloat.

(** ** Single-precision arithmetic (binary32, round to nearest even) *)

Definition f32 := spec_float.
Definition f32_mul : f32 -> f32 -> f32 := SFmul 24 128.
Definition f32_of_u32 (z : Z) : f32 := binary_normalize 24 128 z 0 false.

(** Conversion to [uint32_t] truncates; a value out of range is undefined. *)
Definition u32_of_f32 (x : f32) : option Z :=
  let check z := if decide (0 <= z < 2 ^ 32) then Some z else None in
  match x with
  | S754_zero _ => Some 0
  | S754_finite neg m e =>
      let t := if 0 <=? e then Z.pos m * 2 ^ e else Z.pos m / 2 ^ (- e) in
      check (if neg then - t else t)
  | _ => None
  end.

(** ** Configuration and state *)

Record TlsConfig := mkTlsConfig {
  host : option (list byte);
  port : Z;
  ca_path : option (list byte);
  connect_timeout_ms : Z;
  reconnect_base_ms : Z;
  reconnect_max_ms : Z;
  reconnect_multiplier : f32;
  frame_width : Z;
  frame_height : Z;
  cfg_pixel_format : Z
}.

Definition TlsConfig_default : TlsConfig :=
  mkTlsConfig None 4433 None 5000 1000 30000 (f32_of_u32 2) 0 0 0.

Inductive TlsState := Disconnected | Connecting | Connected | Error.

#[export] Instance TlsState_eq_dec : EqDecision TlsState.
Proof. solve_decision. Defined.

Definition QUEUE_TIMEOUT_MS : Z := 1000.
Definition O_NONBLOCK : Z := 2048.
Definition EINPROGRESS : Z := 115.

(** What the system answers while one address is tried. *)
Record addr_env := mkAddrEnv {
  ae_socket : Z;      (** socket() *)
  ae_getfl : Z;       (** fcntl(F_GETFL) *)
  ae_connect : Z;     (** connect() *)
  ae_errno : Z;       (** errno after a failed connect() *)
  ae_poll : Z;        (** poll() *)
  ae_so_error : Z     (** SO_ERROR *)
}.

Section Client.
Context {Ops : SslOps}.

(** Calls that acquire or release something, or that wait. *)
Inductive net_call :=
  | CtxNew | CtxFree
  | GetAddrs | FreeAddrs                              (** getaddrinfo, freeaddrinfo *)
  | Socket (fd : Z) | SetFlags (fd flags : Z) | Close (fd : Z)
  | SslNew | SslShutdown
  | SslFree (k : conn)                                (** the connection as it ends *)
  | Sleep (tv_sec tv_nsec : Z)
  | PopPacket (p : FramePacket) (data : list byte)    (** and the bytes its [data] shows *)
  | FreePacket (slot_idx : Z).

(** The loop over the resolved addresses; [sockfd] is the variable's value on
    entry. *)
Fixpoint try_addresses (addrs : list addr_env) (sockfd : Z) : Z * list net_call :=
  match addrs with
  | [] => (sockfd, [])
  | a :: rest =>
      let fd := ae_socket a in
      if fd <? 0 then try_addresses rest fd
      else
        let opened := [Socket fd; SetFlags fd (Z.lor (ae_getfl a) O_NONBLOCK)] in
        let failed := let r := try_addresses rest (-1) in (r.1, opened ++ Close fd :: r.2) in
        let keep := (fd, opened ++ [SetFlags fd (ae_getfl a)]) in
        if ae_connect a =? 0 then keep
        else if negb (ae_errno a =? EINPROGRESS) then failed
        else if ae_poll a <=? 0 then failed
        else if negb (ae_so_error a =? 0) then failed
        else keep
  end.

(** [None] is a failed getaddrinfo(). *)
Definition createTcpConnection (resolved : option (list addr_env)) : Z * list net_call :=
  match resolved with
  | None => (-1, [])
  | Some addrs => let '(sockfd, calls) := try_addresses addrs (-1) in (sockfd, GetAddrs :: calls ++ [FreeAddrs])
  end.

Record TlsClient := mkTlsClient {
  config_ : TlsConfig;
  ssl_ctx_ : bool;           (** not null *)
  ssl_ : option conn;
  sockfd_ : Z;
  state_ : TlsState;
  reconnect_delay_ms_ : Z;
  frames_sent_ : Z;
  bytes_sent_ : Z
}.

Definition TlsClient_new (config : TlsConfig) : TlsClient :=
  mkTlsClient config false None (-1) Disconnected (reconnect_base_ms config) 0 0.

Definition set_conn (ssl : option conn) (fd : Z) (st : TlsState) (c : TlsClient) : TlsClient :=
  mkTlsClient (config_ c) (ssl_ctx_ c) ssl fd st (reconnect_delay_ms_ c) (frames_sent_ c) (bytes_sent_ c).
Definition set_delay (d : Z) (c : TlsClient) : TlsClient :=
  mkTlsClient (config_ c) (ssl_ctx_ c) (ssl_ c) (sockfd_ c) (state_ c) d (frames_sent_ c) (bytes_sent_ c).
Definition set_state (st : TlsState) (c : TlsClient) : TlsClient := set_conn (ssl_ c) (sockfd_ c) st c.
Definition set_ctx (b : bool) (c : TlsClient) : TlsClient :=
  mkTlsClient (config_ c) b (ssl_ c) (sockfd_ c) (state_ c) (reconnect_delay_ms_ c) (frames_sent_ c) (bytes_sent_ c).
Definition count_sent (bytes : Z) (c : TlsClient) : TlsClient :=
  mkTlsClient (config_ c) (ssl_ctx_ c) (ssl_ c) (sockfd_ c) (state_ c) (reconnect_delay_ms_ c)
    (u64 (frames_sent_ c + 1)) (u64 (bytes_sent_ c + bytes)).

(** ** Initialisation *)

Definition nonempty (s : option (list byte)) : bool :=
  match s with Some (_ :: _) => true | _ => false end.

Record ctx_env := mkCtxEnv {
  xe_new : bool;             (** SSL_CTX_new *)
  xe_load_ca : bool          (** SSL_CTX_load_verify_locations *)
}.

Definition createSslContext (e : ctx_env) (c : TlsClient) : bool * TlsClient * list net_call :=
  if negb (xe_new e) then (false, set_ctx false c, [])
  else if nonempty (ca_path (config_ c)) && negb (xe_load_ca e)
  then (false, set_ctx false c, [CtxNew; CtxFree])
  else (true, set_ctx true c, [CtxNew]).

Definition initialize (e : ctx_env) (c : TlsClient) : bool * TlsClient * list net_call :=
  if negb (nonempty (host (config_ c))) || (port (config_ c) =? 0) then (false, c, [])
  else createSslContext e c.

(** ** Connecting *)

Record connect_env := mkConnectEnv {
  ce_resolved : option (list addr_env);
  ce_ssl_new : option conn;  (** SSL_new *)
  ce_set1_host : bool;       (** X509_VERIFY_PARAM_set1_host *)
  ce_set_fd : bool;          (** SSL_set_fd *)
  ce_connect : Z * conn      (** SSL_connect and the connection after it *)
}.

Definition tlsConnect (e : connect_env) (c : TlsClient) : bool * TlsClient * list net_call :=
  let '(fd, calls) := createTcpConnection (ce_resolved e) in
  if fd <? 0 then (false, set_conn (ssl_ c) fd (state_ c) c, calls)
  else match ce_ssl_new e with
  | None => (false, set_conn None (-1) (state_ c) c, calls ++ [Close fd])
  | Some k =>
      let failed k := (false, set_conn None (-1) (state_ c) c, calls ++ [SslNew; SslFree k; Close fd]) in
      if negb (ce_set1_host e) then failed k
      else if negb (ce_set_fd e) then failed k
      else if negb ((ce_connect e).1 =? 1) then failed (ce_connect e).2
      else (true,
            set_delay (reconnect_base_ms (config_ c))
              (set_conn (Some (ce_connect e).2) fd Connected c),
            calls ++ [SslNew])
  end.

Definition tlsDisconnect (c : TlsClient) : TlsClient * list net_call :=
  (set_conn None (-1) Disconnected c,
   (match ssl_ c with Some k => [SslShutdown; SslFree k] | None => [] end) ++
   (if 0 <=? sockfd_ c then [Close (sockfd_ c)] else [])).

Definition TlsClient_delete (c : TlsClient) : list net_call :=
  (tlsDisconnect c).2 ++ (if ssl_ctx_ c then [CtxFree] else []).

(** ** Sending *)

Definition i32_num (remaining : Z) : Z := i32 remaining.

(** [data] holds the bytes at [ptr]; [None] when [fuel] calls were not enough. *)
Fixpoint sslWriteAll (fuel : nat) (c : conn) (data : list byte) (remaining : Z)
    : option (bool * conn) :=
  if remaining =? 0 then Some (true, c)
  else match fuel with
  | O => None
  | S fuel =>
      let '(written, c) := SSL_write c data (i32_num remaining) in
      if written <=? 0 then
        match SSL_get_error c written with
        | SSL_ERROR_WANT_WRITE | SSL_ERROR_WANT_READ => sslWriteAll fuel c data remaining
        | SSL_ERROR_SYSCALL =>
            if conn_errno c =? EINTR then sslWriteAll fuel c data remaining else Some (false, c)
        | SSL_ERROR_ZERO_RETURN => Some (false, c)
        | SSL_ERROR_OTHER _ => Some (false, c)
        end
      else sslWriteAll fuel c (drop (Z.to_nat written) data) (u64 (remaining - written))
  end.

(** ** Backoff *)

Definition next_delay (cfg : TlsConfig) (delay : Z) : option Z :=
  d ← u32_of_f32 (f32_mul (f32_of_u32 delay) (reconnect_multiplier cfg));
  Some (if reconnect_max_ms cfg <? d then reconnect_max_ms cfg else d).

(** The timespec that [sleepMs] passes to nanosleep. *)
Definition sleepMs (ms : Z) : Z * Z := (ms / 1000, (ms mod 1000) * 1000000).

(** ** The network thread *)

(** What one iteration meets: the answers while connecting, the packet that
    [pop] returns and the bytes its [data] pointer shows. *)
Record loop_env := mkLoopEnv {
  le_connect : connect_env;
  le_pop : option FramePacket;
  le_data : list byte
}.

Definition packet_header (bo : byte_order) (p : FramePacket) : list byte :=
  FrameHeader_image bo (initFrameHeader bo (pkt_seq p) (pkt_timestamp_ns p) (pkt_len p)
    (pkt_pixel_format p) (pkt_width p) (pkt_height p)).

(** A failed send: the packet is freed, the connection closed. *)
Definition abandon (p : FramePacket) (c : TlsClient) : TlsClient * list net_call :=
  let '(c, calls) := tlsDisconnect c in (c, FreePacket (pkt_slot_idx_ p) :: calls).

Definition set_ssl (k : conn) (c : TlsClient) : TlsClient := set_conn (Some k) (sockfd_ c) (state_ c) c.

(** The part of an iteration that runs on an established connection. *)
Definition send_packet (bo : byte_order) (fuel : nat) (e : loop_env) (c : TlsClient)
    : option (TlsClient * list net_call) :=
  match le_pop e with
  | None => Some (c, [])
  | Some p =>
      k ← ssl_ c;
      '(ok, k) ← sslWriteAll fuel k (packet_header bo p) FRAME_HEADER_SIZE;
      '(c, calls) ←
        (if negb (ok : bool) then Some (abandon p (set_ssl k c))
         else
           '(ok, k) ← sslWriteAll fuel k (le_data e) (pkt_len p);
           if negb (ok : bool) then Some (abandon p (set_ssl k c))
           else Some (count_sent (FRAME_HEADER_SIZE + pkt_len p) (set_ssl k c),
                      [FreePacket (pkt_slot_idx_ p)]));
      Some (c, PopPacket p (le_data e) :: calls)
  end.

Definition network_body (bo : byte_order) (fuel : nat) (e : loop_env) (c : TlsClient)
    : option (TlsClient * list net_call) :=
  if decide (state_ c = Connected) then send_packet bo fuel e c
  else
    let '(ok, c, calls) := tlsConnect (le_connect e) (set_state Connecting c) in
    if negb ok then
      d ← next_delay (config_ c) (reconnect_delay_ms_ c);
      let ts := sleepMs (reconnect_delay_ms_ c) in
      Some (set_delay d c, calls ++ [Sleep ts.1 ts.2])
    else
      '(c, calls') ← send_packet bo fuel e c;
      Some (c, calls ++ calls').

(** [envs] pairs the value that [running.load()] returns at the loop head with
    what the iteration meets. *)
Fixpoint networkLoop (bo : byte_order) (fuel : nat) (envs : list (bool * loop_env)) (c : TlsClient)
    : option (TlsClient * list net_call) :=
  match envs with
  | [] => None
  | (running, e) :: envs =>
      if negb running then Some (tlsDisconnect c)
      else
        '(c, calls) ← network_body bo fuel e c;
        '(c, calls') ← networkLoop bo fuel envs c;
        Some (c, calls ++ calls')
  end.
End Client.

(** ** Sending everything *)

Section WriteAll.
Context {Ops : SslOps} {Laws : SslLaws Ops} {Prog : SslProgress Ops}.

Lemma sslWriteAll_mono fuel fuel' c data remaining r :
  sslWriteAll fuel c data remaining = Some r -> (fuel <= fuel')%nat ->
  sslWriteAll fuel' c data remaining = Some r.
Proof.
  revert fuel' c data remaining. induction fuel as [|fuel IH]; intros fuel' c data remaining.
  - cbn. destruct fuel'; cbn; by destruct (remaining =? 0).
  - intros H Hle. destruct fuel' as [|fuel']; [lia|]. cbn in *.
    destruct (remaining =? 0); [done|]. destruct (SSL_write _ _ _) as [w c1].
    destruct (w <=? 0); [|eapply IH; [done | lia]].
    destruct (SSL_get_error c1 w); try done; try (eapply IH; [done | lia]).
    destruct (conn_errno c1 =? EINTR); [eapply IH; [done | lia] | done].
Qed.

Lemma retry_cases c (w : Z) (P : Prop) :
  (retries c w = true -> P) -> (retries c w = false -> P) -> P.
Proof. destruct (retries c w); auto. Qed.

(** One call of the loop, by whether it is retried, fails or makes progress. *)
Lemma sslWriteAll_S fuel c data remaining :
  sslWriteAll (S fuel) c data remaining =
    if remaining =? 0 then Some (true, c)
    else let '(written, c1) := SSL_write c data (i32_num remaining) in
      if written <=? 0 then
        if retries c1 written then sslWriteAll fuel c1 data remaining else Some (false, c1)
      else sslWriteAll fuel c1 (drop (Z.to_nat written) data) (u64 (remaining - written)).
Proof.
  cbn [sslWriteAll]. destruct (remaining =? 0); [done|].
  destruct (SSL_write _ _ _) as [w c1]. destruct (w <=? 0); [|done].
  unfold retries. destruct (SSL_get_error c1 w); done.
Qed.

(** Success means that exactly the data went out, failure that a prefix did. *)
Lemma sslWriteAll_correct fuel c data remaining ok c' :
  0 <= remaining < 2 ^ 31 -> Z.of_nat (length data) = remaining ->
  sslWriteAll fuel c data remaining = Some (ok, c') ->
  incoming c' = incoming c /\
  exists k, (k <= length data)%nat /\ sent c' = sent c ++ take k data /\
    (ok = true -> k = length data).
Proof.
  revert c data remaining. induction fuel as [|fuel IH]; intros c data remaining Hr Hlen H.
  { cbn in H. destruct (Z.eqb_spec remaining 0); [|done]. injection H as <- <-. split; [done|].
    exists (length data). rewrite take_ge by done. destruct data; [|cbn in *; lia].
    by rewrite app_nil_r. }
  rewrite sslWriteAll_S in H. destruct (Z.eqb_spec remaining 0) as [->|Hne].
  { injection H as <- <-. split; [done|]. exists (length data).
    destruct data; [|cbn in *; lia]. by rewrite app_nil_r. }
  unfold i32_num in H. rewrite i32_id in H by lia.
  destruct (SSL_write c data remaining) as [w c1] eqn:E. destruct (Z.leb_spec w 0).
  - destruct (SSL_write_none _ _ _ _ _ E) as (Hi & k & Hs & Hk & Hz); [lia|].
    destruct (retries c1 w).
    + destruct (IH _ _ _ Hr Hlen H) as (Hi' & k' & Hk' & Hs' & Hok). rewrite Hi' , Hi. split; [done|].
      exists k'. by rewrite Hs', Hs, (Hz eq_refl), app_nil_r.
    + injection H as <- <-. split; [done|]. exists k. split_and!; [lia | done | done].
  - destruct (SSL_write_some _ _ _ _ _ E) as (Hle & Hs & Hi); [lia|].
    rewrite u64_id in H by lia.
    destruct (IH c1 (drop (Z.to_nat w) data) (remaining - w)) as (Hi' & k & Hk & Hs' & Hok);
      [lia | rewrite length_drop; lia | done |].
    rewrite length_drop in *. split; [congruence|]. exists (Z.to_nat w + k)%nat.
    split_and!; [lia | | intros ->; specialize (Hok eq_refl); lia].
    by rewrite Hs', Hs, <- app_assoc, take_take_drop.
Qed.

(** The loop ends: finitely many retries separate calls that make progress. *)
Lemma sslWriteAll_total c data remaining :
  0 <= remaining < 2 ^ 31 -> exists fuel r, sslWriteAll fuel c data remaining = Some r.
Proof.
  intros Hr. remember (Z.to_nat remaining) as n eqn:En. revert c data remaining Hr En.
  induction n as [n IHn] using lt_wf_ind. intros c data remaining Hr ->.
  remember (patience c) as p eqn:Ep. revert c data Ep.
  induction p as [p IHp] using lt_wf_ind. intros c data ->.
  destruct (Z.eqb_spec remaining 0) as [->|Hne].
  { exists 0%nat. eexists. done. }
  destruct (SSL_write c data remaining) as [w c1] eqn:E. destruct (Z.leb_spec w 0) as [Hw|Hw].
  - destruct (retries c1 w) eqn:Er.
    + destruct (IHp (patience c1)) with (c := c1) (data := data) as (fuel & r & Hf);
        [by eapply write_retry | done |].
      exists (S fuel), r. rewrite sslWriteAll_S. unfold i32_num.
      rewrite (proj2 (Z.eqb_neq _ _) Hne), i32_id, E, (proj2 (Z.leb_le _ _) Hw), Er by lia. done.
    + exists 1%nat. eexists. rewrite sslWriteAll_S. unfold i32_num.
      rewrite (proj2 (Z.eqb_neq _ _) Hne), i32_id, E, (proj2 (Z.leb_le _ _) Hw), Er by lia. done.
  - destruct (SSL_write_some _ _ _ _ _ E) as (Hle & _); [lia|].
    destruct (IHn (Z.to_nat (remaining - w)) ltac:(lia) c1 (drop (Z.to_nat w) data) (remaining - w))
      as (fuel & r & Hf); [lia | done |].
    exists (S fuel), r. rewrite sslWriteAll_S. unfold i32_num.
    rewrite (proj2 (Z.eqb_neq _ _) Hne), i32_id, E, (proj2 (Z.leb_gt _ _) Hw), u64_id by lia. done.
Qed.
End WriteAll.
