(* ===== verification/TlsProps.v ===== *)
(** * Properties of the TLS client

    The log of calls is folded twice: [net_after] tracks what is held (sockets,
    SSL objects, the context, the popped packet), [sessions] splits it into the
    connections with the frames offered to each. *)

From S2P Require Import Prelude Bytes Protocol RingQueue RingRefine Transport TlsClient.
From Stdlib Require Import Floats.SpecFloat.

Section Held.
Context {Ops : SslOps}.

(** What the process holds. *)
Record net_held := mkNetHeld {
  nh_ctx : bool;
  nh_fds : list Z;
  nh_ssl : bool;
  nh_pkt : option Z;
  nh_addrs : bool      (** the list of getaddrinfo *)
}.

(** [None] when a call releases what is not held, or acquires again what may
    be held only once. *)
Definition net_step (h : net_held) (c : net_call) : option net_held :=
  let '(mkNetHeld ctx fds ssl pkt addrs) := h in
  match c with
  | CtxNew => if ctx then None else Some (mkNetHeld true fds ssl pkt addrs)
  | CtxFree => if ctx then Some (mkNetHeld false fds ssl pkt addrs) else None
  | Socket fd => Some (mkNetHeld ctx (fd :: fds) ssl pkt addrs)
  | Close fd => fds ← remove_one fd fds; Some (mkNetHeld ctx fds ssl pkt addrs)
  | SslNew => if ssl then None else Some (mkNetHeld ctx fds true pkt addrs)
  | SslShutdown => if ssl then Some h else None
  | SslFree _ => if ssl then Some (mkNetHeld ctx fds false pkt addrs) else None
  | PopPacket p _ => match pkt with None => Some (mkNetHeld ctx fds ssl (Some (pkt_slot_idx_ p)) addrs) | Some _ => None end
  | FreePacket i => if decide (pkt = Some i) then Some (mkNetHeld ctx fds ssl None addrs) else None
  | GetAddrs => if addrs then None else Some (mkNetHeld ctx fds ssl pkt true)
  | FreeAddrs => if addrs then Some (mkNetHeld ctx fds ssl pkt false) else None
  | SetFlags _ _ | Sleep _ _ => Some h
  end.

Fixpoint net_after (h : net_held) (cs : list net_call) : option net_held :=
  match cs with
  | [] => Some h
  | c :: cs => h ← net_step h c; net_after h cs
  end.

Definition idle (ctx : bool) : net_held := mkNetHeld ctx [] false None false.
Definition connected (ctx : bool) (fd : Z) : net_held := mkNetHeld ctx [fd] true None false.

Lemma net_after_app h cs ds : net_after h (cs ++ ds) = h' ← net_after h cs; net_after h' ds.
Proof.
  revert h. induction cs as [|c cs IH]; intros h; [done|]. cbn.
  destruct (net_step h c); [apply IH | done].
Qed.

Lemma net_after_trans h h' h'' cs ds :
  net_after h cs = Some h' -> net_after h' ds = Some h'' -> net_after h (cs ++ ds) = Some h''.
Proof. intros H1 H2. by rewrite net_after_app, H1. Qed.

(** The flags last set on a socket. *)
Definition last_flags (fd : Z) (cs : list net_call) : option Z :=
  last (omap (fun c => match c with SetFlags f v => if decide (f = fd) then Some v else None | _ => None end) cs).

(** The sleeps, in milliseconds. *)
Definition slept (cs : list net_call) : list Z :=
  omap (fun c => match c with Sleep s ns => Some (s * 1000 + ns / 1000000) | _ => None end) cs.

Lemma slept_app cs ds : slept (cs ++ ds) = slept cs ++ slept ds.
Proof. apply omap_app. Qed.

(** Calls made on the way to a connection touch neither packets nor time. *)
Definition connecting_call (c : net_call) : Prop :=
  match c with GetAddrs | FreeAddrs | Socket _ | SetFlags _ _ | Close _ | SslNew | SslFree _ => True | _ => False end.

Lemma slept_connecting cs : Forall connecting_call cs -> slept cs = [].
Proof. induction 1 as [|c cs Hc _ IH]; [done|]. by destruct c. Qed.
End Held.

Lemma last_cons_some {A} (x y : A) l : last l = Some y -> last (x :: l) = Some y.
Proof. by destruct l. Qed.

(** ** Connecting *)

Section Connection.
Context {Ops : SslOps}.

(** What a run of the address loop leaves. *)
Definition tcp_result (ctx listed : bool) (addrs : list addr_env) (r : Z * list net_call) : Prop :=
  Forall (fun c => match c with GetAddrs | FreeAddrs | Socket _ | SetFlags _ _ | Close _ => True | _ => False end) r.2 /\
  (r.1 < 0 -> net_after (mkNetHeld ctx [] false None listed) r.2 = Some (mkNetHeld ctx [] false None listed)) /\
  (0 <= r.1 -> net_after (mkNetHeld ctx [] false None listed) r.2 = Some (mkNetHeld ctx [r.1] false None listed) /\
    exists a, a ∈ addrs /\ r.1 = ae_socket a /\ last_flags r.1 r.2 = Some (ae_getfl a)).

Lemma try_addresses_spec ctx addrs fd0 :
  fd0 < 0 -> tcp_result ctx true addrs (try_addresses addrs fd0).
Proof.
  revert fd0. induction addrs as [|a addrs IH]; intros fd0 Hfd; cbn [try_addresses].
  { split_and!; [done | done | cbn; lia]. }
  destruct (Z.ltb_spec (ae_socket a) 0) as [Hs|Hs].
  { destruct (IH _ Hs) as (H0 & H1 & H2). split_and!; [done..|]. intros H.
    destruct (H2 H) as (H3 & b & ? & ? & ?). split; [done|]. exists b. split_and!; [by right | done..]. }
  assert (tcp_result ctx true (a :: addrs) ((try_addresses addrs (-1)).1,
    [Socket (ae_socket a); SetFlags (ae_socket a) (Z.lor (ae_getfl a) O_NONBLOCK)]
    ++ Close (ae_socket a) :: (try_addresses addrs (-1)).2)) as Hgive.
  { destruct (IH (-1) ltac:(lia)) as (H0 & H1 & H2). unfold tcp_result. cbn.
    rewrite decide_True by done. cbn. split_and!; [by repeat constructor | done |]. intros H.
    destruct (H2 H) as (H3 & b & Hb & Hb1 & Hb2). split; [done|]. exists b.
    split_and!; [by right | done|]. unfold last_flags in *. cbn. case_decide; [|done]. cbn.
    by apply last_cons_some. }
  assert (tcp_result ctx true (a :: addrs) (ae_socket a, [Socket (ae_socket a); SetFlags (ae_socket a)
      (Z.lor (ae_getfl a) O_NONBLOCK)] ++ [SetFlags (ae_socket a) (ae_getfl a)])) as Hkeep.
  { unfold tcp_result. cbn. split_and!; [by repeat constructor | lia |]. intros _. split; [done|].
    exists a. split_and!; [by left | done |].
    unfold last_flags. cbn. by rewrite !decide_True. }
  destruct (ae_connect a =? 0); [exact Hkeep|].
  destruct (negb _); [exact Hgive|]. destruct (_ <=? 0); [exact Hgive|].
  destruct (negb _); [exact Hgive | exact Hkeep].
Qed.

Lemma createTcpConnection_spec ctx resolved :
  tcp_result ctx false (default [] resolved) (createTcpConnection resolved).
Proof.
  destruct resolved as [addrs|]; [|split_and!; [constructor | done | cbn; lia]]. cbn [default createTcpConnection].
  destruct (try_addresses_spec ctx addrs (-1)) as (H0 & H1 & H2); [lia|].
  destruct (try_addresses addrs (-1)) as [fd calls]. unfold tcp_result. cbn [fst snd] in *.
  assert (forall h, net_after (mkNetHeld ctx [] false None true) calls = Some (mkNetHeld ctx h false None true) ->
    net_after (mkNetHeld ctx [] false None false) (GetAddrs :: calls ++ [FreeAddrs]) = Some (mkNetHeld ctx h false None false))
    as Hlist by (intros h Hh; cbn; by rewrite net_after_app, Hh).
  split_and!.
  - constructor; [done|]. apply Forall_app_2; [done | by repeat constructor].
  - intros Hfd. by apply Hlist, H1.
  - intros Hfd. destruct (H2 Hfd) as (H3 & a & Ha & Ha1 & Ha2). split; [by apply Hlist|].
    exists a. split_and!; [done..|]. unfold last_flags in *. cbn. by rewrite omap_app, app_nil_r.
Qed.

(** Between iterations the client is either fully connected or holds nothing. *)
Definition client_ok (c : TlsClient) (h : net_held) : Prop :=
  match ssl_ c with
  | Some _ => state_ c = Connected /\ 0 <= sockfd_ c /\ h = connected (ssl_ctx_ c) (sockfd_ c)
  | None => state_ c <> Connected /\ sockfd_ c < 0 /\ h = idle (ssl_ctx_ c)
  end.

Lemma tlsConnect_spec e c :
  ssl_ c = None -> state_ c <> Connected ->
  let '(ok, c', calls) := tlsConnect e c in
  Forall connecting_call calls /\ config_ c' = config_ c /\ ssl_ctx_ c' = ssl_ctx_ c /\
  frames_sent_ c' = frames_sent_ c /\ bytes_sent_ c' = bytes_sent_ c /\
  exists h, net_after (idle (ssl_ctx_ c)) calls = Some h /\ client_ok c' h /\
  if (ok : bool)
  then ssl_ c' = Some (ce_connect e).2 /\ reconnect_delay_ms_ c' = reconnect_base_ms (config_ c)
  else ssl_ c' = None /\ reconnect_delay_ms_ c' = reconnect_delay_ms_ c.
Proof.
  intros Hssl Hst. unfold tlsConnect.
  destruct (createTcpConnection_spec (ssl_ctx_ c) (ce_resolved e)) as (H0 & H1 & H2).
  apply (Forall_impl _ connecting_call) in H0; [|intros []; done].
  destruct (createTcpConnection _) as [fd calls]. cbn [fst snd] in *.
  destruct (Z.ltb_spec fd 0) as [Hfd|Hfd].
  { split_and!; [done..|]. exists (idle (ssl_ctx_ c)). split; [auto|]. cbn. rewrite Hssl. by split. }
  destruct (H2 Hfd) as [H3 _].
  assert (forall k, net_after (idle (ssl_ctx_ c)) (calls ++ [SslNew; SslFree k; Close fd]) = Some (idle (ssl_ctx_ c))) as Hfail.
  { intros k. eapply net_after_trans; [done|]. cbn. by rewrite decide_True. }
  destruct (ce_ssl_new e) as [k|].
  2:{ split_and!; [apply Forall_app_2; [done | by repeat constructor] | done..|]. exists (idle (ssl_ctx_ c)).
      split; [|by split]. eapply net_after_trans; [done|]. cbn. by rewrite decide_True. }
  destruct (negb (ce_set1_host e)); [|destruct (negb (ce_set_fd e)); [|destruct (negb _)]];
    (split_and!; [apply Forall_app_2; [done | by repeat constructor] | done..|]).
  1-3: exists (idle (ssl_ctx_ c)); by split.
  exists (connected (ssl_ctx_ c) fd). split; [by eapply net_after_trans|]. by split_and!.
Qed.

Lemma tlsDisconnect_spec c h :
  client_ok c h ->
  net_after h (tlsDisconnect c).2 = Some (idle (ssl_ctx_ c)) /\ client_ok (tlsDisconnect c).1 (idle (ssl_ctx_ c)).
Proof.
  unfold client_ok, tlsDisconnect. cbn. destruct (ssl_ c).
  - intros (_ & Hfd & ->). rewrite (proj2 (Z.leb_le _ _) Hfd). cbn. by rewrite decide_True.
  - intros (_ & Hfd & ->). by rewrite (proj2 (Z.leb_gt _ _) Hfd).
Qed.
End Connection.

(** ** Backoff *)

Definition default_backoff (cfg : TlsConfig) : Prop :=
  reconnect_base_ms cfg = 1000 /\ reconnect_max_ms cfg = 30000 /\ reconnect_multiplier cfg = f32_of_u32 2.

(** The delay after [n] consecutive failures. *)
Definition backoff (n : nat) : Z := Z.min (1000 * 2 ^ Z.of_nat n) 30000.

Lemma backoff_large n : (5 <= n)%nat -> backoff n = 30000.
Proof.
  intros Hn. unfold backoff.
  pose proof (Z.pow_le_mono_r 2 5 (Z.of_nat n) ltac:(lia) ltac:(lia)). lia.
Qed.

Lemma next_delay_default cfg n :
  default_backoff cfg -> next_delay cfg (backoff n) = Some (backoff (S n)).
Proof.
  intros (_ & Hmax & Hmul). unfold next_delay. rewrite Hmax, Hmul.
  destruct (decide (n < 5)%nat).
  - do 5 (destruct n as [|n]; [vm_compute; reflexivity|]). lia.
  - rewrite !backoff_large by lia. vm_compute. reflexivity.
Qed.

Lemma sleepMs_ms ms : (sleepMs ms).1 * 1000 + (sleepMs ms).2 / 1000000 = ms.
Proof. unfold sleepMs. cbn. rewrite Z.div_mul by lia. pose proof (Z.div_mod ms 1000). lia. Qed.

Lemma slept_sleep `{SslOps} d : slept [Sleep (sleepMs d).1 (sleepMs d).2] = [d].
Proof. rewrite <- (sleepMs_ms d) at 3. reflexivity. Qed.

(** ** Streams *)

Section Streams.
Context {Ops : SslOps} {Laws : SslLaws Ops}.

(** The frame that a packet and the bytes at its [data] pointer show; [pop]
    returns packets for which it is a frame of the queue. *)
Definition shown_frame (p : FramePacket) (data : list byte) : frame :=
  mkFrame (pkt_seq p) (pkt_timestamp_ns p) (pkt_pixel_format p) (pkt_width p) (pkt_height p) data.

Definition packet_ok (p : FramePacket) (data : list byte) : Prop :=
  frame_ok MAX_FRAME_SIZE (shown_frame p data) /\ pkt_len p = Z.of_nat (length data).

(** What the peer is to see of a frame, and of several. *)
Definition wire_frame (f : frame) : list byte :=
  wire_header (f_seq f) (f_timestamp_ns f) (f_len f) (f_pixel_format f) (f_width f) (f_height f) ++ f_data f.

Definition wire_stream (fs : list frame) : list byte := concat (map wire_frame fs).

#[local] Arguments wire_frame : simpl never.
#[local] Arguments wire_stream : simpl never.

Lemma length_wire_frame f : Z.of_nat (length (wire_frame f)) = FRAME_HEADER_SIZE + f_len f.
Proof.
  unfold wire_frame, f_len. rewrite length_app, length_wire_header.
  change FRAME_HEADER_SIZE with 36. lia.
Qed.

Lemma wire_stream_snoc fs f : wire_stream (fs ++ [f]) = wire_stream fs ++ wire_frame f.
Proof. unfold wire_stream. rewrite map_app, concat_app. cbn. by rewrite app_nil_r. Qed.

(** The frames offered to the current connection, and the finished
    connections with the frames offered to each. *)
Definition session_step (s : list frame * list (list frame * conn)) (c : net_call)
    : list frame * list (list frame * conn) :=
  match c with
  | SslNew => ([], s.2)
  | PopPacket p data => (s.1 ++ [shown_frame p data], s.2)
  | SslFree k => ([], s.2 ++ [(s.1, k)])
  | _ => s
  end.

Definition sessions (calls : list net_call) : list (list frame * conn) :=
  (foldl session_step ([], []) calls).2.

(** All frames complete, or all but a prefix of the last. *)
Definition session_good (s : list frame * conn) : Prop :=
  Forall (frame_ok MAX_FRAME_SIZE) s.1 /\
  (sent s.2 = wire_stream s.1 \/
   exists fs f n, s.1 = fs ++ [f] /\ sent s.2 = wire_stream fs ++ take n (wire_frame f)).

Definition stream_inv (c : TlsClient) (s : list frame * list (list frame * conn)) : Prop :=
  Forall session_good s.2 /\
  match ssl_ c with
  | Some k => Forall (frame_ok MAX_FRAME_SIZE) s.1 /\ sent k = wire_stream s.1
  | None => True
  end.

(** A new connection has carried no application data. *)
Definition fresh_env (e : connect_env) : Prop :=
  sent (ce_connect e).2 = [] /\ forall k, ce_ssl_new e = Some k -> sent k = [].

Definition env_ok (e : loop_env) : Prop :=
  fresh_env (le_connect e) /\ forall p, le_pop e = Some p -> packet_ok p (le_data e).

Lemma session_tcp calls s :
  Forall (fun c => match c with GetAddrs | FreeAddrs | Socket _ | SetFlags _ _ | Close _ => True | _ => False end) calls ->
  foldl session_step s calls = s.
Proof. intros H. revert s. induction H as [|c cs Hc _ IH]; intros s; [done|]. destruct c; done || apply IH. Qed.

Lemma tlsConnect_streams e c s :
  ssl_ c = None -> fresh_env e -> stream_inv c s ->
  let '(_, c', calls) := tlsConnect e c in stream_inv c' (foldl session_step s calls).
Proof.
  intros Hssl [Hk2 Hk1] [Hs _]. unfold tlsConnect.
  destruct (createTcpConnection_spec false (ce_resolved e)) as (H0 & _).
  destruct (createTcpConnection _) as [fd calls]. cbn [snd] in H0.
  assert (forall k, sent k = [] -> Forall session_good (s.2 ++ [([], k)])) as Hgood.
  { intros k Hk. apply Forall_app_2; [done|]. constructor; [|done]. split; [done | by left]. }
  assert (Forall session_good (foldl session_step s calls).2) as Hs' by by rewrite session_tcp.
  destruct (fd <? 0); [split; cbn; [done | by rewrite Hssl]|].
  destruct (ce_ssl_new e) as [k|];
    [|rewrite foldl_app, (session_tcp calls) by done; split; cbn; done].
  destruct (negb (ce_set1_host e)); [|destruct (negb (ce_set_fd e)); [|destruct (negb _)]];
    rewrite foldl_app, (session_tcp calls) by done; (split; cbn; [auto | by try rewrite Hk2]).
Qed.

(** Sending one packet: it goes out completely and is counted, or a prefix goes
    out and the connection is closed. *)
Lemma send_packet_cases bo fuel e c p k r :
  send_packet bo fuel e c = Some r -> le_pop e = Some p -> packet_ok p (le_data e) ->
  ssl_ c = Some k ->
  exists k', incoming k' = incoming k /\
   ((sent k' = sent k ++ wire_frame (shown_frame p (le_data e)) /\
     r = (count_sent (FRAME_HEADER_SIZE + pkt_len p) (set_ssl k' c),
          [PopPacket p (le_data e); FreePacket (pkt_slot_idx_ p)])) \/
    (exists n, sent k' = sent k ++ take n (wire_frame (shown_frame p (le_data e))) /\
     r = ((tlsDisconnect (set_ssl k' c)).1,
          PopPacket p (le_data e) :: FreePacket (pkt_slot_idx_ p) :: (tlsDisconnect (set_ssl k' c)).2))).
Proof.
  intros H Hp [Hf Hlen] Hk. pose proof (fok_seq _ _ Hf) as Hseq. pose proof (fok_ts _ _ Hf) as Hts.
  pose proof (fok_len _ _ Hf) as Hmax. unfold f_len, MAX_FRAME_SIZE in Hmax. cbn in Hseq, Hts, Hmax.
  unfold send_packet in H. rewrite Hp, Hk in H. cbn [mbind option_bind] in H.
  unfold packet_header, wire_frame in *. rewrite header_image_wire in H by done. unfold f_len, shown_frame in *. cbn [f_seq f_timestamp_ns f_pixel_format f_width f_height f_data] in *. rewrite <- Hlen in *.
  pose proof (length_wire_header (pkt_seq p) (pkt_timestamp_ns p) (pkt_len p)
    (pkt_pixel_format p) (pkt_width p) (pkt_height p)) as Hhl.
  destruct (sslWriteAll _ _ (wire_header _ _ _ _ _ _) _) as [[ok1 k1]|] eqn:E1; [|done].
  change FRAME_HEADER_SIZE with 36 in *.
  apply sslWriteAll_correct in E1 as (Hi1 & n1 & Hn1 & Hs1 & Hok1); [|lia|lia].
  destruct ok1; cbn in H.
  2:{ injection H as <-. exists k1. split; [done|]. right. exists n1. by rewrite take_app_le by done. }
  specialize (Hok1 eq_refl). subst n1. rewrite take_ge in Hs1 by lia.
  destruct (sslWriteAll _ _ (le_data e) _) as [[ok2 k2]|] eqn:E2; [|done].
  apply sslWriteAll_correct in E2 as (Hi2 & n2 & Hn2 & Hs2 & Hok2); [|lia|lia].
  rewrite Hs1, <- app_assoc in Hs2.
  destruct ok2; cbn in H; injection H as <-; exists k2; (split; [congruence|]).
  - left. split; [|done]. rewrite Hs2, take_ge by (rewrite Hok2; done). done.
  - right. exists (36 + n2)%nat. split; [|done]. by rewrite Hs2, <- Hhl, take_app_add.
Qed.

Lemma send_packet_inv bo fuel e c c' calls h s :
  send_packet bo fuel e c = Some (c', calls) -> env_ok e ->
  state_ c = Connected -> client_ok c h -> stream_inv c s ->
  config_ c' = config_ c /\
  (exists h', net_after h calls = Some h' /\ client_ok c' h') /\
  stream_inv c' (foldl session_step s calls).
Proof.
  intros H [_ Hok] Hst Hc [Hs Hstr]. destruct (le_pop e) as [p|] eqn:Ep.
  2:{ unfold send_packet in H. rewrite Ep in H. injection H as <- <-. split_and!; [done | by exists h | by split]. }
  unfold client_ok in Hc. destruct (ssl_ c) as [k|] eqn:Ek; [|destruct Hc; congruence].
  destruct Hc as (_ & Hfd & ->).
  edestruct send_packet_cases as (k' & _ & [(Hsent & Hr)|(n & Hsent & Hr)]); [done | done | auto | done | |];
    injection Hr as -> ->.
  - cbn. rewrite decide_True by done. split_and!; [done | | split; [done|]].
    + eexists. split; [done|]. by split_and!.
    + cbn. destruct Hstr as [Hfr Hk]. rewrite wire_stream_snoc, Hsent, Hk. split; [|done].
      apply Forall_app_2; [done|]. constructor; [by apply Hok | done].
  - destruct (tlsDisconnect_spec (set_ssl k' c) (connected (ssl_ctx_ c) (sockfd_ c))) as (H1 & H2); [done|].
    split_and!; [done | exists (idle (ssl_ctx_ c)); split; [|done] | split].
    + cbn. by rewrite decide_True.
    + unfold tlsDisconnect. cbn. rewrite (proj2 (Z.leb_le _ _) Hfd). cbn.
      destruct Hstr as [Hfr Hk]. apply Forall_app_2; [done|]. constructor; [|done]. split; cbn.
      * apply Forall_app_2; [done|]. constructor; [by apply Hok | done].
      * right. do 3 eexists. split; [done|]. by rewrite Hsent, Hk.
    + done.
Qed.

Lemma network_body_inv bo fuel e c c' calls h s :
  network_body bo fuel e c = Some (c', calls) -> env_ok e -> client_ok c h -> stream_inv c s ->
  config_ c' = config_ c /\
  (exists h', net_after h calls = Some h' /\ client_ok c' h') /\
  stream_inv c' (foldl session_step s calls).
Proof.
  intros H He Hc Hs. unfold network_body in H. case_decide as Hst; [by eapply send_packet_inv|].
  assert (ssl_ c = None /\ h = idle (ssl_ctx_ c)) as [Hssl ->].
  { unfold client_ok in Hc. destruct (ssl_ c); [by destruct Hc | by destruct Hc as (_ & _ & ?)]. }
  pose proof (tlsConnect_spec (le_connect e) (set_state Connecting c) Hssl ltac:(done)) as Hspec.
  pose proof (tlsConnect_streams (le_connect e) (set_state Connecting c) s Hssl (proj1 He)) as Hstr.
  destruct (tlsConnect _ _) as [[ok c1] calls1].
  destruct Hspec as (_ & Hcfg & _ & _ & _ & h1 & Hh1 & Hc1 & Hif).
  assert (stream_inv c1 (foldl session_step s calls1)) as Hs1.
  { apply Hstr. destruct Hs. split; [done|]. cbn. by rewrite Hssl. }
  cbn in Hcfg. destruct ok; cbn in H.
  - destruct (send_packet bo fuel e c1) as [[c2 calls2]|] eqn:E2; [|done]. injection H as <- <-.
    assert (state_ c1 = Connected) as Hst1.
    { destruct Hif as [Hk _]. unfold client_ok in Hc1. rewrite Hk in Hc1. apply Hc1. }
    edestruct send_packet_inv as (H1 & (h2 & H2 & H3) & H4); [done..|].
    rewrite foldl_app. split_and!; [congruence | exists h2; split; [by eapply net_after_trans | done] | done].
  - destruct (next_delay _ _) as [d|]; [|done]. injection H as <- <-.
    destruct Hif as [Hk _]. rewrite foldl_app.
    split_and!; [done | exists h1; split; [eapply net_after_trans; [done | by destruct h1] | done] | done].
Qed.

Lemma networkLoop_inv bo fuel envs c c' calls h s :
  networkLoop bo fuel envs c = Some (c', calls) -> Forall (fun e => env_ok e.2) envs ->
  client_ok c h -> stream_inv c s ->
  net_after h calls = Some (idle (ssl_ctx_ c')) /\ client_ok c' (idle (ssl_ctx_ c')) /\
  Forall session_good (foldl session_step s calls).2.
Proof.
  intros H Henvs. revert c h s calls H.
  induction Henvs as [|[running e] envs He _ IH]; intros c h s calls H Hc Hs; [done|]. cbn in H.
  destruct running; cbn in H.
  - destruct (network_body bo fuel e c) as [[c1 calls1]|] eqn:E1; [|done]. cbn in H.
    destruct (networkLoop bo fuel envs c1) as [[c2 calls2]|] eqn:E2; [|done].
    injection H as -> <-.
    edestruct network_body_inv as (_ & (h1 & H1 & H2) & H3); [done..|].
    destruct (IH _ _ _ _ E2 H2 H3) as (H4 & H5 & H6). rewrite foldl_app.
    split_and!; [by eapply net_after_trans | done..].
  - injection H as <- <-. destruct (tlsDisconnect_spec c h Hc) as (H1 & H2).
    split_and!; [done..|]. destruct Hs as [Hs Hstr]. cbn.
    rewrite foldl_app. destruct (ssl_ c) as [k|]; cbn; destruct (0 <=? sockfd_ c); cbn; try done;
      (apply Forall_app_2; [done|]; constructor; [split; [apply Hstr | left; apply Hstr] | done]).
Qed.
End Streams.

(** ** Enough fuel *)

Section Total.
Context {Ops : SslOps} {Laws : SslLaws Ops} {Prog : SslProgress Ops}.

Lemma sslWriteAll_converges c data remaining :
  0 <= remaining < 2 ^ 31 -> exists r, converges (fun n => sslWriteAll n c data remaining) r.
Proof.
  intros H. destruct (sslWriteAll_total c data remaining H) as (n & r & Hr). exists r, n.
  intros. by eapply sslWriteAll_mono.
Qed.

Lemma send_packet_total bo e c p k :
  le_pop e = Some p -> packet_ok p (le_data e) -> ssl_ c = Some k ->
  exists r, converges (fun n => send_packet bo n e c) r.
Proof.
  intros Hp [Hf Hl] Hk. assert (0 <= pkt_len p < 2 ^ 31) as Hlen.
  { pose proof (fok_len _ _ Hf) as H. unfold f_len, MAX_FRAME_SIZE in H. cbn in H. lia. }
  unfold send_packet. rewrite Hp, Hk. cbn [mbind option_bind].
  destruct (sslWriteAll_converges k (packet_header bo p) FRAME_HEADER_SIZE) as [[ok1 k1] H1]; [done|].
  destruct (sslWriteAll_converges k1 (le_data e) (pkt_len p) Hlen) as [[ok2 k2] H2].
  destruct ok1; [destruct ok2|]; eexists; (eapply converges_bind; [exact H1|]); cbn.
  1,2: eapply converges_bind; [eapply converges_bind; [exact H2 | apply converges_const]|].
  all: cbn; match goal with |- converges (fun _ => let '(_, _) := ?p in _) _ =>
         rewrite (surjective_pairing p) | _ => idtac end; apply converges_const.
Qed.

Lemma send_packet_total' bo e c k :
  env_ok e -> ssl_ c = Some k -> exists r, converges (fun n => send_packet bo n e c) r.
Proof.
  intros [_ He] Hk. destruct (le_pop e) as [p|] eqn:Ep.
  - eapply send_packet_total; [done | by apply He | done].
  - unfold send_packet. rewrite Ep. eexists. apply converges_const.
Qed.

(** The delay stays on the schedule. *)
Definition on_schedule (c : TlsClient) : Prop :=
  default_backoff (config_ c) /\ exists n, reconnect_delay_ms_ c = backoff n.

Lemma send_packet_schedule bo fuel e c c' calls :
  send_packet bo fuel e c = Some (c', calls) -> on_schedule c -> on_schedule c'.
Proof.
  unfold send_packet. destruct (le_pop e); [|by intros [= <- <-]].
  destruct (ssl_ c); [|done]. cbn.
  destruct (sslWriteAll _ _ _ _) as [[[] ?]|]; [|by intros [= <- <-] |done]. cbn.
  destruct (sslWriteAll _ _ _ _) as [[[] ?]|]; [by intros [= <- <-] | by intros [= <- <-] | done].
Qed.

Lemma network_body_total bo e c h :
  env_ok e -> client_ok c h -> on_schedule c ->
  exists r, converges (fun n => network_body bo n e c) r /\ on_schedule r.1.
Proof.
  intros He Hc Hd. unfold network_body. case_decide as Hst.
  - unfold client_ok in Hc. destruct (ssl_ c) as [k|] eqn:Ek; [|by destruct Hc].
    destruct (send_packet_total' bo e c k He Ek) as [[c1 calls] Hr]. exists (c1, calls). split; [done|].
    destruct Hr as [n Hn]. by eapply send_packet_schedule, Hd; apply Hn.
  - assert (ssl_ c = None) as Hssl.
    { unfold client_ok in Hc. destruct (ssl_ c); [by destruct Hc | done]. }
    pose proof (tlsConnect_spec (le_connect e) (set_state Connecting c) Hssl ltac:(done)) as Hspec.
    destruct (tlsConnect _ _) as [[ok c1] calls1].
    destruct Hspec as (_ & Hcfg & _ & _ & _ & h1 & _ & _ & Hif). cbn in Hcfg, Hif.
    destruct Hd as [Hdef [n Hn]]. destruct ok; cbn.
    + destruct Hif as [Hk Hdel].
      destruct (send_packet_total' bo e c1 _ He Hk) as [[c2 calls2] Hr].
      exists (c2, calls1 ++ calls2).
      split; [eapply converges_bind; [exact Hr | apply converges_const]|].
      destruct Hr as [m Hm]. eapply send_packet_schedule; [by apply Hm|].
      split; [by rewrite Hcfg|]. exists 0%nat. rewrite Hdel. apply Hdef.
    + destruct Hif as [_ Hdel]. rewrite Hcfg, Hdel, Hn, next_delay_default by done. cbn.
      eexists. split; [apply converges_const|]. split; cbn; [by rewrite Hcfg | by eexists].
Qed.

Lemma networkLoop_total bo envs last c h s :
  Forall (fun e => env_ok e.2) envs -> client_ok c h -> stream_inv c s -> on_schedule c ->
  exists r, converges (fun n => networkLoop bo n (envs ++ [(false, last)]) c) r.
Proof.
  intros Henvs. revert c h s. induction Henvs as [|[running e] envs He _ IH]; intros c h s Hc Hs Hd; cbn.
  { eexists. apply converges_const. }
  destruct running; cbn; [|eexists; apply converges_const].
  destruct (network_body_total bo e c h He Hc Hd) as ([c1 calls1] & Hr & Hd1).
  assert (exists h1 s1, client_ok c1 h1 /\ stream_inv c1 s1) as (h1 & s1 & Hc1 & Hs1).
  { destruct Hr as [n Hn].
    edestruct (network_body_inv bo n e c c1 calls1 h s) as (_ & (h1 & _ & ?) & ?);
      [by apply Hn | done..|]. by do 2 eexists. }
  destruct (IH c1 h1 s1 Hc1 Hs1 Hd1) as [[c2 calls2] Hr2].
  eexists. eapply converges_bind; [exact Hr|]. cbn.
  eapply converges_bind; [exact Hr2 | apply converges_const].
Qed.
End Total.
