(* ===== verification/TlsTheorems.v ===== *)
(** * What the TLS client guarantees

    About a client's life as a sequence of calls: its resources, the streams of
    its connections, the back-off. *)

From S2P Require Import Prelude Bytes Protocol RingQueue RingRefine Transport TlsClient TlsProps.

Section Client.
Context {Ops : SslOps} {Laws : SslLaws Ops} {Prog : SslProgress Ops}.

(** A connection attempt that cannot succeed. *)
Definition connect_fails (e : connect_env) : Prop := forall c, (tlsConnect e c).1.1 = false.

Lemma new_ok cfg b : client_ok (set_ctx b (TlsClient_new cfg)) (idle b).
Proof. by split_and!. Qed.

Lemma new_on_schedule b cfg : default_backoff cfg -> on_schedule (set_ctx b (TlsClient_new cfg)).
Proof. intros H. split; [done|]. exists 0%nat. apply H. Qed.

Lemma new_stream b cfg : stream_inv (set_ctx b (TlsClient_new cfg)) ([], []).
Proof. by split. Qed.

(** What [initialize] does to a new client. *)
Lemma initialize_spec xe cfg :
  exists ok calls, initialize xe (TlsClient_new cfg) = (ok, set_ctx ok (TlsClient_new cfg), calls) /\
    net_after (idle false) calls = Some (idle ok).
Proof.
  unfold initialize, createSslContext. destruct (_ || _); [by do 2 eexists|].
  destruct (xe_new xe); [|by do 2 eexists]. cbn. destruct (_ && _); by do 2 eexists.
Qed.

Lemma delete_spec c :
  client_ok c (idle (ssl_ctx_ c)) ->
  net_after (idle (ssl_ctx_ c)) (TlsClient_delete c) = Some (idle false).
Proof.
  intros Hc. destruct (tlsDisconnect_spec c _ Hc) as [H _]. unfold TlsClient_delete.
  eapply net_after_trans; [exact H|]. by destruct (ssl_ctx_ c).
Qed.

Lemma networkLoop_disconnected bo fuel envs c c' calls :
  networkLoop bo fuel envs c = Some (c', calls) ->
  state_ c' = Disconnected /\ ssl_ c' = None /\ sockfd_ c' = -1.
Proof.
  revert c calls. induction envs as [|[running e] envs IH]; intros c calls H; [done|]. cbn in H.
  destruct running; cbn in H; [|by injection H as <- _].
  destruct (network_body bo fuel e c) as [[c1 calls1]|] eqn:E; [|done]. cbn in H.
  destruct (networkLoop bo fuel envs c1) as [[c2 calls2]|] eqn:E2; [|done]. injection H as -> _.
  by eapply IH.
Qed.

(** C15: over a client's whole life (construction, [initialize], [networkLoop],
    destruction), whatever the system and OpenSSL answer: the loop ends once
    [running] is false, every socket, SSL object and context acquired is
    released exactly once, every popped packet is freed exactly once and
    before the next one is popped, and the loop leaves the client
    disconnected. *)
Theorem client_lifecycle bo cfg xe envs last :
  default_backoff cfg -> Forall (fun e => env_ok e.2) envs -> env_ok last ->
  let '(ok, c1, calls1) := initialize xe (TlsClient_new cfg) in
  if (ok : bool) then
    exists c2 calls2, converges (fun n => networkLoop bo n (envs ++ [(false, last)]) c1) (c2, calls2) /\
      net_after (idle false) (calls1 ++ calls2 ++ TlsClient_delete c2) = Some (idle false) /\
      state_ c2 = Disconnected /\ ssl_ c2 = None /\ sockfd_ c2 = -1
  else net_after (idle false) (calls1 ++ TlsClient_delete c1) = Some (idle false).
Proof.
  intros Hcfg He Hl. destruct (initialize_spec xe cfg) as (ok & calls1 & -> & H1).
  destruct ok; [|eapply net_after_trans; [exact H1 | done]].
  destruct (networkLoop_total bo envs last _ _ _ He (new_ok cfg true) (new_stream true cfg)
            (new_on_schedule true cfg Hcfg))
    as ([c2 calls2] & n & Hn).
  exists c2, calls2. split; [by exists n|]. specialize (Hn n (le_n n)).
  edestruct networkLoop_inv as (H2 & H3 & _); [exact Hn | | apply new_ok | apply new_stream |].
  { apply Forall_app_2; [done|]. by constructor. }
  split; [|by eapply networkLoop_disconnected].
  eapply net_after_trans; [exact H1|]. eapply net_after_trans; [exact H2|]. by apply delete_spec.
Qed.

(** C14: the bytes written to each TLS connection of a client's life are the
    wire frames of the packets popped during that connection, in that order
    and with nothing in between: all of them complete, or all but the last,
    of which a prefix went out before the connection was given up. *)
Theorem session_streams bo fuel cfg b envs c calls :
  Forall (fun e => env_ok e.2) envs ->
  networkLoop bo fuel envs (set_ctx b (TlsClient_new cfg)) = Some (c, calls) ->
  Forall session_good (sessions calls).
Proof.
  intros He H. by edestruct networkLoop_inv as (_ & _ & H3);
    [exact H | done | apply new_ok | apply new_stream |].
Qed.

(** Sending one packet ends, and either the whole wire frame (header and
    payload) was appended to the connection, the packet is freed and the
    counters grow by one frame and by header plus payload bytes; or only a
    prefix was, the packet is freed all the same, the connection is closed and
    the counters stay. *)
Theorem send_packet_outcome bo e c p k :
  le_pop e = Some p -> packet_ok p (le_data e) -> ssl_ c = Some k ->
  exists k' c' calls, converges (fun n => send_packet bo n e c) (c', PopPacket p (le_data e) :: calls) /\
    ((sent k' = sent k ++ wire_frame (shown_frame p (le_data e)) /\ ssl_ c' = Some k' /\ state_ c' = state_ c /\
      frames_sent_ c' = u64 (frames_sent_ c + 1) /\
      bytes_sent_ c' = u64 (bytes_sent_ c + Z.of_nat (length (wire_frame (shown_frame p (le_data e))))) /\
      calls = [FreePacket (pkt_slot_idx_ p)]) \/
     (exists n, sent k' = sent k ++ take n (wire_frame (shown_frame p (le_data e))) /\
      ssl_ c' = None /\ state_ c' = Disconnected /\
      frames_sent_ c' = frames_sent_ c /\ bytes_sent_ c' = bytes_sent_ c /\
      calls = FreePacket (pkt_slot_idx_ p) :: SslShutdown :: SslFree k' ::
        (if 0 <=? sockfd_ c then [Close (sockfd_ c)] else []))).
Proof.
  intros Hp Hok Hk. rewrite length_wire_frame. replace (f_len (shown_frame p (le_data e))) with (pkt_len p) by apply Hok.
  destruct (send_packet_total bo e c p k Hp Hok Hk) as (r & n & Hn).
  destruct (send_packet_cases bo n e c p k r) as (k' & _ & [[Hs ->]|(m & Hs & ->)]);
    [by apply Hn | done..| |]; exists k'; do 2 eexists; (split; [by exists n|]).
  - left. by split_and!.
  - right. exists m. by split_and!.
Qed.

(** [sslWriteAll] ends, whatever pattern of short writes, would-block
    answers and interrupts OpenSSL gives, and returns true only when exactly
    the given bytes were appended to the stream, in order; when it returns
    false a prefix of them was. *)
Theorem write_all_correct k data :
  Z.of_nat (length data) < 2 ^ 31 ->
  exists ok k', converges (fun n => sslWriteAll n k data (Z.of_nat (length data))) (ok, k') /\
    incoming k' = incoming k /\
    exists m, sent k' = sent k ++ take m data /\ ((ok : bool) = true -> m = length data).
Proof.
  intros H. destruct (sslWriteAll_converges k data (Z.of_nat (length data))) as [[ok k'] Hr]; [lia|].
  exists ok, k'. split; [done|]. destruct Hr as [n Hn].
  edestruct sslWriteAll_correct as (Hi & m & Hm & Hs & Hok); [..|by apply Hn|]; [lia | done |].
  split; [done|]. by exists m.
Qed.

(** A successful [createTcpConnection] returns the socket of one of the
    resolved addresses, in the mode it had before (blocking), and has closed
    every other socket it opened; a failed one returns a negative number and
    has closed them all. *)
Theorem connection_socket_clean resolved :
  let '(fd, calls) := createTcpConnection resolved in
  (fd < 0 -> net_after (idle false) calls = Some (idle false)) /\
  (0 <= fd -> net_after (idle false) calls = Some (mkNetHeld false [fd] false None false) /\
    exists a, a ∈ default [] resolved /\ fd = ae_socket a /\ last_flags fd calls = Some (ae_getfl a)).
Proof.
  destruct (createTcpConnection_spec false resolved) as (_ & H).
  by destruct (createTcpConnection resolved).
Qed.

Lemma failing_loop bo fuel es last c h k :
  client_ok c h -> ssl_ c = None -> default_backoff (config_ c) ->
  reconnect_delay_ms_ c = backoff k -> Forall (fun e => connect_fails (le_connect e)) es ->
  exists c' calls, networkLoop bo fuel (map (pair true) es ++ [(false, last)]) c = Some (c', calls) /\
    slept calls = map backoff (List.seq k (length es)).
Proof.
  intros Hc Hssl Hdef Hk He. revert c h k Hc Hssl Hdef Hk.
  induction He as [|e es He _ IH]; intros c h k Hc Hssl Hdef Hk; cbn.
  { do 2 eexists. split; [done|]. unfold tlsDisconnect. rewrite Hssl. by case_match. }
  unfold client_ok in Hc. rewrite Hssl in Hc. destruct Hc as (Hst & _ & _).
  unfold network_body. rewrite decide_False by done.
  pose proof (tlsConnect_spec (le_connect e) (set_state Connecting c) Hssl ltac:(done)) as Hspec.
  specialize (He (set_state Connecting c)).
  destruct (tlsConnect _ _) as [[ok c1] calls1]. cbn in He. subst ok.
  destruct Hspec as (Hcalls & Hcfg & _ & _ & _ & h1 & _ & Hc1 & Hs1 & Hd1). cbn in Hcfg, Hd1.
  cbn. rewrite Hcfg, Hd1, Hk, next_delay_default by done. cbn.
  destruct (IH (set_delay (backoff (S k)) c1) h1 (S k)) as (c' & calls & -> & Hsl); cbn; [done | done | congruence | done |].
  do 2 eexists. split; [done|].
  pose proof (slept_sleep (backoff k)) as Hz. cbn [sleepMs fst snd] in Hz.
  by rewrite !slept_app, Hsl, (slept_connecting calls1 Hcalls), Hz.
Qed.

(** C34: with the default configuration, consecutive failed connection attempts
    are separated by sleeps of 1, 2, 4, 8, 16, 30, 30, ... seconds (the
    [n]-th is min(1000 * 2^n, 30000) ms, computed by the single-precision
    multiplication), and a successful connection starts the schedule again. *)
Theorem backoff_schedule bo fuel cfg b es last :
  default_backoff cfg -> Forall (fun e => connect_fails (le_connect e)) es ->
  (exists c calls,
    networkLoop bo fuel (map (pair true) es ++ [(false, last)]) (set_ctx b (TlsClient_new cfg)) = Some (c, calls) /\
    slept calls = map (fun n => Z.min (1000 * 2 ^ Z.of_nat n) 30000) (List.seq 0 (length es))) /\
  (forall e c c' calls, ssl_ c = None -> state_ c <> Connected -> config_ c = cfg ->
    tlsConnect e c = (true, c', calls) -> reconnect_delay_ms_ c' = 1000 /\ state_ c' = Connected).
Proof.
  intros Hdef He. split.
  - eapply (failing_loop bo fuel es last _ _ 0); [apply new_ok | done | done | apply Hdef | done].
  - intros e c c' calls Hssl Hst <- Hc. pose proof (tlsConnect_spec e c Hssl Hst) as H.
    rewrite Hc in H. destruct H as (_ & _ & _ & _ & _ & h & _ & Hok & Hk & Hd).
    unfold client_ok in Hok. rewrite Hk in Hok. split; [|apply Hok]. rewrite Hd. apply Hdef.
Qed.
End Client.

(** ** Concrete runs *)

Definition demo_config : TlsConfig :=
  mkTlsConfig (Some (chars "host")) 4433 None 5000 1000 30000 (f32_of_u32 2) 4 2 0.

Definition demo_conn : @conn scripted_ops :=
  mkScripted [Moves 9; Would SSL_ERROR_WANT_WRITE; Moves 30; Interrupted; Moves 1; Moves 0; Moves 4]
    [] [] SSL_ERROR_ZERO_RETURN 0.

Definition demo_packet : FramePacket := mkFramePacket 7 1000 (PixelFormat_value JPEG) 4 2 3 48 0.
Definition demo_data : list byte := chars "abc".

Definition refused_connect : @connect_env scripted_ops :=
  mkConnectEnv (Some [mkAddrEnv (-1) 0 0 0 0 0; mkAddrEnv 5 2 (-1) 111 0 0; mkAddrEnv 6 2 (-1) EINPROGRESS 1 111])
    (Some demo_conn) true true (1, demo_conn).
Definition good_connect : @connect_env scripted_ops :=
  mkConnectEnv (Some [mkAddrEnv 5 2 (-1) 111 0 0; mkAddrEnv 6 2 (-1) EINPROGRESS 1 0])
    (Some demo_conn) true true (1, demo_conn).

Definition refused_env : @loop_env scripted_ops := mkLoopEnv refused_connect None [].
Definition sending_env : @loop_env scripted_ops := mkLoopEnv good_connect (Some demo_packet) demo_data.

Lemma demo_packet_ok : packet_ok demo_packet demo_data.
Proof. split; [constructor; unfold in_width, f_len, MAX_FRAME_SIZE; cbn; lia | done]. Qed.

Lemma sending_env_ok : env_ok sending_env.
Proof. split; [split; [done | by intros k [= <-]] | intros p [= <-]; exact demo_packet_ok]. Qed.

Lemma refused_env_ok : env_ok refused_env.
Proof. split; [split; [done | by intros k [= <-]] | done]. Qed.

Lemma refused_fails : connect_fails refused_connect.
Proof. by intros c. Qed.

(** A refused attempt, a connection that carries one frame and fails within the
    second, and a third frame on a new connection. *)
Definition demo_envs : list (bool * @loop_env scripted_ops) :=
  [(true, refused_env); (true, sending_env); (true, sending_env); (true, sending_env)].

Lemma demo_envs_ok : Forall (fun e => env_ok e.2) demo_envs.
Proof.
  repeat (apply Forall_cons_2; [first [exact refused_env_ok | exact sending_env_ok]|]). constructor.
Qed.

Lemma demo_default : default_backoff demo_config.
Proof. done. Qed.

Example client_lifecycle_witness :
  exists c2 calls2,
    converges (fun n => networkLoop ORDER_LITTLE_ENDIAN n (demo_envs ++ [(false, refused_env)])
      (set_ctx true (TlsClient_new demo_config))) (c2, calls2) /\
    net_after (idle false) (CtxNew :: calls2 ++ TlsClient_delete c2) = Some (idle false).
Proof.
  pose proof (client_lifecycle ORDER_LITTLE_ENDIAN demo_config (mkCtxEnv true true) demo_envs
    refused_env demo_default demo_envs_ok refused_env_ok) as H.
  destruct H as (c2 & calls2 & H1 & H2 & _). by exists c2, calls2.
Defined.

Example session_streams_witness :
  exists c calls, networkLoop ORDER_LITTLE_ENDIAN 10 (demo_envs ++ [(false, refused_env)])
      (set_ctx true (TlsClient_new demo_config)) = Some (c, calls) /\
    length (sessions calls) = 2%nat /\ Forall session_good (sessions calls).
Proof.
  assert (Forall (fun e => env_ok e.2) (demo_envs ++ [(false, refused_env)])) as He
    by (apply Forall_app_2; [apply demo_envs_ok | apply Forall_cons_2; [exact refused_env_ok | constructor]]).
  do 2 eexists. split; [vm_compute; reflexivity|]. split; [vm_compute; reflexivity|].
  eapply (session_streams ORDER_LITTLE_ENDIAN 10 demo_config true); [exact He | vm_compute; reflexivity].
Defined.

Definition demo_client : @TlsClient scripted_ops :=
  set_conn (Some demo_conn) 6 Connected (TlsClient_new demo_config).

Example send_packet_outcome_witness :
  exists k' c' calls, converges (fun n => send_packet ORDER_BIG_ENDIAN n sending_env demo_client)
    (c', PopPacket demo_packet demo_data :: calls) /\
    exists m, sent k' = take m (wire_frame (shown_frame demo_packet demo_data)).
Proof.
  destruct (send_packet_outcome ORDER_BIG_ENDIAN sending_env demo_client demo_packet demo_conn
    eq_refl demo_packet_ok eq_refl) as (k' & c' & calls & H & [(Hs & _)|(m & Hs & _)]);
    exists k', c', calls; (split; [exact H|]).
  - exists 39%nat. exact Hs.
  - by exists m.
Defined.

Example write_all_correct_witness :
  exists ok k', converges (fun n => sslWriteAll n demo_conn demo_data 3) (ok, k') /\
    exists m, sent k' = take m demo_data.
Proof.
  destruct (write_all_correct (demo_conn : @conn scripted_ops) demo_data) as (ok & k' & H & _ & m & Hs & _); [cbn; lia|].
  exists ok, k'. split; [exact H|]. by exists m.
Defined.

Example backoff_schedule_witness :
  exists c calls,
    networkLoop ORDER_LITTLE_ENDIAN 0 (map (pair true) (replicate 7 refused_env) ++ [(false, refused_env)])
      (set_ctx true (TlsClient_new demo_config)) = Some (c, calls) /\
    slept calls = [1000; 2000; 4000; 8000; 16000; 30000; 30000].
Proof.
  apply (backoff_schedule ORDER_LITTLE_ENDIAN 0 demo_config true (replicate 7 refused_env) refused_env).
  - exact demo_default.
  - repeat constructor; exact refused_fails.
Defined.

Example connection_socket_clean_witness :
  net_after (Ops := scripted_ops) (idle false) (createTcpConnection (ce_resolved good_connect)).2
    = Some (mkNetHeld false [6] false None false).
Proof.
  destruct (connection_socket_clean (Ops := scripted_ops) (ce_resolved good_connect)) as [_ H].
  apply H. vm_compute. discriminate.
Defined.
