(* ===== verification/TlsSteps.v ===== *)
(** * The network thread's functions cut into resumable pieces

    Lemmas that say how the results of [sslWriteAll], [send_packet],
    [network_body] and [networkLoop] are put together from single SSL_write
    calls and iterations: what Process needs to show that its steps are these
    functions. *)

From S2P Require Import Prelude Bytes Protocol RingQueue RingRefine Transport TlsClient TlsProps.

Lemma converges_shift {A} (f g : nat -> option A) r :
  (forall m, g (S m) = f m) -> converges f r -> converges g r.
Proof. intros E [n Hn]. exists (S n). intros [|m] Hm; [lia|]. rewrite E. apply Hn. lia. Qed.

Lemma converges_ext {A} (f g : nat -> option A) r :
  (forall m, f m = g m) -> converges f r -> converges g r.
Proof. intros E [n Hn]. exists n. intros m Hm. by rewrite <- E, Hn. Qed.

Section Write.
Context {Ops : SslOps} {Laws : SslLaws Ops}.

(** A call of [sslWriteAll] that has got to [data], [remaining] on connection
    [k] is the call that began with [data0], [remaining0] on [k0]. *)
Definition resumes (k0 : conn) (data0 : list byte) (remaining0 : Z) (k : conn) (data : list byte)
    (remaining : Z) : Prop :=
  Z.of_nat (length data) = remaining /\ remaining < 2 ^ 31 /\
  forall r, converges (fun n => sslWriteAll n k data remaining) r ->
    converges (fun n => sslWriteAll n k0 data0 remaining0) r.

Lemma resumes_start k data remaining :
  Z.of_nat (length data) = remaining -> remaining < 2 ^ 31 -> resumes k data remaining k data remaining.
Proof. intros. unfold resumes. by split_and!. Qed.

Lemma resumes_done k0 data0 n0 k data : resumes k0 data0 n0 k data 0 ->
  converges (fun n => sslWriteAll n k0 data0 n0) (true, k).
Proof. intros (_ & _ & H). apply H. exists 0%nat. by intros [|n] _. Qed.

Section Call.
Context (k0 : conn) (data0 : list byte) (n0 : Z) (k k' : conn) (data : list byte) (n w : Z).
Context (Hres : resumes k0 data0 n0 k data n) (Hn : n <> 0).
Context (Hcall : SSL_write k data (i32_num n) = (w, k')).

Lemma call_size : i32_num n = n.
Proof. destruct Hres as (? & ? & _). apply i32_id. lia. Qed.

Lemma resumes_retry : w <= 0 -> retries k' w = true -> resumes k0 data0 n0 k' data n.
Proof.
  intros Hw Hr. pose proof Hres as (H1 & H2 & H3). split_and!; [done..|]. intros r Hc. apply H3.
  eapply converges_shift, Hc. intros m. rewrite sslWriteAll_S, (proj2 (Z.eqb_neq _ _) Hn), Hcall.
  by rewrite (proj2 (Z.leb_le _ _) Hw), Hr.
Qed.

Lemma resumes_fail : w <= 0 -> retries k' w = false ->
  converges (fun m => sslWriteAll m k0 data0 n0) (false, k').
Proof.
  intros Hw Hr. pose proof Hres as (H1 & H2 & H3). apply H3. exists 1%nat. intros [|m] Hm; [lia|].
  rewrite sslWriteAll_S, (proj2 (Z.eqb_neq _ _) Hn), Hcall. by rewrite (proj2 (Z.leb_le _ _) Hw), Hr.
Qed.

Lemma resumes_advance : 0 < w ->
  w <= n /\ resumes k0 data0 n0 k' (drop (Z.to_nat w) data) (u64 (n - w)).
Proof.
  intros Hw. pose proof Hres as (H1 & H2 & H3). pose proof Hcall as E. rewrite call_size in E.
  destruct (SSL_write_some _ _ _ _ _ E Hw) as (Hle & _). split; [done|].
  rewrite u64_id by lia. split_and!; [rewrite length_drop; lia | lia |].
  intros r Hc. apply H3. eapply converges_shift, Hc. intros m.
  rewrite sslWriteAll_S, (proj2 (Z.eqb_neq _ _) Hn), Hcall, (proj2 (Z.leb_gt _ _) Hw).
  by rewrite u64_id by lia.
Qed.
End Call.

(** ** One packet *)

Lemma packet_header_length bo p data :
  packet_ok p data -> Z.of_nat (length (packet_header bo p)) = FRAME_HEADER_SIZE.
Proof.
  intros [Hf _]. pose proof (fok_seq _ _ Hf). pose proof (fok_ts _ _ Hf).
  unfold packet_header. rewrite header_image_wire by done. by rewrite length_wire_header.
Qed.

Section Packet.
Context (bo : byte_order) (ce : connect_env) (p : FramePacket) (data : list byte) (c : TlsClient) (k0 : conn).
Context (Hk : ssl_ c = Some k0).
#[local] Abbreviation env := (mkLoopEnv ce (Some p) data).
#[local] Abbreviation header_sent r :=
  (converges (fun n => sslWriteAll n k0 (packet_header bo p) FRAME_HEADER_SIZE) r).

Lemma send_header_fails k :
  header_sent (false, k) ->
  converges (fun n => send_packet bo n env c)
    ((tlsDisconnect (set_ssl k c)).1,
     PopPacket p data :: FreePacket (pkt_slot_idx_ p) :: (tlsDisconnect (set_ssl k c)).2).
Proof.
  intros H. unfold send_packet. cbn [le_pop]. rewrite Hk. cbn [mbind option_bind].
  eapply converges_bind; [exact H|]. apply converges_const.
Qed.

Lemma send_payload_fails k1 k :
  header_sent (true, k1) -> converges (fun n => sslWriteAll n k1 data (pkt_len p)) (false, k) ->
  converges (fun n => send_packet bo n env c)
    ((tlsDisconnect (set_ssl k c)).1,
     PopPacket p data :: FreePacket (pkt_slot_idx_ p) :: (tlsDisconnect (set_ssl k c)).2).
Proof.
  intros H1 H2. unfold send_packet. cbn [le_pop]. rewrite Hk. cbn [mbind option_bind].
  eapply converges_bind; [exact H1|]. cbn [negb le_data].
  eapply converges_bind; [eapply converges_bind; [exact H2 | apply converges_const]|]. apply converges_const.
Qed.

Lemma send_succeeds k1 k :
  header_sent (true, k1) -> converges (fun n => sslWriteAll n k1 data (pkt_len p)) (true, k) ->
  converges (fun n => send_packet bo n env c)
    (count_sent (FRAME_HEADER_SIZE + pkt_len p) (set_ssl k c),
     [PopPacket p data; FreePacket (pkt_slot_idx_ p)]).
Proof.
  intros H1 H2. unfold send_packet. cbn [le_pop]. rewrite Hk. cbn [mbind option_bind].
  eapply converges_bind; [exact H1|]. cbn [negb le_data].
  eapply converges_bind; [eapply converges_bind; [exact H2 | apply converges_const]|]. apply converges_const.
Qed.
End Packet.

(** ** Iterations *)

(** Iterations that find [running] true. *)
Fixpoint network_iters (bo : byte_order) (fuel : nat) (envs : list loop_env) (c : TlsClient)
    : option (TlsClient * list net_call) :=
  match envs with
  | [] => Some (c, [])
  | e :: envs =>
      '(c, calls) ← network_body bo fuel e c;
      '(c, calls') ← network_iters bo fuel envs c;
      Some (c, calls ++ calls')
  end.

Lemma iters_snoc bo envs e c c1 l1 c2 l2 :
  converges (fun n => network_iters bo n envs c) (c1, l1) ->
  converges (fun n => network_body bo n e c1) (c2, l2) ->
  converges (fun n => network_iters bo n (envs ++ [e]) c) (c2, l1 ++ l2).
Proof.
  intros [n Hn] [m Hm]. exists (n `max` m)%nat. intros fuel Hf.
  specialize (Hn fuel ltac:(lia)). specialize (Hm fuel ltac:(lia)). revert c l1 Hn.
  induction envs as [|e' envs IH]; intros c l1 Hn; cbn in *.
  - injection Hn as <- <-. rewrite Hm. cbn. by rewrite app_nil_r.
  - destruct (network_body bo fuel e' c) as [[c' l']|]; [|done]. cbn in *.
    destruct (network_iters bo fuel envs c') as [[c'' l'']|] eqn:E; [|done]. injection Hn as -> <-.
    rewrite (IH c' l'' E). cbn. by rewrite app_assoc.
Qed.

(** The loop is iterations and the final disconnect. *)
Lemma iters_loop bo envs last c c1 l1 :
  converges (fun n => network_iters bo n envs c) (c1, l1) ->
  converges (fun n => networkLoop bo n (map (pair true) envs ++ [(false, last)]) c)
    ((tlsDisconnect c1).1, l1 ++ (tlsDisconnect c1).2).
Proof.
  intros [n Hn]. exists n. intros fuel Hf. specialize (Hn fuel Hf). revert c l1 Hn.
  induction envs as [|e envs IH]; intros c l1 Hn; cbn in *; [by injection Hn as <- <-|].
  destruct (network_body bo fuel e c) as [[c' l']|]; [|done]. cbn in *.
  destruct (network_iters bo fuel envs c') as [[c'' l'']|] eqn:E; [|done]. injection Hn as -> <-.
  rewrite (IH c' l'' E). cbn. by rewrite app_assoc.
Qed.

Lemma iters_inv bo fuel envs c c' calls h s :
  network_iters bo fuel envs c = Some (c', calls) -> Forall env_ok envs ->
  client_ok c h -> stream_inv c s ->
  (exists h', net_after h calls = Some h' /\ client_ok c' h') /\ stream_inv c' (foldl session_step s calls).
Proof.
  intros H Henvs. revert c h s calls H.
  induction Henvs as [|e envs He _ IH]; intros c h s calls H Hc Hs; cbn in H.
  { injection H as <- <-. split; [by exists h | done]. }
  destruct (network_body bo fuel e c) as [[c1 calls1]|] eqn:E1; [|done]. cbn in H.
  destruct (network_iters bo fuel envs c1) as [[c2 calls2]|] eqn:E2; [|done]. injection H as -> <-.
  edestruct network_body_inv as (_ & (h1 & H1 & H2) & H3); [done..|].
  destruct (IH _ _ _ _ E2 H2 H3) as ((h2 & H4 & H5) & H6). rewrite foldl_app.
  split; [|done]. exists h2. split; [by eapply net_after_trans | done].
Qed.

(** An iteration that has got past the connection attempt [ce], with the calls
    [l2], and stands at the call of [pop] with client [c2]. *)
Definition connected_as (bo : byte_order) (ce : connect_env) (c1 c2 : TlsClient) (l2 : list net_call) : Prop :=
  forall pop data r, converges (fun n => send_packet bo n (mkLoopEnv ce pop data) c2) r ->
    converges (fun n => network_body bo n (mkLoopEnv ce pop data) c1) (r.1, l2 ++ r.2).

Lemma connected_already bo ce c : state_ c = Connected -> connected_as bo ce c c [].
Proof.
  intros Hst pop data [c' l'] H. eapply converges_ext, H. intros m. unfold network_body.
  by rewrite decide_True.
Qed.

Lemma connected_now bo ce c1 c2 l2 :
  state_ c1 <> Connected -> tlsConnect ce (set_state Connecting c1) = (true, c2, l2) ->
  connected_as bo ce c1 c2 l2.
Proof.
  intros Hst Hc pop data [c' l'] [n Hn]. exists n. intros fuel Hf. unfold network_body.
  rewrite decide_False by done. cbn [le_connect]. rewrite Hc. cbn [negb]. by rewrite Hn.
Qed.

(** An iteration whose connection attempt fails. *)
Lemma refused_body bo ce pop data c1 c2 l2 d :
  state_ c1 <> Connected -> tlsConnect ce (set_state Connecting c1) = (false, c2, l2) ->
  next_delay (config_ c2) (reconnect_delay_ms_ c2) = Some d ->
  converges (fun n => network_body bo n (mkLoopEnv ce pop data) c1)
    (set_delay d c2, l2 ++ [Sleep (sleepMs (reconnect_delay_ms_ c2)).1 (sleepMs (reconnect_delay_ms_ c2)).2]).
Proof.
  intros Hst Hc Hd. exists 0%nat. intros fuel _. unfold network_body.
  rewrite decide_False by done. cbn [le_connect]. rewrite Hc. cbn [negb]. by rewrite Hd.
Qed.
End Write.
