(* ===== verification/Files.v ===== *)
(** * The file system as the server sees it

    [FsOps] lists the calls [saveFrame] makes, [FsLaws] what POSIX says about
    them for files that are not links to one another, [FsProgress] that
    interrupted and empty writes do not go on for ever. A store with scripted
    write results instantiates the interface for the witnesses. *)

From S2P Require Import Prelude Text Transport.
From Stdlib Require Import Strings.Byte.

Class FsOps := {
  fs : Type;
  (** open(path, O_WRONLY | O_CREAT | O_TRUNC, 0644) *)
  fs_open : fs -> list byte -> Z * fs;
  (** write(fd, buf, length buf) *)
  fs_write : fs -> Z -> list byte -> Z * fs;
  fs_close : fs -> Z -> fs;
  (** [errno] after the last call *)
  fs_errno : fs -> Z
}.

Class FsLaws (O : FsOps) := {
  (** Contents of the file with a given path; path of an open descriptor. *)
  file : fs -> list byte -> option (list byte);
  opened : fs -> Z -> option (list byte);
  open_some s name fd s' :
    fs_open s name = (fd, s') -> 0 <= fd ->
    opened s fd = None /\ file s' name = Some [] /\ (forall n, n <> name -> file s' n = file s n) /\
    forall d, opened s' d = if decide (d = fd) then Some name else opened s d;
  open_none s name fd s' :
    fs_open s name = (fd, s') -> fd < 0 ->
    (forall n, file s' n = file s n) /\ forall d, opened s' d = opened s d;
  write_some s fd data n s' name old :
    fs_write s fd data = (n, s') -> opened s fd = Some name -> file s name = Some old ->
    n <= Z.of_nat (length data) /\ file s' name = Some (old ++ take (Z.to_nat n) data) /\
    (forall m, m <> name -> file s' m = file s m) /\ forall d, opened s' d = opened s d;
  close_spec s fd :
    (forall n, file (fs_close s fd) n = file s n) /\
    forall d, opened (fs_close s fd) d = if decide (d = fd) then None else opened s d
}.

Class FsProgress (O : FsOps) := {
  fs_patience : fs -> nat;
  write_again s fd data n s' :
    fs_write s fd data = (n, s') -> data <> [] -> (n = 0 \/ n < 0 /\ fs_errno s' = EINTR) ->
    (fs_patience s' < fs_patience s)%nat
}.

(** ** A scripted store *)

#[export] Instance byte_countable : Countable byte :=
  inj_countable Byte.to_N Byte.of_N Byte.of_to_N.

Inductive write_outcome :=
  | Takes (n : nat)     (** writes at most [n] bytes *)
  | Intr                (** -1, EINTR *)
  | NoSpace.            (** -1, ENOSPC *)

Record store := mkStore {
  st_files : gmap (list byte) (list byte);
  st_fds : gmap Z (list byte);
  st_next : Z;                       (** the next descriptor; negative: open fails *)
  st_script : list write_outcome;    (** then writes are complete *)
  st_errno : Z
}.

Definition store_open (s : store) (name : list byte) : Z * store :=
  if decide (0 <= st_next s /\ st_fds s !! st_next s = None) then
    (st_next s, mkStore (<[name := []]> (st_files s)) (<[st_next s := name]> (st_fds s))
                  (st_next s) (st_script s) 0)
  else (-1, mkStore (st_files s) (st_fds s) (st_next s) (st_script s) 24).

Definition store_append (s : store) (fd : Z) (data : list byte) : store :=
  mkStore (match st_fds s !! fd with
           | Some name => alter (fun old => old ++ data) name (st_files s)
           | None => st_files s
           end) (st_fds s) (st_next s) (tail (st_script s)) 0.

Definition store_fail (s : store) (e : Z) : Z * store :=
  (-1, mkStore (st_files s) (st_fds s) (st_next s) (tail (st_script s)) e).

Definition store_write (s : store) (fd : Z) (data : list byte) : Z * store :=
  match st_script s with
  | [] => (Z.of_nat (length data), store_append s fd data)
  | Takes n :: _ => let d := take n data in (Z.of_nat (length d), store_append s fd d)
  | Intr :: _ => store_fail s EINTR
  | NoSpace :: _ => store_fail s 28
  end.

Definition store_close (s : store) (fd : Z) : store :=
  mkStore (st_files s) (delete fd (st_fds s)) (st_next s) (st_script s) 0.

#[export] Instance store_ops : FsOps := {
  fs := store;
  fs_open := store_open;
  fs_write := store_write;
  fs_close := store_close;
  fs_errno := st_errno
}.

Lemma store_append_spec s fd data name old :
  st_fds s !! fd = Some name -> st_files s !! name = Some old ->
  st_files (store_append s fd data) !! name = Some (old ++ data) /\
  forall m, m <> name -> st_files (store_append s fd data) !! m = st_files s !! m.
Proof.
  intros Hfd Hold. unfold store_append. rewrite Hfd. cbn. split.
  - by rewrite lookup_alter_eq, Hold.
  - intros m Hm. by rewrite lookup_alter_ne.
Qed.

#[export] Program Instance store_laws : FsLaws store_ops := {
  file s name := st_files s !! name;
  opened s fd := st_fds s !! fd
}.
Next Obligation.
  intros s name fd s'. cbn. unfold store_open. case_decide as Hd; intros [= <- <-] ?; [|lia].
  cbn. destruct Hd as [_ Hd]. split_and!; [done | by rewrite lookup_insert_eq | |].
  - intros n Hn. by rewrite lookup_insert_ne.
  - intros d. case_decide; [subst; by rewrite lookup_insert_eq | by rewrite lookup_insert_ne].
Qed.
Next Obligation.
  intros s name fd s'. cbn. unfold store_open. case_decide as Hd; intros [= <- <-] ?; [lia | done].
Qed.
Next Obligation.
  intros s fd data n s' name old. cbn. unfold store_write, store_fail.
  destruct (st_script s) as [|[k| |] rest]; intros [= <- <-] Hfd Hold.
  - destruct (store_append_spec s fd data name old Hfd Hold) as [H1 H2].
    split_and!; [lia | rewrite Nat2Z.id, take_ge by lia; done | done | done].
  - destruct (store_append_spec s fd (take k data) name old Hfd Hold) as [H1 H2].
    split_and!; [rewrite length_take; lia | | done | done].
    rewrite Nat2Z.id, length_take. destruct (decide (k <= length data)%nat).
    + by rewrite Nat.min_l by lia.
    + rewrite Nat.min_r, (take_ge data (length data)) by lia. rewrite H1. by rewrite take_ge by lia.
  - split_and!; [lia | cbn; by rewrite app_nil_r | done | done].
  - split_and!; [lia | cbn; by rewrite app_nil_r | done | done].
Qed.
Next Obligation.
  intros s fd. cbn. split; [done|]. intros d.
  case_decide; [subst; by rewrite lookup_delete_eq | by rewrite lookup_delete_ne].
Qed.

#[export] Program Instance store_progress : FsProgress store_ops := {
  fs_patience s := length (st_script s)
}.
Next Obligation.
  intros s fd data n s'. cbn. unfold store_write, store_fail.
  destruct (st_script s) as [|[k| |] rest] eqn:E; intros [= <- <-] Hne Hcase; cbn; rewrite ?E; cbn; try lia.
  destruct data; [done | cbn in *; lia].
Qed.
