(* ===== verification/Server.v ===== *)
(** * The frame server (server/server.cpp)

    The server's own copy of the protocol, [sslReadAll], [saveFrame] and
    [handleClient]. The names of protocol.hpp that server.cpp declares again
    are declared again here. *)

From S2P Require Import Prelude Bytes Text Transport Files.

(** ** Protocol definitions *)

Definition PROTO_MAGIC : list byte := chars "FRAM".
Definition PROTO_MAGIC_LEN : Z := 4.
Definition PROTO_VERSION : Z := 1.

Record FrameHeader := mkFrameHeader {
  magic : list byte;
  version : Z;
  header_len : Z;
  seq : Z;
  timestamp_ns : Z;
  payload_len : Z;
  pixel_format : Z;
  width : Z;
  height : Z
}.

(** The members of the packed header object whose bytes are [bs]. *)
Definition FrameHeader_of (bo : byte_order) (bs : list byte) : FrameHeader :=
  {| magic := take 4 bs;
     version := of_mem bo (take 2 (drop 4 bs));
     header_len := of_mem bo (take 2 (drop 6 bs));
     seq := of_mem bo (take 8 (drop 8 bs));
     timestamp_ns := of_mem bo (take 8 (drop 16 bs));
     payload_len := of_mem bo (take 4 (drop 24 bs));
     pixel_format := of_mem bo (take 4 (drop 28 bs));
     width := of_mem bo (take 2 (drop 32 bs));
     height := of_mem bo (take 2 (drop 34 bs)) |}.

Definition FRAME_HEADER_SIZE : Z := PROTO_MAGIC_LEN + 2 + 2 + 8 + 8 + 4 + 4 + 2 + 2.

Definition ntohll (bo : byte_order) (val : Z) : Z :=
  match bo with
  | ORDER_LITTLE_ENDIAN =>
      Z.lor (u64 (Z.shiftl (ntohl bo (u32 (Z.land val 0xFFFFFFFF))) 32))
            (ntohl bo (u32 (Z.shiftr val 32)))
  | ORDER_BIG_ENDIAN => val
  end.

(** ** Configuration and statistics *)

Record Config := mkConfig {
  port : Z;
  cert_file : list byte;
  key_file : list byte;
  output_dir : list byte;
  save_frames : bool;
  verbose : bool
}.

Definition Config_default : Config := mkConfig 4433 [] [] [] false false.

Record Stats := mkStats {
  frames_received : Z;
  bytes_received : Z;
  frames_saved : Z
}.

(** std::string(buf): up to the first NUL of the five characters. *)
Definition fourccToString (fourcc : Z) : list byte :=
  c_string
    [ byte.of_Z (Z.land (Z.shiftr fourcc 0) 0xFF);
      byte.of_Z (Z.land (Z.shiftr fourcc 8) 0xFF);
      byte.of_Z (Z.land (Z.shiftr fourcc 16) 0xFF);
      byte.of_Z (Z.land (Z.shiftr fourcc 24) 0xFF);
      byte.of_Z 0 ].

(** ** Reading *)

Section Reading.
Context {Ops : SslOps}.

(** The result, the bytes stored at [buf], the connection; [None] when [fuel]
    calls were not enough. *)
Fixpoint sslReadAll (fuel : nat) (ssl : conn) (remaining : Z) : option (bool * list byte * conn) :=
  if remaining =? 0 then Some (true, [], ssl)
  else match fuel with
  | O => None
  | S fuel =>
      let '(n, bs, ssl) := SSL_read ssl (i32 remaining) in
      if n <=? 0 then
        let err := SSL_get_error ssl n in
        if decide (err = SSL_ERROR_WANT_READ \/ err = SSL_ERROR_WANT_WRITE) then sslReadAll fuel ssl remaining
        else if decide (err = SSL_ERROR_ZERO_RETURN) then Some (false, [], ssl)
        else if decide (err = SSL_ERROR_SYSCALL /\ conn_errno ssl = EINTR) then sslReadAll fuel ssl remaining
        else Some (false, [], ssl)
      else
        '(ok, rest, ssl) ← sslReadAll fuel ssl (u64 (remaining - n));
        Some (ok, bs ++ rest, ssl)
  end.
End Reading.

(** ** Saving a frame *)

Definition frame_ext (fourcc : list byte) : list byte :=
  if decide (fourcc = chars "MJPG") then chars "jpg"
  else if decide (fourcc = chars "YUYV") then chars "yuyv"
  else if decide (fourcc = chars "BGR3") then chars "bgr"
  else chars "raw".

(** snprintf into [filename[512]]. *)
Definition frame_filename (bo : byte_order) (cfg : Config) (hdr : FrameHeader) : list byte :=
  take 511 (c_string (output_dir cfg) ++ chars "/frame_" ++
            pad_zero 8 (decimal (ntohll bo (seq hdr))) ++ chars "." ++
            frame_ext (fourccToString (ntohl bo (pixel_format hdr)))).

Section Saving.
Context {Fs : FsOps}.

(** The write loop; false when a write failed. *)
Fixpoint write_loop (fuel : nat) (s : fs) (fd : Z) (ptr : list byte) (remaining : Z) : option (bool * fs) :=
  if remaining <=? 0 then Some (true, s)
  else match fuel with
  | O => None
  | S fuel =>
      let '(n, s) := fs_write s fd (take (Z.to_nat remaining) ptr) in
      if n <? 0 then
        if fs_errno s =? EINTR then write_loop fuel s fd ptr remaining else Some (false, s)
      else write_loop fuel s fd (drop (Z.to_nat n) ptr) (remaining - n)
  end.

Definition saveFrame (bo : byte_order) (fuel : nat) (cfg : Config) (hdr : FrameHeader)
    (data : list byte) (len : Z) (s : fs) : option (bool * fs) :=
  let '(fd, s) := fs_open s (frame_filename bo cfg hdr) in
  if fd <? 0 then Some (false, s)
  else
    '(ok, s) ← write_loop fuel s fd data len;
    Some (ok, fs_close s fd).
End Saving.

(** ** One client *)

(** Why the loop was left. *)
Inductive loop_exit :=
  | Stopped               (** [g_running] was false *)
  | NoHeader              (** [sslReadAll] failed on a header *)
  | InvalidMagic
  | UnsupportedVersion
  | PayloadTooLarge
  | NoPayload.            (** [sslReadAll] failed on a payload *)

(** The header fields that [handleClient] computes, with the payload. *)
Record received := mkReceived {
  rx_seq : Z;
  rx_ts : Z;
  rx_width : Z;
  rx_height : Z;
  rx_fourcc : list byte;
  rx_payload : list byte
}.

Definition PAYLOAD_MAX : Z := 16 * 1024 * 1024.

Section Handling.
Context {Ops : SslOps} {Fs : FsOps}.

Record client_state := mkClientState {
  cs_ssl : conn;
  cs_fs : fs;
  cs_stats : Stats;
  cs_buf : list byte;        (** [frame_buf] *)
  cs_frames : Z              (** [client_frames] *)
}.

(** [frame_buf.resize]: new elements are zero. *)
Definition grow (buf : list byte) (len : Z) : list byte :=
  if Z.of_nat (length buf) <? len then buf ++ replicate (Z.to_nat len - length buf) (byte.of_Z 0) else buf.

(** Bytes stored from the start of the buffer; [None] beyond its end. *)
Definition fill (buf bs : list byte) : option (list byte) :=
  if decide (length bs <= length buf)%nat then Some (bs ++ drop (length bs) buf) else None.

Definition count_received (payload_len : Z) (s : Stats) : Stats :=
  mkStats (u64 (frames_received s + 1)) (u64 (bytes_received s + (FRAME_HEADER_SIZE + payload_len)))
    (frames_saved s).
Definition count_saved (s : Stats) : Stats :=
  mkStats (frames_received s) (bytes_received s) (u64 (frames_saved s + 1)).

(** The end of an iteration, after a complete frame. *)
Definition finish_frame (bo : byte_order) (fuel : nat) (cfg : Config) (hdr : FrameHeader)
    (payload_len : Z) (ssl : conn) (buf : list byte) (st : client_state)
    : option (received * client_state) :=
  let stats := count_received payload_len (cs_stats st) in
  let frames := u64 (cs_frames st + 1) in
  let rx := mkReceived (ntohll bo (seq hdr)) (ntohll bo (timestamp_ns hdr)) (ntohs bo (width hdr))
              (ntohs bo (height hdr)) (fourccToString (ntohl bo (pixel_format hdr)))
              (take (Z.to_nat payload_len) buf) in
  if save_frames cfg then
    '(ok, s) ← saveFrame bo fuel cfg hdr buf payload_len (cs_fs st);
    Some (rx, mkClientState ssl s (if (ok : bool) then count_saved stats else stats) buf frames)
  else Some (rx, mkClientState ssl (cs_fs st) stats buf frames).

(** The checks of a header: the payload length, or the reason to leave. *)
Definition check_header (bo : byte_order) (hdr : FrameHeader) : loop_exit + Z :=
  if negb (bool_decide (take (Z.to_nat PROTO_MAGIC_LEN) (magic hdr) = PROTO_MAGIC)) then inl InvalidMagic
  else if negb (ntohs bo (version hdr) =? PROTO_VERSION) then inl UnsupportedVersion
  else
    let payload_len := ntohl bo (payload_len hdr) in
    if PAYLOAD_MAX <? payload_len then inl PayloadTooLarge else inr payload_len.

(** One iteration of the loop: a frame, or the reason to leave it. *)
Definition handle_body (bo : byte_order) (fuel : nat) (cfg : Config) (st : client_state)
    : option ((loop_exit + received) * client_state) :=
  '(ok, bytes, ssl) ← sslReadAll fuel (cs_ssl st) FRAME_HEADER_SIZE;
  let stop reason ssl buf :=
    Some (inl reason, mkClientState ssl (cs_fs st) (cs_stats st) buf (cs_frames st)) in
  if negb (ok : bool) then stop NoHeader ssl (cs_buf st)
  else
    let hdr := FrameHeader_of bo bytes in
    match check_header bo hdr with
    | inl reason => stop reason ssl (cs_buf st)
    | inr payload_len =>
        let buf := grow (cs_buf st) payload_len in
        '(ok, bytes, ssl) ← sslReadAll fuel ssl payload_len;
        buf ← fill buf bytes;
        if negb (ok : bool) then stop NoPayload ssl buf
        else
          '(rx, st) ← finish_frame bo fuel cfg hdr payload_len ssl buf st;
          Some (inr rx, st)
    end.

(** [runs] are the values of [g_running] at the loop head. The frames in order
    of arrival, the reason the loop ended, the state after it. *)
Fixpoint handle_loop (bo : byte_order) (fuel : nat) (cfg : Config) (runs : list bool)
    (st : client_state) : option (list received * loop_exit * client_state) :=
  match runs with
  | [] => None
  | running :: runs =>
      if negb running then Some ([], Stopped, st)
      else
        '(r, st) ← handle_body bo fuel cfg st;
        match r with
        | inl reason => Some ([], reason, st)
        | inr rx => '(rxs, reason, st) ← handle_loop bo fuel cfg runs st; Some (rx :: rxs, reason, st)
        end
  end.

(** The buffer is zeroed on every way out. *)
Definition handleClient (bo : byte_order) (fuel : nat) (cfg : Config) (runs : list bool)
    (ssl : conn) (s : fs) (stats : Stats) : option (list received * loop_exit * client_state) :=
  '(rxs, reason, st) ← handle_loop bo fuel cfg runs (mkClientState ssl s stats [] 0);
  Some (rxs, reason, mkClientState (cs_ssl st) (cs_fs st) (cs_stats st)
                       (replicate (length (cs_buf st)) (byte.of_Z 0)) (cs_frames st)).
End Handling.
