(* ===== verification/ServerProps.v ===== *)
(** * The server as a parser of its byte stream

    [parse] is the reference: what a stream of bytes means, independent of the
    host, of the sizes in which SSL_read delivers it and of retries. The lemmas
    relate [sslReadAll] and [handleClient] to it, and [saveFrame] to the file it
    leaves. *)

From S2P Require Import Prelude Bytes Text Transport Files Server.
From coqutil Require Import Word.LittleEndianList.

(** ** Reference parser *)

(** The [n]-byte big-endian field at offset [off]. *)
Definition field (off n : nat) (s : list byte) : Z := be_combine (take n (drop off s)).

Definition frame_of (s : list byte) : received :=
  mkReceived (field 8 8 s) (field 16 8 s) (field 32 2 s) (field 34 2 s)
    (fourccToString (field 28 4 s)) (take (Z.to_nat (field 24 4 s)) (drop 36 s)).

(** At most [n] frames from the head of [s], and what ends them. *)
Fixpoint parse (n : nat) (s : list byte) : list received * loop_exit :=
  match n with
  | O => ([], Stopped)
  | S n =>
      if decide (length s < 36)%nat then ([], NoHeader)
      else if decide (take 4 s <> chars "FRAM") then ([], InvalidMagic)
      else if decide (field 4 2 s <> 1) then ([], UnsupportedVersion)
      else
        let len := field 24 4 s in
        if decide (16777216 < len) then ([], PayloadTooLarge)
        else if decide (Z.of_nat (length s) < 36 + len) then ([], NoPayload)
        else let r := parse n (drop (36 + Z.to_nat len) s) in (frame_of s :: r.1, r.2)
  end.

(** Two streams that agree on a whole frame parse it alike. *)
Lemma field_app off n s t : (off + n <= length s)%nat -> field off n (s ++ t) = field off n s.
Proof.
  intros. unfold field. rewrite drop_app_le by lia. by rewrite take_app_le by (rewrite length_drop; lia).
Qed.

Lemma field_nonneg off n s : 0 <= field off n s.
Proof. unfold field, be_combine. apply le_combine_bound. Qed.

Lemma length_frame_payload s :
  36 + field 24 4 s <= Z.of_nat (length s) -> Z.of_nat (length (rx_payload (frame_of s))) = field 24 4 s.
Proof. intros. cbn. pose proof (field_nonneg 24 4 s). rewrite length_take, length_drop. lia. Qed.

(** ** Header decoding *)

Lemma ntohll_ntoh bo val : in_width 64 val -> ntohll bo val = ntoh bo 8 val.
Proof.
  intros Hv. destruct bo; [|symmetry; by apply be_combine_split_id].
  rewrite ntoh_is_hton by exact Hv. unfold ntohll, ntohl.
  rewrite !ntoh_is_hton by (unfold nbits; apply u32_range). by apply hton_halves.
Qed.

(** A header object read from the stream shows the stream's fields. *)
Lemma header_fields bo bs : length bs = 36%nat ->
  let hdr := FrameHeader_of bo bs in
  magic hdr = take 4 bs /\ ntohs bo (version hdr) = field 4 2 bs /\
  ntohll bo (seq hdr) = field 8 8 bs /\ ntohll bo (timestamp_ns hdr) = field 16 8 bs /\
  ntohl bo (payload_len hdr) = field 24 4 bs /\ ntohl bo (pixel_format hdr) = field 28 4 bs /\
  ntohs bo (width hdr) = field 32 2 bs /\ ntohs bo (height hdr) = field 34 2 bs.
Proof.
  intros Hl. assert (forall off n, (off + n <= 36)%nat -> length (take n (drop off bs)) = n) as Hf
    by (intros; rewrite length_take, length_drop; lia).
  assert (forall off, (off + 8 <= 36)%nat -> ntohll bo (of_mem bo (take 8 (drop off bs))) = field off 8 bs) as Hll.
  { intros off Hoff. rewrite ntohll_ntoh; [apply ntoh_of_mem, Hf; lia|].
    pose proof (of_mem_range bo (take 8 (drop off bs))) as Hr. by rewrite Hf in Hr by lia. }
  cbn. unfold ntohs, ntohl, field. split_and!; [done | ..]; first [apply ntoh_of_mem, Hf; lia | apply Hll; lia].
Qed.

(** ** Reading *)

Section Reading.
Context {Ops : SslOps} {Laws : SslLaws Ops} {Prog : SslProgress Ops}.

Lemma sslReadAll_S fuel c remaining :
  sslReadAll (S fuel) c remaining =
    if remaining =? 0 then Some (true, [], c)
    else let '(n, bs, c1) := SSL_read c (i32 remaining) in
      if n <=? 0 then if retries c1 n then sslReadAll fuel c1 remaining else Some (false, [], c1)
      else '(ok, rest, c2) ← sslReadAll fuel c1 (u64 (remaining - n)); Some (ok, bs ++ rest, c2).
Proof.
  cbn [sslReadAll]. destruct (remaining =? 0); [done|].
  destruct (SSL_read _ _) as [[n bs] c1]. destruct (n <=? 0); [|done].
  unfold retries. destruct (SSL_get_error c1 n); cbn; repeat case_decide; try done; try (exfalso; intuition congruence);
    destruct (Z.eqb_spec (conn_errno c1) EINTR); (done || exfalso; intuition congruence).
Qed.

Lemma sslReadAll_mono fuel fuel' c remaining r :
  sslReadAll fuel c remaining = Some r -> (fuel <= fuel')%nat -> sslReadAll fuel' c remaining = Some r.
Proof.
  revert fuel' c remaining r. induction fuel as [|fuel IH]; intros fuel' c remaining r H Hle.
  { cbn in H. destruct fuel'; cbn; by destruct (remaining =? 0). }
  destruct fuel' as [|fuel']; [lia|]. rewrite sslReadAll_S in *.
  destruct (remaining =? 0); [done|]. destruct (SSL_read _ _) as [[n bs] c1].
  destruct (n <=? 0); [destruct (retries c1 n); [eapply IH; [done | lia] | done]|].
  destruct (sslReadAll fuel c1 _) as [r1|] eqn:E; [|done]. cbn in H.
  by rewrite (IH fuel' c1 _ r1 E ltac:(lia)).
Qed.

(** What was stored is what came next in the stream; true means all of it. *)
Lemma sslReadAll_correct fuel c remaining ok bs c' :
  0 <= remaining < 2 ^ 31 -> sslReadAll fuel c remaining = Some (ok, bs, c') ->
  incoming c = bs ++ incoming c' /\ sent c' = sent c /\ Z.of_nat (length bs) <= remaining /\
  (ok = true <-> Z.of_nat (length bs) = remaining).
Proof.
  revert c remaining ok bs. induction fuel as [|fuel IH]; intros c remaining ok bs Hr H.
  { cbn in H. destruct (Z.eqb_spec remaining 0); [|done]. injection H as <- <- <-.
    split_and!; [done..|cbn; lia|by cbn]. }
  rewrite sslReadAll_S in H. destruct (Z.eqb_spec remaining 0) as [|Hne].
  { injection H as <- <- <-. split_and!; [done..|cbn; lia|by cbn]. }
  rewrite i32_id in H by lia. destruct (SSL_read c remaining) as [[n b1] c1] eqn:E.
  destruct (Z.leb_spec n 0).
  - destruct (SSL_read_none _ _ _ _ _ E) as (-> & Hi & Hs); [lia|].
    destruct (retries c1 n).
    + destruct (IH _ _ _ _ Hr H) as (H1 & H2 & H3 & H4). rewrite <- Hi, <- Hs. done.
    + injection H as <- <- <-. split_and!; [done | done | cbn; lia | cbn; split; [done | lia]].
  - destruct (SSL_read_some _ _ _ _ _ E) as (Hle & Hl & Hi & Hs); [lia|].
    rewrite u64_id in H by lia.
    destruct (sslReadAll fuel c1 (remaining - n)) as [[[ok2 rest] c2]|] eqn:E2; [|done].
    injection H as -> <- ->.
    destruct (IH c1 (remaining - n) ok rest) as (H1 & H2 & H3 & H4); [lia | exact E2 |]. rewrite length_app.
    split_and!; [by rewrite Hi, H1, app_assoc | congruence | lia | rewrite H4; lia].
Qed.

Lemma sslReadAll_total c remaining :
  0 <= remaining < 2 ^ 31 -> exists r, converges (fun n => sslReadAll n c remaining) r.
Proof.
  intros Hr. cut (exists fuel r, sslReadAll fuel c remaining = Some r).
  { intros (n & r & H). exists r, n. intros. by eapply sslReadAll_mono. }
  remember (Z.to_nat remaining) as n eqn:En. revert c remaining Hr En.
  induction n as [n IHn] using lt_wf_ind. intros c remaining Hr ->.
  remember (patience c) as p eqn:Ep. revert c Ep.
  induction p as [p IHp] using lt_wf_ind. intros c ->.
  destruct (Z.eqb_spec remaining 0) as [->|Hne]; [exists 0%nat; by eexists|].
  destruct (SSL_read c remaining) as [[w bs] c1] eqn:E. destruct (Z.leb_spec w 0) as [Hw|Hw].
  - destruct (retries c1 w) eqn:Er.
    + destruct (IHp (patience c1)) with (c := c1) as (fuel & r & Hf); [by eapply read_retry | done |].
      exists (S fuel), r. rewrite sslReadAll_S.
      by rewrite (proj2 (Z.eqb_neq _ _) Hne), i32_id, E, (proj2 (Z.leb_le _ _) Hw), Er by lia.
    + exists 1%nat. eexists. rewrite sslReadAll_S.
      by rewrite (proj2 (Z.eqb_neq _ _) Hne), i32_id, E, (proj2 (Z.leb_le _ _) Hw), Er by lia.
  - destruct (SSL_read_some _ _ _ _ _ E) as (Hle & _); [lia|].
    destruct (IHn (Z.to_nat (remaining - w)) ltac:(lia) c1 (remaining - w))
      as (fuel & [[ok rest] c2] & Hf); [lia | done |].
    exists (S fuel). eexists. rewrite sslReadAll_S.
    by rewrite (proj2 (Z.eqb_neq _ _) Hne), i32_id, E, (proj2 (Z.leb_gt _ _) Hw), u64_id, Hf by lia.
Qed.

(** On a steady connection false means that the stream is exhausted. *)
Lemma sslReadAll_steady {Rel : SslReliable Ops} fuel c remaining ok bs c' :
  0 <= remaining < 2 ^ 31 -> steady c -> sslReadAll fuel c remaining = Some (ok, bs, c') ->
  steady c' /\ (ok = false -> incoming c' = []).
Proof.
  revert c remaining ok bs. induction fuel as [|fuel IH]; intros c remaining ok bs Hr Hst H.
  { cbn in H. destruct (remaining =? 0); [|done]. by injection H as <- <- <-. }
  rewrite sslReadAll_S in H. destruct (Z.eqb_spec remaining 0) as [|Hne]; [by injection H as <- <- <-|].
  rewrite i32_id in H by lia. destruct (SSL_read c remaining) as [[n b1] c1] eqn:E.
  destruct (read_steady _ _ _ _ _ E) as [Hst1 Hend]; [lia | done |].
  destruct (Z.leb_spec n 0).
  - destruct (retries c1 n); [by eapply IH|]. injection H as <- <- <-. split; [done|]. intros _.
    destruct (SSL_read_none _ _ _ _ _ E) as (_ & -> & _); auto.
  - destruct (SSL_read_some _ _ _ _ _ E) as (Hle & _); [lia|]. rewrite u64_id in H by lia.
    destruct (sslReadAll fuel c1 (remaining - n)) as [[[ok2 rest] c2]|] eqn:E2; [|done].
    injection H as -> <- ->. by eapply (IH c1 (remaining - n)); [lia|..].
Qed.

Lemma sslReadAll_spec c remaining :
  0 <= remaining < 2 ^ 31 ->
  exists ok bs c', converges (fun n => sslReadAll n c remaining) (ok, bs, c') /\
    incoming c = bs ++ incoming c' /\ Z.of_nat (length bs) <= remaining /\
    (ok = true <-> Z.of_nat (length bs) = remaining) /\
    (forall Rel : SslReliable Ops, steady c -> steady c' /\ (ok = false -> incoming c' = [])).
Proof.
  intros Hr. destruct (sslReadAll_total c remaining Hr) as ([[ok bs] c'] & H).
  exists ok, bs, c'. split; [done|]. destruct H as [n Hn]. specialize (Hn n (le_n _)).
  destruct (sslReadAll_correct _ _ _ _ _ _ Hr Hn) as (H1 & _ & H2 & H3).
  split_and!; [done..|]. intros Rel Hst. by eapply sslReadAll_steady.
Qed.
End Reading.

(** ** Saving *)

Section Saving.
Context {Fs : FsOps} {FLaws : FsLaws Fs} {FProg : FsProgress Fs}.

Lemma write_loop_mono fuel fuel' s fd ptr remaining r :
  write_loop fuel s fd ptr remaining = Some r -> (fuel <= fuel')%nat ->
  write_loop fuel' s fd ptr remaining = Some r.
Proof.
  revert fuel' s ptr remaining. induction fuel as [|fuel IH]; intros fuel' s ptr remaining H Hle.
  { cbn in H. destruct fuel'; cbn; by destruct (remaining <=? 0). }
  destruct fuel' as [|fuel']; [lia|]. cbn in *. destruct (remaining <=? 0); [done|].
  destruct (fs_write _ _ _) as [n s1]. destruct (n <? 0); [|by eapply IH; [|lia]].
  destruct (fs_errno s1 =? EINTR); [by eapply IH; [|lia] | done].
Qed.

(** The file grows by a prefix of the data, by all of it on success. *)
Lemma write_loop_correct fuel s fd ptr remaining ok s' name old :
  opened s fd = Some name -> file s name = Some old -> remaining <= Z.of_nat (length ptr) ->
  write_loop fuel s fd ptr remaining = Some (ok, s') ->
  (forall m, m <> name -> file s' m = file s m) /\ (forall d, opened s' d = opened s d) /\
  exists k, file s' name = Some (old ++ take k ptr) /\ (ok = true -> k = Z.to_nat remaining).
Proof.
  revert s ptr remaining old. induction fuel as [|fuel IH];
    intros s ptr remaining old Hfd Hold Hlen H; cbn in H; destruct (Z.leb_spec remaining 0) as [Hr|Hr].
  1,3: injection H as <- <-; split_and!; [done..|]; exists 0%nat; rewrite take_0, app_nil_r; split; [done | lia].
  { done. }
  destruct (fs_write _ _ _) as [n s1] eqn:E.
  destruct (write_some _ _ _ _ _ _ _ E Hfd Hold) as (Hn & Hf & Ho & Hd).
  rewrite length_take in Hn. destruct (Z.ltb_spec n 0) as [Hneg|Hpos].
  - rewrite Z2Nat.nonpos, take_0, app_nil_r in Hf by lia. destruct (fs_errno s1 =? EINTR).
    + destruct (IH s1 ptr remaining old) as (H1 & H2 & H3); [by rewrite Hd | done..|].
      split_and!; [|intros d; by rewrite H2 | done]. intros m Hm. by rewrite H1, Ho.
    + injection H as <- <-. split_and!; [done..|]. exists 0%nat. rewrite take_0, app_nil_r. by split.
  - rewrite take_take, Nat.min_l in Hf by lia.
    destruct (IH s1 (drop (Z.to_nat n) ptr) (remaining - n) (old ++ take (Z.to_nat n) ptr))
      as (H1 & H2 & k & H3 & H4); [by rewrite Hd | done | rewrite length_drop; lia | done |].
    split_and!; [intros m Hm; by rewrite H1, Ho | intros d; by rewrite H2|].
    exists (Z.to_nat n + k)%nat. split; [|intros Hok; specialize (H4 Hok); lia].
    by rewrite H3, <- app_assoc, take_take_drop.
Qed.

Lemma write_loop_total s fd ptr remaining name old :
  opened s fd = Some name -> file s name = Some old -> remaining <= Z.of_nat (length ptr) ->
  exists r, converges (fun n => write_loop n s fd ptr remaining) r.
Proof.
  intros Hfd Hold Hlen. cut (exists fuel r, write_loop fuel s fd ptr remaining = Some r).
  { intros (n & r & H). exists r, n. intros. by eapply write_loop_mono. }
  remember (Z.to_nat remaining) as m eqn:Em. revert s ptr remaining old Hfd Hold Hlen Em.
  induction m as [m IHm] using lt_wf_ind. intros s ptr remaining old Hfd Hold Hlen ->.
  remember (fs_patience s) as p eqn:Ep. revert s old Hfd Hold Ep.
  induction p as [p IHp] using lt_wf_ind. intros s old Hfd Hold ->.
  destruct (Z.leb_spec remaining 0) as [Hr|Hr].
  { exists 0%nat. eexists. cbn. by rewrite (proj2 (Z.leb_le _ _) Hr). }
  destruct (fs_write s fd (take (Z.to_nat remaining) ptr)) as [n s1] eqn:E.
  destruct (write_some _ _ _ _ _ _ _ E Hfd Hold) as (Hn & Hf & _ & Hd). rewrite length_take in Hn.
  assert (take (Z.to_nat remaining) ptr <> []) as Hne.
  { intros H%(f_equal length). rewrite length_take in H. cbn in H. lia. }
  destruct (Z.ltb_spec n 0) as [Hneg|Hpos]; [destruct (Z.eqb_spec (fs_errno s1) EINTR) as [He|He]|].
  - destruct (IHp (fs_patience s1)) with (s := s1) (old := old ++ take (Z.to_nat n) (take (Z.to_nat remaining) ptr))
      as (fuel & r & Hf'); [eapply write_again; [done | done | lia] | by rewrite Hd | done | done |].
    exists (S fuel), r. cbn. by rewrite (proj2 (Z.leb_gt _ _) Hr), E, (proj2 (Z.ltb_lt _ _) Hneg), (proj2 (Z.eqb_eq _ _) He).
  - exists 1%nat. eexists. cbn.
    by rewrite (proj2 (Z.leb_gt _ _) Hr), E, (proj2 (Z.ltb_lt _ _) Hneg), (proj2 (Z.eqb_neq _ _) He).
  - destruct (decide (n = 0)) as [->|Hn0].
    + destruct (IHp (fs_patience s1)) with (s := s1) (old := old) as (fuel & r & Hf');
        [eapply write_again; [done | done | by left] | by rewrite Hd | by rewrite Hf, app_nil_r | done |].
      exists (S fuel), r. cbn. rewrite (proj2 (Z.leb_gt _ _) Hr), E. cbn. by rewrite Z.sub_0_r, drop_0.
    + destruct (IHm (Z.to_nat (remaining - n)) ltac:(lia) s1 (drop (Z.to_nat n) ptr) (remaining - n)
        (old ++ take (Z.to_nat n) (take (Z.to_nat remaining) ptr)))
        as (fuel & r & Hf'); [by rewrite Hd | done | rewrite length_drop; lia | done |].
      exists (S fuel), r. cbn. by rewrite (proj2 (Z.leb_gt _ _) Hr), E, (proj2 (Z.ltb_ge _ _) Hpos).
Qed.

(** [saveFrame] ends; it leaves no descriptor open and touches no other file;
    when it returns true the file is exactly the payload. *)
Lemma saveFrame_spec bo cfg hdr data len s :
  0 <= len <= Z.of_nat (length data) ->
  let name := frame_filename bo cfg hdr in
  exists ok s', converges (fun n => saveFrame bo n cfg hdr data len s) (ok, s') /\
    (forall m, m <> name -> file s' m = file s m) /\ (forall d, opened s' d = opened s d) /\
    (ok = true -> file s' name = Some (take (Z.to_nat len) data)) /\
    (ok = false -> file s' name = file s name \/
      exists k, file s' name = Some (take k data)).
Proof.
  intros Hlen name. unfold saveFrame. fold name.
  destruct (fs_open s name) as [fd s1] eqn:Eo. destruct (Z.ltb_spec fd 0) as [Hfd|Hfd].
  { destruct (open_none _ _ _ _ Eo Hfd) as [H1 H2]. exists false, s1.
    split_and!; [apply converges_const | done | done | done | by left]. }
  destruct (open_some _ _ _ _ Eo Hfd) as (Hfree & Hnew & Hoth & Hop).
  assert (opened s1 fd = Some name) as Hfd1 by (rewrite Hop; by rewrite decide_True).
  destruct (write_loop_total s1 fd data len name [] Hfd1 Hnew) as ([ok s2] & n & Hn); [lia|].
  destruct (write_loop_correct n s1 fd data len ok s2 name [] Hfd1 Hnew) as (H1 & H2 & k & H3 & H4);
    [lia | by apply Hn |].
  destruct (close_spec s2 fd) as [Hc1 Hc2].
  exists ok, (fs_close s2 fd). split_and!.
  - eapply converges_bind; [by exists n | apply converges_const].
  - intros m Hm. by rewrite Hc1, H1, Hoth.
  - intros d. rewrite Hc2. case_decide; subst; [done|]. by rewrite H2, Hop, decide_False.
  - intros Hok. by rewrite Hc1, H3, (H4 Hok).
  - intros _. right. exists k. by rewrite Hc1, H3.
Qed.
End Saving.

(** ** The loop *)

Definition rx_bytes (rx : received) : Z := 36 + Z.of_nat (length (rx_payload rx)).
Definition total_bytes (rxs : list received) : Z := foldr (fun rx n => rx_bytes rx + n) 0 rxs.

(** The file of a received frame. *)
Definition rx_filename (cfg : Config) (rx : received) : list byte :=
  take 511 (c_string (output_dir cfg) ++ chars "/frame_" ++ pad_zero 8 (decimal (rx_seq rx)) ++
            chars "." ++ frame_ext (rx_fourcc rx)).

Section Handling.
Context {Ops : SslOps} {Laws : SslLaws Ops} {Prog : SslProgress Ops}.
Context {Fs : FsOps} {FLaws : FsLaws Fs} {FProg : FsProgress Fs}.

Lemma length_grow buf len : len <= Z.of_nat (length (grow buf len)).
Proof.
  unfold grow. destruct (Z.ltb_spec (Z.of_nat (length buf)) len); [|lia].
  rewrite length_app, length_replicate. lia.
Qed.

Lemma fill_Some buf bs : (length bs <= length buf)%nat ->
  fill buf bs = Some (bs ++ drop (length bs) buf).
Proof. intros. unfold fill. by rewrite decide_True. Qed.

Definition counted (rxs : list received) (st st' : client_state) : Prop :=
  frames_received (cs_stats st') = u64 (frames_received (cs_stats st) + Z.of_nat (length rxs)) /\
  bytes_received (cs_stats st') = u64 (bytes_received (cs_stats st) + total_bytes rxs) /\
  cs_frames st' = u64 (cs_frames st + Z.of_nat (length rxs)).

(** What a frame means for the files; [ok]: [saveFrame] returned true. *)
Definition save_outcome (cfg : Config) (rx : received) (ok : bool) (s s' : fs) : Prop :=
  (forall m, m <> rx_filename cfg rx -> file s' m = file s m) /\
  (forall d, opened s' d = opened s d) /\
  (ok = true -> file s' (rx_filename cfg rx) = Some (rx_payload rx)).

Definition saved_frame (cfg : Config) (rx : received) (st st' : client_state) : Prop :=
  if save_frames cfg then
    exists ok, save_outcome cfg rx ok (cs_fs st) (cs_fs st') /\
      frames_saved (cs_stats st') = u64 (frames_saved (cs_stats st) + Z.b2z ok)
  else cs_fs st' = cs_fs st /\ frames_saved (cs_stats st') = frames_saved (cs_stats st).

(** The counters hold 64-bit values. *)
Definition state_wf (st : client_state) : Prop :=
  in_width 64 (frames_received (cs_stats st)) /\ in_width 64 (bytes_received (cs_stats st)) /\
  in_width 64 (frames_saved (cs_stats st)) /\ in_width 64 (cs_frames st).

(** What one iteration means for the stream. *)
Definition body_outcome (cfg : Config) (st : client_state) (r : loop_exit + received) (st' : client_state) : Prop :=
  match r with
  | inr rx =>
      (forall n, parse (S n) (incoming (cs_ssl st)) =
        (rx :: (parse n (incoming (cs_ssl st'))).1, (parse n (incoming (cs_ssl st'))).2)) /\
      counted [rx] st st' /\ saved_frame cfg rx st st' /\ state_wf st'
  | inl reason =>
      cs_stats st' = cs_stats st /\ cs_frames st' = cs_frames st /\ cs_fs st' = cs_fs st /\
      (forall Rel : SslReliable Ops, steady (cs_ssl st) ->
        forall n, parse (S n) (incoming (cs_ssl st)) = ([], reason))
  end /\
  (forall Rel : SslReliable Ops, steady (cs_ssl st) -> steady (cs_ssl st')).

Lemma parse_frame n h p rest :
  length h = 36%nat -> take 4 h = chars "FRAM" -> field 4 2 h = 1 -> field 24 4 h <= PAYLOAD_MAX ->
  Z.of_nat (length p) = field 24 4 h ->
  parse (S n) (h ++ p ++ rest) =
    (mkReceived (field 8 8 h) (field 16 8 h) (field 32 2 h) (field 34 2 h)
       (fourccToString (field 28 4 h)) p :: (parse n rest).1, (parse n rest).2).
Proof.
  intros Hh Hm Hv Hmax Hp. cbn [parse]. unfold frame_of.
  rewrite !field_app, take_app_le, Hm, Hv by lia. unfold PAYLOAD_MAX in Hmax.
  rewrite !decide_False by (rewrite ?length_app; (lia || done || congruence)).
  replace (Z.to_nat (field 24 4 h)) with (length p) by lia.
  rewrite <- Hh, <- drop_drop, !drop_app_length, take_app_length. done.
Qed.

Lemma check_header_spec bo h : length h = 36%nat ->
  match check_header bo (FrameHeader_of bo h) with
  | inl reason => forall n rest, parse (S n) (h ++ rest) = ([], reason)
  | inr len => take 4 h = chars "FRAM" /\ field 4 2 h = 1 /\ len = field 24 4 h /\ len <= PAYLOAD_MAX
  end.
Proof.
  intros Hh. destruct (header_fields bo h Hh) as (Hm & Hv & _ & _ & Hlen & _).
  unfold check_header. rewrite Hv, Hlen, Hm, take_take.
  assert (forall n rest, parse (S n) (h ++ rest) = parse (S n) (h ++ rest)) as Hrefl by done.
  case_bool_decide as Hmagic; cbn [negb].
  2:{ intros n rest. cbn [parse]. rewrite decide_False by (rewrite length_app; lia).
      rewrite decide_True; [done|]. rewrite take_app_le by lia. exact Hmagic. }
  destruct (Z.eqb_spec (field 4 2 h) PROTO_VERSION) as [Hver|Hver]; cbn [negb].
  2:{ intros n rest. cbn [parse]. rewrite !field_app, take_app_le by lia.
      rewrite !decide_False by (rewrite ?length_app; lia || (intros Hc; by apply Hc)).
      by rewrite decide_True. }
  destruct (Z.ltb_spec PAYLOAD_MAX (field 24 4 h)) as [Hmax|Hmax]; [|done].
  intros n rest. cbn [parse]. rewrite !field_app, take_app_le by lia.
  rewrite !(decide_False (P := _ <> _)) by (intros Hc; by apply Hc).
  rewrite decide_False by (rewrite length_app; lia). by rewrite decide_True.
Qed.

Lemma parse_short n s : (length s < 36)%nat -> parse (S n) s = ([], NoHeader).
Proof. intros. cbn [parse]. by rewrite decide_True. Qed.

Lemma parse_no_payload n h p :
  length h = 36%nat -> take 4 h = chars "FRAM" -> field 4 2 h = 1 -> field 24 4 h <= PAYLOAD_MAX ->
  Z.of_nat (length p) < field 24 4 h -> parse (S n) (h ++ p) = ([], NoPayload).
Proof.
  intros Hh Hm Hv Hmax Hp. cbn [parse]. rewrite !field_app, take_app_le, Hm, Hv by lia.
  unfold PAYLOAD_MAX in Hmax.
  rewrite !(decide_False (P := _ <> _)) by (intros Hc; by apply Hc).
  rewrite !decide_False by (rewrite ?length_app; lia). rewrite decide_True; [done|].
  rewrite length_app. lia.
Qed.

(** The statistics and the file system after a complete frame. *)
Lemma finish_frame_spec bo cfg h p ssl buf st :
  length h = 36%nat -> Z.of_nat (length p) = field 24 4 h -> (length p <= length buf)%nat ->
  take (length p) buf = p -> state_wf st ->
  let rx := mkReceived (field 8 8 h) (field 16 8 h) (field 32 2 h) (field 34 2 h)
              (fourccToString (field 28 4 h)) p in
  exists st', converges (fun n => finish_frame bo n cfg (FrameHeader_of bo h) (field 24 4 h) ssl buf st)
    (rx, st') /\
    cs_ssl st' = ssl /\ counted [rx] st st' /\ saved_frame cfg rx st st' /\ state_wf st'.
Proof.
  intros Hh Hp Hle Hbuf (Hw1 & Hw2 & Hw3 & Hw4) rx.
  destruct (header_fields bo h Hh) as (_ & _ & H1 & H2 & _ & H3 & H4 & H5).
  unfold finish_frame. rewrite H1, H2, H3, H4, H5. rewrite <- Hp, Nat2Z.id, Hbuf. fold rx.
  assert (total_bytes [rx] = 36 + Z.of_nat (length p)) as Ht by (cbn; unfold rx_bytes; cbn; lia).
  unfold saved_frame, counted, state_wf. rewrite Ht. destruct (save_frames cfg).
  2:{ eexists. split; [apply converges_const | split_and!; cbn; auto with width]. }
  destruct (saveFrame_spec bo cfg (FrameHeader_of bo h) buf (Z.of_nat (length p)) (cs_fs st))
    as (ok & s' & Hs & Hoth & Hop & Hok & _); [lia|].
  assert (frame_filename bo cfg (FrameHeader_of bo h) = rx_filename cfg rx) as Hname.
  { unfold frame_filename, rx_filename. by rewrite H1, H3. }
  rewrite Hname in *. rewrite Nat2Z.id, Hbuf in Hok.
  eexists. split; [eapply converges_bind; [exact Hs | apply converges_const]|].
  destruct ok; cbn; (split_and!; cbn; auto with width); eexists;
    (split; [split_and!; [exact Hoth | exact Hop | exact Hok]|]); cbn; [done | by rewrite Z.add_0_r, u64_id].
Qed.

Lemma handle_body_spec bo cfg st :
  state_wf st ->
  exists r st', converges (fun n => handle_body bo n cfg st) (r, st') /\ body_outcome cfg st r st'.
Proof.
  intros Hwf. unfold handle_body.
  destruct (sslReadAll_spec (cs_ssl st) FRAME_HEADER_SIZE) as (ok & h & c1 & H1 & Hi1 & Hl1 & Hok1 & Hst1); [done|].
  change FRAME_HEADER_SIZE with 36 in Hl1, Hok1.
  destruct ok.
  2:{ do 2 eexists. split; [eapply converges_bind; [exact H1 | apply converges_const]|].
      split; [split_and!; [done..|] | intros Rel Hst; by apply Hst1]. intros Rel Hst n.
      destruct (Hst1 Rel Hst) as [_ He]. apply parse_short. rewrite Hi1, He, app_nil_r by done.
      destruct (decide (Z.of_nat (length h) = 36)) as [E%Hok1|]; [done | lia]. }
  assert (length h = 36%nat) as Hh by (by apply (Nat2Z.inj _ 36), Hok1).
  pose proof (check_header_spec bo h Hh) as Hchk.
  destruct (check_header bo (FrameHeader_of bo h)) as [reason|len] eqn:Ec.
  { do 2 eexists. split; [eapply converges_bind; [exact H1|]; cbn; rewrite Ec; apply converges_const|].
    split; [split_and!; [done..|] | intros Rel Hst; by apply Hst1]. intros Rel Hst n. by rewrite Hi1. }
  destruct Hchk as (Hm & Hv & -> & Hmax). pose proof (field_nonneg 24 4 h) as H0.
  unfold PAYLOAD_MAX in Hmax.
  destruct (sslReadAll_spec c1 (field 24 4 h)) as (ok & p & c2 & H2 & Hi2 & Hl2 & Hok2 & Hst2); [lia|].
  pose proof (length_grow (cs_buf st) (field 24 4 h)) as Hg.
  assert (fill (grow (cs_buf st) (field 24 4 h)) p = Some (p ++ drop (length p) (grow (cs_buf st) (field 24 4 h))))
    as Hfill by (apply fill_Some; lia).
  destruct ok.
  2:{ do 2 eexists. split.
      { eapply converges_bind; [exact H1|]. cbn [negb]. rewrite Ec.
        eapply converges_bind; [exact H2|]. cbn. rewrite Hfill. apply converges_const. }
      split; [split_and!; [done..|] | intros Rel Hst; by apply Hst2, Hst1]. intros Rel Hst n.
      destruct (Hst2 Rel (proj1 (Hst1 Rel Hst))) as [_ He]. rewrite Hi1, Hi2, He, app_nil_r by done.
      apply parse_no_payload; [done..|].
      destruct (decide (Z.of_nat (length p) = field 24 4 h)) as [E%Hok2|]; [done | lia]. }
  apply proj1 in Hok2. specialize (Hok2 eq_refl).
  destruct (finish_frame_spec bo cfg h p c2 (p ++ drop (length p) (grow (cs_buf st) (field 24 4 h))) st)
    as (st' & Hf & Hssl & Hrest); [done | done | rewrite length_app; lia | by rewrite take_app_length | done |].
  do 2 eexists. split.
  { eapply converges_bind; [exact H1|]. cbn [negb]. rewrite Ec.
    eapply converges_bind; [exact H2|]. cbn. rewrite Hfill. cbn.
    eapply converges_bind; [exact Hf|]. apply converges_const. }
  split; [|intros Rel Hst; rewrite Hssl; by apply Hst2, Hst1]. split; [|exact Hrest].
  intros n. rewrite Hi1, Hi2, Hssl. by apply parse_frame.
Qed.

(** Frames and files of a whole run. *)
Inductive saves (cfg : Config) : fs -> list (received * bool) -> fs -> Prop :=
  | saves_nil s : saves cfg s [] s
  | saves_cons s rx ok s1 l s2 :
      save_outcome cfg rx ok s s1 -> saves cfg s1 l s2 -> saves cfg s ((rx, ok) :: l) s2.

Definition count_true (l : list (received * bool)) : Z := foldr (fun x n => Z.b2z x.2 + n) 0 l.

Definition saved_run (cfg : Config) (rxs : list received) (st st' : client_state) : Prop :=
  if save_frames cfg then
    exists oks, length oks = length rxs /\ saves cfg (cs_fs st) (zip rxs oks) (cs_fs st') /\
      frames_saved (cs_stats st') = u64 (frames_saved (cs_stats st) + count_true (zip rxs oks))
  else cs_fs st' = cs_fs st /\ frames_saved (cs_stats st') = frames_saved (cs_stats st).

Lemma counted_nil st st' :
  state_wf st -> cs_stats st' = cs_stats st -> cs_frames st' = cs_frames st -> counted [] st st'.
Proof.
  intros (? & ? & ? & ?) Hs Hf. unfold counted. rewrite Hs, Hf. cbn. by rewrite !Z.add_0_r, !u64_id.
Qed.

Lemma counted_cons rx rxs st st1 st2 :
  counted [rx] st st1 -> counted rxs st1 st2 -> counted (rx :: rxs) st st2.
Proof.
  intros (H1 & H2 & H3) (H4 & H5 & H6). unfold counted. rewrite H4, H5, H6, H1, H2, H3, !u64_add_mod.
  unfold total_bytes. cbn [length foldr]. split_and!; apply (f_equal u64); lia.
Qed.

Lemma saved_nil cfg st st' :
  state_wf st -> cs_stats st' = cs_stats st -> cs_fs st' = cs_fs st -> saved_run cfg [] st st'.
Proof.
  intros (_ & _ & ? & _) Hs Hf. unfold saved_run. rewrite Hs, Hf. destruct (save_frames cfg); [|done].
  exists []. split_and!; [done | constructor | cbn; by rewrite Z.add_0_r, u64_id].
Qed.

Lemma saved_cons cfg rx rxs st st1 st2 :
  saved_frame cfg rx st st1 -> saved_run cfg rxs st1 st2 -> saved_run cfg (rx :: rxs) st st2.
Proof.
  unfold saved_frame, saved_run. destruct (save_frames cfg).
  - intros (ok & H1 & H2) (oks & H3 & H4 & H5). exists (ok :: oks). split_and!.
    + cbn. by rewrite H3.
    + by econstructor.
    + rewrite H5, H2, u64_add_mod. unfold count_true. cbn. apply (f_equal u64). lia.
  - intros [-> ->] [-> ->]. done.
Qed.

Lemma handle_loop_spec bo cfg k st :
  state_wf st ->
  exists rxs reason st',
    converges (fun n => handle_loop bo n cfg (replicate k true ++ [false]) st) (rxs, reason, st') /\
    rxs `prefix_of` (parse k (incoming (cs_ssl st))).1 /\
    counted rxs st st' /\ saved_run cfg rxs st st' /\
    (forall Rel : SslReliable Ops, steady (cs_ssl st) -> parse k (incoming (cs_ssl st)) = (rxs, reason)).
Proof.
  revert st. induction k as [|k IH]; intros st Hwf; cbn [replicate app handle_loop].
  { do 3 eexists. split; [apply converges_const|].
    split_and!; [done | by apply counted_nil | by apply saved_nil | done]. }
  destruct (handle_body_spec bo cfg st Hwf) as (r & st1 & H1 & Hout & Hst). destruct r as [reason|rx].
  - destruct Hout as (Hs & Hf & Hfs & Hp). do 3 eexists.
    split; [eapply converges_bind; [exact H1 | apply converges_const]|].
    split_and!; [by apply prefix_nil | by apply counted_nil | by apply saved_nil | intros; by apply (Hp Rel)].
  - destruct Hout as (Hp & Hc & Hs & Hwf1).
    destruct (IH st1 Hwf1) as (rxs & reason & st2 & H2 & Hpre & Hc2 & Hs2 & Hex).
    do 3 eexists. split; [eapply converges_bind; [exact H1|]; cbn; eapply converges_bind; [exact H2 | apply converges_const]|].
    rewrite Hp. split_and!; [by apply prefix_cons | by eapply counted_cons | by eapply saved_cons |].
    intros Rel Hsteady. by rewrite (Hex Rel (Hst Rel Hsteady)).
Qed.
End Handling.
