(* ===== verification/ServerTheorems.v ===== *)
(** * What the frame server guarantees

    About one client: what [handleClient] makes of its stream, what [saveFrame]
    leaves in the file system and under which name. *)

From S2P Require Import Prelude Bytes Text Transport Files Server ServerProps.
From Stdlib Require Import Strings.Byte.

Section Names.
Implicit Types (cfg : Config) (rx : received).

Lemma frame_ext_short fourcc : (length (frame_ext fourcc) <= 4)%nat.
Proof. unfold frame_ext. repeat case_decide; cbn; lia. Qed.

(** The whole name, before snprintf cuts it. *)
Definition full_name cfg rx : list byte :=
  c_string (output_dir cfg) ++ chars "/frame_" ++ pad_zero 8 (decimal (rx_seq rx)) ++
  chars "." ++ frame_ext (rx_fourcc rx).

Lemma rx_filename_whole cfg rx :
  (length (c_string (output_dir cfg)) <= 479)%nat -> rx_filename cfg rx = full_name cfg rx.
Proof.
  intros Hdir. unfold rx_filename. fold (full_name cfg rx). apply take_ge. unfold full_name.
  rewrite !length_app, length_pad_zero. pose proof (length_dec_digits 20 (rx_seq rx)).
  fold (decimal (rx_seq rx)) in *. pose proof (frame_ext_short (rx_fourcc rx)).
  change (length (chars "/frame_")) with 7%nat. change (length (chars ".")) with 1%nat. lia.
Qed.

(** Frames with different sequence numbers are saved to different files, as
    long as the directory name leaves room (at most 479 characters): the name
    determines the sequence number and the extension. *)
Lemma filenames_distinct cfg rx rx' :
  (length (c_string (output_dir cfg)) <= 479)%nat ->
  in_width 64 (rx_seq rx) -> in_width 64 (rx_seq rx') ->
  rx_filename cfg rx = rx_filename cfg rx' ->
  rx_seq rx = rx_seq rx' /\ frame_ext (rx_fourcc rx) = frame_ext (rx_fourcc rx').
Proof.
  intros Hdir Hs Hs' H. rewrite !rx_filename_whole in H by done. unfold full_name in H.
  apply app_inv_head, app_inv_head in H. unfold in_width in *.
  assert (forall n e, 0 <= n -> span is_digit (pad_zero 8 (decimal n) ++ chars "." ++ e)
    = (pad_zero 8 (decimal n), chars "." ++ e)) as Hspan.
  { intros n e Hn. apply span_all; [by apply pad_zero_digits|]. by intros b r [= <- _]. }
  apply (f_equal (span is_digit)) in H. rewrite !Hspan in H by lia.
  injection H as H1 H2. split; [by eapply pad_decimal_inj | done].
Qed.

(** With a longer one they may share a file: snprintf cuts the number off. *)
Example long_directory_collides :
  let cfg := mkConfig 8443 [] [] (replicate 504 "d"%byte) true false in
  let rx seq := mkReceived seq 0 640 480 (chars "MJPG") (chars "ab") in
  rx_filename cfg (rx 1) = rx_filename cfg (rx 2).
Proof. vm_compute. reflexivity. Qed.
End Names.

Section Server.
Context {Ops : SslOps} {Laws : SslLaws Ops} {Prog : SslProgress Ops}.
Context {Fs : FsOps} {FLaws : FsLaws Fs} {FProg : FsProgress Fs}.

Definition stats_wf (s : Stats) : Prop :=
  in_width 64 (frames_received s) /\ in_width 64 (bytes_received s) /\ in_width 64 (frames_saved s).

Lemma handleClient_spec bo cfg k ssl s stats :
  stats_wf stats ->
  let st0 := mkClientState ssl s stats [] 0 in
  exists rxs reason st,
    converges (fun n => handleClient bo n cfg (replicate k true ++ [false]) ssl s stats) (rxs, reason, st) /\
    rxs `prefix_of` (parse k (incoming ssl)).1 /\
    counted rxs st0 st /\ saved_run cfg rxs st0 st /\
    (exists m, cs_buf st = replicate m (byte.of_Z 0)) /\
    (forall Rel : SslReliable Ops, steady ssl -> parse k (incoming ssl) = (rxs, reason)).
Proof.
  intros (H1 & H2 & H3) st0.
  destruct (handle_loop_spec bo cfg k st0) as (rxs & reason & st & He & Hpre & Hc & Hs & Hp).
  { split_and!; done. }
  do 3 eexists. split; [eapply converges_bind; [exact He | apply converges_const]|].
  split_and!; [done | exact Hc | exact Hs | by eexists | exact Hp].
Qed.

(** C13: [handleClient] computes exactly the reference parse of the byte stream,
    on a host of either byte order, however SSL_read cuts the stream into
    pieces and whatever retries it asks for: the frames with their header
    fields and payloads in order, and the reason for leaving the loop (end of
    stream, bad magic, bad version, too large, cut payload, or stopped). The
    counters grow by the frames and bytes received, and the frame buffer is
    zero at the end. *)
Theorem server_refines_parse {Rel : SslReliable Ops} bo cfg k ssl s stats :
  stats_wf stats -> steady ssl ->
  let '(rxs, reason) := parse k (incoming ssl) in
  exists st,
    converges (fun n => handleClient bo n cfg (replicate k true ++ [false]) ssl s stats) (rxs, reason, st) /\
    frames_received (cs_stats st) = u64 (frames_received stats + Z.of_nat (length rxs)) /\
    bytes_received (cs_stats st) = u64 (bytes_received stats + total_bytes rxs) /\
    cs_frames st = u64 (Z.of_nat (length rxs)) /\
    exists m, cs_buf st = replicate m (byte.of_Z 0).
Proof.
  intros Hwf Hst. destruct (handleClient_spec bo cfg k ssl s stats Hwf)
    as (rxs & reason & st & He & _ & (H1 & H2 & H3) & _ & Hz & Hp).
  rewrite (Hp Rel Hst). exists st. by split_and!.
Qed.

(** Whatever the transport does (errors at any point included),
    [handleClient] ends when [g_running] goes false, and the frames it has
    accepted are the first frames of the peer's stream: no byte is skipped,
    duplicated or reordered. *)
Theorem server_accepts_prefix bo cfg k ssl s stats :
  stats_wf stats ->
  exists rxs reason st,
    converges (fun n => handleClient bo n cfg (replicate k true ++ [false]) ssl s stats) (rxs, reason, st) /\
    rxs `prefix_of` (parse k (incoming ssl)).1 /\
    frames_received (cs_stats st) = u64 (frames_received stats + Z.of_nat (length rxs)).
Proof.
  intros Hwf. destruct (handleClient_spec bo cfg k ssl s stats Hwf)
    as (rxs & reason & st & He & Hpre & (H1 & _) & _).
  by exists rxs, reason, st.
Qed.

(** C30: [saveFrame] ends, closes the file it opened and touches no other; when
    it returns true the frame's file holds exactly the payload, when it
    returns false the file is as before or holds a prefix of the buffer. *)
Theorem save_frame_correct bo cfg hdr data len s :
  0 <= len <= Z.of_nat (length data) ->
  exists ok s', converges (fun n => saveFrame bo n cfg hdr data len s) (ok, s') /\
    (forall d, opened s' d = opened s d) /\
    (forall m, m <> frame_filename bo cfg hdr -> file s' m = file s m) /\
    if (ok : bool) then file s' (frame_filename bo cfg hdr) = Some (take (Z.to_nat len) data)
    else file s' (frame_filename bo cfg hdr) = file s (frame_filename bo cfg hdr) \/
         exists k, file s' (frame_filename bo cfg hdr) = Some (take k data).
Proof.
  intros Hlen. destruct (saveFrame_spec bo cfg hdr data len s Hlen) as (ok & s' & H1 & H2 & H3 & H4 & H5).
  exists ok, s'. split_and!; [done..|]. destruct ok; auto.
Qed.

(** A name that no later frame uses keeps its file. *)
Lemma saves_other cfg s l s' m :
  saves cfg s l s' -> m ∉ (fun x => rx_filename cfg x.1) <$> l ->
  file s' m = file s m.
Proof.
  induction 1 as [|s rx ok s1 l s2 (H1 & _) _ IH]; intros Hm; [done|].
  apply not_elem_of_cons in Hm as [Hm1 Hm2]. by rewrite IH, H1.
Qed.

Lemma saves_opened cfg s l s' : saves cfg s l s' -> forall d, opened s' d = opened s d.
Proof. induction 1 as [|s rx ok s1 l s2 (_ & H2 & _) _ IH]; intros d; [done|]. by rewrite IH, H2. Qed.

Lemma saves_all cfg s l s' :
  saves cfg s l s' -> NoDup ((fun x => rx_filename cfg x.1) <$> l) -> Forall (fun x => x.2 = true) l ->
  Forall (fun x => file s' (rx_filename cfg x.1) = Some (rx_payload x.1)) l.
Proof.
  induction 1 as [|s rx ok s1 l s2 (_ & _ & H3) Hl IH]; intros Hnd Hok; [constructor|].
  apply NoDup_cons in Hnd as [Hnin Hnd]. apply Forall_cons in Hok as [Hok1 Hok]. cbn in *.
  constructor; [|by apply IH].
  cbn. rewrite (saves_other _ _ _ _ _ Hl Hnin). by apply H3.
Qed.

Lemma count_true_all l : count_true l <= Z.of_nat (length l) /\
  (count_true l = Z.of_nat (length l) -> Forall (fun x => x.2 = true) l).
Proof.
  unfold count_true. induction l as [|[rx ok] l [IH1 IH2]]; cbn [foldr length]; [by split|].
  split; [destruct ok; cbn; lia|]. intros H. destruct ok; cbn in *; [|lia].
  constructor; [done | apply IH2; lia].
Qed.

Lemma count_true_nonneg l : 0 <= count_true l.
Proof. unfold count_true. induction l as [|[rx []] l IH]; cbn [foldr snd Z.b2z]; lia. Qed.

Lemma zip_names cfg rxs (oks : list bool) :
  length oks = length rxs -> (fun x => rx_filename cfg x.1) <$> zip rxs oks = rx_filename cfg <$> rxs.
Proof.
  intros Hlen. transitivity (rx_filename cfg <$> (fst <$> zip rxs oks)); [by rewrite <- list_fmap_compose|].
  by rewrite fst_zip by lia.
Qed.

Lemma session_files bo cfg k ssl s stats :
  stats_wf stats -> save_frames cfg = true ->
  exists rxs reason st,
    converges (fun n => handleClient bo n cfg (replicate k true ++ [false]) ssl s stats) (rxs, reason, st) /\
    (forall m, m ∉ rx_filename cfg <$> rxs -> file (cs_fs st) m = file s m) /\
    (forall d, opened (cs_fs st) d = opened s d) /\
    (NoDup (rx_filename cfg <$> rxs) ->
     frames_saved stats + Z.of_nat (length rxs) < 2 ^ 64 ->
     frames_saved (cs_stats st) = frames_saved stats + Z.of_nat (length rxs) ->
     Forall (fun rx => file (cs_fs st) (rx_filename cfg rx) = Some (rx_payload rx)) rxs).
Proof.
  intros Hwf Hsave. destruct (handleClient_spec bo cfg k ssl s stats Hwf)
    as (rxs & reason & st & He & _ & _ & Hs & _).
  exists rxs, reason, st. split; [done|]. unfold saved_run in Hs. rewrite Hsave in Hs.
  destruct Hs as (oks & Hlen & Hsv & Hcount). cbn in Hsv, Hcount.
  pose proof (zip_names cfg rxs oks Hlen) as Hnames.
  split; [|split].
  { intros m Hm. rewrite <- Hnames in Hm. by eapply saves_other. }
  { by eapply saves_opened. }
  intros Hnd Hsmall Hall. destruct Hwf as (_ & _ & Hw).
  destruct (count_true_all (zip rxs oks)) as [Hle Hforall].
  assert (length (zip rxs oks) = length rxs) as Hlz by (rewrite length_zip; lia).
  pose proof (count_true_nonneg (zip rxs oks)). unfold in_width in Hw.
  rewrite u64_id in Hcount by lia. rewrite <- Hnames in Hnd.
  pose proof (saves_all _ _ _ _ Hsv Hnd ltac:(apply Hforall; lia)) as Hfiles.
  rewrite <- (fst_zip rxs oks) by lia. apply Forall_fmap. exact Hfiles.
Qed.
(** A client session with saving enabled whose saves all succeeded (the
    saved counter grew by as much as the received one) and whose frames have
    distinct names leaves one file per received frame with exactly its
    payload, every other file as it was, and no descriptor open. *)
Theorem session_saved bo cfg k ssl s stats :
  stats_wf stats -> save_frames cfg = true ->
  exists rxs reason st,
    converges (fun n => handleClient bo n cfg (replicate k true ++ [false]) ssl s stats) (rxs, reason, st) /\
    (forall m, m ∉ rx_filename cfg <$> rxs -> file (cs_fs st) m = file s m) /\
    (forall d, opened (cs_fs st) d = opened s d) /\
    (NoDup (rx_filename cfg <$> rxs) ->
     frames_saved stats + Z.of_nat (length rxs) < 2 ^ 64 ->
     frames_saved (cs_stats st) = frames_saved stats + Z.of_nat (length rxs) ->
     Forall (fun rx => file (cs_fs st) (rx_filename cfg rx) = Some (rx_payload rx)) rxs).
Proof. apply session_files. Qed.
End Server.

(** ** Concrete runs *)

Definition demo_store : @fs store_ops := mkStore ∅ ∅ 3 [Takes 2; Intr] 0.
Definition demo_stats : Stats := mkStats 0 0 0.
Definition demo_server_config : Config := mkConfig 4433 [] [] (chars "out") true false.

Lemma demo_stats_wf : stats_wf demo_stats.
Proof. unfold stats_wf, in_width. cbn. lia. Qed.

(** A MJPG frame on the wire. *)
Definition demo_wire (seq : Z) (data : list byte) : list byte :=
  chars "FRAM" ++ be_split 2 1 ++ be_split 2 36 ++ be_split 8 seq ++ be_split 8 1000 ++
  be_split 4 (Z.of_nat (length data)) ++ be_split 4 0x47504A4D ++ be_split 2 4 ++ be_split 2 2 ++ data.

(** Two frames and the start of a third, in small pieces. *)
Definition demo_ssl : @conn scripted_ops :=
  mkScripted [Moves 3; Would SSL_ERROR_WANT_READ; Moves 50; Interrupted] []
    (demo_wire 7 (chars "abc") ++ demo_wire 8 (chars "defg") ++ take 20 (demo_wire 9 (chars "hi")))
    SSL_ERROR_ZERO_RETURN 0.

Lemma demo_ssl_steady : steady demo_ssl.
Proof. cbn. repeat constructor. Qed.

Definition demo_rx (seq : Z) (data : list byte) : received := mkReceived seq 1000 4 2 (chars "MJPG") data.

Example demo_parse :
  parse 10 (incoming demo_ssl) = ([demo_rx 7 (chars "abc"); demo_rx 8 (chars "defg")], NoHeader).
Proof. vm_compute. reflexivity. Qed.

Example server_refines_parse_witness :
  exists st, converges (fun n => handleClient ORDER_LITTLE_ENDIAN n demo_server_config
      (replicate 10 true ++ [false]) demo_ssl demo_store demo_stats)
    ([demo_rx 7 (chars "abc"); demo_rx 8 (chars "defg")], NoHeader, st) /\
    frames_received (cs_stats st) = 2.
Proof.
  pose proof (server_refines_parse ORDER_LITTLE_ENDIAN demo_server_config 10 demo_ssl demo_store demo_stats
    demo_stats_wf demo_ssl_steady) as H.
  rewrite demo_parse in H. destruct H as (st & H1 & H2 & _). by exists st.
Defined.

Example server_accepts_prefix_witness :
  exists rxs reason st, converges (fun n => handleClient ORDER_BIG_ENDIAN n demo_server_config
      (replicate 10 true ++ [false]) demo_ssl demo_store demo_stats) (rxs, reason, st) /\
    rxs `prefix_of` [demo_rx 7 (chars "abc"); demo_rx 8 (chars "defg")].
Proof.
  destruct (server_accepts_prefix ORDER_BIG_ENDIAN demo_server_config 10 demo_ssl demo_store demo_stats
    demo_stats_wf) as (rxs & reason & st & H1 & H2 & _).
  rewrite demo_parse in H2. by exists rxs, reason, st.
Defined.

Definition demo_header : FrameHeader :=
  FrameHeader_of ORDER_LITTLE_ENDIAN (take 36 (demo_wire 7 (chars "abc"))).

Example save_frame_correct_witness :
  exists ok s', converges (fun n => saveFrame ORDER_LITTLE_ENDIAN n demo_server_config demo_header
      (chars "abcdef") 3 demo_store) (ok, s') /\
    frame_filename ORDER_LITTLE_ENDIAN demo_server_config demo_header = chars "out/frame_00000007.jpg".
Proof.
  destruct (save_frame_correct ORDER_LITTLE_ENDIAN demo_server_config demo_header (chars "abcdef") 3 demo_store)
    as (ok & s' & H & _); [cbn; lia|].
  exists ok, s'. split; [exact H | vm_compute; reflexivity].
Defined.

Example session_saved_witness :
  exists rxs reason st, converges (fun n => handleClient ORDER_LITTLE_ENDIAN n demo_server_config
      (replicate 10 true ++ [false]) demo_ssl demo_store demo_stats) (rxs, reason, st) /\
    forall d, opened (cs_fs st) d = opened demo_store d.
Proof.
  destruct (session_saved ORDER_LITTLE_ENDIAN demo_server_config 10 demo_ssl demo_store demo_stats
    demo_stats_wf eq_refl) as (rxs & reason & st & H1 & _ & H2 & _).
  by exists rxs, reason, st.
Defined.
