(* ===== verification/ServerMain.v ===== *)
(** * The server program (server/server.cpp: parseArgs, createSslContext, main)

    Arguments with std::stoi's exceptions, context creation, the set-up of the
    listening socket and the accept loop, with the statistics and files that
    [handleClient] updates from one client to the next. *)

From S2P Require Import Prelude Bytes Text Getopt Transport Files Server ServerProps ServerTheorems.
From Stdlib Require Import Strings.Byte.

(** ** Arguments *)

(** std::stoi; [None]: it throws. *)
Definition stoi (s : list byte) : option Z :=
  let '(v, rest) := strtol s in
  if decide (rest = s) then None
  else if decide (- 2 ^ 31 <= v < 2 ^ 31) then Some v else None.

Inductive parse_result :=
  | Parsed (c : Config)
  | Usage
  | NoCertificate
  | Uncaught.     (** an exception that nothing catches *)

Definition set_port (p : Z) (c : Config) : Config :=
  mkConfig p (cert_file c) (key_file c) (output_dir c) (save_frames c) (verbose c).

Fixpoint parse_options (os : list option_read) (c : Config) : parse_result :=
  match os with
  | [] => Parsed c
  | (opt, optarg) :: os =>
      match opt with
      | "p"%byte => match stoi optarg with
                    | Some p => parse_options os (set_port (u16 p) c)
                    | None => Uncaught
                    end
      | "c"%byte => parse_options os (mkConfig (port c) optarg (key_file c) (output_dir c) (save_frames c) (verbose c))
      | "k"%byte => parse_options os (mkConfig (port c) (cert_file c) optarg (output_dir c) (save_frames c) (verbose c))
      | "o"%byte => parse_options os (mkConfig (port c) (cert_file c) (key_file c) optarg true (verbose c))
      | "v"%byte => parse_options os (mkConfig (port c) (cert_file c) (key_file c) (output_dir c) (save_frames c) true)
      | _ => Usage
      end
  end.

Definition parseArgs (os : list option_read) : parse_result :=
  match parse_options os Config_default with
  | Parsed c => if decide (cert_file c = [] \/ key_file c = []) then NoCertificate else Parsed c
  | r => r
  end.

Definition optstring : list byte := chars "p:c:k:o:vh".

Definition long_options : list long_option :=
  [ mkLong (chars "port") required_argument "p"%byte;
    mkLong (chars "cert") required_argument "c"%byte;
    mkLong (chars "key") required_argument "k"%byte;
    mkLong (chars "output") required_argument "o"%byte;
    mkLong (chars "verbose") no_argument "v"%byte;
    mkLong (chars "help") no_argument "h"%byte ].

(** [parseArgs] on [argv]. *)
Definition parse_command_line (argv : list (list byte)) : parse_result :=
  parseArgs (getopt_long optstring long_options (tail argv)).

Definition printUsage (prog : list byte) : list byte :=
  concat (map (fun line => line ++ newline)
    [ chars "Usage: " ++ prog ++ chars " [options]";
      [];
      chars "Simple TLS server to receive camera frames";
      [];
      chars "Options:";
      chars "  --port N          Listen port (default: 4433)";
      chars "  --cert FILE       Server certificate (PEM)";
      chars "  --key FILE        Server private key (PEM)";
      chars "  --output DIR      Save frames to directory";
      chars "  --verbose, -v     Verbose output";
      chars "  --help, -h        Show this help";
      [];
      chars "To generate self-signed certificate:";
      chars "  openssl req -x509 -newkey rsa:4096 -keyout server.key \";
      chars "    -out server.crt -days 365 -nodes -subj '/CN=localhost'";
      [] ]).

(** What [parseArgs] prints to stderr. *)
Definition refusal_text (prog : list byte) (r : parse_result) : list byte :=
  match r with
  | Usage => printUsage prog
  | NoCertificate => chars "Error: --cert and --key are required" ++ newline ++ newline ++ printUsage prog
  | Parsed _ | Uncaught => []
  end.

(** ** Calls that acquire or release something *)

Inductive srv_call :=
  | HandleSigint | HandleSigterm    (** sigaction() with [signalHandler] *)
  | CtxNew | CtxFree
  | ServerSocket (fd : Z)             (** socket() of the server *)
  | Accept (fd : Z)             (** accept() *)
  | Close (fd : Z)
  | SslNew | SslShutdown | SslFree.

Record ctx_env := mkCtxEnv {
  xe_new : bool;
  xe_cert : Z;                  (** SSL_CTX_use_certificate_file *)
  xe_key : Z;                   (** SSL_CTX_use_PrivateKey_file *)
  xe_check : bool               (** SSL_CTX_check_private_key *)
}.

Definition createSslContext (e : ctx_env) : bool * list srv_call :=
  if negb (xe_new e) then (false, [])
  else if xe_cert e <=? 0 then (false, [CtxNew; CtxFree])
  else if xe_key e <=? 0 then (false, [CtxNew; CtxFree])
  else if negb (xe_check e) then (false, [CtxNew; CtxFree])
  else (true, [CtxNew]).

(** ** The accept loop *)

Section Serving.
Context {Ops : SslOps} {Fs : FsOps}.

Record accept_env := mkAcceptEnv {
  ae_select : Z * Z;          (** select() and errno *)
  ae_accept : Z * Z;          (** accept() and errno *)
  ae_ssl_new : bool;          (** SSL_new succeeded *)
  ae_ssl_accept : Z * conn;   (** SSL_accept and the connection after it *)
  ae_frames : nat             (** iterations of [handleClient] while [g_running] *)
}.

Definition runs_of (k : nat) : list bool := replicate k true ++ [false].

(** The state that outlives a client, and the frames of the clients so far. *)
Record serving := mkServing { sv_fs : fs; sv_stats : Stats; sv_clients : list (list received) }.

(** [NullSsl]: the result of SSL_new, which is not tested, is null and goes to
    SSL_set_fd and SSL_accept; what happens from there on is undefined. *)
Inductive accept_result := Continue | Break | NullSsl.

(** One iteration; [None]: out of fuel. *)
Definition accept_body (bo : byte_order) (fuel : nat) (cfg : Config) (e : accept_env) (s : serving)
    : option (accept_result * list srv_call * serving) :=
  let '(ready, err) := ae_select e in
  if ready <? 0 then Some (if err =? EINTR then Continue else Break, [], s)
  else if ready =? 0 then Some (Continue, [], s)
  else
    let '(client_fd, err) := ae_accept e in
    if client_fd <? 0 then Some (if err =? EINTR then Continue else Break, [], s)
    else if negb (ae_ssl_new e) then Some (NullSsl, [Accept client_fd], s)
    else if (ae_ssl_accept e).1 <=? 0 then
      Some (Continue, [Accept client_fd; SslNew; SslFree; Close client_fd], s)
    else
      '(rxs, reason, st) ← handleClient bo fuel cfg (runs_of (ae_frames e)) (ae_ssl_accept e).2
                             (sv_fs s) (sv_stats s);
      Some (Continue, [Accept client_fd; SslNew; SslShutdown; SslFree; Close client_fd],
            mkServing (cs_fs st) (cs_stats st) (sv_clients s ++ [rxs])).

(** [envs] pairs the value of [g_running] at the loop head with what the
    iteration meets; the result says whether the loop was left in order. *)
Fixpoint accept_loop (bo : byte_order) (fuel : nat) (cfg : Config) (envs : list (bool * accept_env))
    (s : serving) : option (bool * list srv_call * serving) :=
  match envs with
  | [] => None
  | (running, e) :: envs =>
      if negb (running : bool) then Some (true, [], s)
      else
        '(r, calls, s) ← accept_body bo fuel cfg e s;
        match r with
        | Break => Some (true, calls, s)
        | NullSsl => Some (false, calls, s)
        | Continue =>
            '(ok, calls', s) ← accept_loop bo fuel cfg envs s;
            Some (ok, calls ++ calls', s)
        end
  end.

Record server_env := mkServerEnv {
  se_mkdir : bool;            (** mkdir() succeeded or the directory exists *)
  se_ctx : ctx_env;
  se_socket : Z;
  se_bind : Z;
  se_listen : Z
}.

(** How the process ends. *)
Inductive server_end :=
  | Exited (code : Z)
  | Terminated                (** by the exception of [parseArgs] *)
  | Undefined.                (** by whatever a null SSL object leads to *)

Definition server_main (bo : byte_order) (fuel : nat) (os : list option_read) (e : server_env)
    (envs : list (bool * accept_env)) (s : fs) : option (server_end * list srv_call * serving) :=
  let sv := mkServing s (mkStats 0 0 0) [] in
  match parseArgs os with
  | Uncaught => Some (Terminated, [], sv)
  | Usage | NoCertificate => Some (Exited 1, [], sv)
  | Parsed cfg =>
      if save_frames cfg && negb (se_mkdir e) then Some (Exited 1, [], sv)
      else
        let '(ok, calls) := createSslContext (se_ctx e) in
        let calls := HandleSigint :: HandleSigterm :: calls in
        if negb ok then Some (Exited 1, calls, sv)
        else
          let fd := se_socket e in
          if fd <? 0 then Some (Exited 1, calls ++ [CtxFree], sv)
          else if se_bind e <? 0 then Some (Exited 1, calls ++ [ServerSocket fd; Close fd; CtxFree], sv)
          else if se_listen e <? 0 then Some (Exited 1, calls ++ [ServerSocket fd; Close fd; CtxFree], sv)
          else
            '(ok, calls', sv) ← accept_loop bo fuel cfg envs sv;
            if (ok : bool) then Some (Exited 0, calls ++ ServerSocket fd :: calls' ++ [Close fd; CtxFree], sv)
            else Some (Undefined, calls ++ ServerSocket fd :: calls', sv)
  end.
End Serving.

#[export] Instance server_end_eq_dec : EqDecision server_end.
Proof. solve_decision. Defined.

(** ** What the server process holds *)

Record srv_held := mkSrvHeld { sh_ctx : bool; sh_fds : list Z; sh_ssl : bool }.

(** [None] when a call releases what is not held, or acquires again what may be
    held only once. *)
Definition srv_step (h : srv_held) (c : srv_call) : option srv_held :=
  let '(mkSrvHeld ctx fds ssl) := h in
  match c with
  | HandleSigint | HandleSigterm => Some h
  | CtxNew => if ctx then None else Some (mkSrvHeld true fds ssl)
  | CtxFree => if ctx then Some (mkSrvHeld false fds ssl) else None
  | ServerSocket fd | Accept fd => Some (mkSrvHeld ctx (fd :: fds) ssl)
  | Close fd => fds ← remove_one fd fds; Some (mkSrvHeld ctx fds ssl)
  | SslNew => if ssl then None else Some (mkSrvHeld ctx fds true)
  | SslShutdown => if ssl then Some h else None
  | SslFree => if ssl then Some (mkSrvHeld ctx fds false) else None
  end.

Fixpoint srv_after (h : srv_held) (cs : list srv_call) : option srv_held :=
  match cs with
  | [] => Some h
  | c :: cs => h ← srv_step h c; srv_after h cs
  end.

Lemma srv_after_trans h h' h'' cs ds :
  srv_after h cs = Some h' -> srv_after h' ds = Some h'' -> srv_after h (cs ++ ds) = Some h''.
Proof.
  revert h. induction cs as [|c cs IH]; intros h; cbn; [by intros [= ->]|].
  destruct (srv_step h c); [apply IH | done].
Qed.

Definition srv_nothing : srv_held := mkSrvHeld false [] false.
Definition listening (fd : Z) : srv_held := mkSrvHeld true [fd] false.

Section ServerMain.
Context {Ops : SslOps} {Laws : SslLaws Ops} {Prog : SslProgress Ops}.
Context {Fs : FsOps} {FLaws : FsLaws Fs} {FProg : FsProgress Fs}.

Definition total_frames (clients : list (list received)) : Z :=
  foldr (fun rxs n => Z.of_nat (length rxs) + n) 0 clients.

(** The saves of all clients so far, from the files [s0] on. *)
Definition saved_so_far (cfg : Config) (s0 : fs) (s : serving) : Prop :=
  let rxs := concat (sv_clients s) in
  if save_frames cfg then
    exists oks, length oks = length rxs /\ saves cfg s0 (zip rxs oks) (sv_fs s) /\
      frames_saved (sv_stats s) = u64 (count_true (zip rxs oks))
  else sv_fs s = s0 /\ frames_saved (sv_stats s) = 0.

(** The counters are the totals over all clients, whose frames are each the
    beginning of one accepted connection's stream. *)
Definition serving_ok (cfg : Config) (s0 : fs) (envs : list (bool * accept_env)) (s : serving) : Prop :=
  stats_wf (sv_stats s) /\ saved_so_far cfg s0 s /\
  frames_received (sv_stats s) = u64 (total_frames (sv_clients s)) /\
  Forall (fun rxs => exists e, e ∈ envs /\
    rxs `prefix_of` (parse (ae_frames e.2) (incoming (ae_ssl_accept e.2).2)).1) (sv_clients s).

Lemma total_frames_snoc clients rxs :
  total_frames (clients ++ [rxs]) = total_frames clients + Z.of_nat (length rxs).
Proof. unfold total_frames. induction clients as [|c cs IH]; cbn; lia. Qed.

Lemma saves_app cfg s l s1 l' s2 : saves cfg s l s1 -> saves cfg s1 l' s2 -> saves cfg s (l ++ l') s2.
Proof. induction 1; [done|]. intros ?. econstructor; eauto. Qed.

Lemma count_true_app l l' : count_true (l ++ l') = count_true l + count_true l'.
Proof. unfold count_true. induction l as [|x l IH]; cbn; lia. Qed.

Lemma saved_client cfg s0 s rxs ssl buf n st :
  saved_so_far cfg s0 s -> saved_run cfg rxs (mkClientState ssl (sv_fs s) (sv_stats s) buf n) st ->
  saved_so_far cfg s0 (mkServing (cs_fs st) (cs_stats st) (sv_clients s ++ [rxs])).
Proof.
  unfold saved_so_far, saved_run. cbn [sv_clients sv_fs sv_stats cs_fs cs_stats]. rewrite concat_app. cbn [concat].
  rewrite app_nil_r. destruct (save_frames cfg).
  - intros (oks & H1 & H2 & H3) (oks' & H4 & H5 & H6). exists (oks ++ oks').
    rewrite zip_with_app by done. split_and!.
    + rewrite !length_app. lia.
    + by eapply saves_app.
    + by rewrite count_true_app, H6, H3, u64_add_mod.
  - intros [-> <-] [-> ->]. done.
Qed.

(** A client for whom SSL_new fails. *)
Definition null_ssl (e : accept_env) : Prop :=
  0 < (ae_select e).1 /\ 0 <= (ae_accept e).1 /\ ae_ssl_new e = false.

Lemma accept_body_spec bo cfg s0 all running e s fd :
  (running, e) ∈ all -> serving_ok cfg s0 all s ->
  exists r calls s', converges (fun n => accept_body bo n cfg e s) (r, calls, s') /\ serving_ok cfg s0 all s' /\
    match r with
    | NullSsl => null_ssl e
    | _ => srv_after (listening fd) calls = Some (listening fd)
    end.
Proof.
  intros Hin Hs. unfold accept_body, null_ssl. destruct (ae_select e) as [ready err].
  destruct (Z.ltb_spec ready 0); [do 3 eexists; split; [apply converges_const|]; split; [done|]; by destruct (err =? EINTR)|].
  destruct (Z.eqb_spec ready 0); [do 3 eexists; split; [apply converges_const | by split]|].
  destruct (ae_accept e) as [client_fd err'].
  destruct (Z.ltb_spec client_fd 0); [do 3 eexists; split; [apply converges_const|]; split; [done|]; by destruct (err' =? EINTR)|].
  destruct (ae_ssl_new e); cbn [negb].
  2: { do 3 eexists. split; [apply converges_const|]. split; [done|]. cbn. by split_and!; [lia|..]. }
  destruct ((ae_ssl_accept e).1 <=? 0).
  { do 3 eexists. split; [apply converges_const|]. split; [done|]. cbn. by rewrite decide_True by done. }
  destruct Hs as (Hwf & Hsave & Hfr & Hcl).
  destruct (handleClient_spec bo cfg (ae_frames e) (ae_ssl_accept e).2 (sv_fs s) (sv_stats s) Hwf)
    as (rxs & reason & st & He & Hpre & Hc & Hsv & _).
  do 3 eexists. split; [eapply converges_bind; [exact He | apply converges_const]|].
  split; [|cbn; by rewrite decide_True]. destruct Hc as (H1 & H2 & _). cbn in H1, H2.
  split; [|split; [by eapply saved_client|split]]; cbn [sv_stats sv_clients].
  - unfold stats_wf. rewrite H1, H2. split_and!; auto with width.
    unfold saved_run in Hsv. cbn in Hsv. destruct Hwf as (_ & _ & Hw).
    destruct (save_frames cfg); [destruct Hsv as (oks & _ & _ & ->); auto with width | by destruct Hsv as [_ ->]].
  - by rewrite total_frames_snoc, H1, Hfr, u64_add_mod.
  - apply Forall_app_2; [done|]. constructor; [|done]. by exists (running, e).
Qed.

Lemma accept_loop_spec bo cfg s0 all envs last s fd :
  (forall e, e ∈ envs -> e ∈ all) -> serving_ok cfg s0 all s ->
  exists ok calls s', converges (fun n => accept_loop bo n cfg (envs ++ [(false, last)]) s) (ok, calls, s') /\
    serving_ok cfg s0 all s' /\
    if (ok : bool) then srv_after (listening fd) calls = Some (listening fd)
    else exists e, e ∈ envs /\ null_ssl e.2.
Proof.
  revert s. induction envs as [|[running e] envs IH]; intros s Henvs Hs; cbn.
  { do 3 eexists. split; [apply converges_const | by split]. }
  destruct running; cbn; [|do 3 eexists; split; [apply converges_const | by split]].
  assert ((true, e) ∈ all) as Hin by (apply Henvs; by left).
  destruct (accept_body_spec bo cfg s0 all true e s fd Hin Hs) as (r & calls & s1 & Hb & Hs1 & Ha).
  destruct r.
  - destruct (IH s1) as (ok & calls2 & s2 & H1 & H2 & H3); [intros x Hx; apply Henvs; by right | done |].
    exists ok. do 2 eexists. split; [eapply converges_bind; [exact Hb|]; cbn; eapply converges_bind; [exact H1 | apply converges_const]|].
    split; [done|]. destruct ok; [by eapply srv_after_trans|].
    destruct H3 as (x & Hx & Hn). exists x. split; [by right | done].
  - do 3 eexists. split; [eapply converges_bind; [exact Hb | apply converges_const] | by split].
  - do 3 eexists. split; [eapply converges_bind; [exact Hb | apply converges_const]|].
    split; [done|]. exists (true, e). split; [by left | done].
Qed.

(** The whole of [main], for every command line and every failure. *)
Lemma server_main_spec bo os e envs last s :
  exists fin calls sv,
    converges (fun n => server_main bo n os e (envs ++ [(false, last)]) s) (fin, calls, sv) /\
    (if decide (fin = Undefined) then exists x, x ∈ envs /\ null_ssl x.2
     else srv_after srv_nothing calls = Some srv_nothing) /\
    (forall cfg, parseArgs os = Parsed cfg -> serving_ok cfg s envs sv) /\
    ((forall cfg, parseArgs os <> Parsed cfg) -> sv = mkServing s (mkStats 0 0 0) []) /\
    (fin = Terminated <-> parseArgs os = Uncaught).
Proof.
  set (sv0 := mkServing s (mkStats 0 0 0) []).
  assert (forall cfg, serving_ok cfg s envs sv0) as H0.
  { intros cfg. split_and!; try done. unfold saved_so_far. cbn. destruct (save_frames cfg); [|done].
    exists []. split_and!; [done | constructor | done]. }
  unfold server_main. fold sv0. destruct (parseArgs os) as [cfg| | |] eqn:Ep.
  2,3,4: do 3 eexists; split; [apply converges_const|]; by split_and!.
  destruct (save_frames cfg && negb (se_mkdir e)).
  { do 3 eexists. split; [apply converges_const|]. by split_and!. }
  assert (exists ok calls, createSslContext (se_ctx e) = (ok, calls) /\
    srv_after srv_nothing (HandleSigint :: HandleSigterm :: calls) = Some (mkSrvHeld ok [] false))
    as (ok & calls & -> & Hctx).
  { unfold createSslContext. repeat (case_match; [by do 2 eexists|]). by do 2 eexists. }
  cbv zeta. set (calls1 := HandleSigint :: HandleSigterm :: calls) in *.
  destruct ok; cbn [negb].
  2: { do 3 eexists. split; [apply converges_const|]. by split_and!. }
  destruct (se_socket e <? 0).
  { do 3 eexists. split; [apply converges_const|]. split_and!; try done. by eapply srv_after_trans. }
  destruct (se_bind e <? 0); [|destruct (se_listen e <? 0)].
  1,2: do 3 eexists; split; [apply converges_const|]; (split_and!; try done);
    eapply srv_after_trans; [exact Hctx|]; cbn; by rewrite decide_True.
  destruct (accept_loop_spec bo cfg s envs envs last sv0 (se_socket e)) as (ok & calls2 & s2 & H1 & H2 & H3); [auto | done |].
  destruct ok.
  all: do 3 eexists; split; [eapply converges_bind; [exact H1 | apply converges_const]|].
  all: split_and!; [| by intros ? [= <-] | by intros H%(fun H => H cfg) | done].
  - rewrite decide_False by done. eapply srv_after_trans; [exact Hctx|].
    change (srv_after (listening (se_socket e)) (calls2 ++ [Close (se_socket e); CtxFree]) = Some srv_nothing).
    eapply srv_after_trans; [exact H3|]. cbn. by rewrite decide_True.
  - by rewrite decide_True.
Qed.

(** C22: the server's main, for every command line, every failure of its set-up
    and any number of clients: it ends once [g_running] is false, counts in
    [frames_received] the frames of all clients, each of which received the
    beginning of its own stream, and has released its context, its listening
    socket and every client's SSL object and socket exactly once. The one
    exception is a client for whom SSL_new fails: the result is not tested, the
    null pointer goes to SSL_set_fd, and nothing can be said from there on. An
    argument that std::stoi rejects, and nothing else, ends the process with an
    uncaught exception. *)
Theorem server_main_clean bo os e envs last s :
  exists fin calls sv,
    converges (fun n => server_main bo n os e (envs ++ [(false, last)]) s) (fin, calls, sv) /\
    (if decide (fin = Undefined) then exists x, x ∈ envs /\ null_ssl x.2
     else srv_after srv_nothing calls = Some srv_nothing) /\
    frames_received (sv_stats sv) = u64 (total_frames (sv_clients sv)) /\
    Forall (fun rxs => exists x, x ∈ envs /\
      rxs `prefix_of` (parse (ae_frames x.2) (incoming (ae_ssl_accept x.2).2)).1) (sv_clients sv) /\
    (fin = Terminated <-> parseArgs os = Uncaught).
Proof.
  destruct (server_main_spec bo os e envs last s) as (fin & calls & sv & H1 & H2 & H3 & H4 & H5).
  exists fin, calls, sv. do 2 (split; [done|]). destruct (parseArgs os) as [cfg| | |]; [|by rewrite H4..].
  destruct (H3 cfg eq_refl) as (_ & _ & H6 & H7). by split_and!.
Qed.
End ServerMain.

(** A port number that is not a number ends the process. *)
Lemma bad_port_uncaught : parseArgs [("p"%byte, chars "http")] = Uncaught.
Proof. reflexivity. Qed.

(** ** A concrete run *)

Definition demo_options : list option_read :=
  [("c"%byte, chars "server.crt"); ("k"%byte, chars "server.key"); ("o"%byte, chars "out")].

Definition demo_accepts : list (bool * @accept_env scripted_ops) :=
  [(true, mkAcceptEnv (0, 0) (-1, 0) true (1, demo_ssl) 0);
   (true, mkAcceptEnv (1, 0) (7, 0) true (1, demo_ssl) 10);
   (true, mkAcceptEnv (1, 0) (7, 0) true (-1, demo_ssl) 10);
   (true, mkAcceptEnv (-1, EINTR) (-1, 0) true (1, demo_ssl) 0)].

Definition demo_server_env : server_env := mkServerEnv true (mkCtxEnv true 1 1 true) 4 0 0.

Example server_main_clean_witness :
  exists fin calls sv,
    converges (fun n => server_main (Fs := store_ops) ORDER_LITTLE_ENDIAN n demo_options demo_server_env
      (demo_accepts ++ [(false, mkAcceptEnv (0, 0) (0, 0) true (1, demo_ssl) 0)]) demo_store) (fin, calls, sv) /\
    srv_after srv_nothing calls = Some srv_nothing.
Proof.
  destruct (server_main_clean (Ops := scripted_ops) (Fs := store_ops) ORDER_LITTLE_ENDIAN demo_options demo_server_env
    demo_accepts (mkAcceptEnv (0, 0) (0, 0) true (1, demo_ssl) 0) demo_store) as (fin & calls & sv & H1 & H2 & _).
  exists fin, calls, sv. split; [exact H1|]. case_decide; [exfalso | exact H2].
  destruct H2 as (x & Hx & _ & _ & Hn). unfold demo_accepts in Hx. rewrite !elem_of_cons, elem_of_nil in Hx.
  by destruct Hx as [-> | [-> | [-> | [-> | []]]]].
Defined.

(** After a client for whom SSL_new fails nobody else is served. *)
Example null_ssl_undefined :
  (fun r => (r.1.1, frames_received (sv_stats r.2))) <$>
    server_main (Fs := store_ops) ORDER_LITTLE_ENDIAN 60 demo_options demo_server_env
      [(true, mkAcceptEnv (1, 0) (7, 0) true (1, demo_ssl) 10);
       (true, mkAcceptEnv (1, 0) (8, 0) false (1, demo_ssl) 10);
       (true, mkAcceptEnv (1, 0) (9, 0) true (1, demo_ssl) 10)] demo_store
  = Some (Undefined, 2).
Proof. vm_compute. reflexivity. Qed.
