(* ===== verification/ServerFiles.v ===== *)
(** * The files of a server over all its clients

    The saved frames as a map from file names to contents: a later frame of the
    same name, of the same client or of another one, replaces the earlier. *)

From S2P Require Import Prelude Bytes Text Getopt Transport Files Server ServerProps ServerTheorems ServerMain.
From Stdlib Require Import Strings.Byte.

Section Files.
Context {Ops : SslOps} {Laws : SslLaws Ops} {Prog : SslProgress Ops}.
Context {Fs : FsOps} {FLaws : FsLaws Fs} {FProg : FsProgress Fs}.
Implicit Types (cfg : Config) (rxs : list received).

(** The payload of the last frame whose name is [m]. *)
Definition last_payload cfg rxs (m : list byte) : option (list byte) :=
  rx_payload <$> last (filter (fun rx => rx_filename cfg rx = m) rxs).

Lemma last_payload_cons cfg rx rxs m :
  last_payload cfg (rx :: rxs) m =
    match last_payload cfg rxs m with
    | Some p => Some p
    | None => if decide (rx_filename cfg rx = m) then Some (rx_payload rx) else None
    end.
Proof.
  unfold last_payload. rewrite filter_cons. case_decide; [rewrite last_cons|]; by destruct (last _).
Qed.

Lemma last_payload_None cfg rxs m : m ∉ rx_filename cfg <$> rxs -> last_payload cfg rxs m = None.
Proof.
  induction rxs as [|rx rxs IH]; [done|]. rewrite fmap_cons, not_elem_of_cons. intros [H1 H2].
  rewrite last_payload_cons, (IH H2), decide_False; [done | congruence].
Qed.

(** When every save succeeds the file system takes the frames like a map. *)
Lemma saves_last cfg s l s' :
  saves cfg s l s' -> Forall (fun x => x.2 = true) l ->
  forall m, file s' m = match last_payload cfg l.*1 m with Some p => Some p | None => file s m end.
Proof.
  induction 1 as [|s rx ok s1 l s2 (H1 & _ & H3) _ IH]; intros Hok m; [done|].
  apply Forall_cons in Hok as [Hrx Hok]. cbn in Hrx. rewrite (IH Hok). rewrite fmap_cons, last_payload_cons.
  destruct (last_payload cfg l.*1 m); [done|]. cbn. case_decide as Hm.
  - subst m. by apply H3.
  - by apply H1.
Qed.

(** C23: the files of a server that saves, over all clients it has served (up to
    a failure of SSL_new, should there be one): no
    descriptor is left open, a name no frame has keeps its file, and when every
    save succeeded (the saved counter equals the number of frames) each file
    holds the payload of the last frame received under its name, from whichever
    client: a client that starts counting again replaces the files of the
    clients before it. *)
Theorem server_files bo os cfg e envs last s :
  parseArgs os = Parsed cfg -> save_frames cfg = true ->
  exists fin calls sv, let rxs := concat (sv_clients sv) in
    converges (fun n => server_main bo n os e (envs ++ [(false, last)]) s) (fin, calls, sv) /\
    (forall d, opened (sv_fs sv) d = opened s d) /\
    (forall m, m ∉ rx_filename cfg <$> rxs -> file (sv_fs sv) m = file s m) /\
    (Z.of_nat (length rxs) < 2 ^ 64 -> frames_saved (sv_stats sv) = Z.of_nat (length rxs) ->
     forall m, file (sv_fs sv) m =
       match last_payload cfg rxs m with Some p => Some p | None => file s m end).
Proof.
  intros Hp Hsave. destruct (server_main_spec bo os e envs last s) as (fin & calls & sv & H1 & _ & H2 & _).
  destruct (H2 cfg Hp) as (_ & Hs & _). unfold saved_so_far in Hs. rewrite Hsave in Hs.
  destruct Hs as (oks & Hlen & Hsv & Hcount). exists fin, calls, sv. cbv zeta. set (rxs := concat (sv_clients sv)) in *.
  assert ((zip rxs oks).*1 = rxs) as Hfst by (apply fst_zip; lia).
  assert (length (zip rxs oks) = length rxs) as Hlz by (rewrite length_zip; lia).
  split_and!; [done | by eapply saves_opened | |].
  - intros m Hm. eapply saves_other; [exact Hsv|]. by rewrite zip_names.
  - intros Hsmall Hall m. pose proof (saves_last cfg s _ _ Hsv) as Hl. rewrite Hfst in Hl. apply Hl.
    destruct (count_true_all (zip rxs oks)) as [Hle Hforall]. pose proof (count_true_nonneg (zip rxs oks)).
    rewrite u64_id in Hcount by lia. apply Hforall. lia.
Qed.
End Files.

(** ** Two clients *)

(** The second client begins with the sequence number 8 of the first again. *)
Definition second_ssl : @conn scripted_ops :=
  mkScripted [] [] (demo_wire 8 (chars "xyz") ++ demo_wire 9 (chars "hi")) SSL_ERROR_ZERO_RETURN 0.

Definition two_clients : list (bool * @accept_env scripted_ops) :=
  [(true, mkAcceptEnv (1, 0) (7, 0) true (1, demo_ssl) 10);
   (true, mkAcceptEnv (1, 0) (7, 0) true (1, second_ssl) 10)].

Definition no_client : @accept_env scripted_ops := mkAcceptEnv (0, 0) (0, 0) true (1, second_ssl) 0.

Definition saving_config : Config := mkConfig 4433 (chars "server.crt") (chars "server.key") (chars "out") true false.

Definition two_clients_run :=
  server_main (Fs := store_ops) ORDER_LITTLE_ENDIAN 60 demo_options demo_server_env
    (two_clients ++ [(false, no_client)]) demo_store.

(** Four frames are saved, to three files: that of frame 8 is the second
    client's. *)
Example second_client_overwrites :
  (fun r => (r.1.1, frames_saved (sv_stats r.2),
             (fun m => file (sv_fs r.2) (chars m)) <$>
               ["out/frame_00000007.jpg"; "out/frame_00000008.jpg"; "out/frame_00000009.jpg"]%string)) <$> two_clients_run
  = Some (Exited 0, 4, [Some (chars "abc"); Some (chars "xyz"); Some (chars "hi")]).
Proof. vm_compute. reflexivity. Qed.

Example server_files_witness :
  exists fin calls sv, converges (fun n => server_main (Fs := store_ops) ORDER_LITTLE_ENDIAN n demo_options
      demo_server_env (two_clients ++ [(false, no_client)]) demo_store) (fin, calls, sv) /\
    (forall d, opened (sv_fs sv) d = None) /\
    (Z.of_nat (length (concat (sv_clients sv))) < 2 ^ 64 ->
     frames_saved (sv_stats sv) = Z.of_nat (length (concat (sv_clients sv))) ->
     file (sv_fs sv) (chars "out/frame_00000008.jpg") =
       last_payload saving_config (concat (sv_clients sv)) (chars "out/frame_00000008.jpg")).
Proof.
  destruct (server_files (Ops := scripted_ops) (Fs := store_ops) ORDER_LITTLE_ENDIAN demo_options saving_config
    demo_server_env two_clients no_client demo_store) as (fin & calls & sv & H1 & H2 & _ & H3).
  - reflexivity.
  - reflexivity.
  - exists fin, calls, sv. split_and!; [exact H1 | intros d; by rewrite H2 |]. intros Hs Ha. rewrite (H3 Hs Ha).
    by destruct (last_payload _ _ _).
Defined.
