(* ===== verification/CommandLine.v ===== *)
(** * Command lines

    What the two programs make of their [argv], through getopt_long: every usable
    configuration can be written as a command line, and every rejection has the
    reason that is reported. *)

From S2P Require Import Prelude Text Getopt Main Server ServerMain.
From Stdlib Require Import Strings.Byte.

#[local] Open Scope Z_scope.

(** ** The client *)

Section Client.
Implicit Types (c : Main.Config) (prog : list byte).

(** A command line for a configuration; what passes through [atoi] into an
    unsigned type is given as the [int] that wraps around to it. *)
Definition render c : list (list byte) :=
  [chars "--device"; Main.device c; chars "--width"; decimal (Main.width c);
   chars "--height"; decimal (Main.height c); chars "--fps"; signed_decimal (i32 (Main.fps c))] ++
  (if use_jpeg c then [] else [chars "--no-jpeg"]) ++
  [chars "--jpeg-quality"; decimal (jpeg_quality c)] ++
  match host c with Some h => [chars "--host"; h] | None => [] end ++
  [chars "--port"; decimal (Main.port c)] ++
  match ca_path c with Some p => [chars "--ca"; p] | None => [] end ++
  [chars "--queue-size"; signed_decimal (swrap 64 (queue_size c))] ++
  (if Main.verbose c then [chars "--verbose"] else []).

Lemma getopt_render c :
  getopt_long Main.optstring Main.long_options (render c) =
  [("d"%byte, Main.device c); ("W"%byte, decimal (Main.width c)); ("H"%byte, decimal (Main.height c));
   ("f"%byte, signed_decimal (i32 (Main.fps c)))] ++
  (if use_jpeg c then [] else [("J"%byte, [])]) ++
  [("Q"%byte, decimal (jpeg_quality c))] ++
  match host c with Some h => [("h"%byte, h)] | None => [] end ++
  [("p"%byte, decimal (Main.port c))] ++
  match ca_path c with Some p => [("c"%byte, p)] | None => [] end ++
  [("q"%byte, signed_decimal (swrap 64 (queue_size c)))] ++
  (if Main.verbose c then [("v"%byte, [])] else []).
Proof.
  unfold render. destruct c as [dev w h f jpeg q hst prt ca qs v]. cbn [Main.device Main.width Main.height Main.fps
    use_jpeg jpeg_quality host Main.port ca_path queue_size Main.verbose].
  generalize (decimal w) (decimal h) (signed_decimal (i32 f)) (decimal q) (decimal prt) (signed_decimal (swrap 64 qs)).
  intros.
  destruct jpeg, hst, ca, v; reflexivity.
Qed.

(** The configurations that a command line can give: valid ones, with a queue
    size that comes from an [int]. *)
Definition usable c : Prop := config_ok c /\ size_from_int c.

Lemma render_numbers c :
  usable c -> u32 (atoi (signed_decimal (i32 (Main.fps c)))) = Main.fps c /\
  u64 (atoi (signed_decimal (swrap 64 (queue_size c)))) = queue_size c.
Proof.
  intros [(_ & _ & _ & Hf & _ & _ & Hq) Hs]. unfold size_from_int in Hs. split.
  - pose proof (wrap_range 32 (Main.fps c + 2 ^ (32 - 1)) ltac:(lia)) as Hr. unfold in_width in Hr.
    rewrite atoi_signed_decimal by (unfold i32, swrap; lia). unfold i32, swrap, u32, wrap.
    rewrite Zminus_mod_idemp_l. replace (Main.fps c + 2 ^ (32 - 1) - 2 ^ (32 - 1)) with (Main.fps c) by lia.
    apply Z.mod_small. lia.
  - assert (swrap 64 (queue_size c) = queue_size c \/ swrap 64 (queue_size c) = queue_size c - 2 ^ 64) as [E|E].
    { unfold swrap, wrap. destruct Hs as [Hs|Hs]; [left; rewrite Z.mod_small; lia|right].
      rewrite <- (Z_mod_plus_full _ (-1)), Z.mod_small; lia. }
    + destruct Hs; [|unfold swrap, wrap in E; pose proof (Z.mod_pos_bound (queue_size c + 2 ^ (64 - 1)) (2 ^ 64)); lia].
      rewrite E, atoi_signed_decimal by lia. apply u64_id. lia.
    + assert (2 ^ 64 - 2 ^ 31 <= queue_size c).
      { destruct Hs; [|done]. unfold swrap, wrap in E. rewrite Z.mod_small in E; lia. }
      rewrite E, atoi_signed_decimal by lia. unfold u64, wrap.
      rewrite <- (Z_mod_plus_full _ 1), Z.mod_small; lia.
Qed.

(** C27: the command lines give exactly the usable configurations. Every
    configuration that [parseArgs] returns has valid numbers and a queue size
    below 2^31 or at least 2^64 - 2^31 (from a negative argument), and each of
    these has a command line: what [parseArgs] makes of the rendered arguments
    (any program name; device, host and path arbitrary, even when they look like
    options) is the configuration itself. *)
Theorem client_command_line prog c :
  (usable c -> Main.parse_command_line (prog :: render c) = inr c) /\
  (forall argv, Main.parse_command_line argv = inr c -> usable c).
Proof.
  split.
  - intros Hu. destruct (render_numbers c Hu) as [Ef Eq].
    destruct Hu as [((b & rest & Hh) & Hw & Hh' & Hf & Hq & Hp & Hqs) _].
    unfold Main.parse_command_line. cbn [tail]. rewrite getopt_render, Hh.
    destruct c as [dev w h f jpeg q hst prt ca qs v].
    cbn [Main.device Main.width Main.height Main.fps use_jpeg jpeg_quality host Main.port ca_path queue_size Main.verbose] in *.
    subst hst. unfold Main.parse, Main.Config_default.
    destruct jpeg, ca as [p|], v; cbn [app Main.parse_options parse_option];
      rewrite Ef, !atoi_decimal by lia; replace ((q <? 1) || (100 <? q)) with false by lia;
      cbn [Main.parse_options parse_option]; rewrite ?atoi_decimal by lia;
      rewrite Eq, !u16_id by lia; unfold check_config;
      cbn [host Main.width Main.height Main.fps queue_size];
      replace ((w =? 0) || (h =? 0)) with false by lia; replace (f =? 0) with false by lia;
      replace (qs <? 2) with false by lia; done.
  - intros argv H. split; [|by eapply parse_size].
    apply (parseArgs_ok (getopt_long Main.optstring Main.long_options (tail argv))). unfold Main.parseArgs.
    unfold Main.parse_command_line in H. by rewrite H.
Qed.

Definition known (opt : byte) : Prop := opt ∈ chars "dWHfJQhpcqv".

(** What is wrong with the options, for each way [parseArgs] fails. *)
Definition rejected (os : list option_read) (e : parse_error) : Prop :=
  match e with
  | BadQuality => exists pre v post c, os = pre ++ ("Q"%byte, v) :: post /\
      Main.parse_options pre Main.Config_default = inr c /\ ~ 1 <= atoi v <= 100
  | ShowUsage => exists pre o post c, os = pre ++ o :: post /\
      Main.parse_options pre Main.Config_default = inr c /\ ~ known o.1
  | NoHost => exists c, Main.parse_options os Main.Config_default = inr c /\ (host c = None \/ host c = Some [])
  | BadDimensions => exists c, Main.parse_options os Main.Config_default = inr c /\
      (exists b r, host c = Some (b :: r)) /\ (Main.width c = 0 \/ Main.height c = 0)
  | BadFps => exists c, Main.parse_options os Main.Config_default = inr c /\
      (exists b r, host c = Some (b :: r)) /\ Main.width c <> 0 /\ Main.height c <> 0 /\ Main.fps c = 0
  | BadQueueSize => exists c, Main.parse_options os Main.Config_default = inr c /\
      (exists b r, host c = Some (b :: r)) /\ Main.width c <> 0 /\ Main.height c <> 0 /\ Main.fps c <> 0 /\
      queue_size c < 2
  end.

Lemma parse_options_app os os' c :
  Main.parse_options (os ++ os') c =
  match Main.parse_options os c with inl e => inl e | inr c => Main.parse_options os' c end.
Proof. revert c. induction os as [|o os IH]; intros c; cbn; [done|]. by destruct (parse_option o c). Qed.

Lemma parse_option_error o c e :
  parse_option o c = inl e <->
  (e = BadQuality /\ o.1 = "Q"%byte /\ ~ 1 <= atoi o.2 <= 100) \/ (e = ShowUsage /\ ~ known o.1).
Proof.
  destruct o as [opt v], c as [dev w h f jpeg q hst prt ca qs vb]. cbn [fst snd]. unfold known.
  destruct (decide (opt ∈ chars "dWHfJQhpcqv")) as [Hin|Hout].
  - cbn in Hin. rewrite !elem_of_cons, elem_of_nil in Hin.
    destruct (decide (opt = "Q"%byte)) as [->|Hne]; cbn [parse_option].
    + destruct ((atoi v <? 1) || (100 <? atoi v)) eqn:E.
      * split; [intros [= <-]; left; split_and!; [done..|lia] | by intros [(-> & _)|(_ & [])]; [|cbn; set_solver]].
      * split; [done|]. intros [(_ & _ & H)|(_ & [])]; [lia | cbn; set_solver].
    + destruct_or!; subst; try done; (split; [done|]; intros [(_ & ? & _)|(_ & [])]; [done | cbn; set_solver]).
  - assert (parse_option (opt, v) (Main.mkConfig dev w h f jpeg q hst prt ca qs vb) = inl ShowUsage) as ->.
    { destruct opt; try reflexivity; destruct Hout; cbn; set_solver. }
    split; [intros [= <-]; by right|]. intros [(-> & -> & _)|(-> & _)]; [|done]. destruct Hout. cbn. set_solver.
Qed.

Lemma parse_options_error os c e :
  Main.parse_options os c = inl e <->
  exists pre o post c', os = pre ++ o :: post /\ Main.parse_options pre c = inr c' /\ parse_option o c' = inl e.
Proof.
  split.
  - revert c. induction os as [|o os IH]; intros c H; cbn in H; [done|].
    destruct (parse_option o c) as [e'|c1] eqn:E.
    + injection H as ->. by exists [], o, os, c.
    + destruct (IH c1 H) as (pre & o' & post & c' & -> & H1 & H2).
      exists (o :: pre), o', post, c'. cbn. by rewrite E.
  - intros (pre & o & post & c' & -> & H1 & H2). rewrite parse_options_app, H1. cbn. by rewrite H2.
Qed.

Lemma check_config_error c e :
  check_config c = Some e <->
  match e with
  | BadQuality | ShowUsage => False
  | NoHost => host c = None \/ host c = Some []
  | BadDimensions => (exists b r, host c = Some (b :: r)) /\ (Main.width c = 0 \/ Main.height c = 0)
  | BadFps => (exists b r, host c = Some (b :: r)) /\ Main.width c <> 0 /\ Main.height c <> 0 /\ Main.fps c = 0
  | BadQueueSize => (exists b r, host c = Some (b :: r)) /\ Main.width c <> 0 /\ Main.height c <> 0 /\
      Main.fps c <> 0 /\ queue_size c < 2
  end.
Proof.
  unfold check_config. destruct (host c) as [[|b r]|].
  1,3: split; [intros [= <-]; auto | destruct e; naive_solver].
  destruct ((Main.width c =? 0) || (Main.height c =? 0)) eqn:E1; [|destruct (Main.fps c =? 0) eqn:E2;
    [|destruct (queue_size c <? 2) eqn:E3]].
  all: split; [try done; intros [= <-]; split_and!; try lia; eauto | destruct e; naive_solver lia].
Qed.

Lemma options_rejected os e :
  Main.parse_options os Main.Config_default = inl e <->
  match e with BadQuality | ShowUsage => rejected os e | _ => False end.
Proof.
  rewrite parse_options_error. setoid_rewrite parse_option_error. split.
  - intros (pre & [opt v] & post & c & -> & H & [(-> & Ho & Hv)|(-> & Hk)]); cbn in *; [subst opt|].
    + by exists pre, v, post, c.
    + by exists pre, (opt, v), post, c.
  - destruct e; try done.
    + intros (pre & v & post & c & -> & H & Hv). exists pre, ("Q"%byte, v), post, c. by repeat split; auto.
    + intros (pre & o & post & c & -> & H & Hk). exists pre, o, post, c. by repeat split; auto.
Qed.

Lemma config_rejected os c e :
  Main.parse_options os Main.Config_default = inr c ->
  (check_config c = Some e <-> match e with BadQuality | ShowUsage => False | _ => rejected os e end).
Proof.
  intros E. rewrite check_config_error. destruct e; try done; cbn; rewrite E;
    (split; [intros H; by exists c | by intros (c' & [= <-] & H)]).
Qed.

(** C28: [parseArgs] fails exactly for the reasons it reports, in the order of its
    checks: a JPEG quality outside 1..100 or an unknown option (or one without
    its argument) met while everything before it was fine; then a missing or
    empty host, zero dimensions, zero frame rate, fewer than two queue slots. *)
Theorem client_rejects argv e :
  Main.parse_command_line argv = inl e <->
  rejected (getopt_long Main.optstring Main.long_options (tail argv)) e.
Proof.
  unfold Main.parse_command_line, Main.parse. set (os := getopt_long _ _ _). clearbody os.
  pose proof (options_rejected os e) as Ho. pose proof (config_rejected os) as Hc.
  destruct (Main.parse_options os Main.Config_default) as [e'|c] eqn:E.
  - split.
    + intros [= ->]. apply proj1 in Ho. specialize (Ho eq_refl). by destruct e.
    + intros H. destruct e; try exact (proj2 Ho H); destruct H as (c & H & _); congruence.
  - specialize (Hc c e eq_refl). destruct (check_config c) as [e'|] eqn:Ek.
    + split; [intros [= ->]; apply proj1 in Hc; specialize (Hc eq_refl); by destruct e|].
      intros H. destruct e; try (by apply proj2 in Ho; discriminate (Ho H)); apply proj2 in Hc; by injection (Hc H) as ->.
    + split; [done|]. intros H. destruct e; try (by apply proj2 in Ho; discriminate (Ho H)); apply proj2 in Hc; discriminate (Hc H).
Qed.
End Client.

(** The usage text offers "-h" as a short form of "--help", but "-h" is the
    short form of "--host": it takes the next argument as the host. *)
Lemma dash_h_is_host :
  exists c, Main.parse_command_line [chars "camera_streamer"; chars "-h"; chars "--verbose"] = inr c /\
    host c = Some (chars "--verbose") /\ Main.verbose c = false.
Proof. eexists. split; [vm_compute; reflexivity | by split]. Qed.

(** ** The server *)

Section Server.
Implicit Types (c : Server.Config) (prog : list byte).

Definition render_server c : list (list byte) :=
  [chars "--port"; decimal (Server.port c); chars "--cert"; cert_file c; chars "--key"; key_file c] ++
  (if save_frames c then [chars "--output"; output_dir c] else []) ++
  (if Server.verbose c then [chars "--verbose"] else []).

Lemma stoi_decimal n : 0 <= n < 2 ^ 31 -> stoi (decimal n) = Some n.
Proof.
  intros H. unfold stoi. rewrite strtol_decimal by (unfold LONG_MAX; lia).
  rewrite decide_False, decide_True; [done | lia |].
  pose proof (dec_digits_nonempty 19 n) as Hne. fold (decimal n) in Hne. intros Hd. rewrite <- Hd in Hne. cbn in Hne. lia.
Qed.

(** C29: every configuration of the server with certificate and key has a command
    line; without an output directory none is remembered. *)
Theorem server_command_line prog c :
  in_width 16 (Server.port c) -> cert_file c <> [] -> key_file c <> [] ->
  (save_frames c = false -> output_dir c = []) ->
  ServerMain.parse_command_line (prog :: render_server c) = Parsed c.
Proof.
  destruct c as [p cert key dir save v]. unfold in_width.
  cbn [Server.port cert_file key_file save_frames output_dir Server.verbose]. intros Hp Hc Hk Hd.
  assert (getopt_long ServerMain.optstring ServerMain.long_options (render_server (Server.mkConfig p cert key dir save v)) =
    [("p"%byte, decimal p); ("c"%byte, cert); ("k"%byte, key)] ++
    (if save then [("o"%byte, dir)] else []) ++ (if v then [("v"%byte, [])] else [])) as Hg.
  { unfold render_server. cbn [Server.port cert_file key_file save_frames output_dir Server.verbose].
    generalize (decimal p). intros. destruct save, v; reflexivity. }
  unfold ServerMain.parse_command_line. cbn [tail]. rewrite Hg. unfold ServerMain.parseArgs.
  assert (forall x y : list byte, x <> [] -> y <> [] -> ~ (x = [] \/ y = [])) as Hne by (intros ? ? ? ? []; done).
  destruct save, v; cbn [app ServerMain.parse_options]; rewrite stoi_decimal by lia; unfold set_port;
    cbn [cert_file key_file Server.port save_frames output_dir Server.verbose Server.Config_default];
    rewrite decide_False by auto; rewrite u16_id by lia; try done; by rewrite Hd.
Qed.
End Server.

(** ** Concrete command lines *)

Definition demo_client : Main.Config :=
  Main.mkConfig (chars "/dev/video0") 640 480 15 false 90 (Some (chars "--host")) 443 (Some (chars "ca.pem")) 16 true.

Example client_command_line_witness :
  Main.parse_command_line
    [chars "prog"; chars "--device"; chars "/dev/video0"; chars "--width"; chars "640"; chars "--height"; chars "480";
     chars "--fps"; chars "15"; chars "--no-jpeg"; chars "--jpeg-quality"; chars "90"; chars "--host"; chars "--host";
     chars "--port"; chars "443"; chars "--ca"; chars "ca.pem"; chars "--queue-size"; chars "16"; chars "--verbose"]
  = inr demo_client.
Proof.
  apply (client_command_line (chars "prog") demo_client). split; [|by left].
  unfold config_ok. split; [by do 2 eexists | vm_compute; intuition discriminate].
Defined.

(** Negative numbers. *)
Example negative_numbers :
  Main.parse_command_line [chars "prog"; chars "--host"; chars "h"; chars "--fps"; chars "-1"; chars "--queue-size"; chars "-1"]
  = inr (Main.mkConfig (chars "0") 1280 720 (2 ^ 32 - 1) true 85 (Some (chars "h")) 4433 None (2 ^ 64 - 1) false).
Proof. vm_compute. reflexivity. Qed.

(** Short forms, abbreviations, "=" and operands. *)
Example other_forms :
  Main.parse_command_line [chars "prog"; chars "-vQ90"; chars "x"; chars "--hei=480"; chars "-h"; chars "host"; chars "--"; chars "-J"]
  = inr (Main.mkConfig (chars "0") 1280 480 30 true 90 (Some (chars "host")) 4433 None 128 true).
Proof. vm_compute. reflexivity. Qed.

Example server_command_line_witness :
  ServerMain.parse_command_line
    [chars "srv"; chars "--port"; chars "443"; chars "--cert"; chars "c"; chars "--key"; chars "k";
     chars "--output"; chars "out"] =
  Parsed (Server.mkConfig 443 (chars "c") (chars "k") (chars "out") true false).
Proof.
  apply (server_command_line (chars "srv") (Server.mkConfig 443 (chars "c") (chars "k") (chars "out") true false));
    [unfold in_width; cbn; lia | discriminate..].
Defined.
