(* ===== verification/EndToEnd.v ===== *)
(** * Client and server together

    The bytes the client writes are what the server parses: header encoding and
    decoding across byte orders, one frame, a stream of frames, and a whole
    client run against servers for each of its connections. *)

From S2P Require Import Prelude Bytes Protocol RingQueue RingRefine Transport Text Files.
From S2P Require Import TlsClient TlsProps TlsTheorems Server ServerProps ServerTheorems.

(** ** Fields of the wire header *)

Lemma field_skip off n a b : (length a <= off)%nat -> field off n (a ++ b) = field (off - length a) n b.
Proof. intros. unfold field. by rewrite drop_app_ge. Qed.

Lemma field_here n v b : in_width (nbits n) v -> field 0 n (be_split n v ++ b) = v.
Proof.
  intros Hv. unfold field. rewrite drop_0. rewrite <- (length_be_split n v) at 1.
  rewrite take_app_length. by apply be_combine_split_id.
Qed.

Lemma field_last n v : in_width (nbits n) v -> field 0 n (be_split n v) = v.
Proof. intros. rewrite <- (app_nil_r (be_split n v)). by apply field_here. Qed.

(** Skip the fields before the wanted one. *)
Ltac find_field :=
  repeat (rewrite field_skip by (rewrite ?length_be_split; cbn; lia);
          rewrite ?length_be_split; cbn [Nat.sub]);
  first [by apply field_here | by apply field_last].

Lemma wire_header_fields seq ts len fmt w h :
  in_width 64 seq -> in_width 64 ts -> in_width 32 len -> in_width 32 fmt ->
  in_width 16 w -> in_width 16 h ->
  let header := wire_header seq ts len fmt w h in
  take 4 header = chars "FRAM" /\ field 4 2 header = 1 /\ field 6 2 header = 36 /\
  field 8 8 header = seq /\ field 16 8 header = ts /\ field 24 4 header = len /\
  field 28 4 header = fmt /\ field 32 2 header = w /\ field 34 2 header = h.
Proof.
  intros Hs Ht Hl Hf Hw Hh header. unfold header, wire_header. split; [done|].
  split_and!; rewrite field_skip by (cbn; lia); change (length (chars "FRAM")) with 4%nat; cbn [Nat.sub]; find_field.
Qed.

(** ** Frames *)

(** What the server is to make of a frame. *)
Definition rx_of (f : frame) : received :=
  mkReceived (f_seq f) (f_timestamp_ns f) (f_width f) (f_height f)
    (fourccToString (f_pixel_format f)) (f_data f).

Section Frames.
Context (f : frame) (Hf : frame_ok MAX_FRAME_SIZE f).

Lemma header_ok :
  let h := wire_header (f_seq f) (f_timestamp_ns f) (f_len f) (f_pixel_format f) (f_width f) (f_height f) in
  length h = 36%nat /\ take 4 h = chars "FRAM" /\ field 4 2 h = 1 /\ field 24 4 h <= PAYLOAD_MAX /\
  field 24 4 h = f_len f /\
  mkReceived (field 8 8 h) (field 16 8 h) (field 32 2 h) (field 34 2 h) (fourccToString (field 28 4 h)) (f_data f)
    = rx_of f.
Proof.
  destruct Hf as [H1 H2 H3 H4 H5 H6 H7]. intros h.
  destruct (wire_header_fields _ _ _ _ _ _ H1 H2 H7 H3 H4 H5) as (E1 & E2 & _ & E3 & E4 & E5 & E6 & E7 & E8).
  fold h in E1, E2, E3, E4, E5, E6, E7, E8. rewrite E1, E2, E3, E4, E5, E6, E7, E8.
  unfold MAX_FRAME_SIZE, PAYLOAD_MAX in *. split_and!; [apply length_wire_header | done | done | lia | done | done].
Qed.

Lemma parse_wire_frame n rest :
  parse (S n) (wire_frame f ++ rest) = (rx_of f :: (parse n rest).1, (parse n rest).2).
Proof.
  destruct header_ok as (H1 & H2 & H3 & H4 & H5 & H6). unfold wire_frame. rewrite <- app_assoc.
  rewrite parse_frame by done. by rewrite H6.
Qed.

(** A frame that is cut short is not accepted. *)
Lemma parse_cut_frame n m :
  (m < length (wire_frame f))%nat ->
  exists reason, parse (S n) (take m (wire_frame f)) = ([], reason) /\ (reason = NoHeader \/ reason = NoPayload).
Proof.
  intros Hm. destruct header_ok as (H1 & H2 & H3 & H4 & H5 & _). unfold wire_frame in *.
  destruct (decide (m < 36)%nat).
  - exists NoHeader. split; [|by left]. apply parse_short. rewrite length_take. lia.
  - exists NoPayload. split; [|by right]. rewrite take_app_ge by lia. apply parse_no_payload; try done.
    rewrite H5, length_take, H1. rewrite length_app, H1 in Hm. unfold f_len. lia.
Qed.
End Frames.

Lemma parse_wire_stream fs n rest :
  Forall (frame_ok MAX_FRAME_SIZE) fs ->
  parse (length fs + n) (wire_stream fs ++ rest) = (map rx_of fs ++ (parse n rest).1, (parse n rest).2).
Proof.
  induction 1 as [|f fs Hf _ IH]; [cbn; by destruct (parse n rest)|]. unfold wire_stream in *.
  cbn [map concat length Nat.add]. rewrite <- app_assoc, parse_wire_frame by done. by rewrite IH.
Qed.

(** ** A connection *)

Section Connection.
Context {COps : SslOps} {CLaws : SslLaws COps}.

(** The complete frames of a connection's stream, and what is left. *)
Lemma session_complete (s : list frame * @conn COps) :
  session_good s ->
  exists complete cut, complete `prefix_of` s.1 /\ Forall (frame_ok MAX_FRAME_SIZE) complete /\
    (length s.1 <= S (length complete))%nat /\
    sent s.2 = wire_stream complete ++ cut /\
    (cut = [] \/ exists f m, frame_ok MAX_FRAME_SIZE f /\ cut = take m (wire_frame f) /\
      (m < length (wire_frame f))%nat).
Proof.
  intros [Hok [Hs|(fs & f & m & Hfs & Hs)]].
  - exists s.1, []. rewrite app_nil_r. split_and!; [done | done | lia | done | by left].
  - rewrite Hfs in *. apply Forall_app in Hok as [Hok1 Hok2]. apply Forall_inv in Hok2 as Hf.
    destruct (decide (m < length (wire_frame f))%nat) as [Hm|Hm].
    + exists fs, (take m (wire_frame f)). rewrite length_app. cbn.
      split_and!; [by apply prefix_app_r | done | lia | done | right; by exists f, m].
    + exists (fs ++ [f]), []. rewrite app_nil_r, wire_stream_snoc.
      split_and!; [done | apply Forall_app_2; done | lia | | by left]. by rewrite Hs, take_ge by lia.
Qed.

(** What the reference parser makes of it. *)
Lemma parse_session (s : list frame * @conn COps) :
  session_good s ->
  exists complete, complete `prefix_of` s.1 /\ (length s.1 <= S (length complete))%nat /\
    Forall (frame_ok MAX_FRAME_SIZE) complete /\
    forall k, (length s.1 < k)%nat ->
      exists reason, parse k (sent s.2) = (map rx_of complete, reason) /\
        (reason = NoHeader \/ reason = NoPayload).
Proof.
  intros Hs. destruct (session_complete s Hs) as (complete & cut & Hpre & Hok & Hlen & Hsent & Hcut).
  exists complete. split_and!; [done..|]. intros k Hk. apply prefix_length in Hpre as Hle.
  replace k with (length complete + S (k - S (length complete)))%nat by lia.
  rewrite Hsent, parse_wire_stream by done.
  destruct Hcut as [->|(f & m & Hf & -> & Hm)].
  - exists NoHeader. rewrite parse_short by (cbn; lia). cbn. rewrite app_nil_r. eauto.
  - destruct (parse_cut_frame f Hf (k - S (length complete)) m Hm) as (reason & -> & Hr).
    exists reason. cbn. by rewrite app_nil_r.
Qed.
End Connection.

(** ** The guarantees *)

(** C21: the header crosses hosts. What the client's [initFrameHeader] leaves in
    memory on a host of either byte order is the packed struct's 36 bytes, each
    field big-endian at the offset that the comment of protocol.hpp lists; and
    the server, on a host of either byte order, reads from them the magic,
    version 1, header length 36 and every field the client put in. (README.md
    describes another format, with a header of 40 bytes and 40 in its length
    field; the client never sends that.) *)
Theorem header_crosses_hosts bo bo' seq ts len fmt w h :
  in_width 64 seq -> in_width 64 ts -> in_width 32 len -> in_width 32 fmt ->
  in_width 16 w -> in_width 16 h ->
  let image := Protocol.FrameHeader_image bo (initFrameHeader bo seq ts len fmt w h) in
  let hdr := Server.FrameHeader_of bo' image in
  image = wire_header seq ts len fmt w h /\ Z.of_nat (length image) = Protocol.FRAME_HEADER_SIZE /\
  Server.magic hdr = chars "FRAM" /\ ntohs bo' (Server.version hdr) = Protocol.PROTO_VERSION /\
  ntohs bo' (Server.header_len hdr) = Protocol.FRAME_HEADER_SIZE /\
  Server.ntohll bo' (Server.seq hdr) = seq /\ Server.ntohll bo' (Server.timestamp_ns hdr) = ts /\
  ntohl bo' (Server.payload_len hdr) = len /\ ntohl bo' (Server.pixel_format hdr) = fmt /\
  ntohs bo' (Server.width hdr) = w /\ ntohs bo' (Server.height hdr) = h.
Proof.
  intros Hs Ht Hl Hf Hw Hh image hdr.
  assert (image = wire_header seq ts len fmt w h) as Hi by by apply header_image_wire.
  assert (length image = 36%nat) as Hlen by (rewrite Hi; apply length_wire_header).
  destruct (header_fields bo' image Hlen) as (E1 & E2 & E3 & E4 & E5 & E6 & E7 & E8).
  destruct (wire_header_fields seq ts len fmt w h Hs Ht Hl Hf Hw Hh)
    as (F1 & F2 & F3 & F4 & F5 & F6 & F7 & F8 & F9).
  rewrite <- Hi in F1, F2, F3, F4, F5, F6, F7, F8, F9. fold hdr in E1, E2, E3, E4, E5, E6, E7, E8.
  rewrite E1, E2, E3, E4, E5, E6, E7, E8.
  split_and!; [done | by rewrite Hlen | done | done | | done..].
  unfold hdr, ntohs. cbn [Server.header_len Server.FrameHeader_of].
  rewrite ntoh_of_mem by (rewrite length_take, length_drop; lia). exact F3.
Qed.

Section Run.
Context {COps : SslOps} {CLaws : SslLaws COps}.
Context {SOps : SslOps} {SLaws : SslLaws SOps} {SProg : SslProgress SOps} {SRel : SslReliable SOps}.
Context {Fs : FsOps} {FLaws : FsLaws Fs} {FProg : FsProgress Fs}.

(** The server at the other end of a client connection: its stream is what the
    client had sent when it gave the connection up. *)
Definition peer_of (k : @conn COps) (ssl : @conn SOps) : Prop := steady ssl /\ incoming ssl = sent k.

(** C5: for each TLS connection of a client's life and a server reading that
    connection to its end, the server accepts exactly the frames the client
    offered on it (sequence number, timestamp, dimensions, format and payload
    as captured, in order) except that the last one may be missing if it was
    cut; it never accepts a corrupted or partial frame and leaves the loop
    only because the stream ended. Client and server may run on hosts of
    different byte order. *)
Theorem client_to_server bo bo' fuel tcfg b envs c calls cfg k ssl s stats :
  Forall (fun e => env_ok e.2) envs ->
  networkLoop (Ops := COps) bo fuel envs (set_ctx b (TlsClient_new tcfg)) = Some (c, calls) ->
  stats_wf stats ->
  forall session, session ∈ sessions calls -> peer_of session.2 ssl -> (length session.1 < k)%nat ->
  exists complete reason st,
    complete `prefix_of` session.1 /\ (length session.1 <= S (length complete))%nat /\
    converges (fun n => handleClient bo' n cfg (replicate k true ++ [false]) ssl s stats)
      (map rx_of complete, reason, st) /\
    (reason = NoHeader \/ reason = NoPayload) /\
    frames_received (cs_stats st) = u64 (frames_received stats + Z.of_nat (length complete)).
Proof.
  intros He Hrun Hwf session Hin [Hst Hinc] Hk.
  assert (session_good session) as Hgood.
  { edestruct (networkLoop_inv (Ops := COps)) as (_ & _ & H); [exact Hrun | done | | |].
    - instantiate (1 := idle b). by split_and!.
    - instantiate (1 := ([], [])). by split.
    - rewrite Forall_forall in H. by apply H. }
  destruct (parse_session session Hgood) as (complete & H1 & H2 & _ & Hparse).
  destruct (Hparse k Hk) as (reason & H3 & H4).
  destruct (handleClient_spec bo' cfg k ssl s stats Hwf)
    as (rxs & reason' & st & He' & _ & (Hc & _) & _ & _ & Hp).
  rewrite Hinc, H3 in Hp. specialize (Hp SRel Hst). injection Hp as <- <-.
  exists complete, reason, st. rewrite length_map in Hc. by split_and!.
Qed.
End Run.

(** ** Concrete runs *)

Example header_crosses_hosts_witness :
  Server.ntohll ORDER_BIG_ENDIAN (Server.seq (Server.FrameHeader_of ORDER_BIG_ENDIAN
    (Protocol.FrameHeader_image ORDER_LITTLE_ENDIAN
      (initFrameHeader ORDER_LITTLE_ENDIAN 7 1000 3 (PixelFormat_value JPEG) 4 2)))) = 7.
Proof.
  apply (header_crosses_hosts ORDER_LITTLE_ENDIAN ORDER_BIG_ENDIAN 7 1000 3 (PixelFormat_value JPEG) 4 2);
    unfold in_width; cbn; lia.
Defined.

(** The run of [TlsTheorems.demo_envs]: two connections; the first carries a
    whole frame and a piece of the next. *)
Definition demo_client_run : option (@TlsClient scripted_ops * list (@net_call scripted_ops)) :=
  networkLoop ORDER_LITTLE_ENDIAN 10 (demo_envs ++ [(false, refused_env)]) (set_ctx true (TlsClient_new demo_config)).

Definition demo_calls : list (@net_call scripted_ops) := from_option snd [] demo_client_run.
Definition demo_end : @TlsClient scripted_ops :=
  from_option fst (TlsClient_new demo_config) demo_client_run.
Definition demo_session : list frame * @conn scripted_ops := nth 0 (sessions demo_calls) ([], demo_conn).

Definition demo_peer : @conn scripted_ops :=
  mkScripted [Moves 3; Would SSL_ERROR_WANT_READ; Moves 50; Interrupted] [] (sc_sent demo_session.2)
    SSL_ERROR_ZERO_RETURN 0.

Example client_to_server_witness :
  exists complete reason st,
    converges (fun n => handleClient ORDER_BIG_ENDIAN n demo_server_config (replicate 5 true ++ [false])
      demo_peer demo_store demo_stats) (map rx_of complete, reason, st) /\
    complete `prefix_of` demo_session.1.
Proof.
  assert (Forall (fun e => env_ok e.2) (demo_envs ++ [(false, refused_env)])) as He
    by (apply Forall_app_2; [apply demo_envs_ok | apply Forall_cons_2; [exact refused_env_ok | constructor]]).
  destruct (client_to_server (COps := scripted_ops) ORDER_LITTLE_ENDIAN ORDER_BIG_ENDIAN 10 demo_config true
    (demo_envs ++ [(false, refused_env)]) demo_end demo_calls demo_server_config 5 demo_peer demo_store demo_stats
    He ltac:(vm_compute; reflexivity) demo_stats_wf demo_session)
    as (complete & reason & st & H1 & _ & H2 & _).
  - vm_compute. by left.
  - split; [|reflexivity]. cbn. repeat constructor.
  - vm_compute. lia.
  - by exists complete, reason, st.
Defined.
