(* ===== verification/Pipeline.v ===== *)
(** * From the camera to the server's files

    One run of the whole system seen by its parts: the frames [captureLoop]
    hands to [push], the run of the ring queue under its threads, the calls of
    [networkLoop], and a server at the other end of each connection. *)

From S2P Require Import Prelude Bytes Text Protocol RingQueue RingSpec RingRefine RingProps RingThreads ThreadProps.
From S2P Require Import Transport Files TlsClient TlsProps TlsTheorems Server ServerProps ServerTheorems.
From S2P Require Import CameraCapture CameraProps EndToEnd.
From stdpp Require Import sorting.

#[local] Open Scope Z_scope.

(** ** Sublists of increasing lists *)

Lemma sublist_Forall {A} (P : A -> Prop) l1 l2 : l1 `sublist_of` l2 -> Forall P l2 -> Forall P l1.
Proof.
  induction 1 as [|x l1 l2 _ IH|x l1 l2 _ IH]; intros H; [done| |];
    apply Forall_cons in H as [Hx H]; [constructor; auto | auto].
Qed.

Lemma sublist_sorted {A} (R : A -> A -> Prop) l1 l2 :
  l1 `sublist_of` l2 -> StronglySorted R l2 -> StronglySorted R l1.
Proof.
  induction 1 as [|x l1 l2 Hs IH|x l1 l2 Hs IH]; intros H; [done| |];
    apply StronglySorted_cons in H as [Hx H]; [|auto].
  apply StronglySorted_cons. split; [by eapply sublist_Forall | auto].
Qed.

Lemma sublist_map {A B} (g : A -> B) l1 l2 : l1 `sublist_of` l2 -> (g <$> l1) `sublist_of` (g <$> l2).
Proof. by induction 1; cbn; constructor. Qed.

Lemma sublist_concat {A} (ls1 ls2 : list (list A)) :
  Forall2 sublist ls1 ls2 -> concat ls1 `sublist_of` concat ls2.
Proof. induction 1; cbn; [done|]. by apply sublist_app. Qed.

Lemma prefix_sublist {A} (l1 l2 : list A) : l1 `prefix_of` l2 -> l1 `sublist_of` l2.
Proof. intros [k ->]. by apply sublist_inserts_r. Qed.

Lemma sorted_seq a n : StronglySorted Z.lt (Z.of_nat <$> List.seq a n).
Proof.
  revert a. induction n as [|n IH]; intros a; cbn; [constructor|].
  apply StronglySorted_cons. split; [|apply IH].
  apply Forall_fmap, Forall_forall. intros i Hi%elem_of_seq. cbn. lia.
Qed.

Lemma sorted_NoDup (l : list Z) : StronglySorted Z.lt l -> NoDup l.
Proof.
  induction 1 as [|x l _ IH Hx]; constructor; [|done].
  intros Hin. rewrite Forall_forall in Hx. specialize (Hx x Hin). lia.
Qed.

(** ** The views of one run *)

(** The frames that pushes offered to the queue, accepted or not. *)
Definition offered (tr : list event) : list frame :=
  omap (fun e => match e with EPush f _ => Some f | _ => None end) tr.

Lemma accepted_offered tr : accepted tr `sublist_of` offered tr.
Proof.
  induction tr as [|e tr IH]; [done|]. unfold accepted, offered in *. cbn.
  destruct e as [f []| | |]; cbn; try done; by constructor.
Qed.

Section Network.
Context {COps : SslOps} {CLaws : SslLaws COps}.

(** The frames the network thread popped. *)
Definition popped_frames (calls : list net_call) : list frame :=
  omap (fun c => match c with PopPacket p data => Some (shown_frame p data) | _ => None end) calls.

(** The connections of a run carry what was popped, in order. *)
Lemma sessions_sublist calls :
  concat (map fst (foldl session_step ([], []) calls).2) ++ (foldl session_step ([], []) calls).1
    `sublist_of` popped_frames calls.
Proof.
  induction calls as [|c calls IH] using rev_ind; [done|].
  rewrite foldl_app. cbn [foldl]. unfold popped_frames in *. rewrite omap_app.
  destruct (foldl session_step ([], []) calls) as [cur acc]. cbn in IH.
  destruct c; cbn; rewrite ?app_nil_r; try done.
  - trans (concat (map fst acc) ++ cur); [by apply sublist_inserts_r | done].
  - by rewrite map_app, concat_app; cbn; rewrite !app_nil_r.
  - rewrite app_assoc. by apply sublist_app.
Qed.
End Network.

Section Pipeline.
Context {COps : SslOps} {CLaws : SslLaws COps}.
Context {SOps : SslOps} {SLaws : SslLaws SOps} {SProg : SslProgress SOps} {SRel : SslReliable SOps}.
Context {Fs : FsOps} {FLaws : FsLaws Fs} {FProg : FsProgress Fs}.

(** A server that reads this connection to its end receives [complete]. *)
Definition server_receives (session : list frame * @conn COps) (complete : list frame) : Prop :=
  complete `prefix_of` session.1 /\ (length session.1 <= S (length complete))%nat /\
  forall bo cfg k ssl s stats,
    stats_wf stats -> peer_of session.2 ssl -> (length session.1 < k)%nat ->
    exists reason st,
      converges (fun n => handleClient bo n cfg (replicate k true ++ [false]) ssl s stats)
        (map rx_of complete, reason, st) /\ (reason = NoHeader \/ reason = NoPayload).

Lemma session_server session :
  session_good session -> exists complete, server_receives session complete.
Proof.
  intros Hs. destruct (parse_session session Hs) as (complete & H1 & H2 & _ & Hparse).
  exists complete. split_and!; [done..|]. intros bo cfg k ssl s stats Hwf [Hst Hinc] Hk.
  destruct (Hparse k Hk) as (reason & H3 & H4).
  destruct (handleClient_spec bo cfg k ssl s stats Hwf) as (rxs & reason' & st & He & _ & _ & _ & _ & Hp).
  rewrite Hinc, H3 in Hp. specialize (Hp SRel Hst). injection Hp as <- <-. by exists reason, st.
Qed.

Lemma sessions_servers sessions :
  Forall session_good sessions -> exists completes, Forall2 server_receives sessions completes.
Proof.
  induction 1 as [|s sessions Hs _ (completes & IH)]; [by exists []|].
  destruct (session_server s Hs) as (complete & Hc). exists (complete :: completes). by constructor.
Qed.

(** A server configured as [cfg], which saves frames, that reads this connection
    to its end receives [complete] and, if no save fails (its counter of saved
    frames tells), has each of these frames in a file of its own. *)
Definition server_saves (cfg : Config) (session : list frame * @conn COps) (complete : list frame) : Prop :=
  forall bo k ssl s stats,
    stats_wf stats -> peer_of session.2 ssl -> (length session.1 < k)%nat ->
    frames_saved stats + Z.of_nat (length complete) < 2 ^ 64 ->
    exists reason st,
      converges (fun n => handleClient bo n cfg (replicate k true ++ [false]) ssl s stats)
        (map rx_of complete, reason, st) /\
      (forall d, opened (cs_fs st) d = opened s d) /\
      NoDup (rx_filename cfg <$> map rx_of complete) /\
      (frames_saved (cs_stats st) = frames_saved stats + Z.of_nat (length complete) ->
       Forall (fun f => file (cs_fs st) (rx_filename cfg (rx_of f)) = Some (f_data f)) complete).

Lemma names_distinct cfg fs :
  (length (c_string (output_dir cfg)) <= 479)%nat -> Forall (frame_ok MAX_FRAME_SIZE) fs ->
  StronglySorted Z.lt (f_seq <$> fs) -> NoDup (rx_filename cfg <$> map rx_of fs).
Proof.
  intros Hdir. induction fs as [|f fs IH]; intros Hok Hs; cbn; [constructor|].
  apply Forall_cons in Hok as [Hf Hok]. apply StronglySorted_cons in Hs as [Hlt Hs].
  constructor; [|by apply IH]. intros Hin. apply list_elem_of_fmap in Hin as (rx & Hn & Hin).
  apply list_elem_of_fmap in Hin as (g & -> & Hg).
  rewrite Forall_forall in Hok. specialize (Hok g Hg).
  destruct (filenames_distinct cfg (rx_of f) (rx_of g)) as [Heq _]; [done | apply Hf | apply Hok | done |].
  rewrite Forall_forall in Hlt. specialize (Hlt (f_seq g)). cbn in Heq. rewrite Heq in Hlt.
  assert (f_seq g < f_seq g); [|lia]. apply Hlt. apply list_elem_of_fmap. by exists g.
Qed.

Lemma received_saved cfg session complete :
  save_frames cfg = true -> (length (c_string (output_dir cfg)) <= 479)%nat -> session_good session -> server_receives session complete -> StronglySorted Z.lt (f_seq <$> complete) ->
  server_saves cfg session complete.
Proof.
  intros Hsave Hdir Hgood (Hpre & _ & Hrecv) Hsort bo k ssl s stats Hwf Hpeer Hk Hsmall.
  destruct (Hrecv bo cfg k ssl s stats Hwf Hpeer Hk) as (reason & st & Hc & _).
  destruct (session_files bo cfg k ssl s stats Hwf Hsave) as (rxs & reason' & st' & Hc' & _ & Hd & Hfiles).
  pose proof (converges_unique _ _ _ Hc Hc') as E. injection E as <- <- <-.
  assert (NoDup (rx_filename cfg <$> map rx_of complete)) as Hnd.
  { apply names_distinct; [done | | done]. eapply sublist_Forall; [by apply prefix_sublist | apply Hgood]. }
  exists reason, st. split_and!; [done..|]. intros Hall. rewrite length_map in Hfiles.
  specialize (Hfiles Hnd Hsmall Hall). apply Forall_fmap in Hfiles. done.
Qed.

Lemma sessions_saved cfg sessions completes :
  save_frames cfg = true -> (length (c_string (output_dir cfg)) <= 479)%nat -> Forall session_good sessions -> Forall2 server_receives sessions completes ->
  StronglySorted Z.lt (f_seq <$> concat completes) -> Forall2 (server_saves cfg) sessions completes.
Proof.
  intros Hsave Hdir Hgood H. induction H as [|s c ss cs Hr _ IH]; intros Hsort; constructor.
  - apply Forall_cons in Hgood as [Hg _]. apply received_saved; [done..|].
    eapply sublist_sorted; [|exact Hsort]. cbn. rewrite fmap_app. by apply sublist_inserts_r.
  - apply Forall_cons in Hgood as [_ Hg]. apply IH; [done|].
    eapply sublist_sorted; [|exact Hsort]. cbn. rewrite fmap_app. by apply sublist_inserts_l.
Qed.

(** The servers receive, in order, frames out of those the network thread
    popped. *)
Lemma sessions_in_order calls frames :
  Forall session_good (sessions calls) -> popped_frames calls `sublist_of` frames ->
  StronglySorted Z.lt (f_seq <$> frames) ->
  exists completes, Forall2 server_receives (sessions calls) completes /\
    concat completes `sublist_of` frames /\ StronglySorted Z.lt (f_seq <$> concat completes).
Proof.
  intros Hgood Hpops Hsorted. destruct (sessions_servers _ Hgood) as (completes & Hc). exists completes.
  assert (concat completes `sublist_of` frames) as Hsub.
  { trans (concat (map fst (sessions calls))).
    - apply sublist_concat. clear -Hc. induction Hc as [|s l ss ls (Hp & _) _ IH]; constructor; [|done].
      by apply prefix_sublist.
    - trans (popped_frames calls); [|done].
      etrans; [|apply sessions_sublist]. by apply sublist_inserts_r. }
  split_and!; [done..|]. eapply sublist_sorted; [by apply sublist_map | done].
Qed.

(** What is popped was offered, in this order. *)
Lemma popped_offered bo q tr b :
  ring_rep bo q sp_empty -> run bo (sys_init q) tr b -> popped tr `sublist_of` offered tr.
Proof.
  intros R Hrun. destruct (run_rel bo q tr b R Hrun) as (s & _ & Hsp).
  destruct (spec_run_fifo (capacity_ q) tr s) as [_ (_ & _ & _ & Hpop)];
    [apply (geo_cap q), (rep_geo _ _ _ R) | done |].
  trans (accepted tr); [|apply accepted_offered].
  trans (take (Z.to_nat (sp_base s)) (accepted tr)); [done | apply sublist_take].
Qed.

(** The camera numbers the frames it hands over. *)
Lemma captured_increasing camera envs c1 pushes c2 :
  start camera = (true, c1) -> captureLoop envs c1 = Some (pushes, c2) ->
  Z.of_nat (length pushes) < 2 ^ 64 -> StronglySorted Z.lt (pa_seq <$> pushes).
Proof.
  intros Hstart Hcap Hlen.
  assert (frame_seq_ c1 = 0) as H0.
  { unfold start in Hstart. destruct (cap_opened_ camera); [|done]. by injection Hstart as <-. }
  pose proof (captureLoop_seq envs c1 pushes c2 Hcap) as Hseq. rewrite H0 in Hseq. specialize (Hseq ltac:(done)).
  rewrite Hseq.
  erewrite list_fmap_ext; [apply (sorted_seq 0 (length pushes))|].
  intros i x Hx. apply lookup_seq in Hx. rewrite Z.add_0_l, u64_id by lia. done.
Qed.

(** The pipeline. Take any run of the capture thread, of the queue under all
    interleavings of its threads, and of the network thread over any number of
    connections with any failures. The frames that reach the servers (each
    connection read to its end) are complete and unaltered frames among those
    captured, with strictly increasing sequence numbers over all connections:
    nothing is duplicated, reordered or corrupted; and all but possibly the
    last frame offered on each connection arrive. *)
Theorem pipeline_in_order bo q tr b camera envs c1 pushes c2 bo' fuel tcfg ctx nenvs c calls :
  ring_rep bo q sp_empty -> run bo (sys_init q) tr b ->
  start camera = (true, c1) -> captureLoop envs c1 = Some (pushes, c2) ->
  Z.of_nat (length pushes) < 2 ^ 64 -> offered tr `sublist_of` (offered_frame <$> pushes) ->
  Forall (fun e => env_ok e.2) nenvs ->
  networkLoop (Ops := COps) bo' fuel nenvs (set_ctx ctx (TlsClient_new tcfg)) = Some (c, calls) ->
  popped_frames calls `sublist_of` popped tr ->
  exists completes, Forall2 server_receives (sessions calls) completes /\
    concat completes `sublist_of` (offered_frame <$> pushes) /\
    StronglySorted Z.lt (f_seq <$> concat completes).
Proof.
  intros R Hrun Hstart Hcap Hlen Hoff Henvs Hnet Hpops.
  apply sessions_in_order.
  - edestruct (networkLoop_inv (Ops := COps)) as (_ & _ & H); [exact Hnet | done | | | exact H].
    + instantiate (1 := idle ctx). by split_and!.
    + by split.
  - trans (popped tr); [done|]. trans (offered tr); [by eapply popped_offered | done].
  - rewrite <- list_fmap_compose. by eapply captured_increasing.
Qed.
End Pipeline.

(** ** A concrete run *)

(** The camera produces frames 0 and 1; frame 1 is [demo_frame 1], which passes
    the queue in [demo_trace] and is sent on the connection [good_connect]. *)
Definition demo_camera_run : list (bool * capture_env) :=
  [(true, mkCaptureEnv (Some demo_mat) (0, 500) (fun _ => Some (chars "ab")));
   (true, mkCaptureEnv (Some demo_mat) (0, 1000) (fun _ => Some (f_data (demo_frame 1))));
   (false, mkCaptureEnv None (0, 2000) (fun _ => None))].

Definition demo_pushes : list push_args := from_option fst [] (captureLoop demo_camera_run (start demo_open_camera).2).

Definition demo_popped_packet : FramePacket := mkFramePacket 1 1000 0x47504A4D 4 2 3 28 0.

Definition demo_connections : list (bool * @loop_env scripted_ops) :=
  [(true, refused_env); (true, mkLoopEnv good_connect (Some demo_popped_packet) (f_data (demo_frame 1)));
   (false, refused_env)].

Definition demo_sending_run : option (@TlsClient scripted_ops * list (@net_call scripted_ops)) :=
  networkLoop ORDER_LITTLE_ENDIAN 10 demo_connections (set_ctx true (TlsClient_new demo_config)).

Lemma demo_connections_ok : Forall (fun e => env_ok e.2) demo_connections.
Proof.
  apply Forall_cons_2; [exact refused_env_ok|]. apply Forall_cons_2; [|apply Forall_cons_2; [exact refused_env_ok | constructor]].
  split; [split; [done | by intros k [= <-]] | intros p [= <-]].
  split; [constructor; split; vm_compute; congruence | done].
Qed.

Example pipeline_in_order_witness :
  exists completes,
    Forall2 (server_receives (SOps := scripted_ops) (Fs := store_ops))
      (sessions (from_option snd [] demo_sending_run)) completes /\
    StronglySorted Z.lt (f_seq <$> concat completes).
Proof.
  destruct demo_run as (b & p & Hr & _).
  destruct (pipeline_in_order (COps := scripted_ops) (SOps := scripted_ops) (Fs := store_ops)
    ORDER_LITTLE_ENDIAN demo_queue demo_trace b demo_open_camera demo_camera_run (start demo_open_camera).2
    demo_pushes (from_option snd demo_open_camera (captureLoop demo_camera_run (start demo_open_camera).2))
    ORDER_LITTLE_ENDIAN 10 demo_config true demo_connections
    (from_option fst (TlsClient_new demo_config) demo_sending_run) (from_option snd [] demo_sending_run))
    as (completes & H1 & _ & H2).
  - exact demo_rep.
  - exact Hr.
  - reflexivity.
  - vm_compute. reflexivity.
  - vm_compute. reflexivity.
  - change (sublist [demo_frame 1] (offered_frame <$> demo_pushes)). vm_compute. repeat constructor.
  - exact demo_connections_ok.
  - vm_compute. reflexivity.
  - change (sublist (popped_frames (from_option snd [] demo_sending_run)) [demo_frame 1]). vm_compute. repeat constructor.
  - by exists completes.
Defined.
