(* ===== verification/Process.v ===== *)
(** * The client process (src/main.cpp with all of its threads)

    The capture thread runs [captureLoop], the network thread [networkLoop], the
    main thread waits and shuts both down, a signal may arrive at any moment.
    They share the ring queue, [g_running] and the packets; the queue's calls
    are cut into the steps of RingThreads, [sslWriteAll] into its SSL_write
    calls, each of which reads the packet's slot when it is made. A step touches
    what other threads see at most once, so the interleavings of the steps are
    those of the threads. *)

From S2P Require Import Prelude Bytes Protocol RingQueue RingSpec RingRefine RingThreads.
From S2P Require Import CameraCapture Main Transport TlsClient TlsProps.

(** ** What [main] hands to the components *)

Definition camera_config (c : Main.Config) : CameraConfig :=
  mkCameraConfig (Main.device c) (Main.width c) (Main.height c) (Main.fps c)
    (Main.use_jpeg c) (Main.jpeg_quality c).

Definition tls_config (c : Main.Config) (capture : CameraCapture) : TlsConfig :=
  let d := TlsConfig_default in
  mkTlsConfig (Main.host c) (Main.port c) (Main.ca_path c) (connect_timeout_ms d)
    (reconnect_base_ms d) (reconnect_max_ms d) (reconnect_multiplier d)
    (actual_width_ capture) (actual_height_ capture) (pixel_format_ capture).

(** The frame that a call of [push] copies; [None] when [push] returns false
    before it takes the mutex. *)
Definition call_frame (max_frame_size : Z) (a : push_args) : option frame :=
  if (pa_len a =? 0) || (max_frame_size <? pa_len a) then None
  else Some (mkFrame (pa_seq a) (pa_timestamp_ns a) (pa_pixel_format a) (pa_width a) (pa_height a)
               (take (Z.to_nat (pa_len a)) (pa_data a))).

(** ** Where the threads are *)

Inductive capture_phase := CapLoop | CapDone.

Inductive net_phase :=
  | NUnborn                                      (** not created *)
  | NHead                                        (** at running.load() *)
  | NCall                                        (** connected, at the call of [pop] *)
  | NPop                                         (** in [pop], or back from it *)
  | NHeader (p : FramePacket) (rest : list byte) (remaining : Z)  (** in the first sslWriteAll *)
  | NPayload (p : FramePacket) (off remaining : Z)                (** in the second one *)
  | NFail (p : FramePacket)                      (** a write failed: at frame_packet_free *)
  | NClose                                       (** then at tlsDisconnect *)
  | NSent (p : FramePacket)                      (** everything sent *)
  | NExit.                                       (** returned *)

Inductive main_phase :=
  | MSpawn                                       (** at pthread_create of the network thread *)
  | MWait                                        (** in the waiting loop *)
  | MStats1 (pushed : Z) | MStats2 (pushed dropped : Z)  (** in getStats *)
  | MStop (ok : bool)                            (** at g_running = false *)
  | MShut (ok : bool)                            (** in queue->shutdown() *)
  | MJoinCapture (ok : bool)
  | MJoinNetwork
  | MDelete                                      (** at delete tls *)
  | MDeleteCapture                               (** at delete capture *)
  | MDeleteQueue                                 (** at delete queue *)
  | MExit (code : Z).

(** What the destructors of the camera and of the queue release. *)
Inductive deletion := DeviceRelease | QueueRelease (c : resource_call).

Section Process.
Context {Ops : SslOps} {Laws : SslLaws Ops}.

Record proc := mkProc {
  p_sys : sys;                   (** the queue and the threads' places in it *)
  p_running : bool;              (** [g_running] *)
  p_camera : CameraCapture;
  p_capture : capture_phase;
  p_tls : TlsClient;
  p_net : net_phase;
  p_main : main_phase;
  p_trace : list event;          (** history: what happened at the queue *)
  p_pushes : list push_args;     (** history: the calls of [push] *)
  p_calls : list net_call;       (** history: the calls of the TLS client *)
  p_stats : list Stats;          (** history: the statistics lines *)
  p_deletes : list deletion      (** history: what the deletes released *)
}.

Definition ring (e : option event) (s : sys) (p : proc) : proc :=
  mkProc s (p_running p) (p_camera p) (p_capture p) (p_tls p) (p_net p) (p_main p)
    (p_trace p ++ option_list e) (p_pushes p) (p_calls p) (p_stats p) (p_deletes p).
Definition set_running (b : bool) (p : proc) : proc :=
  mkProc (p_sys p) b (p_camera p) (p_capture p) (p_tls p) (p_net p) (p_main p)
    (p_trace p) (p_pushes p) (p_calls p) (p_stats p) (p_deletes p).
Definition camera (calls : list push_args) (c : CameraCapture) (p : proc) : proc :=
  mkProc (p_sys p) (p_running p) c (p_capture p) (p_tls p) (p_net p) (p_main p)
    (p_trace p) (p_pushes p ++ calls) (p_calls p) (p_stats p) (p_deletes p).
Definition set_capture (ph : capture_phase) (p : proc) : proc :=
  mkProc (p_sys p) (p_running p) (p_camera p) ph (p_tls p) (p_net p) (p_main p)
    (p_trace p) (p_pushes p) (p_calls p) (p_stats p) (p_deletes p).
Definition tls (calls : list net_call) (c : TlsClient) (p : proc) : proc :=
  mkProc (p_sys p) (p_running p) (p_camera p) (p_capture p) c (p_net p) (p_main p)
    (p_trace p) (p_pushes p) (p_calls p ++ calls) (p_stats p) (p_deletes p).
Definition set_net (ph : net_phase) (p : proc) : proc :=
  mkProc (p_sys p) (p_running p) (p_camera p) (p_capture p) (p_tls p) ph (p_main p)
    (p_trace p) (p_pushes p) (p_calls p) (p_stats p) (p_deletes p).
Definition set_main (ph : main_phase) (p : proc) : proc :=
  mkProc (p_sys p) (p_running p) (p_camera p) (p_capture p) (p_tls p) (p_net p) ph
    (p_trace p) (p_pushes p) (p_calls p) (p_stats p) (p_deletes p).
Definition report (st : Stats) (p : proc) : proc :=
  mkProc (p_sys p) (p_running p) (p_camera p) (p_capture p) (p_tls p) (p_net p) (p_main p)
    (p_trace p) (p_pushes p) (p_calls p) (p_stats p ++ [st]) (p_deletes p).
Definition release (ds : list deletion) (p : proc) : proc :=
  mkProc (p_sys p) (p_running p) (p_camera p) (p_capture p) (p_tls p) (p_net p) (p_main p)
    (p_trace p) (p_pushes p) (p_calls p) (p_stats p) (p_deletes p ++ ds).

Context (bo : byte_order).

(** ** The capture thread *)

Definition enter_push (f : frame) (s : sys) : sys :=
  mkSys (sy_q s) (sy_owner s) (PLock f) (sy_network s) (sy_main s) (sy_packets s).

Definition at_capture_loop (p : proc) : Prop := p_capture p = CapLoop /\ sy_capture (p_sys p) = PIdle.

Inductive capture_thread : proc -> proc -> Prop :=
  | Cap_exit p :
      at_capture_loop p -> p_running p && streaming_ (p_camera p) = false ->
      capture_thread p (set_capture CapDone p)
  | Cap_skip p e call cam :
      at_capture_loop p -> p_running p && streaming_ (p_camera p) = true ->
      capture_body e (p_camera p) = (call, cam) ->
      call ≫= call_frame (max_frame_size_ (sy_q (p_sys p))) = None ->
      capture_thread p (camera (option_list call) cam p)
  | Cap_call p e a cam f :
      at_capture_loop p -> p_running p && streaming_ (p_camera p) = true ->
      capture_body e (p_camera p) = (Some a, cam) ->
      call_frame (max_frame_size_ (sy_q (p_sys p))) a = Some f ->
      capture_thread p (camera [a] cam (ring None (enter_push f (p_sys p)) p))
  | Cap_push p e s :
      sy_capture (p_sys p) <> PIdle -> capture_step bo (p_sys p) e s ->
      capture_thread p (ring e s p).

(** ** The network thread *)

Definition enter_pop (timeout_ms : Z) (s : sys) : sys :=
  mkSys (sy_q s) (sy_owner s) (sy_capture s) (CLock timeout_ms) (sy_main s) (sy_packets s).

Definition set_queue (q : RingQueue) (packets : list FramePacket) (s : sys) : sys :=
  mkSys q (sy_owner s) (sy_capture s) (sy_network s) (sy_main s) packets.

(** Where a call of SSL_write that returned [w] leaves the loop of sslWriteAll. *)
Definition after_write (p : FramePacket) (k : conn) (w : Z) (again advanced : net_phase) : net_phase :=
  if w <=? 0 then (if retries k w then again else NFail p) else advanced.

Inductive network_thread : proc -> proc -> Prop :=
  | Net_stop p :
      p_net p = NHead -> p_running p = false ->
      network_thread p (tls (tlsDisconnect (p_tls p)).2 (tlsDisconnect (p_tls p)).1 (set_net NExit p))
  | Net_connected p :
      p_net p = NHead -> p_running p = true -> state_ (p_tls p) = Connected ->
      network_thread p (set_net NCall p)
  | Net_connect p e c calls :
      p_net p = NHead -> p_running p = true -> state_ (p_tls p) <> Connected -> fresh_env e ->
      tlsConnect e (set_state Connecting (p_tls p)) = (true, c, calls) ->
      network_thread p (tls calls c (set_net NCall p))
  | Net_refused p e c calls d :
      p_net p = NHead -> p_running p = true -> state_ (p_tls p) <> Connected -> fresh_env e ->
      tlsConnect e (set_state Connecting (p_tls p)) = (false, c, calls) ->
      next_delay (config_ c) (reconnect_delay_ms_ c) = Some d ->
      network_thread p
        (tls (calls ++ [Sleep (sleepMs (reconnect_delay_ms_ c)).1 (sleepMs (reconnect_delay_ms_ c)).2])
           (set_delay d c) p)
  | Net_call p :
      p_net p = NCall ->
      network_thread p (set_net NPop (ring None (enter_pop QUEUE_TIMEOUT_MS (p_sys p)) p))
  | Net_pop p e s :
      p_net p = NPop -> sy_network (p_sys p) <> CIdle -> network_step bo (p_sys p) e s ->
      network_thread p (ring e s p)
  | Net_null p :
      p_net p = NPop -> sy_network (p_sys p) = CIdle -> sy_packets (p_sys p) = [] ->
      network_thread p (set_net NHead p)
  | Net_packet p pkt rest data :
      p_net p = NPop -> sy_network (p_sys p) = CIdle -> sy_packets (p_sys p) = pkt :: rest ->
      packet_bytes (sy_q (p_sys p)) pkt = Some data ->
      network_thread p (tls [PopPacket pkt data] (p_tls p)
        (set_net (NHeader pkt (packet_header bo pkt) FRAME_HEADER_SIZE) p))
  | Net_header_done p pkt rest :
      p_net p = NHeader pkt rest 0 ->
      network_thread p (set_net (NPayload pkt 0 (pkt_len pkt)) p)
  | Net_header_write p pkt rest n k w k' :
      p_net p = NHeader pkt rest n -> n <> 0 -> ssl_ (p_tls p) = Some k ->
      SSL_write k rest (i32_num n) = (w, k') ->
      network_thread p (tls [] (set_ssl k' (p_tls p))
        (set_net (after_write pkt k' w (NHeader pkt rest n)
                    (NHeader pkt (drop (Z.to_nat w) rest) (u64 (n - w)))) p))
  | Net_payload_done p pkt off :
      p_net p = NPayload pkt off 0 ->
      network_thread p (set_net (NSent pkt) p)
  | Net_payload_write p pkt off n m data k w k' :
      p_net p = NPayload pkt off n -> n <> 0 -> ssl_ (p_tls p) = Some k ->
      mmap_base_ (sy_q (p_sys p)) = Some m -> read_mem m (pkt_data pkt + off) n = Some data ->
      SSL_write k data (i32_num n) = (w, k') ->
      network_thread p (tls [] (set_ssl k' (p_tls p))
        (set_net (after_write pkt k' w (NPayload pkt off n) (NPayload pkt (off + w) (u64 (n - w)))) p))
  | Net_fail p pkt rest q :
      p_net p = NFail pkt -> sy_packets (p_sys p) = pkt :: rest ->
      frame_packet_free (sy_q (p_sys p)) (Some pkt) = Some q ->
      network_thread p (tls [FreePacket (pkt_slot_idx_ pkt)] (p_tls p)
        (set_net NClose (ring (Some ERelease) (set_queue q rest (p_sys p)) p)))
  | Net_close p :
      p_net p = NClose ->
      network_thread p (tls (tlsDisconnect (p_tls p)).2 (tlsDisconnect (p_tls p)).1 (set_net NHead p))
  | Net_sent p pkt rest q :
      p_net p = NSent pkt -> sy_packets (p_sys p) = pkt :: rest ->
      frame_packet_free (sy_q (p_sys p)) (Some pkt) = Some q ->
      network_thread p (tls [FreePacket (pkt_slot_idx_ pkt)]
        (count_sent (FRAME_HEADER_SIZE + pkt_len pkt) (p_tls p))
        (set_net NHead (ring (Some ERelease) (set_queue q rest (p_sys p)) p))).

(** ** The main thread, and signals *)

Inductive main_thread : proc -> proc -> Prop :=
  | Main_spawn p :
      p_main p = MSpawn -> main_thread p (set_main MWait (set_net NHead p))
  | Main_spawn_fail p :
      p_main p = MSpawn -> main_thread p (set_main (MStop false) p)
  | Main_leave p :
      p_main p = MWait -> p_running p = false -> main_thread p (set_main (MStop true) p)
  | Main_stats1 p :
      p_main p = MWait -> p_running p = true ->
      main_thread p (set_main (MStats1 (frames_pushed_ (sy_q (p_sys p)))) p)
  | Main_stats2 p pushed :
      p_main p = MStats1 pushed ->
      main_thread p (set_main (MStats2 pushed (frames_dropped_ (sy_q (p_sys p)))) p)
  | Main_stats3 p pushed dropped :
      p_main p = MStats2 pushed dropped ->
      main_thread p (report (mkStats pushed dropped (frames_popped_ (sy_q (p_sys p)))) (set_main MWait p))
  | Main_stop p ok :
      p_main p = MStop ok -> main_thread p (set_main (MShut ok) (set_running false p))
  | Main_shut p ok e s :
      p_main p = MShut ok -> RingThreads.main_step (p_sys p) e s ->
      main_thread p (ring e s p)
  | Main_shut_done p ok :
      p_main p = MShut ok -> sy_main (p_sys p) = MDone -> main_thread p (set_main (MJoinCapture ok) p)
  | Main_join_capture p ok :
      p_main p = MJoinCapture ok -> p_capture p = CapDone ->
      main_thread p (set_main (if (ok : bool) then MJoinNetwork else MExit EXIT_FAILURE) p)
  | Main_join_network p :
      p_main p = MJoinNetwork -> p_net p = NExit -> main_thread p (set_main MDelete p)
  | Main_delete p :
      p_main p = MDelete ->
      main_thread p (tls (TlsClient_delete (p_tls p)) (p_tls p) (set_main MDeleteCapture p))
  | Main_delete_capture p :
      p_main p = MDeleteCapture ->
      main_thread p (release (if (CameraCapture_delete (p_camera p)).1 then [DeviceRelease] else [])
        (set_main MDeleteQueue p))
  | Main_delete_queue p :
      p_main p = MDeleteQueue ->
      main_thread p (release (QueueRelease <$> RingQueue_delete (sy_q (p_sys p)))
        (set_main (MExit EXIT_SUCCESS) p)).

Inductive proc_step (p p' : proc) : Prop :=
  | Step_capture : capture_thread p p' -> proc_step p p'
  | Step_network : network_thread p p' -> proc_step p p'
  | Step_main : main_thread p p' -> proc_step p p'
  | Step_signal : p' = set_running false p -> proc_step p p'.

Definition reaches : proc -> proc -> Prop := rtc proc_step.

(** After [main] has created everything and the capture thread. *)
Definition proc_start (q : RingQueue) (cam : CameraCapture) (c : TlsClient) (calls : list net_call) : proc :=
  mkProc (sys_init q) true cam CapLoop c NUnborn MSpawn [] [] calls [] [].

(** The environment's answers while [main] sets things up. *)
Record setup_env := mkSetupEnv {
  se_mmap : Z -> option (list byte);
  se_malloc : Z -> bool;
  se_camera : camera_env;
  se_ctx : ctx_env
}.

(** [main] up to the creation of the threads; [None] when it returns before, or
    when [open] is undefined. *)
Definition setup (cfg : Main.Config) (e : setup_env) : option proc :=
  let queue := (RingQueue_new (se_mmap e) (se_malloc e) (Main.queue_size cfg) MAX_FRAME_SIZE).1 in
  if negb (isValid queue) then None
  else
    '(opened, capture) ← open (se_camera e) (CameraCapture_new (camera_config cfg));
    if negb (opened : bool) then None
    else
      let '(ok, c, calls) := initialize (se_ctx e) (TlsClient_new (tls_config cfg capture)) in
      if negb ok then None
      else
        let '(started, capture) := start capture in
        if negb started then None else Some (proc_start queue capture c calls).
End Process.
