(* ===== verification/ProcessProps.v ===== *)
(** * Invariants of the client process

    [proc_base] ties the process to a run of the ring queue and the phases of
    the threads to each other, [net_inv] says which call of the sequential
    [networkLoop] the network thread has got to, [capture_inv] the same for
    [captureLoop], [flow_inv] what the histories have to do with each other. *)

From S2P Require Import Prelude Bytes Protocol RingQueue RingSpec RingRefine RingProps RingThreads ThreadProps.
From S2P Require Import CameraCapture CameraProps Main Transport TlsClient TlsProps TlsTheorems TlsSteps Process.

(** ** The queue's steps as the process makes them *)

Lemma capture_step_frame bo a e b :
  capture_step bo a e b ->
  sy_packets b = sy_packets a /\ sy_main b = sy_main a /\
  (sy_network b = sy_network a \/ sy_network b = wake (sy_network a)).
Proof. intros H. destruct H; cbn; auto. Qed.

Lemma main_step_frame a e b :
  RingThreads.main_step a e b ->
  sy_packets b = sy_packets a /\ sy_capture b = sy_capture a /\
  (sy_network b = sy_network a \/ sy_network b = wake (sy_network a)).
Proof. intros H. destruct H; cbn; auto. Qed.

Lemma wake_idle c : wake c = CIdle <-> c = CIdle.
Proof. by destruct c. Qed.

Lemma wake_in_flight c : in_flight (wake c) = in_flight c.
Proof. by destruct c. Qed.

(** Which packets the network thread holds, by where it is. *)
Definition net_shape (ph : net_phase) (c : network_pc) (packets : list FramePacket) : Prop :=
  match ph with
  | NPop => (c = CIdle /\ (packets = [] \/ exists p, packets = [p])) \/ (c <> CIdle /\ packets = [])
  | NHeader p _ _ | NPayload p _ _ | NFail p | NSent p => c = CIdle /\ packets = [p]
  | _ => c = CIdle /\ packets = []
  end.

Lemma net_shape_wake ph c ps : net_shape ph c ps -> net_shape ph (wake c) ps.
Proof. destruct ph; cbn; rewrite wake_idle; auto. Qed.

Lemma network_step_frame bo a e b :
  network_step bo a e b -> sy_network a <> CIdle -> sy_packets a = [] ->
  sy_capture b = sy_capture a /\ sy_main b = sy_main a /\
  net_shape NPop (sy_network b) (sy_packets b).
Proof. intros H. destruct H; cbn; intros; subst; naive_solver. Qed.

Section Process.
Context {Ops : SslOps} {Laws : SslLaws Ops}.
Context (bo : byte_order) (q0 : RingQueue) (cam0 : CameraCapture) (cfg : TlsConfig) (calls0 : list net_call).
Context (Hrep : ring_rep bo q0 sp_empty) (Hmax : max_frame_size_ q0 = MAX_FRAME_SIZE).

Definition cam_ok (c : CameraCapture) : Prop :=
  in_width 64 (frame_seq_ c) /\ in_width 32 (pixel_format_ c) /\ streaming_ c = true.

Context (Hcam : cam_ok cam0).

Definition client0 : TlsClient := set_ctx true (TlsClient_new cfg).
Definition start0 : proc := proc_start q0 cam0 client0 calls0.

(** ** Phases *)

(** What the phase of the main thread says about the others. *)
Definition main_ok (p : proc) : Prop :=
  match p_main p with
  | MSpawn => p_net p = NUnborn /\ sy_main (p_sys p) = MRun
  | MWait | MStats1 _ | MStats2 _ _ => p_net p <> NUnborn /\ sy_main (p_sys p) = MRun
  | MStop ok => (p_net p = NUnborn <-> ok = false) /\ sy_main (p_sys p) = MRun
  | MShut ok => (p_net p = NUnborn <-> ok = false) /\ p_running p = false
  | MJoinCapture ok => (p_net p = NUnborn <-> ok = false) /\ p_running p = false /\ sy_main (p_sys p) = MDone
  | MJoinNetwork => p_net p <> NUnborn /\ p_running p = false /\ sy_main (p_sys p) = MDone /\ p_capture p = CapDone
  | MDelete | MDeleteCapture | MDeleteQueue => p_net p = NExit /\ p_running p = false /\ sy_main (p_sys p) = MDone /\ p_capture p = CapDone
  | MExit code => p_running p = false /\ sy_main (p_sys p) = MDone /\ p_capture p = CapDone /\
      (code = EXIT_SUCCESS /\ p_net p = NExit \/ code = EXIT_FAILURE /\ p_net p = NUnborn)
  end.

Record proc_base (p : proc) : Prop := mkProcBase {
  b_run : run bo (sys_init q0) (p_trace p) (p_sys p);
  b_cam : cam_ok (p_camera p);
  b_shape : net_shape (p_net p) (sy_network (p_sys p)) (sy_packets (p_sys p));
  b_done : p_capture p = CapDone -> sy_capture (p_sys p) = PIdle;
  b_main : main_ok p
}.

Lemma base_start : proc_base start0.
Proof. constructor; [constructor | done | done | done | done]. Qed.

Lemma base_rel p :
  proc_base p ->
  exists s, sys_rel bo (capacity_ q0) MAX_FRAME_SIZE (slot_stride_ q0) (p_sys p) s /\
    spec_run (capacity_ q0) sp_empty (p_trace p) s.
Proof. intros [Hr _ _ _ _]. rewrite <- Hmax. by apply run_rel. Qed.

Lemma base_max p : proc_base p -> max_frame_size_ (sy_q (p_sys p)) = MAX_FRAME_SIZE.
Proof. intros Hb. destruct (base_rel p Hb) as (s & Hrel & _). apply Hrel. Qed.

Lemma run_step a tr e b : run bo (sys_init q0) tr a -> sys_step bo a e b ->
  run bo (sys_init q0) (tr ++ option_list e) b.
Proof.
  intros H Hs. destruct e; cbn; [by eapply run_event|]. rewrite app_nil_r. by eapply run_silent.
Qed.

(** The image handed to [push] is a frame of the queue. *)
Lemma capture_body_ok e c call c' :
  cam_ok c -> capture_body e c = (call, c') ->
  cam_ok c' /\ forall a f, call = Some a -> call_frame MAX_FRAME_SIZE a = Some f -> frame_ok MAX_FRAME_SIZE f.
Proof.
  intros (Hs & Hp & Hst) H. unfold capture_body in H.
  destruct (ce_read e) as [m|]; [|by injection H as <- <-]. case_decide; [by injection H as <- <-|].
  destruct (if CameraCapture.use_jpeg _ then _ else _) as [data|]; injection H as <- <-; [|done].
  split; [split_and!; [apply u64_range | done | done]|]. intros a f [= <-] Hf.
  unfold call_frame in Hf. cbn in Hf.
  destruct (_ || _) eqn:E; [done|]. injection Hf as <-. apply orb_false_iff in E as [E1 E2].
  pose proof (u32_range (Z.of_nat (length data))) as Hw.
  assert (u32 (Z.of_nat (length data)) <= Z.of_nat (length data)) as Hle by (apply Z.mod_le; lia).
  unfold in_width in *. unfold MAX_FRAME_SIZE in *.
  constructor; unfold f_len; cbn [f_seq f_timestamp_ns f_pixel_format f_width f_height f_data];
    rewrite ?length_take; try apply u64_range; try apply u16_range; try done; unfold in_width; lia.
Qed.

(** A step of the process is a step of the queue or leaves it alone. *)
Definition ring_moves (p p' : proc) : Prop :=
  (exists e, sys_step bo (p_sys p) e (p_sys p') /\ p_trace p' = p_trace p ++ option_list e) \/
  (p_sys p' = p_sys p /\ p_trace p' = p_trace p).

Lemma free_head q o cp m pkt rest q' :
  frame_packet_free q (Some pkt) = Some q' ->
  free_step (mkSys q o cp CIdle m (pkt :: rest)) (Some ERelease) (mkSys q' o cp CIdle m rest).
Proof. intros H. by apply (F_free q o cp CIdle m [] pkt rest q'). Qed.

Lemma step_ring p p' : proc_base p -> proc_step bo p p' -> ring_moves p p'.
Proof.
  intros Hb [H|H|H| ->]; [..|by right].
  - destruct H as [p Hc Hr|p e call cam Hc Hr He Hcall|p e a cam f Hc Hr He Hcall|p e s Hne Hs];
      [by right | by right | |].
    + left. exists None. split; [|done]. cbn. apply By_capture.
      destruct Hc as [_ Hi]. unfold enter_push. rewrite (base_max p Hb) in Hcall.
      pose proof (base_max p Hb) as Hm. destruct (p_sys p) as [q o c n m h]; cbn in *. subst c. constructor. rewrite Hm.
      eapply capture_body_ok; [apply Hb | exact He | done | done].
    + left. exists e. split; [by apply By_capture | done].
  - pose proof (b_shape p Hb) as Hsh.
    destruct H; try by right.
    + left. exists None. split; [|done]. cbn. apply By_network. unfold enter_pop.
      rewrite H in Hsh. destruct Hsh as [Hi _]. destruct (p_sys p) as [q o c n m h]; cbn in *. subst n. constructor.
    + left. exists e. split; [by apply By_network | done].
    + left. exists (Some ERelease). split; [|done]. cbn. apply By_free. unfold set_queue.
      rewrite H in Hsh. destruct Hsh as [Hi _]. destruct (p_sys p) as [q' o c n m h]; cbn in *. subst n h. by apply free_head.
    + left. exists (Some ERelease). split; [|done]. cbn. apply By_free. unfold set_queue.
      rewrite H in Hsh. destruct Hsh as [Hi _]. destruct (p_sys p) as [q' o c n m h]; cbn in *. subst n h. by apply free_head.
  - destruct H; try by right. left. exists e. split; [by apply By_main | done].
Qed.

Lemma after_write_shape pkt k w (ph1 ph2 : net_phase) c ps :
  net_shape ph1 c ps -> net_shape ph2 c ps -> net_shape (NFail pkt) c ps ->
  net_shape (after_write pkt k w ph1 ph2) c ps.
Proof. unfold after_write. intros. by repeat case_match. Qed.

Lemma after_write_alive pkt k w ph1 ph2 :
  ph1 <> NUnborn -> ph2 <> NUnborn -> after_write pkt k w ph1 ph2 <> NUnborn.
Proof. unfold after_write. intros. by repeat case_match. Qed.

(** A network thread that has been created stays so; only [NExit] is final. *)
Lemma network_alive p p' :
  network_thread bo p p' -> p_net p <> NUnborn /\ p_net p <> NExit /\ p_net p' <> NUnborn.
Proof.
  intros H. destruct H; cbn;
    match goal with H : p_net _ = _ |- _ => rewrite H end; (split_and!; [done..|]); try done;
    by apply after_write_alive.
Qed.

Lemma network_frame p p' :
  network_thread bo p p' -> net_shape (p_net p) (sy_network (p_sys p)) (sy_packets (p_sys p)) ->
  p_camera p' = p_camera p /\ p_capture p' = p_capture p /\ p_main p' = p_main p /\
  p_running p' = p_running p /\ p_pushes p' = p_pushes p /\ p_stats p' = p_stats p /\
  sy_capture (p_sys p') = sy_capture (p_sys p) /\ sy_main (p_sys p') = sy_main (p_sys p) /\
  net_shape (p_net p') (sy_network (p_sys p')) (sy_packets (p_sys p')).
Proof.
  intros H Hs.
  destruct H as [| | | | |p e s H Hne Hst| | | | | | | | | ]; cbn in *; rewrite H in Hs; cbn in Hs;
    try (do 8 (split; [reflexivity|])); try exact Hs.
  - by rewrite H.
  - destruct Hs as [_ ->]. by right.
  - destruct Hs as [[? _]|[_ Hp]]; [done|].
    destruct (network_step_frame bo _ _ _ Hst Hne Hp) as (H1 & H2 & H3). by rewrite H, H1, H2.
  - done.
  - destruct Hs as [[Hi [Hp|[q Hp]]]|[? _]]; [congruence | | done]. split; [done | congruence].
  - by apply after_write_shape.
  - by apply after_write_shape.
  - destruct Hs; split; [done | congruence].
  - destruct Hs; split; [done | congruence].
Qed.

Lemma capture_frame p p' :
  capture_thread bo p p' ->
  p_tls p' = p_tls p /\ p_net p' = p_net p /\ p_main p' = p_main p /\ p_running p' = p_running p /\
  p_calls p' = p_calls p /\ p_stats p' = p_stats p /\
  sy_packets (p_sys p') = sy_packets (p_sys p) /\ sy_main (p_sys p') = sy_main (p_sys p) /\
  (sy_network (p_sys p') = sy_network (p_sys p) \/ sy_network (p_sys p') = wake (sy_network (p_sys p))).
Proof.
  intros H. destruct H as [| | |p e s Hne Hst]; cbn; try by auto 10.
  destruct (capture_step_frame bo _ _ _ Hst) as (H1 & H2 & H3). auto 10.
Qed.

Lemma main_frame p p' :
  main_thread p p' ->
  p_tls p' = p_tls p /\ p_camera p' = p_camera p /\ p_capture p' = p_capture p /\ p_pushes p' = p_pushes p /\
  sy_packets (p_sys p') = sy_packets (p_sys p) /\ sy_capture (p_sys p') = sy_capture (p_sys p) /\
  (sy_network (p_sys p') = sy_network (p_sys p) \/ sy_network (p_sys p') = wake (sy_network (p_sys p))) /\
  (p_net p' = p_net p \/ p_main p = MSpawn /\ p_net p' = NHead).
Proof.
  intros H. destruct H as [| | | | | | |p ok e s Hm Hst| | | | | | ]; cbn; try by auto 10.
  destruct (main_step_frame _ _ _ Hst) as (H1 & H2 & H3). auto 10.
Qed.

Lemma net_shape_frame ph c c' ps : c' = c \/ c' = wake c -> net_shape ph c ps -> net_shape ph c' ps.
Proof. intros [-> | ->]; [done | apply net_shape_wake]. Qed.

(** Without an event of [main] or its own exit a thread keeps [main_ok]. *)
Lemma main_ok_frame p p' :
  main_ok p -> p_main p' = p_main p -> sy_main (p_sys p') = sy_main (p_sys p) ->
  (p_running p = false -> p_running p' = false) -> (p_capture p = CapDone -> p_capture p' = CapDone) ->
  (p_net p' = NUnborn <-> p_net p = NUnborn) -> (p_net p = NExit -> p_net p' = NExit) ->
  main_ok p'.
Proof.
  unfold main_ok. intros H -> -> Hr Hc Hn He. destruct (p_main p); destruct_and?; split_and?; rewrite ?Hn; auto.
  naive_solver.
Qed.

Lemma main_thread_ok p p' : main_ok p -> main_thread p p' -> main_ok p'.
Proof.
  unfold main_ok. intros Hok H.
  destruct H as [p H|p H|p H Hr|p H Hr|p x H|p x y H|p ok H|p ok e s H Hs|p ok H Hd|p ok H Hd|p H Hd|p H|p H|p H];
    rewrite H in Hok; cbn; rewrite ?H; destruct_and?; try by split_and!.
  - destruct ok; [split_and!; [naive_solver | done..]|]. split_and!; [done..|]. right. naive_solver.
  - split_and!; [done..|]. by left.
Qed.

Lemma capture_done p p' :
  capture_thread bo p p' -> (p_capture p = CapDone -> sy_capture (p_sys p) = PIdle) ->
  (p_capture p' = CapDone -> sy_capture (p_sys p') = PIdle) /\ (p_capture p = CapDone -> p_capture p' = CapDone).
Proof.
  intros H Hd. destruct H as [p [Hc Hi] _|p e call cam [Hc Hi] _ _ _|p e a cam f [Hc Hi] _ _ _|p e s Hne _]; cbn in *;
    split; intros E; try congruence; try done. by destruct Hne; auto.
Qed.

Lemma capture_cam p p' : capture_thread bo p p' -> cam_ok (p_camera p) -> cam_ok (p_camera p').
Proof.
  intros H Hc. destruct H; cbn; try done; by eapply capture_body_ok.
Qed.

Lemma base_step p p' : proc_base p -> proc_step bo p p' -> proc_base p'.
Proof.
  intros Hb Hst. pose proof Hb as [Hr Hc Hs Hd Hm].
  assert (run bo (sys_init q0) (p_trace p') (p_sys p')) as Hr'.
  { destruct (step_ring p p' Hb Hst) as [(e & H1 & ->)|[-> ->]]; [by eapply run_step | done]. }
  destruct Hst as [H|H|H| ->].
  - destruct (capture_frame p p' H) as (E1 & E2 & E3 & E4 & E5 & E6 & E7 & E8 & E9).
    destruct (capture_done p p' H Hd) as [Hd1 Hd2].
    constructor; [done | by eapply capture_cam | | done |].
    + rewrite E2, E7. by eapply net_shape_frame.
    + apply (main_ok_frame p); rewrite ?E2, ?E3, ?E4, ?E8; done.
  - destruct (network_frame p p' H Hs) as (E1 & E2 & E3 & E4 & E5 & E6 & E7 & E8 & E9).
    destruct (network_alive p p' H) as (A1 & A2 & A3).
    constructor; [done | by rewrite E1 | done | by rewrite E2, E7 |].
    apply (main_ok_frame p); rewrite ?E2, ?E3, ?E4, ?E8; done.
  - destruct (main_frame p p' H) as (E1 & E2 & E3 & E4 & E5 & E6 & E7 & E8).
    constructor; [done | by rewrite E2 | | by rewrite E3, E6 | by eapply main_thread_ok].
    rewrite E5. eapply net_shape_frame; [exact E7|]. destruct E8 as [-> |[Hsp ->]]; [done|].
    unfold main_ok in Hm. rewrite Hsp in Hm. destruct Hm as [Hu _]. by rewrite Hu in Hs.
  - constructor; try done. by apply (main_ok_frame p).
Qed.

Lemma reaches_base p : reaches bo start0 p -> proc_base p.
Proof.
  revert p. apply rtc_ind_r; [apply base_start|]. intros p p' _ Hs IH. by eapply base_step.
Qed.
End Process.
