(* ===== verification/ProcessRefine.v ===== *)
(** * The network thread of the process is [networkLoop]

    The invariant [net_inv]: wherever the network thread stands, the calls made
    so far are those of whole iterations of the sequential [networkLoop] and of
    a started one, and what is left of the started one is what its resumption
    does. It holds whatever the other threads do in between, because the packet
    being sent shows the same bytes all the time. *)

From S2P Require Import Prelude Bytes Protocol RingQueue RingSpec RingRefine RingProps RingThreads ThreadProps.
From S2P Require Import CameraCapture CameraProps Main Transport TlsClient TlsProps TlsTheorems TlsSteps.
From S2P Require Import Process ProcessProps.

Section Network.
Context {Ops : SslOps} {Laws : SslLaws Ops}.
Context (bo : byte_order) (q0 : RingQueue) (cam0 : CameraCapture) (cfg : TlsConfig) (calls0 : list net_call).
Context (Hrep : ring_rep bo q0 sp_empty) (Hmax : max_frame_size_ q0 = MAX_FRAME_SIZE) (Hcam : cam_ok cam0).
Context (ce0 : connect_env) (Hce0 : fresh_env ce0).
#[local] Abbreviation client0 := (client0 cfg).
#[local] Abbreviation base := (proc_base bo q0).

(** ** What the outstanding packet shows *)

Lemma base_packet p pkt data :
  base p -> pkt ∈ in_flight (sy_network (p_sys p)) ++ sy_packets (p_sys p) ->
  packet_bytes (sy_q (p_sys p)) pkt = Some data ->
  packet_ok pkt data /\ packet_frame (sy_q (p_sys p)) pkt = Some (shown_frame pkt data).
Proof.
  intros Hb Hin Hd. destruct (base_rel bo q0 Hrep Hmax p Hb) as (s & Hrel & _).
  destruct (rel_packet bo _ _ _ _ s pkt Hrel Hin) as (t & f & -> & Hh).
  pose proof (rel_shows bo _ _ _ _ s t f Hrel Hh) as Hs.
  pose proof (packet_frame_bytes _ _ _ Hs) as Hb'. rewrite Hd in Hb'. injection Hb' as ->.
  pose proof (rel_frame_ok bo _ _ _ _ s t f Hrel Hh) as Hok.
  unfold packet_ok, shown_frame, held_packet. cbn. by destruct f.
Qed.

Lemma base_bytes p pkt :
  base p -> pkt ∈ in_flight (sy_network (p_sys p)) ++ sy_packets (p_sys p) ->
  exists data, packet_bytes (sy_q (p_sys p)) pkt = Some data.
Proof.
  intros Hb Hin. destruct (base_rel bo q0 Hrep Hmax p Hb) as (s & Hrel & _).
  destruct (rel_packet bo _ _ _ _ s pkt Hrel Hin) as (t & f & -> & Hh).
  pose proof (rel_shows bo _ _ _ _ s t f Hrel Hh) as Hs. apply packet_frame_bytes in Hs. by eexists.
Qed.

Lemma packet_frame_of_bytes q pkt data :
  packet_bytes q pkt = Some data <-> packet_frame q pkt = Some (shown_frame pkt data).
Proof.
  unfold packet_frame, shown_frame. destruct (packet_bytes q pkt) as [d|]; cbn; [|done].
  split; [by intros [= ->] | by intros [= ->]].
Qed.

Lemma shows_step p p' pkt data :
  base p -> proc_step bo p p' -> pkt ∈ in_flight (sy_network (p_sys p)) ++ sy_packets (p_sys p) ->
  packet_bytes (sy_q (p_sys p)) pkt = Some data -> packet_bytes (sy_q (p_sys p')) pkt = Some data.
Proof.
  intros Hb Hst Hin Hd. destruct (step_ring bo q0 Hrep Hmax p p' Hb Hst) as [(e & Hs & _)|[-> _]]; [|done].
  destruct (base_rel bo q0 Hrep Hmax p Hb) as (s & Hrel & _).
  apply packet_frame_of_bytes. rewrite (rel_view_stable bo _ _ _ _ _ _ s pkt Hrel Hs Hin).
  by apply packet_frame_of_bytes.
Qed.

(** ** The invariant *)

(** The calls are those of whole iterations, which leave the client as [c]. *)
Definition at_head (calls : list net_call) (c : TlsClient) : Prop :=
  exists envs l, Forall env_ok envs /\
    converges (fun n => network_iters bo n envs client0) (c, l) /\ calls = calls0 ++ l.

(** The calls are those of whole iterations and of one that has got past its
    connection code, with client [c], and then made the calls [l]. *)
Definition in_iteration (calls : list net_call) (c : TlsClient) (l : list net_call) : Prop :=
  exists calls1 c1 ce l2, at_head calls1 c1 /\ fresh_env ce /\ connected_as bo ce c1 c l2 /\
    calls = calls1 ++ l2 ++ l.

(** What [send_packet] makes of packet [pkt] with the bytes [data]. *)
Definition sends (pkt : FramePacket) (data : list byte) (c c' : TlsClient) (l : list net_call) : Prop :=
  forall ce, converges (fun n => send_packet bo n (mkLoopEnv ce (Some pkt) data) c) (c', PopPacket pkt data :: l).

Definition deleted (p : proc) : list net_call :=
  match p_main p with
  | MDeleteCapture | MDeleteQueue => TlsClient_delete (p_tls p)
  | MExit code => if code =? EXIT_SUCCESS then TlsClient_delete (p_tls p) else []
  | _ => []
  end.

Definition net_inv (p : proc) : Prop :=
  match p_net p with
  | NUnborn => p_tls p = client0 /\ p_calls p = calls0
  | NHead => at_head (p_calls p) (p_tls p)
  | NCall | NPop => in_iteration (p_calls p) (p_tls p) [] /\ is_Some (ssl_ (p_tls p))
  | NHeader pkt rest n =>
      exists c data k0 k, in_iteration (p_calls p) c [PopPacket pkt data] /\ ssl_ c = Some k0 /\
        packet_ok pkt data /\ packet_bytes (sy_q (p_sys p)) pkt = Some data /\ p_tls p = set_ssl k c /\
        resumes k0 (packet_header bo pkt) FRAME_HEADER_SIZE k rest n
  | NPayload pkt off n =>
      exists c data k0 k1 k, in_iteration (p_calls p) c [PopPacket pkt data] /\ ssl_ c = Some k0 /\
        packet_ok pkt data /\ packet_bytes (sy_q (p_sys p)) pkt = Some data /\ p_tls p = set_ssl k c /\
        converges (fun m => sslWriteAll m k0 (packet_header bo pkt) FRAME_HEADER_SIZE) (true, k1) /\
        0 <= off /\ off + n = pkt_len pkt /\ resumes k1 data (pkt_len pkt) k (drop (Z.to_nat off) data) n
  | NFail pkt =>
      exists c data, in_iteration (p_calls p) c [PopPacket pkt data] /\ packet_ok pkt data /\
        sends pkt data c (tlsDisconnect (p_tls p)).1
          (FreePacket (pkt_slot_idx_ pkt) :: (tlsDisconnect (p_tls p)).2)
  | NClose =>
      exists pkt c data, in_iteration (p_calls p) c [PopPacket pkt data; FreePacket (pkt_slot_idx_ pkt)] /\
        packet_ok pkt data /\
        sends pkt data c (tlsDisconnect (p_tls p)).1
          (FreePacket (pkt_slot_idx_ pkt) :: (tlsDisconnect (p_tls p)).2)
  | NSent pkt =>
      exists c data, in_iteration (p_calls p) c [PopPacket pkt data] /\ packet_ok pkt data /\
        sends pkt data c (count_sent (FRAME_HEADER_SIZE + pkt_len pkt) (p_tls p)) [FreePacket (pkt_slot_idx_ pkt)]
  | NExit =>
      exists envs l, Forall env_ok envs /\
        converges (fun n => networkLoop bo n (map (pair true) envs ++ [(false, mkLoopEnv ce0 None [])]) client0)
          (p_tls p, l) /\
        p_calls p = calls0 ++ l ++ deleted p
  end.

Lemma at_head_start : at_head calls0 client0.
Proof. exists [], []. split_and!; [done | apply converges_const | by rewrite app_nil_r]. Qed.

Lemma at_head_ok calls c :
  at_head calls c -> exists h s, client_ok c h /\ stream_inv c s.
Proof.
  intros (envs & l & He & [n Hn] & _). specialize (Hn n (le_n n)).
  edestruct (iters_inv bo n envs) as ((h & _ & Hh) & Hs); [exact Hn | done | apply new_ok | apply new_stream |].
  by do 2 eexists.
Qed.

(** A finished iteration. *)
Lemma finish_iteration calls c l pop data c' l' :
  in_iteration calls c l' -> (forall pkt, pop = Some pkt -> packet_ok pkt data) ->
  (forall ce, converges (fun n => send_packet bo n (mkLoopEnv ce pop data) c) (c', l' ++ l)) ->
  at_head (calls ++ l) c'.
Proof.
  intros (calls1 & c1 & ce & l2 & (envs & l1 & He & H1 & ->) & Hf & Hc & ->) Hok Hs.
  exists (envs ++ [mkLoopEnv ce pop data]), (l1 ++ l2 ++ l' ++ l). split_and!.
  - apply Forall_app_2; [done|]. constructor; [|done]. by split.
  - eapply iters_snoc; [exact H1|]. by apply (Hc pop data (c', l' ++ l)).
  - by rewrite <- !app_assoc.
Qed.

Lemma begin_iteration calls c1 ce c l2 :
  at_head calls c1 -> fresh_env ce -> connected_as bo ce c1 c l2 -> in_iteration (calls ++ l2) c [].
Proof. intros H1 H2 H3. exists calls, c1, ce, l2. by rewrite app_nil_r. Qed.

Lemma in_iteration_app calls c l l' : in_iteration calls c l -> in_iteration (calls ++ l') c (l ++ l').
Proof.
  intros (calls1 & c1 & ce & l2 & H1 & H2 & H3 & ->). exists calls1, c1, ce, l2. by rewrite <- !app_assoc.
Qed.

(** ** Steps of the network thread *)

Lemma idle_client c h : client_ok c h -> state_ c <> Connected -> ssl_ c = None.
Proof. unfold client_ok. destruct (ssl_ c); [|done]. intros (? & _) ?. done. Qed.

Lemma live_client c h : client_ok c h -> state_ c = Connected -> is_Some (ssl_ c).
Proof. unfold client_ok. destruct (ssl_ c); [by eexists|]. intros (? & _) ?. done. Qed.

Lemma connected_live ce c c' calls h :
  client_ok c h -> state_ c <> Connected -> tlsConnect ce (set_state Connecting c) = (true, c', calls) ->
  is_Some (ssl_ c').
Proof.
  intros Hc Hst Ht.
  pose proof (tlsConnect_spec ce (set_state Connecting c) (idle_client c h Hc Hst) ltac:(done)) as H.
  rewrite Ht in H. destruct H as (_ & _ & _ & _ & _ & h' & _ & _ & -> & _). by eexists.
Qed.

(** The connection phase, and what does not involve a packet. *)
Lemma net_step_connecting p p' :
  base p -> net_inv p -> network_thread bo p p' ->
  match p_net p with NHead | NCall => True | _ => False end -> net_inv p'.
Proof.
  intros Hb Hi H Hph. unfold net_inv in Hi.
  destruct H as [p H Hr|p H Hr Hst|p e c calls H Hr Hst Hf Hc|p e c calls d H Hr Hst Hf Hc Hd|p H| | | | | | | | | | ];
    rewrite H in Hi, Hph; try done; cbn in Hi; unfold net_inv; cbn.
  - destruct Hi as (envs & l & He & Hl & E).
    exists envs, (l ++ (tlsDisconnect (p_tls p)).2). split_and!; [done | by apply iters_loop |].
    assert (forall p', p_main p' = p_main p -> deleted p' = []) as Hd.
    { intros p' Em. pose proof (b_main bo q0 p Hb) as Hok. unfold main_ok in Hok. unfold deleted.
      rewrite Em. destruct (p_main p) as [| | | | | | | | | | |code]; try done;
        [destruct Hok; congruence.. |].
      destruct Hok as (_ & _ & _ & [[_ ?]|[-> _]]); [congruence | done]. }
    rewrite E, !Hd, !app_nil_r by done. by rewrite <- app_assoc.
  - destruct (at_head_ok _ _ Hi) as (h & s & Hc & _). split; [|by eapply live_client].
    rewrite <- (app_nil_r (p_calls p)). eapply begin_iteration; [exact Hi | exact Hce0 |].
    by apply connected_already.
  - destruct (at_head_ok _ _ Hi) as (h & s & Hok & _). split; [|by eapply connected_live].
    eapply begin_iteration; [exact Hi | exact Hf |]. by apply connected_now.
  - rewrite H. destruct Hi as (envs & l & He & Hl & ->).
    exists (envs ++ [mkLoopEnv e None []]). eexists. split_and!.
    + apply Forall_app_2; [done|]. constructor; [|done]. by split.
    + eapply iters_snoc; [exact Hl|]. by apply refused_body.
    + by rewrite <- app_assoc.
Qed.

(** In and after [pop]. *)
Lemma net_step_pop p p' :
  base p -> net_inv p -> network_thread bo p p' -> p_net p = NPop -> net_inv p'.
Proof.
  intros Hb Hi H Hph. unfold net_inv in Hi. rewrite Hph in Hi. destruct Hi as [Hi [k Hk]].
  destruct H; try congruence; unfold net_inv; cbn.
  - rewrite Hph. split; [done | by exists k].
  - rewrite <- (app_nil_r (p_calls p)).
    eapply (finish_iteration _ (p_tls p) [] None []); [exact Hi | done |].
    intros ce. apply converges_const.
  - destruct (base_packet p pkt data Hb) as [Hok Hfr]; [|done|].
    { match goal with H : sy_packets _ = _ |- _ => rewrite H end. set_solver. }
    exists (p_tls p), data, k, k. split_and!; try done.
    + by apply (in_iteration_app (p_calls p) _ []).
    + destruct (p_tls p). cbn in *. by subst.
    + apply resumes_start; [by eapply packet_header_length | done].
Qed.

Lemma set_ssl_twice k k' c : set_ssl k' (set_ssl k c) = set_ssl k' c.
Proof. done. Qed.

Lemma packet_range p pkt data m off n :
  base p -> pkt ∈ in_flight (sy_network (p_sys p)) ++ sy_packets (p_sys p) ->
  packet_bytes (sy_q (p_sys p)) pkt = Some data -> packet_ok pkt data -> 0 <= off -> off + n = pkt_len pkt ->
  0 <= n -> mmap_base_ (sy_q (p_sys p)) = Some m ->
  read_mem m (pkt_data pkt + off) n = Some (drop (Z.to_nat off) data).
Proof.
  intros Hb Hin Hd [_ Hl] Ho Hn Hn0 Hm. unfold packet_bytes in Hd. rewrite Hm in Hd. cbn in Hd.
  rewrite (read_mem_sub _ _ _ _ off n Hd) by lia. rewrite take_ge; [done|]. rewrite length_drop. lia.
Qed.

Lemma net_step_header p p' pkt rest n :
  base p -> net_inv p -> network_thread bo p p' -> p_net p = NHeader pkt rest n -> net_inv p'.
Proof.
  intros Hb Hi H Hph. unfold net_inv in Hi. rewrite Hph in Hi.
  destruct Hi as (c & data & k0 & k & Hit & Hk0 & Hok & Hd & Htls & Hres).
  destruct H as [| | | | | | | |p pkt' rest' Hn|p pkt' rest' n' k1 w k' Hn Hne Hk Hw| | | | | ]; try congruence.
  - rewrite Hph in Hn. injection Hn as <- <- ->. unfold net_inv. cbn.
    exists c, data, k0, k, k. split_and!; try done; [by eapply resumes_done|].
    rewrite drop_0. pose proof (fok_len _ _ (proj1 Hok)) as Hlen. destruct Hok as [_ Hl].
    unfold f_len, MAX_FRAME_SIZE in Hlen. cbn in Hlen. apply resumes_start; lia.
  - rewrite Hph in Hn. injection Hn as <- <- <-. rewrite Htls in Hk. injection Hk as <-.
    unfold net_inv, after_write. cbn. rewrite app_nil_r. destruct (Z.leb_spec w 0) as [Hw0|Hw0].
    + destruct (retries k' w) eqn:Er.
      * exists c, data, k0, k'. split_and!; try done; [by rewrite Htls|]. by eapply resumes_retry.
      * exists c, data. split_and!; [done..|]. intros ce. rewrite Htls, set_ssl_twice.
        apply (send_header_fails bo ce pkt data c k0 Hk0 k'). by eapply resumes_fail.
    + destruct (resumes_advance _ _ _ _ _ _ _ _ Hres Hne Hw Hw0) as [_ Hadv].
      exists c, data, k0, k'. split_and!; try done. by rewrite Htls.
Qed.

Lemma net_step_payload p p' pkt off n :
  base p -> net_inv p -> network_thread bo p p' -> p_net p = NPayload pkt off n -> net_inv p'.
Proof.
  intros Hb Hi H Hph. pose proof (b_shape bo q0 p Hb) as Hsh. unfold net_inv in Hi. rewrite Hph in Hi, Hsh.
  destruct Hsh as [Hidle Hpk].
  destruct Hi as (c & data & k0 & k1 & k & Hit & Hk0 & Hok & Hd & Htls & Hhdr & Hoff & Hsum & Hres).
  destruct H as [| | | | | | | | | |p pkt' off' Hn|p pkt' off' n' m d k2 w k' Hn Hne Hk Hm Hread Hw| | | ]; try congruence.
  - rewrite Hph in Hn. injection Hn as <- <- ->. unfold net_inv. cbn.
    exists c, data. split_and!; [done..|]. intros ce. rewrite Htls.
    apply (send_succeeds bo ce pkt data c k0 Hk0 k1 k Hhdr). by eapply resumes_done.
  - rewrite Hph in Hn. injection Hn as <- <- <-. rewrite Htls in Hk. injection Hk as <-.
    pose proof Hres as (Hlen & Hn31 & _).
    rewrite (packet_range p pkt data m off n Hb) in Hread; [|rewrite Hpk; set_solver|done..|lia|done].
    injection Hread as <-.
    unfold net_inv, after_write. cbn. rewrite app_nil_r. destruct (Z.leb_spec w 0) as [Hw0|Hw0].
    + destruct (retries k' w) eqn:Er.
      * exists c, data, k0, k1, k'. split_and!; try done; [by rewrite Htls|]. by eapply resumes_retry.
      * exists c, data. split_and!; [done..|]. intros ce. rewrite Htls, set_ssl_twice.
        apply (send_payload_fails bo ce pkt data c k0 Hk0 k1 k' Hhdr). by eapply resumes_fail.
    + destruct (resumes_advance _ _ _ _ _ _ _ _ Hres Hne Hw Hw0) as [Hle Hadv].
      exists c, data, k0, k1, k'. rewrite u64_id in * by lia.
      split_and!; try done; [by rewrite Htls | lia | lia |].
      rewrite drop_drop in Hadv. by rewrite Z2Nat.inj_add by lia.
Qed.

Lemma net_step_end p p' :
  base p -> net_inv p -> network_thread bo p p' ->
  match p_net p with NFail _ | NClose | NSent _ => True | _ => False end -> net_inv p'.
Proof.
  intros Hb Hi H Hph. unfold net_inv in Hi.
  destruct H as [| | | | | | | | | | | |p pkt rest q H Hpk Hf|p H|p pkt rest q H Hpk Hf];
    rewrite H in Hi, Hph; try done; unfold net_inv; cbn.
  - destruct Hi as (c & data & Hit & Hok & Hs). exists pkt, c, data. split_and!; try done.
    by apply (in_iteration_app (p_calls p) c [PopPacket pkt data]).
  - destruct Hi as (pkt & c & data & Hit & Hok & Hs).
    eapply (finish_iteration _ c _ (Some pkt) data); [exact Hit | by intros ? [= <-] | exact Hs].
  - destruct Hi as (c & data & Hit & Hok & Hs).
    eapply (finish_iteration _ c _ (Some pkt) data); [exact Hit | by intros ? [= <-] | exact Hs].
Qed.

Lemma net_inv_frame p p' :
  base p -> net_inv p -> proc_step bo p p' -> p_net p' = p_net p -> p_tls p' = p_tls p ->
  sy_packets (p_sys p') = sy_packets (p_sys p) ->
  (p_calls p' = p_calls p /\ deleted p' = deleted p \/
   p_net p = NExit /\ deleted p = [] /\ p_calls p' = p_calls p ++ deleted p') ->
  net_inv p'.
Proof.
  intros Hb Hi Hst En Et Ep Hcalls. pose proof (b_shape bo q0 p Hb) as Hsh.
  assert (forall pkt data, sy_packets (p_sys p) = [pkt] -> packet_bytes (sy_q (p_sys p)) pkt = Some data ->
    packet_bytes (sy_q (p_sys p')) pkt = Some data) as Hbytes.
  { intros pkt data Hpk. eapply shows_step; [done | done |]. rewrite Hpk. set_solver. }
  unfold net_inv in *. rewrite En, Et.
  destruct Hcalls as [[-> Hdel]|(Hexit & Hd0 & ->)]; [|rewrite Hexit in *].
  - destruct (p_net p); try done.
    + destruct Hi as (c & data & k0 & k & H1 & H2 & H3 & H4 & H5). destruct Hsh as [_ Hpk].
      exists c, data, k0, k. split_and!; try done; [by apply Hbytes | apply H5..].
    + destruct Hi as (c & data & k0 & k1 & k & H1 & H2 & H3 & H4 & H5). destruct Hsh as [_ Hpk].
      exists c, data, k0, k1, k. split_and!; try done; [by apply Hbytes | apply H5..].
    + by rewrite Hdel.
  - destruct Hi as (envs & l & H1 & H2 & H3). exists envs, l. split_and!; [done..|].
    by rewrite H3, Hd0, app_nil_r, <- app_assoc.
Qed.

Lemma net_inv_step p p' : base p -> net_inv p -> proc_step bo p p' -> net_inv p'.
Proof.
  intros Hb Hi Hst. destruct Hst as [H|H|H| ->].
  - destruct (capture_frame bo p p' H) as (E1 & E2 & E3 & E4 & E5 & E6 & E7 & _).
    eapply (net_inv_frame p); [done | done | by apply Step_capture | done..|].
    left. split; [done|]. unfold deleted. by rewrite E3, E1.
  - destruct (p_net p) eqn:Ep.
    + destruct (network_alive bo p p' H) as [? _]. congruence.
    + eapply net_step_connecting; [done..|]. by rewrite Ep.
    + eapply net_step_connecting; [done..|]. by rewrite Ep.
    + by eapply net_step_pop.
    + by eapply net_step_header.
    + by eapply net_step_payload.
    + eapply net_step_end; [done..|]. by rewrite Ep.
    + eapply net_step_end; [done..|]. by rewrite Ep.
    + eapply net_step_end; [done..|]. by rewrite Ep.
    + destruct (network_alive bo p p' H) as (_ & ? & _). congruence.
  - destruct (main_frame p p' H) as (E1 & E2 & E3 & E4 & E5 & E6 & E7 & E8).
    pose proof (Step_main bo p p' H) as Hst. pose proof (b_main bo q0 p Hb) as Hm. unfold main_ok in Hm.
    destruct H as [p H|p H|p H Hr|p H Hr|p x H|p x y H|p ok H|p ok e s H Hs|p ok H Hd|p ok H Hd|p H Hd|p H|p H|p H];
      rewrite H in Hm.
    1: { destruct Hm as [Hu _]. unfold net_inv in *. rewrite Hu in Hi. cbn. destruct Hi as [-> ->].
         apply at_head_start. }
    11: { eapply (net_inv_frame p); [done..|]. right. unfold deleted. rewrite H. cbn. by split_and!; try apply Hm. }
    all: eapply (net_inv_frame p); [done..|]; left; unfold deleted; cbn; rewrite H; (split; [done|]); try done.
    by destruct ok.
  - eapply (net_inv_frame p); [done | done | by apply Step_signal | done..|]. by left.
Qed.

Lemma reaches_net_inv p : reaches bo (start0 q0 cam0 cfg calls0) p -> base p /\ net_inv p.
Proof.
  revert p. apply rtc_ind_r.
  - split; [by apply base_start | done].
  - intros p p' _ Hs [Hb Hi]. split; [by eapply base_step | by eapply net_inv_step].
Qed.
End Network.
