(* ===== verification/ProcessFlow.v ===== *)
(** * What flows through the client process

    [capture_inv]: the calls of [push] so far are those of iterations of the
    sequential [captureLoop]. [flow_inv]: the frames offered to the queue are
    those of these calls, and the packets the network thread has sent or holds
    show, in order, frames that the queue's pops returned. *)

From S2P Require Import Prelude Bytes Protocol RingQueue RingSpec RingRefine RingProps RingThreads ThreadProps.
From S2P Require Import CameraCapture CameraProps Main Transport TlsClient TlsProps TlsTheorems TlsSteps.
From S2P Require Import Pipeline Process ProcessProps ProcessRefine.

#[local] Arguments offered : simpl never.
#[local] Arguments popped : simpl never.
#[local] Arguments popped_frames {_} _ : simpl never.

(** ** Iterations of the capture loop *)

(** Iterations that find [running] true. *)
Fixpoint capture_iters (envs : list capture_env) (c : CameraCapture) : list push_args * CameraCapture :=
  match envs with
  | [] => ([], c)
  | e :: envs =>
      let '(call, c) := capture_body e c in
      let '(calls, c) := capture_iters envs c in
      (option_list call ++ calls, c)
  end.

Lemma capture_iters_snoc envs e c calls c1 call c2 :
  capture_iters envs c = (calls, c1) -> capture_body e c1 = (call, c2) ->
  capture_iters (envs ++ [e]) c = (calls ++ option_list call, c2).
Proof.
  revert c calls. induction envs as [|e' envs IH]; intros c calls H Hb; cbn in *.
  - injection H as <- <-. by rewrite Hb, app_nil_r.
  - destruct (capture_body e' c) as [call' c']. destruct (capture_iters envs c') as [calls' c''] eqn:E.
    injection H as <- ->. rewrite (IH c' calls' E Hb). by rewrite app_assoc.
Qed.

Lemma capture_body_streaming e c call c' : capture_body e c = (call, c') -> streaming_ c' = streaming_ c.
Proof.
  unfold capture_body. destruct (ce_read e); [|by intros [= _ <-]]. case_decide; [by intros [= _ <-]|].
  destruct (if CameraCapture.use_jpeg _ then _ else _); by intros [= _ <-].
Qed.

Lemma capture_iters_loop envs last c calls c' :
  capture_iters envs c = (calls, c') -> streaming_ c = true ->
  captureLoop (map (pair true) envs ++ [(false, last)]) c = Some (calls, c').
Proof.
  revert c calls. induction envs as [|e envs IH]; intros c calls H Hs; cbn in *; [by injection H as <- <-|].
  destruct (capture_body e c) as [call c1] eqn:Eb. rewrite Hs. cbn [andb negb].
  destruct (capture_iters envs c1) as [calls1 c2] eqn:E. injection H as <- ->.
  rewrite (IH c1 calls1 E) by (by rewrite (capture_body_streaming _ _ _ _ Eb)). cbn. by destruct call.
Qed.

(** ** Histories *)

Lemma Forall2_impl_in {A B} (P Q : A -> B -> Prop) l k :
  Forall2 P l k -> (forall x y, x ∈ l -> P x y -> Q x y) -> Forall2 Q l k.
Proof.
  induction 1 as [|x y l k Hxy _ IH]; intros H; constructor; [apply H; [by left | done]|].
  apply IH. intros x' y' Hin. apply H. by right.
Qed.

Definition pending_push (pc : capture_pc) : list frame :=
  match pc with
  | PLock f | PCheck f | PLoop f | PGuard f | PHeader f | PPayload f | PAdvance f => [f]
  | _ => []
  end.

Lemma offered_app t1 t2 : offered (t1 ++ t2) = offered t1 ++ offered t2.
Proof. apply omap_app. Qed.

Lemma popped_app t1 t2 : popped (t1 ++ t2) = popped t1 ++ popped t2.
Proof. apply omap_app. Qed.

(** The frame of a push is offered where the call is decided. *)
Lemma capture_step_offers bo a e b :
  capture_step bo a e b -> sy_capture a <> PIdle ->
  pending_push (sy_capture a) = offered (option_list e) ++ pending_push (sy_capture b) /\
  popped (option_list e) = [].
Proof. intros H Hne. destruct H; cbn in *; done. Qed.

Lemma other_step_offers bo a e b :
  network_step bo a e b \/ free_step a e b \/ RingThreads.main_step a e b ->
  sy_capture b = sy_capture a /\ offered (option_list e) = [].
Proof. intros [H|[H|H]]; by destruct H. Qed.

Lemma other_step_pops a e b :
  free_step a e b \/ RingThreads.main_step a e b -> popped (option_list e) = [].
Proof. intros [H|H]; by destruct H. Qed.

(** What [pop]'s steps do to the packets in flight. *)
Lemma network_step_pops bo a e b :
  network_step bo a e b -> sy_packets a = [] ->
  (in_flight (sy_network b) ++ sy_packets b = in_flight (sy_network a) /\ popped (option_list e) = []) \/
  (in_flight (sy_network b) ++ sy_packets b = [] /\ popped (option_list e) = []) \/
  exists pkt f, in_flight (sy_network a) = [] /\ in_flight (sy_network b) ++ sy_packets b = [pkt] /\
    packet_frame (sy_q b) pkt = Some f /\ popped (option_list e) = [f].
Proof.
  intros H Hp. destruct H as [| | | | | | | |q o c m h pkt q' f Hne Ht Hf| | | |]; cbn in *; subst; auto.
  right. right. by exists pkt, f.
Qed.

Section Flow.
Context {Ops : SslOps} {Laws : SslLaws Ops}.
Context (bo : byte_order) (q0 : RingQueue) (cam0 : CameraCapture) (cfg : TlsConfig) (calls0 : list net_call).
Context (Hrep : ring_rep bo q0 sp_empty) (Hmax : max_frame_size_ q0 = MAX_FRAME_SIZE) (Hcam : cam_ok cam0).
Context (Hcalls0 : popped_frames calls0 = []).
Context (ce0 : connect_env) (Hce0 : fresh_env ce0).
#[local] Abbreviation base := (proc_base bo q0).

Definition capture_inv (p : proc) : Prop :=
  (exists envs, capture_iters envs cam0 = (p_pushes p, p_camera p)) /\
  offered (p_trace p) ++ pending_push (sy_capture (p_sys p)) = omap (call_frame MAX_FRAME_SIZE) (p_pushes p) /\
  (p_capture p = CapDone -> p_running p = false).

Lemma capture_inv_frame p p' :
  capture_inv p -> ring_moves bo p p' -> p_camera p' = p_camera p -> p_capture p' = p_capture p ->
  p_pushes p' = p_pushes p -> (p_running p = false -> p_running p' = false) ->
  sy_capture (p_sys p') = sy_capture (p_sys p) -> offered (p_trace p') = offered (p_trace p) -> capture_inv p'.
Proof. unfold capture_inv. intros (H1 & H2 & H3) _ -> -> -> Hr -> ->. split_and!; auto. Qed.

Lemma capture_inv_step p p' : base p -> capture_inv p -> proc_step bo p p' -> capture_inv p'.
Proof.
  intros Hb Hi Hst. pose proof (step_ring bo q0 Hrep Hmax p p' Hb Hst) as Hm.
  pose proof (b_cam bo q0 p Hb) as (_ & _ & Hstream).
  destruct Hst as [H|H|H| ->].
  - destruct Hi as ((envs & Henvs) & Hoff & Hrun).
    destruct H as [p [Hc Hi] Hr|p e call cam [Hc Hi] Hr He Hcall|p e a cam f [Hc Hi] Hr He Hcall|p e s Hne Hs];
      unfold capture_inv; cbn.
    + split_and!; [by exists envs | done |]. intros _. rewrite Hstream, andb_true_r in Hr. done.
    + rewrite (base_max bo q0 Hrep Hmax p Hb) in Hcall. split_and!; [| |by rewrite Hc].
      * exists (envs ++ [e]). by eapply capture_iters_snoc.
      * rewrite omap_app, Hoff. destruct call as [a|]; cbn in *; [rewrite Hcall|]; by rewrite app_nil_r.
    + rewrite (base_max bo q0 Hrep Hmax p Hb) in Hcall. split_and!; [| |by rewrite Hc].
      * exists (envs ++ [e]). by eapply (capture_iters_snoc _ _ _ _ _ (Some a)).
      * rewrite omap_app. cbn. rewrite Hcall, app_nil_r, <- Hoff, Hi. cbn. by rewrite app_nil_r.
    + split_and!; [by exists envs | | done].
      destruct (capture_step_offers bo _ _ _ Hs Hne) as [Ho _].
      by rewrite offered_app, <- app_assoc, <- Ho.
  - pose proof (b_shape bo q0 p Hb) as Hs.
    destruct (network_frame bo p p' H Hs) as (E1 & E2 & E3 & E4 & E5 & E6 & E7 & E8 & E9).
    eapply (capture_inv_frame p); try done; [by rewrite E4|].
    destruct H as [| | | | |p e s _ _ Hn| | | | | | | | | ]; cbn; rewrite ?app_nil_r; try done;
      rewrite offered_app; cbn; rewrite ?app_nil_r; try done.
    destruct (other_step_offers bo _ _ _ (or_introl Hn)) as [_ ->]. by rewrite app_nil_r.
  - destruct (main_frame p p' H) as (E1 & E2 & E3 & E4 & E5 & E6 & E7 & E8).
    eapply (capture_inv_frame p); try done; destruct H as [| | | | | | |p ok e s _ Hn| | | | | | ]; cbn; try done.
    rewrite offered_app. destruct (other_step_offers bo _ _ _ (or_intror (or_intror Hn))) as [_ ->].
    by rewrite app_nil_r.
  - by eapply (capture_inv_frame p).
Qed.

(** ** Packets *)

(** Packets that [pop] has taken from the queue and the network loop has not
    seen. *)
Definition unseen (p : proc) : list FramePacket :=
  match p_net p with NPop => in_flight (sy_network (p_sys p)) ++ sy_packets (p_sys p) | _ => [] end.

Definition flow_inv (p : proc) : Prop :=
  exists fs, Forall2 (fun pkt f => packet_frame (sy_q (p_sys p)) pkt = Some f) (unseen p) fs /\
    popped_frames (p_calls p) ++ fs `sublist_of` popped (p_trace p).

Lemma popped_frames_app l1 l2 : popped_frames (l1 ++ l2) = popped_frames l1 ++ popped_frames l2.
Proof. apply omap_app. Qed.

Lemma popped_frames_disconnect c : popped_frames (tlsDisconnect c).2 = [].
Proof. unfold tlsDisconnect. cbn. destruct (ssl_ c), (0 <=? sockfd_ c); done. Qed.

Lemma popped_frames_delete c : popped_frames (TlsClient_delete c) = [].
Proof.
  unfold TlsClient_delete. rewrite popped_frames_app, popped_frames_disconnect. by destruct (ssl_ctx_ c).
Qed.

Lemma popped_frames_connecting l : Forall connecting_call l -> popped_frames l = [].
Proof. induction 1 as [|c l Hc _ IH]; [done|]. by destruct c. Qed.

Lemma popped_frames_connect ce c ok c' l h :
  client_ok c h -> state_ c <> Connected -> tlsConnect ce (set_state Connecting c) = (ok, c', l) ->
  popped_frames l = [].
Proof.
  intros Hc Hst H.
  pose proof (tlsConnect_spec ce (set_state Connecting c) (idle_client c h Hc Hst) ltac:(done)) as Ht.
  rewrite H in Ht. apply popped_frames_connecting, Ht.
Qed.

Lemma frame_stable p p' pkt :
  base p -> proc_step bo p p' -> pkt ∈ in_flight (sy_network (p_sys p)) ++ sy_packets (p_sys p) ->
  packet_frame (sy_q (p_sys p')) pkt = packet_frame (sy_q (p_sys p)) pkt.
Proof.
  intros Hb Hst Hin. destruct (step_ring bo q0 Hrep Hmax p p' Hb Hst) as [(e & Hs & _)|[-> _]]; [|done].
  destruct (base_rel bo q0 Hrep Hmax p Hb) as (s & Hrel & _). by eapply rel_view_stable.
Qed.

(** A step that neither pops nor takes over a packet. *)
Lemma flow_keep p p' new :
  base p -> flow_inv p -> proc_step bo p p' -> unseen p' = unseen p \/ unseen p' = [] ->
  popped (p_trace p') = popped (p_trace p) -> p_calls p' = p_calls p ++ new -> popped_frames new = [] ->
  flow_inv p'.
Proof.
  intros Hb (fs & Hfs & Hsub) Hst Hun Hpop Hc Hnew.
  assert (popped_frames (p_calls p') = popped_frames (p_calls p)) as Hpf.
  { by rewrite Hc, popped_frames_app, Hnew, app_nil_r. }
  destruct Hun as [Hun|Hun].
  - exists fs. rewrite Hun, Hpop, Hpf. split; [|done].
    eapply Forall2_impl_in; [exact Hfs|]. intros pkt f Hin Hf. rewrite (frame_stable p p' pkt); [done..|].
    unfold unseen in Hin. destruct (p_net p); by apply not_elem_of_nil in Hin || done.
  - exists []. rewrite Hun, Hpop, Hpf, app_nil_r. split; [done|].
    etrans; [|exact Hsub]. by apply sublist_inserts_r.
Qed.

Lemma flow_inv_network p p' :
  base p -> net_inv bo cfg calls0 ce0 p -> flow_inv p -> network_thread bo p p' -> flow_inv p'.
Proof.
  intros Hb Hn Hi H. pose proof (Step_network bo p p' H) as Hst. pose proof (b_shape bo q0 p Hb) as Hs.
  unfold net_inv in Hn.
  destruct H as [p H Hr|p H|p e c l H Hr Hns Hf Hc|p e c l d H Hr Hns Hf Hc Hd|p H|p e s H Hne Hp|p H Hid Hpk|
    p pkt rest data H Hid Hpk Hd|p pkt rest H|p pkt rest n k w k' H|p pkt off H|p pkt off n m data k w k' H|
    p pkt rest q H|p H|p pkt rest q H]; rewrite H in Hs, Hn.
  - eapply flow_keep; [done..| |done|reflexivity|apply popped_frames_disconnect]. by right.
  - eapply (flow_keep p _ []); try done; [by right | by rewrite app_nil_r].
  - destruct (at_head_ok bo cfg calls0 _ _ Hn) as (h & x & Hok & _).
    eapply flow_keep; [done..| |done|reflexivity|by eapply popped_frames_connect]. by right.
  - destruct (at_head_ok bo cfg calls0 _ _ Hn) as (h & x & Hok & _).
    eapply flow_keep; [done..| |done|reflexivity|].
    + right. unfold unseen. cbn. by rewrite H.
    + rewrite popped_frames_app. by erewrite popped_frames_connect.
  - eapply (flow_keep p _ []); try done; [| |by rewrite app_nil_r].
    + right. unfold unseen. cbn. apply Hs.
    + cbn. by rewrite app_nil_r.
  - destruct Hs as [[? _]|[_ Hpk]]; [done|].
    destruct (network_step_pops bo _ _ _ Hp Hpk) as [(Hun & Hpop)|[(Hun & Hpop)|(pkt & f & Hin & Hun & Hfr & Hpop)]].
    + eapply (flow_keep p _ []); try done; [| |by rewrite app_nil_r].
      * left. unfold unseen. cbn. by rewrite H, Hun, Hpk, app_nil_r.
      * cbn. by rewrite popped_app, Hpop, app_nil_r.
    + eapply (flow_keep p _ []); try done; [| |by rewrite app_nil_r].
      * right. unfold unseen. cbn. by rewrite H, Hun.
      * cbn. by rewrite popped_app, Hpop, app_nil_r.
    + destruct Hi as (fs & Hfs & Hsub). unfold unseen in Hfs. rewrite H, Hin, Hpk in Hfs.
      inversion Hfs; subst. exists [f]. unfold unseen. cbn. rewrite H, Hun. split; [by repeat constructor|].
      rewrite popped_app, Hpop. apply sublist_app; [|done]. by rewrite app_nil_r in Hsub.
  - eapply (flow_keep p _ []); try done; [by right | by rewrite app_nil_r].
  - destruct Hi as (fs & Hfs & Hsub). unfold unseen in Hfs. rewrite H, Hid, Hpk in Hfs.
    destruct Hs as [[_ [Hs|[x Hs]]]|[? _]]; [congruence | | done]. rewrite Hpk in Hs. injection Hs as -> ->.
    apply Forall2_cons_inv_l in Hfs as (f & fs' & Hf & Hfs & ->). inversion Hfs; subst.
    apply packet_frame_of_bytes in Hd. rewrite Hf in Hd. injection Hd as ->.
    exists []. unfold unseen. cbn. split; [constructor|]. by rewrite popped_frames_app, app_nil_r.
  - eapply (flow_keep p _ []); try done; [by right | by rewrite app_nil_r].
  - eapply (flow_keep p _ []); try done. right. unfold unseen, after_write. cbn. by repeat case_match.
  - eapply (flow_keep p _ []); try done; [by right | by rewrite app_nil_r].
  - eapply (flow_keep p _ []); try done. right. unfold unseen, after_write. cbn. by repeat case_match.
  - eapply flow_keep; [done..| | |reflexivity|done]; [by right|]. cbn. by rewrite popped_app, app_nil_r.
  - eapply flow_keep; [done..| |done|reflexivity|apply popped_frames_disconnect]. by right.
  - eapply flow_keep; [done..| | |reflexivity|done]; [by right|]. cbn. by rewrite popped_app, app_nil_r.
Qed.

Lemma unseen_frame p p' :
  p_net p' = p_net p -> sy_packets (p_sys p') = sy_packets (p_sys p) ->
  sy_network (p_sys p') = sy_network (p_sys p) \/ sy_network (p_sys p') = wake (sy_network (p_sys p)) ->
  unseen p' = unseen p.
Proof. unfold unseen. intros -> -> [-> | ->]; [done|]. by rewrite wake_in_flight. Qed.

Lemma flow_inv_step p p' :
  base p -> net_inv bo cfg calls0 ce0 p -> flow_inv p -> proc_step bo p p' -> flow_inv p'.
Proof.
  intros Hb Hn Hi Hst. pose proof Hst as Hstep. destruct Hst as [H|H|H| ->].
  - destruct (capture_frame bo p p' H) as (E1 & E2 & E3 & E4 & E5 & E6 & E7 & E8 & E9).
    eapply (flow_keep p _ []); try done; [left; by apply unseen_frame | | by rewrite app_nil_r, E5].
    destruct H as [| | |p e s Hne Hs]; cbn; rewrite ?app_nil_r; try done.
    destruct (capture_step_offers bo _ _ _ Hs Hne) as [_ Hp]. by rewrite popped_app, Hp, app_nil_r.
  - by eapply flow_inv_network.
  - destruct (main_frame p p' H) as (E1 & E2 & E3 & E4 & E5 & E6 & E7 & E8).
    assert (unseen p' = unseen p \/ unseen p' = []) as Hun.
    { destruct E8 as [E8|[_ E8]]; [left; by apply unseen_frame | right]. unfold unseen. by rewrite E8. }
    destruct H as [| | | | | | |p ok e s _ Hs| | | |p H| | ].
    1-7, 9-11, 13-14: eapply (flow_keep p _ []); try done; by rewrite app_nil_r.
    + eapply (flow_keep p _ []); try done; [|by rewrite app_nil_r]. cbn.
      by rewrite popped_app, (other_step_pops _ _ _ (or_intror Hs)), app_nil_r.
    + eapply flow_keep; [done..|reflexivity|apply popped_frames_delete].
  - eapply (flow_keep p _ []); try done; [by left | by rewrite app_nil_r].
Qed.

(** Everything that holds of a process that [main] has set up. *)
Lemma reaches_inv p :
  reaches bo (start0 q0 cam0 cfg calls0) p ->
  base p /\ net_inv bo cfg calls0 ce0 p /\ capture_inv p /\ flow_inv p.
Proof.
  revert p. apply rtc_ind_r.
  - split_and!; [by apply base_start | done | split_and!; [by exists [] | done | done] |].
    exists []. split; [constructor|]. cbn. by rewrite Hcalls0.
  - intros p p' _ Hs (Hb & Hn & Hc & Hf).
    split_and!; [by eapply base_step | by eapply net_inv_step | by eapply capture_inv_step | by eapply flow_inv_step].
Qed.
End Flow.
