(* ===== verification/ProcessWire.v ===== *)
(** * What is on the wire at any moment

    The invariant [wire_inv]: at every moment of a run the closed connections
    carried whole frames but for a cut last one, and what the live connection has
    carried, with what the network thread still has to send of its packet, are
    the wire images of the frames offered on it. *)

From S2P Require Import Prelude Bytes Protocol RingQueue RingSpec RingRefine RingProps RingThreads ThreadProps.
From S2P Require Import CameraCapture CameraProps Main Transport TlsClient TlsProps TlsTheorems TlsSteps.
From S2P Require Import Process ProcessProps ProcessRefine ProcessFlow.

#[local] Open Scope Z_scope.

#[local] Arguments packet_header : simpl never.
#[local] Arguments wire_frame : simpl never.

Section Wire.
Context {Ops : SslOps} {Laws : SslLaws Ops}.
Context (bo : byte_order) (q0 : RingQueue) (cam0 : CameraCapture) (cfg : TlsConfig) (calls0 : list net_call).
Context (Hrep : ring_rep bo q0 sp_empty) (Hmax : max_frame_size_ q0 = MAX_FRAME_SIZE) (Hcam : cam_ok cam0).
Context (Hcalls0 : foldl session_step ([], []) calls0 = ([], [])).
Context (ce0 : connect_env) (Hce0 : fresh_env ce0).
#[local] Abbreviation base := (proc_base bo q0).
#[local] Abbreviation session calls := (foldl session_step ([], []) calls).

(** The live connection [k], on which the frames [cur] were offered. *)
Definition live_ok (ph : net_phase) (q : RingQueue) (cur : list frame) (k : conn) : Prop :=
  Forall (frame_ok MAX_FRAME_SIZE) cur /\
  match ph with
  | NHeader pkt rest n => exists fs data j,
      cur = fs ++ [shown_frame pkt data] /\ packet_bytes q pkt = Some data /\ packet_ok pkt data /\
      rest = drop j (packet_header bo pkt) /\ 0 <= n < 2 ^ 31 /\ Z.of_nat (length rest) = n /\
      sent k = wire_stream fs ++ take j (packet_header bo pkt)
  | NPayload pkt off n => exists fs data,
      cur = fs ++ [shown_frame pkt data] /\ packet_bytes q pkt = Some data /\ packet_ok pkt data /\
      0 <= off /\ 0 <= n < 2 ^ 31 /\ off + n = pkt_len pkt /\
      sent k = wire_stream fs ++ packet_header bo pkt ++ take (Z.to_nat off) data
  | NFail _ | NClose => session_good (cur, k)
  | _ => sent k = wire_stream cur
  end.

Record wire_inv (p : proc) : Prop := mkWireInv {
  w_closed : Forall session_good (session (p_calls p)).2;
  w_live : forall k, ssl_ (p_tls p) = Some k -> live_ok (p_net p) (sy_q (p_sys p)) (session (p_calls p)).1 k;
  w_exit : p_net p = NExit -> ssl_ (p_tls p) = None
}.

Lemma packet_wire pkt data : packet_ok pkt data -> wire_frame (shown_frame pkt data) = packet_header bo pkt ++ data.
Proof.
  intros [Hf Hl]. unfold wire_frame, packet_header, shown_frame, f_len.
  cbn [f_seq f_timestamp_ns f_pixel_format f_width f_height f_data].
  rewrite header_image_wire by apply Hf. by rewrite Hl.
Qed.

Lemma live_good ph q cur k : live_ok ph q cur k -> session_good (cur, k).
Proof.
  intros [Hok H]. destruct ph; try done; try (split; [done | by left]).
  - destruct H as (fs & data & j & -> & _ & Hp & _ & _ & _ & Hs). split; [done|]. right.
    exists fs, (shown_frame p data), (j `min` length (packet_header bo p))%nat. split; [done|].
    cbn [snd]. rewrite (packet_wire p data Hp), Hs, take_app_le by lia. f_equal.
    destruct (decide (j <= length (packet_header bo p))%nat); [by rewrite Nat.min_l|].
    by rewrite Nat.min_r, !take_ge by lia.
  - destruct H as (fs & data & -> & _ & Hp & _ & _ & _ & Hs). split; [done|]. right.
    exists fs, (shown_frame p data), (length (packet_header bo p) + Z.to_nat off)%nat. split; [done|].
    cbn [snd]. by rewrite (packet_wire p data Hp), take_app_add, Hs.
Qed.

Lemma closed_disconnect c s :
  Forall session_good s.2 -> (forall k, ssl_ c = Some k -> session_good (s.1, k)) ->
  Forall session_good (foldl session_step s (tlsDisconnect c).2).2.
Proof.
  intros Hs Hk. unfold tlsDisconnect. cbn [snd]. destruct (ssl_ c) as [k|].
  - rewrite foldl_app. cbn. destruct (0 <=? sockfd_ c); cbn; (apply Forall_app_2; [done|]);
      (constructor; [by apply Hk | done]).
  - by destruct (0 <=? sockfd_ c).
Qed.

(** A write that moved [w] bytes, or none. *)
Lemma sent_advance k data n w k' :
  SSL_write k data (i32_num n) = (w, k') -> 0 <= n < 2 ^ 31 -> 0 < w ->
  w <= n /\ sent k' = sent k ++ take (Z.to_nat w) data.
Proof.
  unfold i32_num. intros H Hn Hw. rewrite i32_id in H by lia.
  by destruct (SSL_write_some _ _ _ _ _ H Hw) as (? & ? & _).
Qed.

Lemma sent_stop k data n w k' :
  SSL_write k data (i32_num n) = (w, k') -> w <= 0 ->
  exists j, sent k' = sent k ++ take j data /\ (retries k' w = true -> sent k' = sent k).
Proof.
  intros H Hw. destruct (SSL_write_none _ _ _ _ _ H Hw) as (_ & j & Hs & _ & Hr). exists j. split; [done|].
  intros E. by rewrite Hs, (Hr E), app_nil_r.
Qed.

Lemma wire_header p p' pkt rest n :
  wire_inv p -> network_thread bo p p' -> p_net p = NHeader pkt rest n -> wire_inv p'.
Proof.
  intros [H1 H2 _] H Hph.
  destruct H as [| | | | | | | |p pkt' rest' Hn|p pkt' rest' n' k w k' Hn Hne Hk Hw| | | | | ]; try congruence;
    rewrite Hph in Hn.
  - injection Hn as <- <- ->. constructor; cbn; [done | | done]. intros k Hk. rewrite Hph in H2.
    destruct (H2 k Hk) as [Hok (fs & data & j & Hcur & Hd & Hp & -> & _ & Hl & Hs)]. split; [done|].
    exists fs, data. pose proof (fok_len _ _ (proj1 Hp)) as Hlen. destruct Hp as [Hp1 Hp2].
    unfold f_len, MAX_FRAME_SIZE in Hlen. cbn in Hlen.
    split_and!; try done; try lia. rewrite Hs, app_nil_r. rewrite take_ge; [done|].
    rewrite length_drop in Hl. lia.
  - injection Hn as <- <- <-. rewrite Hph in H2. destruct (H2 k Hk) as [Hok Hlive].
    pose proof Hlive as (fs & data & j & Hcur & Hd & Hp & -> & Hn & Hl & Hs).
    constructor; cbn; rewrite ?app_nil_r; [done | | unfold after_write; by repeat case_match].
    intros k'' [= <-]. split; [done|]. unfold after_write. destruct (Z.leb_spec w 0) as [Hw0|Hw0].
    + destruct (sent_stop _ _ _ _ _ Hw Hw0) as (i & Hi & Hr). destruct (retries k' w).
      * exists fs, data, j. by rewrite Hr.
      * split; [done|]. right. exists fs, (shown_frame pkt data), ((j + i) `min` length (packet_header bo pkt))%nat.
        split; [done|]. cbn [snd]. rewrite (packet_wire pkt data Hp), take_app_le, Hi, Hs, <- app_assoc by lia.
        f_equal. rewrite take_take_drop.
        destruct (decide (j + i <= length (packet_header bo pkt))%nat); [by rewrite Nat.min_l|].
        by rewrite Nat.min_r, !take_ge by lia.
    + destruct (sent_advance _ _ _ _ _ Hw Hn Hw0) as [Hle Hi]. rewrite u64_id by lia.
      exists fs, data, (j + Z.to_nat w)%nat. rewrite drop_drop. split_and!; try done; try lia.
      * rewrite length_drop in *. lia.
      * by rewrite Hi, Hs, <- app_assoc, take_take_drop.
Qed.

Lemma wire_payload p p' pkt off n :
  base p -> wire_inv p -> network_thread bo p p' -> p_net p = NPayload pkt off n -> wire_inv p'.
Proof.
  intros Hb [H1 H2 _] H Hph. pose proof (b_shape bo q0 p Hb) as Hsh. rewrite Hph in Hsh. destruct Hsh as [Hidle Hpk].
  destruct H as [| | | | | | | | | |p pkt' off' Hn|p pkt' off' n' m d k w k' Hn Hne Hk Hm Hread Hw| | | ]; try congruence;
    rewrite Hph in Hn.
  - injection Hn as <- <- ->. constructor; cbn; [done | | done]. intros k Hk. rewrite Hph in H2.
    destruct (H2 k Hk) as [Hok (fs & data & Hcur & Hd & Hp & Ho & _ & Hl & Hs)]. split; [done|].
    rewrite Hcur, wire_stream_snoc, (packet_wire pkt data Hp), Hs. do 2 f_equal. apply take_ge.
    destruct Hp as [_ Hp]. lia.
  - injection Hn as <- <- <-. rewrite Hph in H2. destruct (H2 k Hk) as [Hok Hlive].
    pose proof Hlive as (fs & data & Hcur & Hd & Hp & Ho & Hn & Hl & Hs).
    rewrite (packet_range bo q0 p pkt data m off n Hb) in Hread; [|rewrite Hpk; set_solver|done..|lia|done].
    injection Hread as <-.
    constructor; cbn; rewrite ?app_nil_r; [done | | unfold after_write; by repeat case_match].
    intros k'' [= <-]. split; [done|]. unfold after_write. destruct (Z.leb_spec w 0) as [Hw0|Hw0].
    + destruct (sent_stop _ _ _ _ _ Hw Hw0) as (i & Hi & Hr). destruct (retries k' w).
      * exists fs, data. by rewrite Hr.
      * split; [done|]. right. exists fs, (shown_frame pkt data), (length (packet_header bo pkt) + (Z.to_nat off + i))%nat.
        split; [done|]. cbn [snd].
        by rewrite (packet_wire pkt data Hp), take_app_add, Hi, Hs, <- !app_assoc, take_take_drop.
    + destruct (sent_advance _ _ _ _ _ Hw Hn Hw0) as [Hle Hi]. rewrite u64_id by lia.
      exists fs, data. split_and!; try done; try lia.
      by rewrite Hi, Hs, <- !app_assoc, take_take_drop, <- Z2Nat.inj_add by lia.
Qed.

(** A step that leaves the network thread and its connection where they are. *)
Lemma wire_frame_step p p' new :
  base p -> wire_inv p -> proc_step bo p p' -> p_net p' = p_net p -> p_tls p' = p_tls p ->
  p_calls p' = p_calls p ++ new -> foldl session_step (session (p_calls p)) new = session (p_calls p) ->
  wire_inv p'.
Proof.
  intros Hb [H1 H2 H3] Hst En Et Ec Hnew. pose proof (b_shape bo q0 p Hb) as Hsh.
  assert (session (p_calls p') = session (p_calls p)) as Es by (by rewrite Ec, foldl_app, Hnew).
  constructor; rewrite ?Es, ?En, ?Et; try done. intros k Hk. destruct (H2 k Hk) as [Hok Hl]. split; [done|].
  destruct (p_net p) as [| | | |pkt rest n|pkt off n| | | |] eqn:Ep; try done; destruct Hsh as [_ Hpk].
  - destruct Hl as (fs & data & j & Hc & Hd & Hl). exists fs, data, j. split_and!; [done | | apply Hl..].
    eapply (shows_step bo q0 Hrep Hmax p p'); [done | done | | done]. rewrite Hpk. set_solver.
  - destruct Hl as (fs & data & Hc & Hd & Hl). exists fs, data. split_and!; [done | | apply Hl..].
    eapply (shows_step bo q0 Hrep Hmax p p'); [done | done | | done]. rewrite Hpk. set_solver.
Qed.

Lemma connect_streams c h e ok c' calls s :
  client_ok c h -> state_ c <> Connected -> fresh_env e -> Forall session_good s.2 ->
  tlsConnect e (set_state Connecting c) = (ok, c', calls) -> stream_inv c' (foldl session_step s calls).
Proof.
  intros Hok Hst Hf Hs Hc. pose proof (idle_client _ _ Hok Hst) as Hi.
  pose proof (tlsConnect_streams e (set_state Connecting c) s Hi Hf) as Ht. rewrite Hc in Ht. apply Ht.
  split; [done|]. change (ssl_ (set_state Connecting c)) with (ssl_ c). by rewrite Hi.
Qed.

Lemma wire_connecting p p' :
  base p -> net_inv bo cfg calls0 ce0 p -> wire_inv p -> network_thread bo p p' ->
  match p_net p with NHead | NCall => True | _ => False end -> wire_inv p'.
Proof.
  intros Hb Hn Hi H Hph. pose proof Hi as [H1 H2 _].
  assert (forall k, ssl_ (p_tls p) = Some k -> session_good ((session (p_calls p)).1, k)) as Hgood
    by (intros k Hk; by eapply live_good, H2).
  destruct H as [p H Hr|p H Hr Hst|p e c calls H Hr Hst Hf Hc|p e c calls d H Hr Hst Hf Hc Hd|p H| | | | | | | | | | ];
    try (match goal with E : p_net p = _ |- _ => rewrite E in Hph; done end);
    rewrite H in H2; unfold net_inv in Hn; rewrite H in Hn.
  - constructor; cbn; [|done|done]. rewrite foldl_app. by apply closed_disconnect.
  - constructor; cbn; [done | exact H2 | done].
  - destruct (at_head_ok bo cfg calls0 _ _ Hn) as (h & x & Hok & _).
    destruct (connect_streams _ _ _ _ _ _ _ Hok Hst Hf H1 Hc) as [Ht1 Ht2]. constructor; cbn; rewrite ?foldl_app; [done | | done].
    intros k Hk. rewrite Hk in Ht2. by destruct Ht2.
  - destruct (at_head_ok bo cfg calls0 _ _ Hn) as (h & x & Hok & _).
    destruct (connect_streams _ _ _ _ _ _ _ Hok Hst Hf H1 Hc) as [Ht1 Ht2]. constructor; cbn; rewrite ?foldl_app; cbn; [done | | by rewrite H].
    intros k Hk. rewrite Hk in Ht2. rewrite H. by destruct Ht2.
  - constructor; cbn; [done | exact H2 | done].
Qed.

Lemma wire_pop p p' :
  base p -> wire_inv p -> network_thread bo p p' -> p_net p = NPop -> wire_inv p'.
Proof.
  intros Hb Hi H Hph. pose proof Hi as [H1 H2 _]. rewrite Hph in H2.
  destruct H as [| | | | |p e s _ Hne Hs|p _ Hid Hpk|p pkt rest data _ Hid Hpk Hd| | | | | | | ]; try congruence.
  - constructor; cbn; rewrite ?Hph; done.
  - constructor; cbn; done.
  - constructor; cbn; rewrite ?foldl_app; cbn; [done | | done].
    intros k Hk. destruct (H2 k Hk) as [Hok Hs].
    destruct (base_packet bo q0 Hrep Hmax p pkt data Hb) as [Hp _]; [rewrite Hpk; set_solver | done |].
    split; [apply Forall_app_2; [done|]; constructor; [apply Hp | done]|].
    exists (session (p_calls p)).1, data, 0%nat. rewrite take_0, app_nil_r.
    split_and!; try done. by eapply packet_header_length.
Qed.

Lemma wire_end p p' :
  wire_inv p -> network_thread bo p p' ->
  match p_net p with NFail _ | NClose | NSent _ => True | _ => False end -> wire_inv p'.
Proof.
  intros Hi H Hph. pose proof Hi as [H1 H2 _].
  destruct H as [| | | | | | | | | | | |p pkt rest q H Hpk Hf|p H|p pkt rest q H Hpk Hf];
    try (match goal with E : p_net p = _ |- _ => rewrite E in Hph; done end); rewrite H in H2.
  - constructor; cbn; rewrite ?foldl_app; done.
  - constructor; cbn; [|done|done]. rewrite foldl_app. apply closed_disconnect; [done|].
    intros k Hk. by eapply live_good, H2.
  - constructor; cbn; rewrite ?foldl_app; done.
Qed.

Lemma session_delete c s : ssl_ c = None -> foldl session_step s (TlsClient_delete c) = s.
Proof. intros H. unfold TlsClient_delete, tlsDisconnect. rewrite H. by destruct (0 <=? sockfd_ c), (ssl_ctx_ c). Qed.

Lemma wire_inv_step p p' :
  base p -> net_inv bo cfg calls0 ce0 p -> wire_inv p -> proc_step bo p p' -> wire_inv p'.
Proof.
  intros Hb Hn Hi Hst. pose proof Hst as Hstep. destruct Hst as [H|H|H| ->].
  - destruct (capture_frame bo p p' H) as (E1 & E2 & E3 & E4 & E5 & _).
    eapply (wire_frame_step p p' []); [done..| |done]. by rewrite app_nil_r.
  - destruct (p_net p) eqn:Ep.
    + destruct (network_alive bo p p' H) as [? _]. congruence.
    + eapply wire_connecting; [done..|]. by rewrite Ep.
    + eapply wire_connecting; [done..|]. by rewrite Ep.
    + by eapply wire_pop.
    + by eapply wire_header.
    + by eapply wire_payload.
    + eapply wire_end; [done..|]. by rewrite Ep.
    + eapply wire_end; [done..|]. by rewrite Ep.
    + eapply wire_end; [done..|]. by rewrite Ep.
    + destruct (network_alive bo p p' H) as (_ & ? & _). congruence.
  - pose proof (b_main bo q0 p Hb) as Hm. unfold main_ok in Hm.
    destruct H as [p H|p H|p H Hr|p H Hr|p x H|p x y H|p ok H|p ok e s H Hs|p ok H Hd|p ok H Hd|p H Hd|p H|p H|p H];
      rewrite H in Hm.
    1: { destruct Hm as [Hu _]. unfold net_inv in Hn. rewrite Hu in Hn. destruct Hn as [E1 E2].
         constructor; cbn; [by rewrite E2, Hcalls0 | | done]. by rewrite E1. }
    11: { eapply (wire_frame_step p); [done..|]. apply session_delete, Hi. apply Hm. }
    all: eapply (wire_frame_step p _ []); [done..| |done]; cbn; by rewrite ?app_nil_r.
  - eapply (wire_frame_step p _ []); [done..| |done]. by rewrite app_nil_r.
Qed.

Lemma reaches_wire p : reaches bo (start0 q0 cam0 cfg calls0) p -> wire_inv p.
Proof.
  intros Hr. enough (base p /\ net_inv bo cfg calls0 ce0 p /\ wire_inv p) by tauto. revert p Hr. apply rtc_ind_r.
  - split_and!; [by apply base_start | done |]. constructor; cbn; [by rewrite Hcalls0 | done | done].
  - intros p p' _ Hs (Hb & Hn & Hw).
    split_and!; [by eapply base_step | by eapply net_inv_step | by eapply wire_inv_step].
Qed.
End Wire.
