(* ===== verification/ProcessSetup.v ===== *)
(** * A client that [main] has set up

    [setup] establishes the invariants of ProcessProps, ProcessRefine and
    ProcessFlow, so they hold of everything such a client reaches. *)

From S2P Require Import Prelude Bytes Protocol RingQueue RingSpec RingRefine RingProps RingThreads ThreadProps.
From S2P Require Import CameraCapture CameraProps Main Transport Files TlsClient TlsProps TlsTheorems TlsSteps.
From S2P Require Import Server ServerProps ServerTheorems EndToEnd Pipeline.
From S2P Require Import Process ProcessProps ProcessRefine ProcessFlow.
#[local] Open Scope Z_scope.

(** ** The set-up *)

(** The quality that the encoder gets. *)
Lemma jpeg_quality_in_range os cfg :
  Main.parseArgs os = Some cfg ->
  exists q, jpeg_params_ (CameraCapture_new (camera_config cfg)) = [IMWRITE_JPEG_QUALITY; q] /\ 1 <= q <= 100.
Proof.
  intros H. destruct (parseArgs_ok os cfg H) as (_ & _ & _ & _ & Hq & _). by exists (Main.jpeg_quality cfg).
Qed.

Section Setup.
Context {Ops : SslOps} {Laws : SslLaws Ops}.
Context (bo : byte_order).

(** The mapping behaves as documented; if the queue size on the command line was
    negative that includes that nobody gets 2^63 bytes. *)
Record setup_ok (cfg : Main.Config) (e : setup_env) (p0 : proc) : Prop := mkSetupOk {
  so_args : exists os, Main.parseArgs os = Some cfg;
  so_size : Main.queue_size cfg < 2 ^ 31 \/ mmap_limit (se_mmap e);
  so_mmap : mmap_law (se_mmap e);
  so_run : setup cfg e = Some p0
}.

(** A valid queue has a size that was not negative. *)
Lemma valid_size os cfg mmap malloc :
  Main.parseArgs os = Some cfg -> Main.queue_size cfg < 2 ^ 31 \/ mmap_limit mmap ->
  isValid (RingQueue_new mmap malloc (Main.queue_size cfg) MAX_FRAME_SIZE).1 = true -> Main.queue_size cfg < 2 ^ 31.
Proof.
  intros Hos Hsize Hv. destruct (parseArgs_ok os cfg Hos) as (_ & _ & _ & _ & _ & _ & Hq).
  assert (size_from_int cfg) as [?|?]; [|done|].
  { unfold Main.parseArgs in Hos. destruct (Main.parse os) eqn:E; [done|]. injection Hos as <-. by eapply parse_size. }
  destruct Hsize as [?|Hlim]; [done|]. rewrite new_negative in Hv; [done | done | lia].
Qed.

Lemma start_spec c c' : start c = (true, c') -> frame_seq_ c' = 0 /\ streaming_ c' = true /\ pixel_format_ c' = pixel_format_ c.
Proof. unfold start. destruct (cap_opened_ c); [|done]. by intros [= <-]. Qed.

Lemma open_format e c c' : open e c = Some (true, c') -> in_width 32 (pixel_format_ c').
Proof.
  unfold open. destruct (if ve_open e _ then _ else _); [|done]. cbn. intros H. simplify_bind H. cbn.
  unfold in_width. destruct (CameraCapture.use_jpeg _); cbn; lia.
Qed.

Lemma setup_spec cfg e p0 :
  setup_ok cfg e p0 ->
  exists capture cam, let q0 := sy_q (p_sys p0) in let tcfg := tls_config cfg capture in
    p0 = start0 q0 cam tcfg [CtxNew] /\ ring_rep bo q0 sp_empty /\ max_frame_size_ q0 = MAX_FRAME_SIZE /\
    cam_ok cam /\ start capture = (true, cam) /\ default_backoff tcfg.
Proof.
  intros [[os Hos] Hsize Hmm H]. destruct (parseArgs_ok os cfg Hos) as (_ & _ & _ & _ & _ & _ & Hq).
  unfold setup in H. set (q := (RingQueue_new _ _ _ _).1) in H.
  destruct (isValid q) eqn:Hv; [|done]. cbn in H.
  assert (Main.queue_size cfg < 2 ^ 31) as Hsmall by by eapply valid_size.
  destruct (open _ _) as [[opened capture]|] eqn:Ho; [|done]. cbn in H.
  destruct opened; [|done]. cbn in H.
  destruct (initialize_spec (se_ctx e) (tls_config cfg capture)) as (ok & calls & E & Hn). rewrite E in H.
  destruct ok; [|done]. cbn in H.
  destruct (start capture) as [ok cam] eqn:Es. destruct ok; [|done]. cbn in H. injection H as <-.
  destruct (start_spec _ _ Es) as (S1 & S2 & S3).
  exists capture, cam. cbn. split_and!; try done.
  - unfold start0, client0. f_equal. clear -E. unfold initialize, createSslContext in E.
    destruct (_ || _); [done|]. destruct (xe_new _); [|done]. cbn in E. destruct (_ && _); [done|]. by injection E as <-.
  - assert (calcStride MAX_FRAME_SIZE = 4194368) as Est by done.
    apply new_rep; try done; [lia|]. rewrite Est. lia.
  - unfold q, RingQueue_new. by repeat case_match.
  - unfold cam_ok. rewrite S1, S2, S3. split_and!; [done | by eapply open_format | done].
Qed.
(** The queue is the one that [main] has constructed. *)
Lemma setup_queue cfg e p0 :
  setup cfg e = Some p0 ->
  sy_q (p_sys p0) = (RingQueue_new (se_mmap e) (se_malloc e) (Main.queue_size cfg) MAX_FRAME_SIZE).1.
Proof.
  unfold setup. set (q := (RingQueue_new _ _ _ _).1). destruct (isValid q); [|done]. cbn.
  destruct (open _ _) as [[[] capture]|]; [|done|done]. cbn.
  destruct (initialize _ _) as [[[] c] calls]; [|done]. cbn.
  destruct (start capture) as [[] cam]; [|done]. by intros [= <-].
Qed.
End Setup.

(** ** Streams *)

Section Streams.
Context {Ops : SslOps} {Laws : SslLaws Ops}.
Context (bo : byte_order).

Lemma process_inv cfg e p0 ce p :
  setup_ok cfg e p0 -> fresh_env ce -> reaches bo p0 p ->
  exists capture cam, let q0 := sy_q (p_sys p0) in let tcfg := tls_config cfg capture in
    p0 = start0 q0 cam tcfg [CtxNew] /\ start capture = (true, cam) /\ default_backoff tcfg /\
    ring_rep bo q0 sp_empty /\ max_frame_size_ q0 = MAX_FRAME_SIZE /\ cam_ok cam /\
    proc_base bo q0 p /\ net_inv bo tcfg [CtxNew] ce p /\ capture_inv cam p /\ flow_inv p.
Proof.
  intros Hs Hce Hr. destruct (setup_spec bo cfg e p0 Hs) as (capture & cam & E & R & Hm & Hc & Hst & Hd).
  exists capture, cam. cbv zeta in *. rewrite E in Hr.
  destruct (reaches_inv bo _ cam _ [CtxNew] R Hm Hc eq_refl ce Hce p Hr) as (H1 & H2 & H3 & H4).
  by split_and!.
Qed.

(** The sequential call the network thread has made when it has returned. *)
Lemma process_network cfg e p0 ce p :
  setup_ok cfg e p0 -> fresh_env ce -> reaches bo p0 p -> p_net p = NExit ->
  exists nenvs l, Forall (fun x => env_ok x.2) nenvs /\
    converges (fun n => networkLoop bo n nenvs (p_tls p0)) (p_tls p, l) /\
    p_calls p = p_calls p0 ++ l ++ deleted p.
Proof.
  intros Hs Hce Hr Hn. destruct (process_inv cfg e p0 ce p Hs Hce Hr) as (capture & cam & E & _ & _ & _ & _ & _ & _ & Hi & _).
  unfold net_inv in Hi. rewrite Hn in Hi. destruct Hi as (envs & l & He & Hl & Hc).
  exists (map (pair true) envs ++ [(false, mkLoopEnv ce None [])]), l. split_and!.
  - apply Forall_app_2; [by apply Forall_fmap|]. constructor; [|done]. by split.
  - by rewrite E.
  - by rewrite E.
Qed.

Lemma sessions_deleted (l : list net_call) p :
  ssl_ (p_tls p) = None -> sessions (CtxNew :: l ++ deleted p) = sessions l.
Proof.
  intros Hk. unfold sessions. cbn [foldl session_step]. rewrite foldl_app. unfold deleted.
  destruct (p_main p); try done; [| | destruct (_ =? _); [|done]];
    unfold TlsClient_delete, tlsDisconnect; rewrite Hk; cbn; by destruct (0 <=? _), (ssl_ctx_ _).
Qed.

Lemma popped_part (l1 l l2 : list net_call) : popped_frames l `sublist_of` popped_frames (l1 ++ l ++ l2).
Proof. rewrite !popped_frames_app. apply sublist_inserts_l. by apply sublist_inserts_r. Qed.

End Streams.

Lemma call_frame_seqs max pushes : f_seq <$> omap (call_frame max) pushes `sublist_of` pa_seq <$> pushes.
Proof.
  induction pushes as [|a pushes IH]; [done|]. cbn. unfold call_frame at 1.
  destruct (_ || _); cbn; by constructor.
Qed.

(** [shutdown] has set the flag once it is past its critical section. *)
Definition shut_inv (a : sys) : Prop :=
  match sy_main a with MUnlock | MBroadcast | MDone => shutdown_ (sy_q a) = true | _ => True end.

Lemma shut_inv_step bo a e b : sys_step bo a e b -> shut_inv a -> shut_inv b.
Proof.
  unfold shut_inv. intros [H|H|H|H]; destruct H; cbn in *; try done.
  - match goal with H : take_tail _ _ = _ |- _ => unfold take_tail in H; simplify_bind H end. done.
  - by apply releaseSlot_Some in H as (fl & _ & ->).
  - by apply releaseSlot_Some in H as (fl & _ & ->).
Qed.

Lemma run_shut bo q tr b : run bo (sys_init q) tr b -> shut_inv b.
Proof.
  remember (sys_init q) as a eqn:E. induction 1; [by subst | |]; eapply shut_inv_step; eauto.
Qed.
