(* ===== verification/ProcessMoves.v ===== *)
(** * What moves the threads of the client process

    From every reachable state a thread inside an operation can be driven to the
    operation's end: the capture thread out of [push], the network thread out of
    [pop] and out of the packet it is sending. *)

From S2P Require Import Prelude Bytes Protocol RingQueue RingSpec RingRefine RingProps RingThreads ThreadProps.
From S2P Require Import CameraCapture CameraProps Main Transport Files TlsClient TlsProps TlsTheorems TlsSteps.
From S2P Require Import EndToEnd Pipeline.
From S2P Require Import Process ProcessProps ProcessRefine ProcessFlow ProcessSetup.
From Stdlib Require Import Relation_Operators Wellfounded.Lexicographic_Product.

#[local] Open Scope Z_scope.

Section Moves.
Context {Ops : SslOps} {Laws : SslLaws Ops} {Prog : SslProgress Ops}.
Context (bo : byte_order) (q0 : RingQueue) (cam0 : CameraCapture) (cfg : TlsConfig) (calls0 : list net_call).
Context (Hrep : ring_rep bo q0 sp_empty) (Hmax : max_frame_size_ q0 = MAX_FRAME_SIZE) (Hcam : cam_ok cam0).
Context (ce0 : connect_env) (Hce0 : fresh_env ce0).

(** [pop] is only called with the timeout of the network loop. *)
Definition pop_timeout (p : proc) : Prop :=
  match sy_network (p_sys p) with
  | CLock t | CTest t | CSleep t _ => t = QUEUE_TIMEOUT_MS
  | _ => True
  end.

Record live_inv (p : proc) : Prop := mkLiveInv {
  li_base : proc_base bo q0 p;
  li_net : net_inv bo cfg calls0 ce0 p;
  li_timeout : pop_timeout p
}.

Lemma pop_timeout_frame p p' :
  sy_network (p_sys p') = sy_network (p_sys p) \/ sy_network (p_sys p') = wake (sy_network (p_sys p)) ->
  pop_timeout p -> pop_timeout p'.
Proof. unfold pop_timeout. intros [-> | ->]; [done|]. by destruct (sy_network (p_sys p)). Qed.

Lemma live_step p p' : live_inv p -> proc_step bo p p' -> live_inv p'.
Proof.
  intros [Hb Hn Ht] Hst. constructor; [by eapply base_step | by eapply net_inv_step |].
  destruct Hst as [H|H|H| ->]; [| | |done].
  - destruct (capture_frame bo p p' H) as (_ & _ & _ & _ & _ & _ & _ & _ & E). by eapply pop_timeout_frame.
  - destruct H as [| | | | |p e s H Hne Hs| | | | | | | | | ]; try done.
    unfold pop_timeout in *. cbn. by destruct Hs; cbn in *.
  - destruct (main_frame p p' H) as (_ & _ & _ & _ & _ & _ & E & _). by eapply pop_timeout_frame.
Qed.

(** Steps that bring a measure down lead to the goal. *)
Lemma drive {A} (R : A -> A -> Prop) (m : proc -> A) (I G : proc -> Prop) :
  well_founded R ->
  (forall p, I p -> G p \/ exists p', proc_step bo p p' /\ I p' /\ R (m p') (m p)) ->
  forall p, I p -> exists p', reaches bo p p' /\ I p' /\ G p'.
Proof.
  intros Hwf Hstep p. remember (m p) as x eqn:E. revert p E.
  induction x as [x IH] using (well_founded_induction Hwf). intros p -> Hi.
  destruct (Hstep p Hi) as [Hg|(p1 & Hs & Hi1 & Hm)]; [exists p; split; [constructor | done]|].
  destruct (IH _ Hm p1 eq_refl Hi1) as (p' & Hr & H). exists p'. split; [|done]. by eapply rtc_l.
Qed.

Lemma drive_nat (m : proc -> nat) (I G : proc -> Prop) :
  (forall p, I p -> G p \/ exists p', proc_step bo p p' /\ I p' /\ (m p' < m p)%nat) ->
  forall p, I p -> exists p', reaches bo p p' /\ I p' /\ G p'.
Proof. apply drive, lt_wf. Qed.

Lemma live_rel p : live_inv p ->
  exists s, sys_rel bo (capacity_ q0) MAX_FRAME_SIZE (slot_stride_ q0) (p_sys p) s.
Proof. intros [Hb _ _]. destruct (base_rel bo q0 Hrep Hmax p Hb) as (s & H & _). by exists s. Qed.

(** The thread that holds the mutex moves in the process, too. *)
Lemma owner_moves p e b :
  live_inv p -> network_step bo (p_sys p) e b \/ RingThreads.main_step (p_sys p) e b ->
  (owner_measure b < owner_measure (p_sys p))%nat -> proc_step bo p (ring e b p).
Proof.
  intros [Hb _ _] H Hm. pose proof (b_shape _ _ _ Hb) as Hs. pose proof (b_main _ _ _ Hb) as Hok.
  destruct H as [H|H].
  - assert (sy_network (p_sys p) <> CIdle) as Hne.
    { intros E. destruct H; cbn in *; try discriminate. unfold owner_measure in Hm. cbn in Hm.
      destruct o as [[]|]; lia. }
    apply Step_network, Net_pop; [|done..]. unfold net_shape in Hs.
    destruct (p_net p); naive_solver.
  - assert (sy_main (p_sys p) <> MRun /\ sy_main (p_sys p) <> MDone) as [H1 H2].
    { split; intros E; destruct H; cbn in *; try discriminate. unfold owner_measure in Hm. cbn in Hm.
      destruct o as [[]|]; lia. }
    assert (exists ok, p_main p = MShut ok) as [ok E].
    { unfold main_ok in Hok. destruct (p_main p); naive_solver. }
    by eapply Step_main, Main_shut.
Qed.

(** ** The capture thread returns from [push] *)

Lemma owner_small a : (owner_measure a <= 3)%nat.
Proof.
  unfold owner_measure. destruct (sy_owner a) as [[]|]; [lia| | |lia].
  - destruct (sy_network a); lia.
  - destruct (sy_main a); lia.
Qed.

Definition push_left (p : proc) : nat := 4 * capture_measure (p_sys p) + owner_measure (p_sys p).

(** Only steps at the queue. *)
Definition same_outside (p p' : proc) : Prop := exists sy tr,
  p' = mkProc sy (p_running p) (p_camera p) (p_capture p) (p_tls p) (p_net p) (p_main p) tr
         (p_pushes p) (p_calls p) (p_stats p) (p_deletes p).

Lemma same_ring p p' e b : same_outside p p' -> same_outside p (ring e b p').
Proof. intros (sy & tr & ->). by do 2 eexists. Qed.

Lemma push_returns p : live_inv p ->
  exists p', reaches bo p p' /\ live_inv p' /\ sy_capture (p_sys p') = PIdle /\ same_outside p p'.
Proof.
  intros Hi0. destruct (drive_nat push_left (fun p1 => live_inv p1 /\ same_outside p p1)
    (fun p1 => sy_capture (p_sys p1) = PIdle)) with p as (p' & H1 & [H2 H3] & H4);
    [|by split; [|exists (p_sys p), (p_trace p); destruct p] | by exists p'].
  clear Hi0. intros p1 [Hi Hsame].
  destruct (live_rel p1 Hi) as (s & Hrel). pose proof (owner_small (p_sys p1)) as Ho.
  assert (forall e b, proc_step bo p1 (ring e b p1) -> (push_left (ring e b p1) < push_left p1)%nat ->
    exists p', proc_step bo p1 p' /\ (live_inv p' /\ same_outside p p') /\ (push_left p' < push_left p1)%nat) as Hring.
  { intros e b Hst Hm. exists (ring e b p1).
    split_and!; [done | by eapply live_step | by apply same_ring | done]. }
  assert (forall e b, capture_step bo (p_sys p1) e b -> sy_capture (p_sys p1) <> PIdle ->
    (capture_measure b < capture_measure (p_sys p1))%nat ->
    exists p', proc_step bo p1 p' /\ (live_inv p' /\ same_outside p p') /\ (push_left p' < push_left p1)%nat) as Hcap.
  { intros e b Hs Hne Hm. apply (Hring e b); [by apply Step_capture, Cap_push|].
    unfold push_left. cbn. pose proof (owner_small b). lia. }
  destruct (sy_capture (p_sys p1)) eqn:Epc.
  1: by left.
  1: { right. destruct (owner_progress bo _ _ _ _ s f Hrel Epc) as [(b & Hs & Hm)|(e & b & Hs & Hpc & Hm)].
       - by eapply Hcap.
       - apply (Hring e b); [by apply owner_moves|]. unfold push_left, capture_measure. cbn. rewrite Epc, Hpc. lia. }
  all: right; destruct (capture_progress bo _ _ _ _ s Hrel) as (e & b & Hs & Hm);
    [by rewrite Epc | by rewrite Epc |]; by eapply Hcap.
Qed.

(** ** The network thread returns to the head of its loop *)

Definition pop_rank (shut : bool) (c : network_pc) : nat :=
  match c with
  | CIdle => 0 | CAlloc _ | CUnlockNull => 1 | CUnlock _ => 2 | CTake => 3
  | CSleep _ signalled => if signalled || shut then 5 else 3
  | CTest _ => 4 | CLock _ => 6
  end.

Definition net_rank (p : proc) : nat :=
  match p_net p with
  | NUnborn | NExit => 0
  | NHead => 1
  | NClose => 2
  | NFail _ | NSent _ => 3
  | NPayload _ _ _ => 4
  | NHeader _ _ _ => 5
  | NPop => 6 + pop_rank (shutdown_ (sy_q (p_sys p))) (sy_network (p_sys p))
  | NCall => 20
  end.

(** What is left of the current sslWriteAll, and of the patience with it. *)
Definition write_left (p : proc) : nat * nat :=
  match p_net p with
  | NHeader _ _ n | NPayload _ _ n =>
      (Z.to_nat n, match ssl_ (p_tls p) with Some k => patience k | None => 0%nat end)
  | _ => (0%nat, 0%nat)
  end.

Definition lex : relation (nat * nat) := slexprod nat nat lt lt.
Definition net_less : relation (nat * (nat * nat)) := slexprod nat (nat * nat) lt lex.

Lemma net_less_wf : well_founded net_less.
Proof. apply wf_slexprod; [apply lt_wf|]. apply wf_slexprod; apply lt_wf. Qed.

Definition net_left (p : proc) : nat * (nat * nat) := (net_rank p, write_left p).

Lemma net_left_rank p p' : (net_rank p' < net_rank p)%nat -> net_less (net_left p') (net_left p).
Proof. intros H. by apply left_slex. Qed.

Lemma net_left_write p p' :
  net_rank p' = net_rank p -> lex (write_left p') (write_left p) -> net_less (net_left p') (net_left p).
Proof. unfold net_left. intros -> H. by apply right_slex. Qed.

(** The wait in [pop] returns although nobody signalled, the timeout is not over
    and the queue is not shut down: POSIX allows it, and [pop] waits again. *)
Definition spurious (a b : sys) : Prop :=
  exists t, sy_network a = CSleep t false /\ sy_network b = CTest t /\ shutdown_ (sy_q a) = false.

(** Every other step of [pop] brings its end nearer. *)
Lemma pop_step_rank a e b :
  network_step bo a e b -> sy_network a <> CIdle -> ~ spurious a b ->
  (pop_rank (shutdown_ (sy_q b)) (sy_network b) < pop_rank (shutdown_ (sy_q a)) (sy_network a))%nat.
Proof.
  intros H. destruct H as [| | | q o p m h t H| |q p m h t []| | | | | | |]; cbn; intros Hne Hsp; try done; try lia.
  - unfold sleeps, must_wait in H. by destruct (shutdown_ q); rewrite ?andb_false_r in H; [|lia].
  - destruct (shutdown_ q) eqn:E; [lia|]. destruct Hsp. by exists t.
  - destruct (_ || _); lia.
Qed.

(** The network thread has the mutex to itself. *)
Definition solo (p : proc) : Prop :=
  live_inv p /\ sy_owner (p_sys p) = if network_locks (sy_network (p_sys p)) then Some Network else None.

Lemma pop_moves p :
  solo p -> sy_network (p_sys p) <> CIdle ->
  exists e b, network_step bo (p_sys p) e b /\ ~ spurious (p_sys p) b.
Proof.
  intros [Hi Ho] Hne.
  destruct (live_rel p Hi) as (s & Hrel). pose proof (li_timeout _ Hi) as Ht. unfold pop_timeout in Ht.
  destruct (network_locks (sy_network (p_sys p))) eqn:El.
  - destruct (network_owner_progress bo _ _ _ _ s Hrel Ho) as (e & b & Hs & _).
    exists e, b. split; [done|]. intros (t & E & _). by rewrite E in El.
  - destruct (p_sys p) as [q o c n m h] eqn:Es. cbn in *. subst o. destruct n; try done.
    + do 2 eexists. split; [apply N_lock | by intros (? & ? & _)].
    + do 2 eexists. split; [apply N_timeout; by rewrite Ht | by intros (? & _ & ? & _)].
    + do 2 eexists. split; [apply N_alloc | by intros (? & ? & _)].
Qed.

(** One SSL_write call of the loop, whatever it returns. *)
Lemma after_write_cases pkt k k' w n buf again advanced :
  n < 2 ^ 31 -> 0 <= n -> SSL_write k buf (i32_num n) = (w, k') ->
  (after_write pkt k' w again advanced = again /\ (patience k' < patience k)%nat) \/
  after_write pkt k' w again advanced = NFail pkt \/
  (after_write pkt k' w again advanced = advanced /\ 0 < w <= n).
Proof.
  intros Hn31 Hn Hw. unfold i32_num in Hw. rewrite i32_id in Hw by lia. unfold after_write.
  destruct (Z.leb_spec w 0) as [Hw0|Hw0]; [destruct (retries k' w) eqn:Er|].
  - left. split; [done|]. by eapply write_retry.
  - by right; left.
  - right. right. destruct (SSL_write_some _ _ _ _ _ Hw Hw0) as (Hle & _). done.
Qed.

Lemma header_less p p' pkt rest n :
  live_inv p -> p_net p = NHeader pkt rest n -> network_thread bo p p' -> net_less (net_left p') (net_left p).
Proof.
  intros Hi E H. pose proof (li_net _ Hi) as Hn. unfold net_inv in Hn. rewrite E in Hn.
  destruct Hn as (c & data & k0 & k & _ & _ & _ & _ & Htls & Hlen & Hn31 & _).
  destruct H as [| | | | | | | |p pkt' rest' E'|p pkt' rest' n' k1 w k' E' Hne Hk Hw| | | | | ]; try congruence;
    rewrite E in E'; injection E' as <- <- ->.
  { apply net_left_rank. unfold net_rank. cbn. rewrite E. lia. }
  rewrite Htls in Hk. injection Hk as <-.
  destruct (after_write_cases pkt k k' w n' rest (NHeader pkt rest n')
    (NHeader pkt (drop (Z.to_nat w) rest) (u64 (n' - w)))) as [[Ea Hp]|[Ea|[Ea Hp]]]; [lia | lia | done | | |];
    unfold net_left, net_rank, write_left; cbn; rewrite Ea, E, ?Htls; cbn.
  - by apply right_slex, right_slex.
  - apply left_slex. lia.
  - rewrite u64_id by lia. apply right_slex, left_slex. lia.
Qed.

Lemma payload_less p p' pkt off n :
  live_inv p -> p_net p = NPayload pkt off n -> network_thread bo p p' -> net_less (net_left p') (net_left p).
Proof.
  intros Hi E H. pose proof (li_net _ Hi) as Hn. unfold net_inv in Hn. rewrite E in Hn.
  destruct Hn as (c & data & k0 & k1 & k & _ & _ & _ & _ & Htls & _ & _ & _ & Hlen & Hn31 & _).
  destruct H as [| | | | | | | | | |p pkt' off' E'|p pkt' off' n' m d k2 w k' E' Hne Hk _ _ Hw| | | ]; try congruence;
    rewrite E in E'; injection E' as <- <- ->.
  { apply net_left_rank. unfold net_rank. cbn. rewrite E. lia. }
  rewrite Htls in Hk. injection Hk as <-.
  destruct (after_write_cases pkt k k' w n' d (NPayload pkt off n')
    (NPayload pkt (off + w) (u64 (n' - w)))) as [[Ea Hp]|[Ea|[Ea Hp]]]; [lia | lia | done | | |];
    unfold net_left, net_rank, write_left; cbn; rewrite Ea, E, ?Htls; cbn.
  - by apply right_slex, right_slex.
  - apply left_slex. lia.
  - rewrite u64_id by lia. apply right_slex, left_slex. lia.
Qed.

(** Whatever step the network thread takes, a call of [pop], a packet and the
    way out of the loop come nearer to their end. *)
Lemma network_less p p' :
  live_inv p -> p_running p = false \/ p_net p <> NHead ->
  network_thread bo p p' -> ~ spurious (p_sys p) (p_sys p') -> net_less (net_left p') (net_left p).
Proof.
  intros Hi Hr H Hsp. pose proof H as Hst.
  destruct H; try (by eapply header_less); try (by eapply payload_less);
    try (by destruct Hr; congruence); apply net_left_rank; unfold net_rank; cbn;
    repeat match goal with E : p_net _ = _ |- _ => rewrite E end; try lia.
  - match goal with H : network_step _ _ _ _ |- _ => pose proof (pop_step_rank _ _ _ H) as Hl end. cbn in Hsp. naive_solver lia.
Qed.

(** [frame_packet_free] of the packet in hand. *)
Lemma free_moves p pkt :
  live_inv p -> sy_packets (p_sys p) = [pkt] -> exists q, frame_packet_free (sy_q (p_sys p)) (Some pkt) = Some q.
Proof.
  intros Hi Hpk. destruct (live_rel p Hi) as (s & Hrel).
  destruct (rel_packet bo _ _ _ _ s pkt Hrel) as (t & f & -> & Hh); [rewrite Hpk; set_solver|].
  pose proof Hrel as [(Hc & _) _ Hr _].
  destruct (capture_rel_release bo _ _ _ _ s t f Hc Hr Hh) as (fl & E & _). by eexists.
Qed.

(** And it has a step to take. *)
Lemma header_can p pkt rest n :
  live_inv p -> p_net p = NHeader pkt rest n -> exists p', network_thread bo p p'.
Proof.
  intros Hi E. pose proof (li_net _ Hi) as Hn. unfold net_inv in Hn. rewrite E in Hn.
  destruct Hn as (c & data & k0 & k & _ & _ & _ & _ & Htls & _).
  destruct (Z.eq_dec n 0) as [->|Hne]; [eexists; by eapply Net_header_done|].
  destruct (SSL_write k rest (i32_num n)) as [w k'] eqn:Ew.
  eexists. eapply Net_header_write; [exact E | done | by rewrite Htls | exact Ew].
Qed.

Lemma payload_can p pkt off n :
  live_inv p -> p_net p = NPayload pkt off n -> exists p', network_thread bo p p'.
Proof.
  intros Hi E. pose proof (li_net _ Hi) as Hn. pose proof (li_base _ Hi) as Hb.
  pose proof (b_shape _ _ _ Hb) as Hs. unfold net_inv in Hn. rewrite E in Hn, Hs. destruct Hs as [_ Hpk].
  destruct Hn as (c & data & k0 & k1 & k & _ & _ & Hok & Hbytes & Htls & _ & Hoff & Hsum & Hlen & Hn31 & _).
  destruct (Z.eq_dec n 0) as [->|Hne]; [eexists; by eapply Net_payload_done|].
  assert (exists m, mmap_base_ (sy_q (p_sys p)) = Some m) as [m Hm].
  { unfold packet_bytes in Hbytes. destruct (mmap_base_ _); [by eexists | done]. }
  destruct (SSL_write k (drop (Z.to_nat off) data) (i32_num n)) as [w k'] eqn:Ew.
  eexists. eapply Net_payload_write; [exact E | done | by rewrite Htls | exact Hm | | exact Ew].
  eapply packet_range; [exact Hb | rewrite Hpk; set_solver | done..| lia | done].
Qed.

Lemma network_can p :
  solo p -> p_net p <> NUnborn -> p_net p <> NHead -> p_net p <> NExit ->
  exists p', network_thread bo p p' /\ ~ spurious (p_sys p) (p_sys p').
Proof.
  intros Hst Hnu Hnh Hne. pose proof Hst as [Hi _]. pose proof (li_base _ Hi) as Hb.
  pose proof (b_shape _ _ _ Hb) as Hs.
  assert (sy_network (p_sys p) = CIdle -> (exists p', network_thread bo p p') ->
    exists p', network_thread bo p p' /\ ~ spurious (p_sys p) (p_sys p')) as Hidle.
  { intros Hid [p' H]. exists p'. split; [done|]. intros (t & E & _). congruence. }
  unfold net_shape in Hs. destruct (p_net p) as [| | | |pkt rest n|pkt off n|pkt| |pkt|] eqn:E; try done.
  2: { destruct Hs as [[Hid Hs]|[Hid _]].
       - apply Hidle; [done|]. destruct Hs as [Hpk|[pkt Hpk]]; [eexists; by apply Net_null|].
         destruct (base_bytes bo q0 Hrep Hmax p pkt Hb) as [data Hd]; [rewrite Hpk; set_solver|].
         eexists. by eapply Net_packet.
       - destruct (pop_moves p Hst Hid) as (e & b & Hstep & Hsp).
         exists (ring e b p). split; [by apply Net_pop | done]. }
  all: destruct Hs as [Hid Hpk]; apply Hidle; [done|].
  - eexists. by apply Net_call.
  - by eapply header_can.
  - by eapply payload_can.
  - destruct (free_moves p pkt Hi Hpk) as [q Hq]. eexists. by eapply Net_fail.
  - eexists. by apply Net_close.
  - destruct (free_moves p pkt Hi Hpk) as [q Hq]. eexists. by eapply Net_sent.
Qed.

Lemma network_moves p :
  solo p -> p_net p <> NUnborn -> p_net p <> NHead -> p_net p <> NExit ->
  exists p', network_thread bo p p' /\ net_less (net_left p') (net_left p).
Proof.
  intros Hst Hnu Hnh Hne. destruct (network_can p Hst Hnu Hnh Hne) as (p' & H & Hsp).
  exists p'. split; [done|]. apply network_less; [apply Hst | by right | done..].
Qed.

Lemma reaches_live p : reaches bo (start0 q0 cam0 cfg calls0) p -> live_inv p.
Proof.
  revert p. apply rtc_ind_r.
  - constructor; [by apply base_start | done | done].
  - intros p p' _ Hs Hl. by eapply live_step.
Qed.
End Moves.
