(* ===== verification/ProcessShutdown.v ===== *)
(** * The client process shuts down

    Once [running] is false every path of steps of the three threads ends at the
    end of [main]: each step brings the end of [push], of [main] or of the
    network thread's iteration nearer, and as long as [main] has not returned
    some thread has a step to take. The wake-ups of a wait that neither a signal
    nor the timeout nor [shutdown] explains are left out: POSIX does not bound
    their number. *)

From S2P Require Import Prelude Bytes Protocol RingQueue RingSpec RingRefine RingProps RingThreads ThreadProps.
From S2P Require Import CameraCapture CameraProps Main Transport Files TlsClient TlsProps TlsTheorems TlsSteps.
From S2P Require Import EndToEnd Pipeline.
From S2P Require Import Process ProcessProps ProcessRefine ProcessFlow ProcessSetup ProcessMoves.
From Stdlib Require Import Relation_Operators Wellfounded.Lexicographic_Product.

#[local] Open Scope Z_scope.

Definition exited {Ops : SslOps} (p : proc) : Prop := exists code, p_main p = MExit code.

(** A step of one of the threads that is not such a wake-up. *)
Definition settling_step {Ops : SslOps} {Laws : SslLaws Ops} (bo : byte_order) (p p' : proc) : Prop :=
  (capture_thread bo p p' \/ network_thread bo p p' \/ main_thread p p') /\
  ~ spurious (p_sys p) (p_sys p').

Section Shutdown.
Context {Ops : SslOps} {Laws : SslLaws Ops} {Prog : SslProgress Ops}.
Context (bo : byte_order) (q0 : RingQueue) (cam0 : CameraCapture) (cfg : TlsConfig) (calls0 : list net_call).
Context (Hrep : ring_rep bo q0 sp_empty) (Hmax : max_frame_size_ q0 = MAX_FRAME_SIZE) (Hcam : cam_ok cam0).
Context (ce0 : connect_env) (Hce0 : fresh_env ce0).
#[local] Abbreviation live := (live_inv bo q0 cfg calls0 ce0).
#[local] Abbreviation li_base := (li_base bo q0 cfg calls0 ce0).
#[local] Abbreviation live_step := (live_step bo q0 cam0 cfg calls0 Hrep Hmax Hcam ce0 Hce0).
#[local] Abbreviation live_rel := (live_rel bo q0 cfg calls0 Hrep Hmax ce0).
#[local] Abbreviation network_less := (network_less bo q0 cfg calls0 ce0).
#[local] Abbreviation network_can := (network_can bo q0 cam0 cfg calls0 Hrep Hmax Hcam ce0 Hce0).

Lemma settling_reaches p p' : rtc (settling_step bo) p p' -> reaches bo p p'.
Proof.
  apply rtc_subrel. intros x y [[H|[H|H]] _]; [by apply Step_capture | by apply Step_network | by apply Step_main].
Qed.

(** Every reachable state after [running] has become false. *)
Definition settling (p : proc) : Prop := live p /\ p_running p = false.

(** ** What is left to do *)

(** Of the capture thread. *)
Definition capture_left (p : proc) : nat :=
  match p_capture p with CapDone => 0 | CapLoop => S (capture_measure (p_sys p)) end.

Definition shut_rank (m : main_pc) : nat :=
  match m with MRun => 6 | MLock => 5 | MSet => 4 | MUnlock => 3 | MBroadcast => 2 | MDone => 1 end.

Definition main_rank (p : proc) : nat :=
  match p_main p with
  | MSpawn => 17 | MStats1 _ => 16 | MStats2 _ _ => 15 | MWait => 14 | MStop _ => 13
  | MShut _ => 6 + shut_rank (sy_main (p_sys p))
  | MJoinCapture _ => 6 | MJoinNetwork => 4
  | MDelete => 3 | MDeleteCapture => 2 | MDeleteQueue => 1 | MExit _ => 0
  end.

Definition all_left (p : proc) : nat * (nat * (nat * nat)) :=
  ((capture_left p + main_rank p)%nat, net_left p).

Definition all_less : relation (nat * (nat * (nat * nat))) := slexprod nat (nat * (nat * nat)) lt net_less.

Lemma all_less_wf : well_founded all_less.
Proof. apply wf_slexprod; [apply lt_wf | apply net_less_wf]. Qed.

Lemma main_rank_frame p p' :
  p_main p' = p_main p -> sy_main (p_sys p') = sy_main (p_sys p) -> main_rank p' = main_rank p.
Proof. unfold main_rank. by intros -> ->. Qed.

Lemma capture_left_frame p p' :
  p_capture p' = p_capture p -> capture_measure (p_sys p') = capture_measure (p_sys p) ->
  capture_left p' = capture_left p.
Proof. unfold capture_left. by intros -> ->. Qed.

(** What another thread does to the queue while the capture thread is in
    [push] leaves that thread where it is. *)
Lemma network_step_measure a e b s :
  sys_rel bo (capacity_ q0) MAX_FRAME_SIZE (slot_stride_ q0) a s ->
  network_step bo a e b -> capture_measure b = capture_measure a.
Proof.
  intros Hrel H. destruct H; try done.
  - assert (capture_locks p = false) as Hl by (eapply capture_outside; [exact Hrel | by left]).
    unfold capture_measure. cbn. by destruct p.
  - match goal with H : releaseSlot _ _ = _ |- _ => apply releaseSlot_Some in H as (fl & _ & ->) end. done.
Qed.

Lemma free_measure a pkt q h :
  frame_packet_free (sy_q a) (Some pkt) = Some q -> capture_measure (set_queue q h a) = capture_measure a.
Proof. intros H. apply releaseSlot_Some in H as (fl & _ & ->). done. Qed.

Lemma network_measure p p' :
  live p -> network_thread bo p p' -> capture_measure (p_sys p') = capture_measure (p_sys p).
Proof.
  intros Hi H. destruct (live_rel p Hi) as (s & Hrel). destruct H; cbn [p_sys tls set_net ring]; try done.
  - by eapply network_step_measure.
  - by eapply free_measure.
  - by eapply free_measure.
Qed.

(** ** Every step brings the end nearer *)

Lemma capture_less p p' :
  settling p -> capture_thread bo p p' -> (capture_left p' < capture_left p)%nat /\ main_rank p' = main_rank p.
Proof.
  intros [Hi Hr] H. destruct (capture_frame bo p p' H) as (_ & _ & E3 & _ & _ & _ & _ & E8 & _).
  split; [|by apply main_rank_frame]. destruct (live_rel p Hi) as (s & Hrel). pose proof (b_done _ _ _ (li_base _ Hi)) as Hd.
  destruct H as [p [Hc Hid] _|p e call cam _ Hrun _ _|p e a cam f _ Hrun _ _|p e b Hne Hs]; unfold capture_left; cbn.
  - rewrite Hc. lia.
  - by rewrite Hr in Hrun.
  - by rewrite Hr in Hrun.
  - destruct (p_capture p); [|by destruct Hne; auto].
    pose proof (capture_step_less bo _ _ _ _ _ _ s Hrel Hs Hne). lia.
Qed.

Lemma main_less p p' :
  settling p -> main_thread p p' -> (main_rank p' < main_rank p)%nat /\ capture_left p' = capture_left p.
Proof.
  intros [_ Hr] H. pose proof (main_frame p p' H) as (_ & _ & E3 & _). split.
  - destruct H as [p H|p H|p H _|p H Hrun|p x H|p x y H|p ok H|p ok e b H Hs|p ok H Hd|p ok H Hd|p H Hd|p H|p H|p H];
      unfold main_rank; cbn; rewrite H; try lia.
    + congruence.
    + destruct (sy_main (p_sys p)); cbn; lia.
    + destruct Hs; cbn; lia.
    + rewrite Hd. cbn. lia.
    + destruct ok; cbn; lia.
  - apply capture_left_frame; [done|]. destruct H as [| | | | | | |p ok e b H Hs| | | | | | ]; cbn; try done. by destruct Hs.
Qed.

Lemma settling_less p p' :
  settling p -> settling_step bo p p' -> settling p' /\ all_less (all_left p') (all_left p).
Proof.
  intros Hp [H Hsp]. pose proof Hp as [Hi Hr].
  assert (live p' /\ p_running p' = p_running p \/ live p' /\ p_running p' = false) as Hp'.
  { pose proof (b_shape _ _ _ (li_base _ Hi)) as Hs. destruct H as [H|[H|H]].
    - left. split; [by eapply live_step, Step_capture|]. by apply (capture_frame bo p p').
    - left. split; [by eapply live_step, Step_network|]. by apply (network_frame bo p p').
    - right. split; [by eapply live_step, Step_main|]. by destruct H. }
  split; [destruct Hp' as [[? ?]|[? ?]]; split; congruence|]. unfold all_less, all_left.
  destruct H as [H|[H|H]].
  - destruct (capture_less p p' Hp H) as [Hl ->]. apply left_slex. lia.
  - pose proof (b_shape _ _ _ (li_base _ Hi)) as Hs.
    destruct (network_frame bo p p' H Hs) as (_ & E2 & E3 & _ & _ & _ & _ & E8 & _).
    rewrite (capture_left_frame p p'), (main_rank_frame p p'); [|done|done|done|by apply network_measure].
    apply right_slex. apply network_less; [done | by left | done..].
  - destruct (main_less p p' Hp H) as [Hl ->]. apply left_slex. lia.
Qed.

(** ** Some thread can go on *)

(** A step that does not take the network thread out of a wait. *)
Lemma can_settle p p' :
  capture_thread bo p p' \/ main_thread p p' -> settling_step bo p p'.
Proof.
  intros H. split; [tauto|]. intros (t & E & E' & _). destruct H as [H|H].
  - destruct (capture_frame bo p p' H) as (_ & _ & _ & _ & _ & _ & _ & _ & En). rewrite E, E' in En. by destruct En.
  - destruct (main_frame p p' H) as (_ & _ & _ & _ & _ & _ & En & _). rewrite E, E' in En. by destruct En.
Qed.

(** The holder of the mutex. *)
Lemma owner_can p t :
  settling p -> sy_owner (p_sys p) = Some t -> exists p', settling_step bo p p'.
Proof.
  intros [Hi Hr] Ho. destruct (live_rel p Hi) as (s & Hrel). pose proof Hrel as [_ (L1 & L2 & L3) _ _].
  rewrite Ho in L1, L2, L3. destruct t; cbn in L1, L2, L3.
  - destruct (capture_can bo _ _ _ _ s Hrel) as (e & b & H); [intros E; by rewrite E in L1 | intros f E; by rewrite E in L1 |].
    exists (ring e b p). apply can_settle. left. apply Cap_push; [|done]. intros E. by rewrite E in L1.
  - destruct (network_owner_progress bo _ _ _ _ s Hrel Ho) as (e & b & H & _).
    pose proof (b_shape _ _ _ (li_base _ Hi)) as Hs.
    assert (sy_network (p_sys p) <> CIdle) as Hne by (intros E; by rewrite E in L2).
    exists (ring e b p). split.
    + right. left. apply Net_pop; [|done..]. unfold net_shape in Hs. destruct (p_net p); naive_solver.
    + intros (t & E & _). by rewrite E in L2.
  - pose proof (b_main _ _ _ (li_base _ Hi)) as Hok. unfold main_ok in Hok.
    assert (exists ok, p_main p = MShut ok) as [ok Em].
    { destruct (p_main p); destruct_and?; try (by eexists); exfalso;
        repeat match goal with E : sy_main _ = _ |- _ => rewrite E in L3 end; done. }
    destruct (p_sys p) as [q o c n m h] eqn:Es. cbn in *. destruct m; try done.
    + eexists. apply can_settle. right. eapply Main_shut; [exact Em|]. rewrite Es. apply M_set.
    + eexists. apply can_settle. right. eapply Main_shut; [exact Em|]. rewrite Es. apply M_unlock.
Qed.

(** The capture thread, when the mutex is free. *)
Lemma capture_thread_can p :
  settling p -> sy_owner (p_sys p) = None -> p_capture p = CapLoop -> exists p', settling_step bo p p'.
Proof.
  intros [Hi Hr] Ho Hc. destruct (live_rel p Hi) as (s & [_ (L1 & _ & _) _ _]). rewrite Ho in L1. cbn in L1.
  assert (forall b, capture_step bo (p_sys p) None b -> sy_capture (p_sys p) <> PIdle ->
    exists p', settling_step bo p p') as Hstep.
  { intros b Hs Hne. exists (ring None b p). apply can_settle. left. by apply Cap_push. }
  destruct (sy_capture (p_sys p)) eqn:E; try done.
  - exists (set_capture CapDone p). apply can_settle. left. apply Cap_exit; [done | by rewrite Hr].
  - destruct (p_sys p) as [q o c n m h] eqn:Es. cbn in *. subst. eapply Hstep; [apply S_lock | done].
  - destruct (p_sys p) as [q o c n m h] eqn:Es. cbn in *. subst. eapply Hstep; [apply S_count_drop | done].
Qed.

(** The network thread, when everybody else is done. *)
Lemma network_thread_can p :
  settling p -> sy_owner (p_sys p) = None -> p_net p <> NUnborn -> p_net p <> NExit -> exists p', settling_step bo p p'.
Proof.
  intros [Hi Hr] Ho Hnu Hne. destruct (live_rel p Hi) as (s & [_ (_ & L2 & _) _ _]). rewrite Ho in L2. cbn in L2.
  pose proof (b_shape _ _ _ (li_base _ Hi)) as Hs.
  assert (p_net p = NHead \/ p_net p <> NHead) as [E|Hnh] by (destruct (p_net p); auto).
  - eexists. split; [right; left; by apply Net_stop|]. intros (t & Et & _).
    unfold net_shape in Hs. rewrite E in Hs. destruct Hs. congruence.
  - destruct (network_can p) as (p' & H & Hsp); [|done..|].
    + split; [done|]. by rewrite L2.
    + exists p'. split; [by right; left | done].
Qed.

Lemma settling_can p : settling p -> exited p \/ exists p', settling_step bo p p'.
Proof.
  intros Hp. pose proof Hp as [Hi Hr].
  destruct (sy_owner (p_sys p)) as [t|] eqn:Ho; [right; by eapply owner_can|].
  destruct (p_capture p) eqn:Hc; [right; by apply capture_thread_can|].
  assert (forall p', main_thread p p' -> exited p \/ exists p', settling_step bo p p') as Hmain.
  { intros p' H. right. exists p'. apply can_settle. by right. }
  pose proof (b_main _ _ _ (li_base _ Hi)) as Hok. unfold main_ok in Hok.
  destruct (p_main p) as [| |x|x y|ok|ok|ok| | | | |code] eqn:Em; try (by eapply Hmain; constructor).
  - destruct (p_sys p) as [q o c n m h] eqn:Es. cbn in *. subst o.
    destruct m; try (eapply Hmain, Main_shut; [exact Em|]; rewrite Es; by constructor).
    eapply Hmain, Main_shut_done; [exact Em | by rewrite Es].
  - destruct (p_net p) eqn:En; [by destruct Hok|..]; try (right; apply network_thread_can; [done..| by rewrite En | by rewrite En]).
    by eapply Hmain, Main_join_network.
  - left. by exists code.
Qed.

Lemma live_settles p : live p -> inevitable (settling_step bo) exited (set_running false p).
Proof.
  intros Hi. apply (inevitable_measure _ _ all_less all_left settling all_less_wf settling_can settling_less).
  split; [|done]. eapply live_step; [exact Hi | by apply Step_signal].
Qed.

Lemma live_exits p : live p -> exists p', reaches bo (set_running false p) p' /\ exited p'.
Proof.
  intros Hi. destruct (inevitable_path _ _ _ (live_settles p Hi)) as (p' & H1 & H2).
  exists p'. split; [by apply settling_reaches | done].
Qed.
End Shutdown.
