(* ===== verification/ProcessTeardown.v ===== *)
(** * The deletes at the end of [main]

    From the first delete on no other thread can make a step, so what the
    destructors release is what the objects held when the threads were joined:
    the device of the camera, the mapping, flags, mutex and condition variable
    of the queue. *)

From S2P Require Import Prelude Bytes Protocol RingQueue RingSpec RingRefine RingProps RingThreads ThreadProps.
From S2P Require Import CameraCapture CameraProps Main Transport Files TlsClient TlsProps TlsTheorems TlsSteps.
From S2P Require Import Server ServerProps ServerTheorems EndToEnd Pipeline.
From S2P Require Import Process ProcessProps ProcessRefine ProcessFlow ProcessSetup.

#[local] Open Scope Z_scope.

(** [main] has joined the threads. *)
Definition deleting (m : main_phase) : bool :=
  match m with MDelete | MDeleteCapture | MDeleteQueue | MExit _ => true | _ => false end.

Section Teardown.
Context {Ops : SslOps} {Laws : SslLaws Ops}.
Context (bo : byte_order) (q0 : RingQueue) (cam0 : CameraCapture) (cfg : TlsConfig) (calls0 : list net_call).
Context (Hrep : ring_rep bo q0 sp_empty) (Hmax : max_frame_size_ q0 = MAX_FRAME_SIZE) (Hcam : cam_ok cam0).
#[local] Abbreviation base := (proc_base bo q0).

Lemma deleting_over p :
  base p -> deleting (p_main p) = true ->
  p_capture p = CapDone /\ sy_capture (p_sys p) = PIdle /\ sy_main (p_sys p) = MDone /\
  (p_net p = NExit \/ p_net p = NUnborn).
Proof.
  intros Hb Hm. pose proof (b_main _ _ _ Hb) as Hok. pose proof (b_done _ _ _ Hb) as Hd. unfold main_ok in Hok.
  destruct (p_main p) eqn:E; try done; destruct_and?; split_and!; auto.
  destruct_or?; destruct_and?; auto.
Qed.

Lemma threads_over p p' :
  base p -> deleting (p_main p) = true -> ~ capture_thread bo p p' /\ ~ network_thread bo p p'.
Proof.
  intros Hb Hm. destruct (deleting_over p Hb Hm) as (Hcd & Hidle & _ & Hnet). split.
  - intros H. destruct H as [? [? _]|? ? ? ? [? _]|? ? ? ? ? [? _]|]; congruence.
  - intros H. destruct (network_alive bo p p' H) as (? & ? & _). by destruct Hnet.
Qed.

Definition camera_releases (p : proc) : list deletion :=
  if (CameraCapture_delete (p_camera p)).1 then [DeviceRelease] else [].

Definition queue_releases (p : proc) : list deletion := QueueRelease <$> RingQueue_delete (sy_q (p_sys p)).

(** What has been released when [main] has got to a place. *)
Definition released (p : proc) : list deletion :=
  match p_main p with
  | MDeleteQueue => camera_releases p
  | MExit code => if code =? EXIT_SUCCESS then camera_releases p ++ queue_releases p else []
  | _ => []
  end.

Lemma released_early p : deleting (p_main p) = false -> released p = [].
Proof. unfold released. by destruct (p_main p). Qed.

Lemma deletes_step p p' : base p -> p_deletes p = released p -> proc_step bo p p' -> p_deletes p' = released p'.
Proof.
  intros Hb Hd Hst. destruct Hst as [H|H|H| ->].
  - destruct (deleting (p_main p)) eqn:Em; [by destruct (threads_over p p' Hb Em)|].
    rewrite (released_early p Em) in Hd. rewrite released_early; [by destruct H | by destruct H].
  - destruct (deleting (p_main p)) eqn:Em; [by destruct (threads_over p p' Hb Em)|].
    rewrite (released_early p Em) in Hd. rewrite released_early; [by destruct H | by destruct H].
  - destruct H as [p H|p H|p H Hr|p H Hr|p x H|p x y H|p ok H|p ok e s H Hs|p ok H Hn|p ok H Hn|p H Hn|p H|p H|p H];
      unfold released in *; cbn; rewrite H in Hd; rewrite ?H, ?Hd; try done.
    by destruct ok.
  - done.
Qed.

Lemma reaches_deletes p : reaches bo (start0 q0 cam0 cfg calls0) p -> p_deletes p = released p.
Proof.
  intros Hr. enough (base p /\ p_deletes p = released p) by tauto. revert p Hr. apply rtc_ind_r.
  - split; [by apply base_start | done].
  - intros p p' _ Hs [Hb Hd]. split; [by eapply base_step | by eapply deletes_step].
Qed.

(** The queue's destructor releases what it would have right after construction. *)
Lemma delete_as_new p :
  base p -> deleting (p_main p) = true -> RingQueue_delete (sy_q (p_sys p)) = RingQueue_delete q0.
Proof.
  intros Hb Hm. destruct (deleting_over p Hb Hm) as (_ & Hidle & _).
  destruct (base_rel bo q0 Hrep Hmax p Hb) as (s & [(Hc & _ & Hs) _ Hr _] & _). rewrite Hidle in Hr. cbn in Hr.
  destruct (geo_mem _ (rep_geo _ _ _ Hr)) as (m & Em & _), (geo_mem _ (rep_geo _ _ _ Hrep)) as (m0 & Em0 & _).
  unfold RingQueue_delete. by rewrite Em, Em0, Hc, Hs.
Qed.
End Teardown.

(** The device stays open while frames are captured. *)
Lemma capture_iters_opened envs c calls c' :
  capture_iters envs c = (calls, c') -> isOpened c' = isOpened c.
Proof.
  revert c calls. induction envs as [|e envs IH]; intros c calls H; cbn in H; [by injection H as _ <-|].
  destruct (capture_body e c) as [call c1] eqn:Eb. destruct (capture_iters envs c1) as [calls1 c2] eqn:E.
  injection H as _ <-. rewrite (IH _ _ E). by eapply capture_body_keeps.
Qed.

Lemma delete_opened c : isOpened c = true -> (CameraCapture_delete c).1 = true.
Proof. unfold isOpened, CameraCapture_delete, stop. intros H. by destruct (streaming_ c); cbn; rewrite H. Qed.

Lemma start_opened c c' : start c = (true, c') -> isOpened c' = true.
Proof. unfold start, isOpened. destruct (cap_opened_ c) eqn:E; [|done]. by intros [= <-]. Qed.
