(* ===== verification/ProcessTheorems.v ===== *)
(** * What the client process guarantees

    Theorems about every interleaving of the threads of a client that [main] has
    set up from a command line. *)

From S2P Require Import Prelude Bytes Protocol RingQueue RingSpec RingRefine RingProps RingThreads ThreadProps.
From S2P Require Import Getopt CameraCapture CameraProps Main Transport Files TlsClient TlsProps TlsTheorems TlsSteps.
From S2P Require Import Server ServerProps ServerTheorems EndToEnd Pipeline.
From S2P Require Import Process ProcessProps ProcessRefine ProcessFlow ProcessSetup ProcessMoves ProcessShutdown ProcessTeardown.
From stdpp Require Import sorting.
From Stdlib Require Import Strings.Byte.

#[local] Open Scope Z_scope.

Section Delivery.
Context {COps : SslOps} {CLaws : SslLaws COps}.
Context {SOps : SslOps} {SLaws : SslLaws SOps} {SProg : SslProgress SOps} {SRel : SslReliable SOps}.
Context {Fs : FsOps} {FLaws : FsLaws Fs} {FProg : FsProgress Fs}.

Lemma client_sessions bo cfg e p0 (ce : @connect_env COps) p :
  setup_ok (Ops := COps) cfg e p0 -> fresh_env ce -> reaches bo p0 p -> p_net p = NExit ->
  Z.of_nat (length (p_pushes p)) < 2 ^ 64 ->
  Forall session_good (sessions (p_calls p)) /\
  exists completes,
    Forall2 (server_receives (SOps := SOps) (Fs := Fs)) (sessions (p_calls p)) completes /\
    concat completes `sublist_of` omap (call_frame MAX_FRAME_SIZE) (p_pushes p) /\
    StronglySorted Z.lt (f_seq <$> concat completes).
Proof.
  intros Hs Hce Hr Hn Hlen.
  destruct (process_network bo cfg e p0 ce p Hs Hce Hr Hn) as (nenvs & l & He & [n Hl] & Hcalls).
  specialize (Hl n (le_n n)).
  destruct (process_inv bo cfg e p0 ce p Hs Hce Hr) as
    (capture & cam & E & Hstart & _ & R & Hmax & Hcam & Hb & _ & ((cenvs & Hcap) & Hoff & _) & (fs & Hfs & Hsub)).
  destruct (networkLoop_disconnected _ _ _ _ _ _ Hl) as (_ & Hk & _).
  assert (p_calls p = CtxNew :: l ++ deleted p) as Hall by (rewrite Hcalls, E; done).
  rewrite Hall, sessions_deleted by done.
  assert (Forall session_good (sessions l)) as Hgood.
  { rewrite E in Hl. by edestruct (networkLoop_inv (Ops := COps)) as (_ & _ & H);
      [exact Hl | done | apply new_ok | apply new_stream |]. }
  split; [done|]. apply sessions_in_order; [done|..].
  - assert (popped_frames l `sublist_of` popped (p_trace p)) as Hpop.
    { rewrite Hall in Hsub. change (CtxNew :: l ++ deleted p) with ([CtxNew] ++ l ++ deleted p) in Hsub.
      etrans; [|exact Hsub]. apply sublist_inserts_r, popped_part. }
    etrans; [exact Hpop|]. etrans; [eapply popped_offered; [exact R | apply Hb]|].
    rewrite <- Hoff. by apply sublist_inserts_r.
  - eapply sublist_sorted; [apply call_frame_seqs|].
    eapply captured_increasing; [exact Hstart | | done].
    eapply (capture_iters_loop _ (mkCaptureEnv None (0, 0) (fun _ => None))); [exact Hcap | apply Hcam].
Qed.
End Delivery.

Section Threads.
Context {Ops : SslOps} {Laws : SslLaws Ops}.
Context (bo : byte_order).

(** C8: the threads compute what their functions compute one after the other.
    When both threads of a client process have returned, under whatever
    interleaving with each other, the main thread and signals, then the calls
    of [push] are those of a run of [captureLoop], the calls of the TLS client
    those of a run of [networkLoop] (ending when [running] is seen false), and
    the two are connected through one run of the ring queue: it was offered
    exactly the frames of these pushes, in order, and the packets the network
    loop got are, in order, frames the queue handed out. *)
Theorem process_is_sequential cfg e p0 ce p :
  setup_ok cfg e p0 -> fresh_env ce -> reaches bo p0 p ->
  p_net p = NExit -> p_capture p = CapDone ->
  exists cenvs nenvs l,
    captureLoop cenvs (p_camera p0) = Some (p_pushes p, p_camera p) /\
    Forall (fun x => env_ok x.2) nenvs /\
    converges (fun n => networkLoop bo n nenvs (p_tls p0)) (p_tls p, l) /\
    p_calls p = p_calls p0 ++ l ++ deleted p /\
    run bo (p_sys p0) (p_trace p) (p_sys p) /\
    offered (p_trace p) = omap (call_frame MAX_FRAME_SIZE) (p_pushes p) /\
    popped_frames l `sublist_of` popped (p_trace p).
Proof.
  intros Hs Hce Hr Hn Hc. destruct (process_network bo cfg e p0 ce p Hs Hce Hr Hn) as (nenvs & l & He & Hl & Hcalls).
  destruct (process_inv bo cfg e p0 ce p Hs Hce Hr)
    as (capture & cam & E & _ & _ & _ & _ & Hcam & Hb & _ & ((cenvs & Hcap) & Hoff & _) & (fs & Hfs & Hsub)).
  exists (map (pair true) cenvs ++ [(false, mkCaptureEnv None (0, 0) (fun _ => None))]), nenvs, l.
  rewrite (b_done bo _ p Hb Hc), app_nil_r in Hoff. unfold unseen in Hfs. rewrite Hn in Hfs. inversion Hfs; subst.
  rewrite E at 1. split_and!; try done.
  - apply capture_iters_loop; [done | apply Hcam].
  - rewrite E. apply Hb.
  - rewrite Hcalls, app_nil_r in Hsub. etrans; [|exact Hsub]. apply popped_part.
Qed.

(** The TLS client's calls of a process that has run to its end. *)
Lemma client_released cfg e p0 ce p :
  setup_ok cfg e p0 -> fresh_env ce -> reaches bo p0 p -> p_main p = MExit EXIT_SUCCESS ->
  net_after (idle false) (p_calls p) = Some (idle false).
Proof.
  intros Hs Hce Hr Hexit.
  destruct (process_inv bo cfg e p0 ce p Hs Hce Hr) as (capture & cam & E & _ & _ & _ & _ & _ & Hb & _).
  pose proof (b_main _ _ _ Hb) as Hok. unfold main_ok in Hok. rewrite Hexit in Hok.
  destruct Hok as (_ & _ & _ & [[_ Hn]|[? _]]); [|done].
  destruct (process_network bo cfg e p0 ce p Hs Hce Hr Hn) as (nenvs & l & He & [n Hl] & ->).
  specialize (Hl n (le_n n)). rewrite E in Hl |- *. cbn [p_tls p_calls start0 proc_start] in *.
  edestruct networkLoop_inv as (H1 & H2 & _); [exact Hl | done | apply new_ok | apply new_stream |].
  unfold deleted. rewrite Hexit, Z.eqb_refl. apply (net_after_trans _ (idle true)); [done|].
  eapply net_after_trans; [exact H1|]. by apply delete_spec.
Qed.

(** C7: when [main] gets to its deletes (or to the end of its program), no other
    thread can make a step any more: both threads have returned, nobody holds
    or waits for the queue's mutex, no zero-copy packet is outstanding. So the
    queue's memory is unmapped and the mutex and condition variable destroyed
    when nothing can use them. After the three deletes everything the process
    acquired has been released, each thing once: every socket, SSL object,
    context and packet of the TLS client's life, the camera's device, and the
    mapping, the flag array, the mutex and the condition variable that the
    queue's constructor obtained. *)
Theorem teardown_safe cfg e p0 ce p :
  setup_ok cfg e p0 -> fresh_env ce -> reaches bo p0 p -> deleting (p_main p) = true ->
  (forall p', ~ capture_thread bo p p' /\ ~ network_thread bo p p') /\
  sy_capture (p_sys p) = PIdle /\ sy_network (p_sys p) = CIdle /\ sy_owner (p_sys p) = None /\
  sy_packets (p_sys p) = [] /\ shutdown_ (sy_q (p_sys p)) = true /\
  (p_main p = MExit EXIT_SUCCESS ->
    net_after (idle false) (p_calls p) = Some (idle false) /\
    exists calls, p_deletes p = DeviceRelease :: (QueueRelease <$> calls) /\
      resources_after [] ((RingQueue_new (se_mmap e) (se_malloc e) (Main.queue_size cfg) MAX_FRAME_SIZE).2 ++ calls)
        = Some []).
Proof.
  intros Hs Hce Hr Hm.
  destruct (process_inv bo cfg e p0 ce p Hs Hce Hr) as (capture & cam & E & Hstart & _ & R & Hmax & Hcam & Hb & _ & ((cenvs & Hcap) & _) & _).
  pose proof (b_shape _ _ _ Hb) as Hshape. destruct (deleting_over bo _ p Hb Hm) as (_ & Hidle & Hmd & Hnet).
  assert (sy_network (p_sys p) = CIdle /\ sy_packets (p_sys p) = []) as [Hni Hpk].
  { by destruct Hnet as [Hnet|Hnet]; rewrite Hnet in Hshape. }
  split_and!; try done.
  - intros p'. by eapply threads_over.
  - destruct (base_rel bo _ R Hmax p Hb) as (s & [_ (L1 & L2 & L3) _ _] & _).
    rewrite Hidle in L1. rewrite Hni in L2. rewrite Hmd in L3. by destruct (sy_owner (p_sys p)) as [[]|].
  - pose proof (run_shut _ _ _ _ (b_run _ _ _ Hb)) as Hsh. unfold shut_inv in Hsh. by rewrite Hmd in Hsh.
  - intros Hexit. split; [by eapply client_released|].
    assert (p_deletes p = released p) as Hd by (eapply reaches_deletes; [exact R | done | exact Hcam | by rewrite <- E]).
    exists (RingQueue_delete (sy_q (p_sys p0))). split.
    + rewrite Hd. unfold released, camera_releases, queue_releases. rewrite Hexit, Z.eqb_refl.
      rewrite (delete_as_new bo _ R Hmax p Hb Hm), delete_opened; [done|].
      rewrite (capture_iters_opened _ _ _ _ Hcap). by eapply start_opened.
    + rewrite (setup_queue cfg e p0 (so_run _ _ _ Hs)). apply new_delete_balanced.
Qed.
End Threads.

(** C6: a signal ends the client. Take any state that a client set up by [main]
    can reach, whatever its threads are in the middle of (waiting in [pop],
    writing a slot, retrying a send, connected or not), and let [signalHandler]
    set [g_running] to false. Then [main] returns on every path: whichever thread
    is scheduled, whatever the camera, the network and the peer answer, every
    step of the threads brings the end nearer, and until [main] has returned some
    thread can take a step: no deadlock, no livelock, no loop that goes on
    without looking at the flag. Steps are those of the model: a connection
    attempt with its back-off is one. Two things are assumed of the system: an
    SSL connection does not ask for a retry for ever ([patience]), and a wait in
    [pop] does not go on waking up for no reason (a wake-up that is neither
    signalled nor the timeout's nor follows [shutdown] is not a step here). *)
Theorem shutdown_completes {Ops : SslOps} {Laws : SslLaws Ops} {Prog : SslProgress Ops} bo cfg e p0 ce p :
  setup_ok cfg e p0 -> fresh_env ce -> reaches bo p0 p ->
  inevitable (settling_step bo) exited (set_running false p).
Proof.
  intros Hs Hce Hr. destruct (setup_spec bo cfg e p0 Hs) as (capture & cam & E & R & Hm & Hc & _).
  cbv zeta in *. rewrite E in Hr. eapply live_settles; [done..|]. by eapply reaches_live.
Qed.

(** ** A concrete client *)

Lemma step_pushes {Ops : SslOps} {Laws : SslLaws Ops} bo p p' :
  proc_step bo p p' -> p_pushes p `prefix_of` p_pushes p'.
Proof. intros [H|H|H| ->]; [destruct H..|]; cbn; try done; by apply prefix_app_r. Qed.

Lemma reaches_pushes {Ops : SslOps} {Laws : SslLaws Ops} bo p p' :
  reaches bo p p' -> p_pushes p `prefix_of` p_pushes p'.
Proof. induction 1 as [|p p1 p' Hs _ IH]; [done|]. trans (p_pushes p1); [by eapply step_pushes | done]. Qed.

Definition demo_args : list option_read := [("h"%byte, chars "host"); ("q"%byte, chars "16")].
Definition demo_cfg : Main.Config := from_option id Main.Config_default (Main.parseArgs demo_args).
Definition demo_setup : setup_env := mkSetupEnv demo_mmap (fun _ => true) demo_camera_env (mkCtxEnv true true).
Definition demo_proc : @proc scripted_ops :=
  from_option id (proc_start demo_queue demo_camera (TlsClient_new demo_config) []) (setup demo_cfg demo_setup).

Lemma demo_setup_ok : setup_ok demo_cfg demo_setup demo_proc.
Proof.
  constructor; [by exists demo_args | left; vm_compute; reflexivity | exact demo_mmap_law | reflexivity].
Qed.

(** The client creates its network thread and hands a first image to [push]. *)
Definition demo_image : capture_env := mkCaptureEnv (Some demo_mat) (0, 500) (fun _ => Some (chars "ab")).

Lemma demo_started :
  exists p, reaches ORDER_LITTLE_ENDIAN demo_proc p /\ p_net p = NHead /\ p_main p = MWait /\
    p_running p = true /\ pa_seq <$> p_pushes p = [0].
Proof.
  eexists. split; [|split_and!].
  - eapply rtc_l; [apply Step_main, Main_spawn; reflexivity|].
    eapply rtc_once, Step_capture, (Cap_call _ _ demo_image); [by split | reflexivity | reflexivity | reflexivity].
  - reflexivity.
  - reflexivity.
  - reflexivity.
  - reflexivity.
Qed.

Lemma demo_fresh : fresh_env good_connect.
Proof. split; [done | by intros k [= <-]]. Qed.

(** Once [running] is false nothing is handed to [push] any more, and a created
    network thread stays created. *)
Lemma step_quiet {Ops : SslOps} {Laws : SslLaws Ops} bo p p' :
  proc_step bo p p' -> p_running p = false -> p_net p <> NUnborn -> p_main p <> MSpawn ->
  p_running p' = false /\ p_pushes p' = p_pushes p /\ p_net p' <> NUnborn /\ p_main p' <> MSpawn.
Proof.
  intros [H|H|H| ->] Hr Hn Hm; [| | |done].
  - destruct (capture_frame bo p p' H) as (_ & -> & -> & -> & _).
    destruct H as [| ? ? ? ? _ Hrun| ? ? ? ? ? _ Hrun|]; cbn in *; try done; by rewrite Hr in Hrun.
  - destruct (network_alive bo p p' H) as (_ & _ & H3).
    split_and!; [by destruct H | by destruct H | done | by destruct H].
  - destruct H as [| | | | | | | | |p ok H Hd| | | |]; cbn in *; try congruence; try done. by destruct ok.
Qed.

Lemma reaches_quiet {Ops : SslOps} {Laws : SslLaws Ops} bo p p' :
  reaches bo p p' -> p_running p = false -> p_net p <> NUnborn -> p_main p <> MSpawn ->
  p_pushes p' = p_pushes p /\ p_net p' <> NUnborn.
Proof.
  induction 1 as [|p p1 p' Hs _ IH]; intros Hr Hn Hm; [done|].
  destruct (step_quiet bo p p1 Hs Hr Hn Hm) as (H1 & H2 & H3 & H4). rewrite <- H2. by apply IH.
Qed.

(** A running client, shut down. *)
Lemma shut_down {Ops : SslOps} {Laws : SslLaws Ops} {Prog : SslProgress Ops} bo cfg e p0 ce p :
  setup_ok cfg e p0 -> fresh_env ce -> reaches bo p0 p -> p_net p = NHead -> p_main p = MWait ->
  exists p', reaches bo p0 p' /\ p_net p' = NExit /\ p_capture p' = CapDone /\
    p_main p' = MExit EXIT_SUCCESS /\ p_pushes p' = p_pushes p.
Proof.
  intros Hs Hce R1 N1 M1. destruct (setup_spec bo _ _ _ Hs) as (capture & cam & E & R & Hmx & Hc & _).
  cbv zeta in *. assert (reaches bo p0 (set_running false p)) as R2.
  { eapply rtc_r; [exact R1 | by apply Step_signal]. }
  rewrite E in R1, R2. pose proof (reaches_live _ _ cam _ _ R Hmx Hc _ Hce _ R1) as Hlive.
  destruct (live_exits _ _ cam _ _ R Hmx Hc _ Hce _ Hlive) as (p' & R3 & code & X).
  destruct (reaches_quiet _ _ _ R3) as [Hp Hn]; cbn; [done | by rewrite N1 | by rewrite M1 |].
  assert (reaches bo (start0 (sy_q (p_sys p0)) cam (tls_config cfg capture) [CtxNew]) p') as R4
    by by trans (set_running false p).
  pose proof (b_main _ _ _ (reaches_base _ _ cam _ _ R Hmx Hc p' R4)) as Hok.
  unfold main_ok in Hok. rewrite X in Hok. destruct Hok as (_ & _ & Hcd & [[-> Hnx]|[_ ?]]); [|done].
  exists p'. rewrite E. by split_and!.
Qed.

(** The demo client pushes one image and is then shut down. *)
Lemma demo_finished :
  exists p, reaches ORDER_LITTLE_ENDIAN demo_proc p /\ p_net p = NExit /\ p_capture p = CapDone /\
    p_main p = MExit EXIT_SUCCESS /\ pa_seq <$> p_pushes p = [0].
Proof.
  destruct demo_started as (p1 & R1 & N1 & M1 & _ & P1).
  destruct (shut_down _ _ _ _ _ p1 demo_setup_ok demo_fresh R1 N1 M1) as (p & H1 & H2 & H3 & H4 & H5).
  exists p. by rewrite H5.
Qed.

Example process_is_sequential_witness :
  exists p cenvs nenvs l, p_net p = NExit /\
    captureLoop cenvs (p_camera demo_proc) = Some (p_pushes p, p_camera p) /\
    converges (fun n => networkLoop ORDER_LITTLE_ENDIAN n nenvs (p_tls demo_proc)) (p_tls p, l).
Proof.
  destruct demo_finished as (p & R & N & C & M & _).
  destruct (process_is_sequential ORDER_LITTLE_ENDIAN demo_cfg demo_setup demo_proc good_connect p
    demo_setup_ok demo_fresh R N C) as (cenvs & nenvs & l & H1 & _ & H2 & _).
  exists p, cenvs, nenvs, l. split_and!; [exact N | exact H1 | exact H2].
Defined.

Example teardown_safe_witness :
  exists p calls, p_main p = MExit EXIT_SUCCESS /\ sy_packets (p_sys p) = [] /\
    net_after (idle false) (p_calls p) = Some (idle false) /\ p_deletes p = DeviceRelease :: (QueueRelease <$> calls) /\
    resources_after [] ((RingQueue_new demo_mmap (fun _ => true) 16 MAX_FRAME_SIZE).2 ++ calls) = Some [].
Proof.
  destruct demo_finished as (p & R & N & C & M & _).
  destruct (teardown_safe ORDER_LITTLE_ENDIAN demo_cfg demo_setup demo_proc good_connect p
    demo_setup_ok demo_fresh R) as (_ & _ & _ & _ & H1 & _ & H2).
  - by rewrite M.
  - destruct (H2 M) as (H3 & calls & H4 & H5). exists p, calls.
    split_and!; [exact M | exact H1 | exact H3 | exact H4 | exact H5].
Defined.

Example shutdown_completes_witness :
  exists p, pa_seq <$> p_pushes p = [0] /\ p_running p = true /\
    inevitable (settling_step ORDER_LITTLE_ENDIAN) exited (set_running false p).
Proof.
  destruct demo_started as (p & R & _ & _ & H & P).
  exists p. split_and!; [exact P | exact H |].
  exact (shutdown_completes ORDER_LITTLE_ENDIAN demo_cfg demo_setup demo_proc good_connect p
    demo_setup_ok demo_fresh R).
Defined.
