(* ===== verification/ProcessStreams.v ===== *)
(** * What servers have at any moment

    The servers' view of a client that is still running: of every connection, the
    live one included, any number of bytes may have arrived. *)

From S2P Require Import Prelude Bytes Protocol RingQueue RingSpec RingRefine RingProps RingThreads ThreadProps.
From S2P Require Import CameraCapture CameraProps Main Transport Files TlsClient TlsProps TlsTheorems TlsSteps.
From S2P Require Import Server ServerProps ServerTheorems EndToEnd Pipeline.
From S2P Require Import Process ProcessProps ProcessRefine ProcessFlow ProcessWire ProcessSetup ProcessTheorems.
From stdpp Require Import sorting.

#[local] Open Scope Z_scope.
#[local] Arguments wire_frame : simpl never.

(** ** The first bytes of a stream of frames *)

Lemma cut_stream fs m :
  (exists rest, wire_stream fs = take m (wire_stream fs) ++ rest /\ (length (wire_stream fs) <= m)%nat) \/
  exists complete f more j, fs = complete ++ f :: more /\ (j < length (wire_frame f))%nat /\
    take m (wire_stream fs) = wire_stream complete ++ take j (wire_frame f).
Proof.
  destruct (decide (length (wire_stream fs) <= m)%nat) as [Hle|Hgt].
  { left. exists []. by rewrite take_ge, app_nil_r. }
  right. revert m Hgt. induction fs as [|f fs IH]; intros m Hgt; [cbn in Hgt; lia|].
  unfold wire_stream in *. cbn [map concat] in *. rewrite length_app in Hgt.
  destruct (decide (m < length (wire_frame f))%nat) as [Hm|Hm].
  - exists [], f, fs, m. split_and!; [done..|]. cbn. by rewrite take_app_le by lia.
  - destruct (IH (m - length (wire_frame f))%nat) as (complete & g & more & j & -> & Hj & Ht); [lia|].
    exists (f :: complete), g, more, j. split_and!; [done..|]. cbn [map concat].
    by rewrite take_app_ge, Ht, <- app_assoc by lia.
Qed.

(** Frames whose images fit into the first bytes. *)
Lemma fits_prefix fs complete f more j other :
  fs = complete ++ f :: more -> (j < length (wire_frame f))%nat -> other `prefix_of` fs ->
  (length (wire_stream other) <= length (wire_stream complete ++ take j (wire_frame f)))%nat ->
  other `prefix_of` complete.
Proof.
  intros -> Hj Ho Hl. destruct (prefix_weak_total other complete (complete ++ f :: more)) as [H|[tl ->]];
    [done | by apply prefix_app_r | done |].
  apply prefix_app_inv in Ho. destruct tl as [|g tl]; [by rewrite app_nil_r|].
  apply prefix_cons_inv_1 in Ho as ->. exfalso. unfold wire_stream in Hl. rewrite map_app, concat_app in Hl.
  cbn [map concat] in Hl. rewrite !length_app, length_take in Hl. lia.
Qed.

Lemma parse_cut_stream fs m :
  Forall (frame_ok MAX_FRAME_SIZE) fs ->
  exists complete, complete `prefix_of` fs /\
    (forall other, other `prefix_of` fs ->
      (length (wire_stream other) <= length (take m (wire_stream fs)))%nat -> other `prefix_of` complete) /\
    forall k, (length fs < k)%nat ->
      exists reason, parse k (take m (wire_stream fs)) = (map rx_of complete, reason) /\
        (reason = NoHeader \/ reason = NoPayload).
Proof.
  intros Hok. destruct (cut_stream fs m) as [(rest & _ & Hle)|(complete & f & more & j & Hfs & Hj & ->)].
  - exists fs. split_and!; [done..|]. intros k Hk. exists NoHeader. rewrite take_ge by done.
    replace k with (length fs + S (k - S (length fs)))%nat by lia. rewrite <- (app_nil_r (wire_stream fs)).
    rewrite parse_wire_stream by done. rewrite parse_short by (cbn; lia). cbn. rewrite app_nil_r. auto.
  - exists complete. split_and!; [rewrite Hfs; by apply prefix_app_r | intros other Ho Hl; by eapply fits_prefix|].
    intros k Hk. rewrite Hfs in Hok, Hk. apply Forall_app in Hok as [Hc Hf]. apply Forall_cons in Hf as [Hf _].
    rewrite length_app in Hk. cbn in Hk.
    replace k with (length complete + S (k - S (length complete)))%nat by lia. rewrite parse_wire_stream by done.
    destruct (parse_cut_frame f Hf (k - S (length complete)) j Hj) as (reason & -> & Hr).
    exists reason. cbn. by rewrite app_nil_r.
Qed.

Section Delivery.
Context {COps : SslOps} {CLaws : SslLaws COps}.
Context {SOps : SslOps} {SLaws : SslLaws SOps} {SProg : SslProgress SOps} {SRel : SslReliable SOps}.
Context {Fs : FsOps} {FLaws : FsLaws Fs} {FProg : FsProgress Fs}.

(** The connections of a client so far, the live one last: the frames offered
    on each, and the connection. *)
Definition connections (p : @proc COps) : list (list frame * @conn COps) :=
  let s := foldl session_step ([], []) (p_calls p) in
  s.2 ++ match ssl_ (p_tls p) with Some k => [(s.1, k)] | None => [] end.

(** A server that has got the first [m] bytes of this connection receives
    [complete]: the frames, out of those offered, whose images are complete. *)
Definition server_reads (session : list frame * @conn COps) (m : nat) (complete : list frame) : Prop :=
  complete `prefix_of` session.1 /\
  (forall other, other `prefix_of` session.1 ->
    (length (wire_stream other) <= length (take m (sent session.2)))%nat -> other `prefix_of` complete) /\
  forall bo cfg k ssl s stats,
    stats_wf stats -> steady ssl -> incoming ssl = take m (sent session.2) -> (length session.1 < k)%nat ->
    exists reason st,
      converges (fun n => handleClient bo n cfg (replicate k true ++ [false]) ssl s stats)
        (map rx_of complete, reason, st) /\ (reason = NoHeader \/ reason = NoPayload).

Lemma good_prefix (session : list frame * @conn COps) :
  session_good session -> sent session.2 = take (length (sent session.2)) (wire_stream session.1).
Proof.
  intros [_ [H|(fs & f & n & Hfs & H)]]; [by rewrite H, take_ge|].
  rewrite H, Hfs, wire_stream_snoc, length_app. rewrite take_app_add. f_equal.
  rewrite length_take. destruct (decide (n <= length (wire_frame f))%nat); [by rewrite Nat.min_l|].
  by rewrite Nat.min_r, !take_ge by lia.
Qed.

Lemma session_reads session m : session_good session -> exists complete, server_reads session m complete.
Proof.
  intros Hg. pose proof (good_prefix session Hg) as Hs. destruct Hg as [Hok _].
  destruct (parse_cut_stream session.1 (m `min` length (sent session.2)) Hok) as (complete & H1 & H2 & H3).
  rewrite <- take_take, <- Hs in H2, H3. exists complete. split_and!; [done..|].
  intros bo cfg k ssl s stats Hwf Hst Hin Hk. destruct (H3 k Hk) as (reason & H4 & H5).
  destruct (handleClient_spec bo cfg k ssl s stats Hwf) as (rxs & reason' & st & He & _ & _ & _ & _ & Hp).
  rewrite Hin, H4 in Hp. specialize (Hp SRel Hst). injection Hp as <- <-. by exists reason, st.
Qed.

Lemma sessions_read sessions ms :
  Forall session_good sessions -> length ms = length sessions ->
  exists completes, Forall2 (fun x complete => server_reads x.1 x.2 complete) (zip sessions ms) completes /\
    concat completes `sublist_of` concat (map fst sessions).
Proof.
  intros Hg. revert ms. induction Hg as [|s sessions Hs _ IH]; intros [|m ms] Hl; try done.
  { exists []. split; [constructor | done]. }
  destruct (IH ms) as (cs & H1 & H2); [by injection Hl|]. destruct (session_reads s m Hs) as (c & Hc).
  exists (c :: cs). split; [by constructor|]. cbn. apply sublist_app; [|done]. by apply prefix_sublist, Hc.
Qed.
(** The frames of the connections are, in order, out of those captured. *)
Lemma connections_offered bo cfg e p0 (ce : @connect_env COps) p :
  setup_ok (Ops := COps) cfg e p0 -> fresh_env ce -> reaches bo p0 p ->
  Forall session_good (connections p) /\
  concat (map fst (connections p)) `sublist_of` omap (call_frame MAX_FRAME_SIZE) (p_pushes p).
Proof.
  intros Hs Hce Hr.
  destruct (process_inv bo cfg e p0 ce p Hs Hce Hr) as
    (capture & cam & E & _ & _ & R & Hmax & Hcam & Hb & _ & (_ & Hoff & _) & (fs & _ & Hsub)).
  rewrite E in Hr.
  destruct (reaches_wire bo _ cam _ [CtxNew] R Hmax Hcam eq_refl ce Hce p Hr) as [W1 W2 _]. split.
  - unfold connections. apply Forall_app_2; [done|]. destruct (ssl_ (p_tls p)) as [k|]; [|constructor].
    constructor; [|done]. by eapply live_good, W2.
  - trans (popped_frames (p_calls p)).
    { etrans; [|apply sessions_sublist]. unfold connections. rewrite map_app, concat_app.
      apply sublist_app; [done|]. destruct (ssl_ (p_tls p)); cbn; [by rewrite app_nil_r | apply sublist_nil_l]. }
    trans (popped (p_trace p)); [etrans; [|exact Hsub]; by apply sublist_inserts_r|].
    etrans; [eapply popped_offered; [exact R | apply Hb]|]. rewrite <- Hoff. by apply sublist_inserts_r.
Qed.

(** Captured frames have increasing numbers. *)
Lemma pushes_increasing bo cfg e p0 (ce : @connect_env COps) p :
  setup_ok (Ops := COps) cfg e p0 -> fresh_env ce -> reaches bo p0 p ->
  Z.of_nat (length (p_pushes p)) < 2 ^ 64 ->
  StronglySorted Z.lt (f_seq <$> omap (call_frame MAX_FRAME_SIZE) (p_pushes p)).
Proof.
  intros Hs Hce Hr Hlen.
  destruct (process_inv bo cfg e p0 ce p Hs Hce Hr) as
    (capture & cam & _ & Hstart & _ & _ & _ & Hcam & _ & _ & ((cenvs & Hcap) & _) & _).
  eapply sublist_sorted; [apply call_frame_seqs|].
  eapply captured_increasing; [exact Hstart | | done].
  eapply (capture_iters_loop _ (mkCaptureEnv None (0, 0) (fun _ => None))); [exact Hcap | apply Hcam].
Qed.

(** At any moment: what a server has of the connections whose first bytes have
    arrived. *)
Lemma connections_read bo cfg e p0 (ce : @connect_env COps) p ms :
  setup_ok (Ops := COps) cfg e p0 -> fresh_env ce -> reaches bo p0 p ->
  Z.of_nat (length (p_pushes p)) < 2 ^ 64 -> length ms = length (connections p) ->
  exists completes,
    Forall2 (fun x complete => server_reads x.1 x.2 complete) (zip (connections p) ms) completes /\
    concat completes `sublist_of` omap (call_frame MAX_FRAME_SIZE) (p_pushes p) /\
    StronglySorted Z.lt (f_seq <$> concat completes).
Proof.
  intros Hs Hce Hr Hlen Hms. destruct (connections_offered bo cfg e p0 ce p Hs Hce Hr) as [Hg Hfrom].
  destruct (sessions_read (connections p) ms Hg Hms) as (completes & H1 & H2). exists completes.
  split_and!; [done | by etrans|]. eapply sublist_sorted; [apply sublist_map; by etrans|]. by eapply pushes_increasing.
Qed.
End Delivery.
