(* ===== verification/ProcessDelivery.v ===== *)
(** * Images get through

    As long as the client has not been told to stop and the network lets it
    connect and send, every image that the camera delivers can reach a server:
    from any state the threads can finish what they are doing, send what is
    queued, push the image and send it. *)

From S2P Require Import Prelude Bytes Protocol RingQueue RingSpec RingRefine RingProps RingThreads ThreadProps.
From S2P Require Import CameraCapture CameraProps Main Transport Files TlsClient TlsProps TlsTheorems TlsSteps.
From S2P Require Import Getopt Server ServerProps ServerTheorems EndToEnd Pipeline.
From S2P Require Import Process ProcessProps ProcessRefine ProcessFlow ProcessWire ProcessSetup ProcessMoves.
From S2P Require Import ProcessTheorems ProcessStreams.

#[local] Open Scope Z_scope.
#[local] Arguments wire_frame : simpl never.
#[local] Arguments packet_header : simpl never.

(** ** A network that works *)

(** Connection attempts that meet [e] succeed, and writing to the connection
    never fails for good. *)
Record cooperative {Ops : SslOps} {Laws : SslLaws Ops} (willing : conn -> Prop) (e : connect_env) : Prop :=
  mkCooperative {
  co_fresh : fresh_env e;
  co_connect : forall c, (tlsConnect e c).1.1 = true;
  co_willing : willing (ce_connect e).2;
  co_write k buf n w k' : willing k -> 0 < n -> SSL_write k buf n = (w, k') ->
    willing k' /\ (w <= 0 -> retries k' w = true)
}.

Lemma connect_ssl {Ops : SslOps} e c c' calls : tlsConnect e c = (true, c', calls) -> ssl_ c' = Some (ce_connect e).2.
Proof.
  unfold tlsConnect. destruct (createTcpConnection _). case_match; [done|].
  repeat (case_match; try done). by intros [= <- _].
Qed.

(** ** Before the end *)

(** Nobody sets [shutdown_] before [main] does. *)
Definition open_inv (a : sys) : Prop :=
  match sy_main a with MRun | MLock | MSet => shutdown_ (sy_q a) = false | _ => True end.

Lemma open_inv_step bo a e b : sys_step bo a e b -> open_inv a -> open_inv b.
Proof.
  unfold open_inv. intros [H|H|H|H]; destruct H; cbn in *; try done.
  - match goal with H : take_tail _ _ = _ |- _ => unfold take_tail in H; simplify_bind H end. done.
  - by apply releaseSlot_Some in H as (fl & _ & ->).
  - by apply releaseSlot_Some in H as (fl & _ & ->).
Qed.

Lemma run_open bo q tr b : shutdown_ q = false -> run bo (sys_init q) tr b -> open_inv b.
Proof.
  intros Hq. remember (sys_init q) as a eqn:E. induction 1; [by subst | |]; eapply open_inv_step; eauto.
Qed.

(** The threads leave their loops only after [g_running] was cleared. *)
Lemma ended_stopped {Ops : SslOps} {Laws : SslLaws Ops} bo q cam c calls p :
  reaches (Ops := Ops) bo (proc_start q cam c calls) p -> streaming_ cam = true ->
  (p_net p = NExit \/ p_capture p = CapDone -> p_running p = false) /\ streaming_ (p_camera p) = true.
Proof.
  intros Hr Hs. revert p Hr. apply rtc_ind_r; [by split; [intros [?|?]|]|].
  intros p p' _ [H|H|H| ->] [IH1 IH2]; cbn; auto.
  - destruct H as [p Hc Hr|p e call cam' Hc Hr He _|p e a cam' f Hc Hr He _|p e s Hne _]; cbn in *; auto.
    + split; [|done]. intros _. by rewrite IH2, andb_true_r in Hr.
    + split; [done|]. by rewrite (capture_body_streaming _ _ _ _ He).
    + split; [done|]. by rewrite (capture_body_streaming _ _ _ _ He).
  - destruct H; cbn in *; try naive_solver; split; try done; intros [E|E]; auto;
      unfold after_write in E; repeat case_match; naive_solver.
  - destruct H; cbn in *; try naive_solver.
Qed.

Section Delivery.
Context {Ops : SslOps} {Laws : SslLaws Ops} {Prog : SslProgress Ops}.
Context (bo : byte_order) (q0 : RingQueue) (cam0 : CameraCapture) (cfg : TlsConfig) (calls0 : list net_call).
Context (Hrep : ring_rep bo q0 sp_empty) (Hmax : max_frame_size_ q0 = MAX_FRAME_SIZE) (Hcam : cam_ok cam0).
Context (willing : conn -> Prop) (ce : connect_env) (Hco : cooperative willing ce).
#[local] Abbreviation Hce := (co_fresh willing ce Hco).
#[local] Abbreviation live := (live_inv bo q0 cfg calls0 ce).
#[local] Abbreviation li_base := (li_base bo q0 cfg calls0 ce).
#[local] Abbreviation live_step := (live_step bo q0 cam0 cfg calls0 Hrep Hmax Hcam ce Hce).
#[local] Abbreviation live_rel := (live_rel bo q0 cfg calls0 Hrep Hmax ce).
#[local] Abbreviation rel := (sys_rel bo (capacity_ q0) MAX_FRAME_SIZE (slot_stride_ q0)).
#[local] Abbreviation session calls := (foldl session_step ([], []) calls).

(** The client streams, and the capture thread is between two images; [ps] are
    the calls of [push] so far. *)
Record streams (ps : list push_args) (cam : CameraCapture) (p : proc) : Prop := mkStreams {
  st_live : live p;
  st_running : p_running p = true;
  st_capture : p_capture p = CapLoop /\ sy_capture (p_sys p) = PIdle;
  st_net : p_net p <> NUnborn /\ p_net p <> NExit;
  st_willing : forall k, ssl_ (p_tls p) = Some k -> willing k;
  st_history : p_pushes p = ps /\ p_camera p = cam
}.

Lemma running_main p : live p -> p_running p = true -> p_net p <> NUnborn -> sy_main (p_sys p) = MRun.
Proof.
  intros Hi Hr Hn. pose proof (b_main _ _ _ (li_base _ Hi)) as Hm. unfold main_ok in Hm.
  destruct (p_main p); destruct_and?; try done; congruence.
Qed.

Lemma streams_main ps cam p : streams ps cam p -> sy_main (p_sys p) = MRun.
Proof. intros [Hi Hr _ [Hn _] _ _]. by apply running_main. Qed.

Lemma streams_lock ps cam p :
  streams ps cam p -> sy_owner (p_sys p) = if network_locks (sy_network (p_sys p)) then Some Network else None.
Proof.
  intros H. pose proof (streams_main ps cam p H) as Hm. destruct H as [Hi _ [_ Hc] _ _ _].
  destruct (live_rel p Hi) as (s & [_ (L1 & L2 & L3) _ _]). rewrite Hc in L1. rewrite Hm in L3. rewrite L2.
  by destruct (sy_owner (p_sys p)) as [[]|].
Qed.

Lemma streams_open ps cam p : streams ps cam p -> shutdown_ (sy_q (p_sys p)) = false.
Proof.
  intros H. pose proof (streams_main ps cam p H) as Hm.
  pose proof (run_open bo q0 _ _ (rep_shut _ _ _ Hrep) (b_run _ _ _ (li_base _ (st_live _ _ _ H)))) as Ho.
  unfold open_inv in Ho. by rewrite Hm in Ho.
Qed.

(** Between two packets the queue is all that is left to describe. *)
Lemma streams_sys ps cam p :
  streams ps cam p -> p_net p = NHead \/ p_net p = NCall ->
  p_sys p = mkSys (sy_q (p_sys p)) None PIdle CIdle MRun [].
Proof.
  intros H Hn. pose proof (streams_main ps cam p H) as Hm. pose proof (streams_lock ps cam p H) as Ho.
  pose proof (b_shape _ _ _ (li_base _ (st_live _ _ _ H))) as Hs. destruct (st_capture _ _ _ H) as [_ Hc].
  assert (sy_network (p_sys p) = CIdle /\ sy_packets (p_sys p) = []) as [Hi Hp].
  { by destruct Hn as [Hn|Hn]; rewrite Hn in Hs. }
  rewrite Hi in Ho. destruct (p_sys p); cbn in *. by subst.
Qed.

Lemma write_willing pkt k buf n w k' again advanced :
  willing k -> 0 < n < 2 ^ 31 -> SSL_write k buf (i32_num n) = (w, k') ->
  willing k' /\ (after_write pkt k' w again advanced = again \/ after_write pkt k' w again advanced = advanced).
Proof.
  intros Hk Hn H. unfold i32_num in H. rewrite i32_id in H by lia.
  destruct (co_write _ _ Hco k buf n w k') as [H1 H2]; [done | lia | done|]. split; [done|].
  unfold after_write. destruct (Z.leb_spec w 0); [|by right]. rewrite H2 by done. by left.
Qed.

(** What the network thread does after the connection code keeps it so, and
    does not lose the connection. *)
Definition attached (p : proc) : Prop :=
  match p_net p with NFail _ | NClose => False | _ => is_Some (ssl_ (p_tls p)) end.

Lemma write_range p :
  live p ->
  match p_net p with NHeader _ _ n | NPayload _ _ n => 0 <= n < 2 ^ 31 | _ => True end.
Proof.
  intros Hi. pose proof (li_net _ _ _ _ _ p Hi) as Hn. unfold net_inv in Hn. destruct (p_net p); try done.
  - destruct Hn as (? & ? & ? & ? & _ & _ & _ & _ & _ & Hl & H31 & _). lia.
  - destruct Hn as (? & ? & ? & ? & ? & _ & _ & _ & _ & _ & _ & _ & _ & Hl & H31 & _). lia.
Qed.

Lemma streams_network ps cam p p' :
  streams ps cam p -> network_thread bo p p' -> p_net p <> NHead ->
  streams ps cam p' /\ (attached p -> attached p').
Proof.
  intros H Hst Hnh. pose proof H as [Hi Hr [Hc1 Hc2] [Hn1 Hn2] Hw [Hp1 Hp2]].
  pose proof (b_shape _ _ _ (li_base _ Hi)) as Hs. pose proof (write_range p Hi) as Hrange.
  destruct (network_frame bo p p' Hst Hs) as (E1 & E2 & E3 & E4 & E5 & E6 & E7 & _).
  destruct (network_alive bo p p' Hst) as (_ & _ & A).
  assert (live p') as Hi' by by eapply live_step, Step_network.
  enough (p_net p' <> NExit /\ (forall k, ssl_ (p_tls p') = Some k -> willing k) /\ (attached p -> attached p')) as (B1 & B2 & B3).
  { split; [|done]. constructor; [done | congruence | split; congruence | done | done | split; congruence]. }
  unfold attached. destruct Hst; cbn; rewrite ?H0 in *; try done.
  all: try (split_and!; [done | exact Hw | done]).
  - destruct (write_willing pkt k rest n w k' (NHeader pkt rest n) (NHeader pkt (drop (Z.to_nat w) rest) (u64 (n - w))))
      as [Hk' Ha]; [by apply Hw | lia | done|]. split_and!; [by destruct Ha as [-> | ->] | by intros ? [= <-] |].
    intros _. by destruct Ha as [-> | ->]; eexists.
  - destruct (write_willing pkt k data n w k' (NPayload pkt off n) (NPayload pkt (off + w) (u64 (n - w))))
      as [Hk' Ha]; [by apply Hw | lia | done|]. split_and!; [by destruct Ha as [-> | ->] | by intros ? [= <-] |].
    intros _. by destruct Ha as [-> | ->]; eexists.
Qed.

(** ** The network thread at work *)

Lemma network_reaches p p' p'' : network_thread bo p p' -> reaches bo p' p'' -> reaches bo p p''.
Proof. intros H. apply rtc_l. by apply Step_network. Qed.

(** It finishes what it is doing. *)
Lemma comes_home ps cam p :
  streams ps cam p -> exists p', reaches bo p p' /\ streams ps cam p' /\ p_net p' = NHead.
Proof.
  revert p. apply (drive bo net_less net_left); [apply net_less_wf|]. intros p H.
  assert (p_net p = NHead \/ p_net p <> NHead) as [E|Hne] by (destruct (p_net p); auto); [by left|right].
  destruct (network_moves bo q0 cam0 cfg calls0 Hrep Hmax Hcam ce Hce p) as (p' & Hst & Hless);
    [split; [apply H | by eapply streams_lock] | apply H | done | apply H |].
  exists p'. split_and!; [by apply Step_network | by apply (streams_network ps cam p) | done].
Qed.

(** It connects, unless it is connected. *)
Lemma gets_connected ps cam p :
  streams ps cam p -> p_net p = NHead ->
  exists p', reaches bo p p' /\ streams ps cam p' /\ p_net p' = NCall /\ is_Some (ssl_ (p_tls p')) /\ p_sys p' = p_sys p.
Proof.
  intros H E. pose proof H as [Hi Hr Hc Hn Hw Hp]. pose proof (li_net _ _ _ _ _ p Hi) as Hnet.
  unfold net_inv in Hnet. rewrite E in Hnet. destruct (at_head_ok bo cfg calls0 _ _ Hnet) as (h & x & Hok & _).
  assert (forall p', network_thread bo p p' -> p_net p' = NCall -> p_sys p' = p_sys p ->
    (ssl_ (p_tls p') = ssl_ (p_tls p) \/ ssl_ (p_tls p') = Some (ce_connect ce).2) -> is_Some (ssl_ (p_tls p')) ->
    exists p', reaches bo p p' /\ streams ps cam p' /\ p_net p' = NCall /\ is_Some (ssl_ (p_tls p')) /\ p_sys p' = p_sys p)
    as Hone.
  { intros p' Hst E1 E2 E3 E4. exists p'. split_and!; [by apply rtc_once, Step_network | | done..].
    destruct (network_frame bo p p' Hst) as (F1 & F2 & F3 & F4 & F5 & _); [apply li_base, Hi|].
    constructor; [by eapply live_step, Step_network | congruence | by rewrite F2, E2 | by rewrite E1 | | by rewrite F1, F5].
    intros k Hk. destruct E3 as [E3|E3]; rewrite E3 in Hk; [by apply Hw|]. injection Hk as <-. apply Hco. }
  destruct (decide (state_ (p_tls p) = Connected)) as [Hst|Hst].
  - apply (Hone (set_net NCall p)); [by apply Net_connected | done | done | by left | by eapply live_client].
  - destruct (tlsConnect ce (set_state Connecting (p_tls p))) as [[ok c] calls] eqn:Ec.
    pose proof (co_connect _ _ Hco (set_state Connecting (p_tls p))) as Hok'. rewrite Ec in Hok'. cbn in Hok'. subst ok.
    apply connect_ssl in Ec as Hs.
    apply (Hone (tls calls c (set_net NCall p))); [by eapply Net_connect; try exact Hce | done | done | by right | by eexists].
Qed.

(** ** One frame *)

Lemma rel_at s q pc m h : rel (mkSys q None PIdle pc m h) s -> ring_rep bo q s.
Proof. by intros [_ _ H _]. Qed.

(** Inside [pop], with the queue and the threads' places in it as [a] says. *)
Record popping (ps : list push_args) (cam : CameraCapture) (calls : list net_call) (a : sys) (p : proc) : Prop :=
  mkPopping {
  pp_streams : streams ps cam p;
  pp_net : p_net p = NPop;
  pp_attached : attached p;
  pp_sys : p_sys p = a;
  pp_calls : p_calls p = calls
}.

Lemma pop_step ps cam calls a e b p :
  network_step bo a e b -> sy_network a <> CIdle -> popping ps cam calls a p ->
  exists p', reaches bo p p' /\ popping ps cam calls b p'.
Proof.
  intros Hst Hne [H1 H2 H3 H4 H5]. exists (ring e b p).
  assert (network_thread bo p (ring e b p)) as Hn by (apply Net_pop; [done | by rewrite H4 | by rewrite H4]).
  split; [by apply rtc_once, Step_network|].
  destruct (streams_network ps cam p _ H1 Hn) as [Hs Ha]; [by rewrite H2|]. constructor; auto.
Qed.

Lemma spec_run_one cap s e s' : spec_run cap s [e] s' -> spec_step cap s e s'.
Proof.
  intros H. assert (forall tr, spec_run cap s tr s' -> tr = [e] -> spec_step cap s e s') as Hall; [|by eapply Hall].
  clear H. intros tr H. destruct H as [|s tr s1 e1 s2 H Hst]; [done|]. intros E.
  apply (app_inj_tail _ []) in E as [E ->]. destruct H; [done|]. by apply app_nil in E as [_ ?].
Qed.

(** The queue's side of a [pop] that finds a frame. *)
Inductive pops_frame (q : RingQueue) (f : frame) (q' : RingQueue) (pkt : FramePacket) : Prop :=
  | pops_frame_steps :
      let a1 := mkSys q None PIdle (CLock QUEUE_TIMEOUT_MS) MRun [] in
      let a2 := mkSys q (Some Network) PIdle (CTest QUEUE_TIMEOUT_MS) MRun [] in
      let a3 := mkSys q (Some Network) PIdle CTake MRun [] in
      let a4 := mkSys q' (Some Network) PIdle (CUnlock pkt) MRun [] in
      let a5 := mkSys q' None PIdle (CAlloc pkt) MRun [] in
      let a6 := mkSys q' None PIdle CIdle MRun [pkt] in
      network_step bo a1 None a2 -> network_step bo a2 None a3 -> network_step bo a3 (Some (EPop f)) a4 ->
      network_step bo a4 None a5 -> network_step bo a5 None a6 -> packet_frame q' pkt = Some f ->
      pops_frame q f q' pkt.

Lemma queue_pops q s f rest :
  rel (mkSys q None PIdle CIdle MRun []) s -> sp_items s = f :: rest ->
  exists q' pkt s', pops_frame q f q' pkt /\
    rel (mkSys q' None PIdle CIdle MRun [pkt]) s' /\ sp_items s' = rest.
Proof.
  intros Hrel Hitems. pose proof (rel_at _ _ _ _ _ Hrel) as R.
  pose proof (rep_count _ _ _ R) as Hcount. rewrite Hitems in Hcount. cbn in Hcount.
  destruct (sp_take s) as [[[t g] s1]|] eqn:Et; [|by unfold sp_take in Et; rewrite Hitems in Et].
  destruct (rep_take bo q s t g s1 R Et) as (q' & Eq & _).
  destruct (take_lag bo PIdle q _ q' s Eq R ltac:(lia)) as (t' & g' & s2 & Et' & _ & _ & Hshow & _).
  rewrite Et in Et'. injection Et' as <- <- <-. unfold sp_take in Et. rewrite Hitems in Et. injection Et as <- <- <-.
  set (pkt := packet_of q (sp_base s mod capacity_ q) f) in *.
  assert (pops_frame q f q' pkt) as Hp.
  { constructor; [apply N_lock | apply N_go | by eapply N_take; [lia|..] | apply N_unlock | apply N_alloc | done].
    - done.
    - unfold sleeps, must_wait. rewrite (proj2 (Z.eqb_neq (count_ q) 0)) by lia. done. }
  exists q', pkt. pose proof Hp as [a1 a2 a3 a4 a5 a6 S1 S2 S3 S4 S5 _].
  destruct (simulation_run bo (capacity_ q0) MAX_FRAME_SIZE (slot_stride_ q0) (mkSys q None PIdle CIdle MRun [])
    ([] ++ [EPop f]) (mkSys q' None PIdle CIdle MRun [pkt]) s) as (s' & Hrel' & Hrun); [|done|].
  { eapply run_silent, By_network, S5. eapply run_silent, By_network, S4. eapply run_event, By_network, S3.
    eapply run_silent, By_network, S2. eapply run_silent, By_network, S1.
    eapply run_silent, By_network, N_call. constructor. }
  exists s'. split_and!; [done..|]. apply spec_run_one in Hrun. inversion Hrun as [|t g sx sy Ht| |]; subst.
  unfold sp_take in Ht. rewrite Hitems in Ht. by injection Ht as <- <-.
Qed.

(** From the call of [pop] to the sending of the oldest frame. *)
Lemma takes_oldest ps cam p s f rest :
  streams ps cam p -> p_net p = NCall -> is_Some (ssl_ (p_tls p)) -> rel (p_sys p) s -> sp_items s = f :: rest ->
  exists p' s' pkt, reaches bo p p' /\ streams ps cam p' /\ attached p' /\
    p_net p' = NHeader pkt (packet_header bo pkt) FRAME_HEADER_SIZE /\ last (session (p_calls p')).1 = Some f /\
    rel (p_sys p') s' /\ sp_items s' = rest.
Proof.
  intros H En Hk Hrel Hitems. pose proof (streams_sys ps cam p H (or_intror En)) as Es. rewrite Es in Hrel.
  destruct (queue_pops _ s f rest Hrel Hitems) as (q' & pkt & s' & [a1 a2 a3 a4 a5 a6 S1 S2 S3 S4 S5 Hshow] & Hrel' & Hitems').
  set (p1 := set_net NPop (ring None (enter_pop QUEUE_TIMEOUT_MS (p_sys p)) p)).
  assert (network_thread bo p p1) as N1 by by apply Net_call.
  assert (popping ps cam (p_calls p) a1 p1) as H1.
  { destruct (streams_network ps cam p p1 H N1) as [H1 A1]; [by rewrite En|].
    constructor; [done | done | apply A1; unfold attached; by rewrite En | cbn; by rewrite Es | done]. }
  destruct (pop_step _ _ _ _ _ _ _ S1 ltac:(done) H1) as (p2 & R2 & H2).
  destruct (pop_step _ _ _ _ _ _ _ S2 ltac:(done) H2) as (p3 & R3 & H3).
  destruct (pop_step _ _ _ _ _ _ _ S3 ltac:(done) H3) as (p4 & R4 & H4).
  destruct (pop_step _ _ _ _ _ _ _ S4 ltac:(done) H4) as (p5 & R5 & H5).
  destruct (pop_step _ _ _ _ _ _ _ S5 ltac:(done) H5) as (p6 & R6 & [H6 En6 A6 Es6 Ec6]).
  destruct (base_bytes bo q0 Hrep Hmax p6 pkt) as [data Hd]; [apply li_base, H6 | rewrite Es6; set_solver |].
  set (p7 := tls [PopPacket pkt data] (p_tls p6) (set_net (NHeader pkt (packet_header bo pkt) FRAME_HEADER_SIZE) p6)).
  assert (network_thread bo p6 p7) as N7 by (eapply Net_packet; [done | by rewrite Es6.. | done]).
  destruct (streams_network ps cam p6 p7 H6 N7) as [H7 A7]; [by rewrite En6|].
  exists p7, s', pkt. split_and!; [| done | by apply A7 | done | | cbn; by rewrite Es6 | done].
  - eapply network_reaches; [exact N1|]. do 5 (etrans; [eassumption|]). by apply rtc_once, Step_network.
  - cbn. rewrite foldl_app. cbn. rewrite last_snoc. rewrite Es6 in Hd. apply packet_frame_of_bytes in Hd. cbn in Hd. congruence.
Qed.

(** The frame in hand is sent, and the loop begins again. *)
Record sending (ps : list push_args) (cam : CameraCapture) (f : frame) (rest : list frame) (p : proc) : Prop :=
  mkSending {
  sd_streams : streams ps cam p;
  sd_attached : attached p;
  sd_phase : match p_net p with NHeader _ _ _ | NPayload _ _ _ | NSent _ | NHead => True | _ => False end;
  sd_frame : last (session (p_calls p)).1 = Some f;
  sd_items : exists s, rel (p_sys p) s /\ sp_items s = rest
}.

Lemma release_items a b s :
  rel a s -> sys_step bo a (Some ERelease) b -> exists s', rel b s' /\ sp_items s' = sp_items s.
Proof.
  intros Hrel Hst. destruct (simulation bo _ _ _ _ _ _ s Hst Hrel) as (s' & Hrel' & Hm). exists s'. split; [done|].
  by inversion Hm.
Qed.

Lemma sending_step ps cam f rest p p' :
  sending ps cam f rest p -> network_thread bo p p' -> p_net p <> NHead -> sending ps cam f rest p'.
Proof.
  intros [H Ha Hph Hf (s & Hrel & Hs)] Hst Hne.
  destruct (streams_network ps cam p p' H Hst Hne) as [H' A']. specialize (A' Ha).
  pose proof (step_ring bo q0 Hrep Hmax p p' (li_base _ (st_live _ _ _ H)) (Step_network _ _ _ Hst)) as Hring.
  unfold attached in Ha, A'.
  destruct Hst as [p E|p E|p e c calls E|p e c calls d E|p E|p e b E|p E|p pkt rst data E|p pkt rst E|p pkt rst n k w k' E
    |p pkt off E|p pkt off n m data k w k' E|p pkt rst q E|p E|p pkt rst q E Hp Hq];
    rewrite E in Hph, Ha; try done; cbn in A'.
  - constructor; [done..| by exists s].
  - constructor; [done | done | cbn; unfold after_write in *; by repeat case_match | | by exists s].
    cbn. by rewrite app_nil_r.
  - constructor; [done..| by exists s].
  - constructor; [done | done | cbn; unfold after_write in *; by repeat case_match | | by exists s].
    cbn. by rewrite app_nil_r.
  - constructor; [done | done | done | cbn; by rewrite foldl_app |].
    destruct Hring as [(e & Hring & Etr)|[_ Etr]]; cbn in Etr; [|apply (f_equal length) in Etr; rewrite length_app in Etr; cbn in Etr; lia].
    assert (e = Some ERelease) as ->.
    { apply app_inv_head in Etr. destruct e; [by injection Etr as <- | done]. }
    destruct (release_items _ _ s Hrel Hring) as (s' & H1 & H2). exists s'. split; [done | congruence].
Qed.

Lemma sends_it ps cam f rest p :
  sending ps cam f rest p -> exists p', reaches bo p p' /\ sending ps cam f rest p' /\ p_net p' = NHead.
Proof.
  revert p. apply (drive bo net_less net_left); [apply net_less_wf|]. intros p Hp. pose proof (sd_streams _ _ _ _ _ Hp) as H.
  assert (p_net p = NHead \/ p_net p <> NHead) as [E|Hne] by (destruct (p_net p); auto); [by left|right].
  destruct (network_moves bo q0 cam0 cfg calls0 Hrep Hmax Hcam ce Hce p) as (p' & Hst & Hless);
    [split; [apply H | by eapply streams_lock] | apply H | done | apply H |].
  exists p'. split_and!; [by apply Step_network | by eapply sending_step | done].
Qed.

(** A whole round of the network loop. *)
Lemma delivers_oldest ps cam p s f rest :
  streams ps cam p -> p_net p = NHead -> rel (p_sys p) s -> sp_items s = f :: rest ->
  exists p', reaches bo p p' /\ sending ps cam f rest p' /\ p_net p' = NHead.
Proof.
  intros H En Hrel Hitems.
  destruct (gets_connected ps cam p H En) as (p1 & R1 & H1 & En1 & Hk1 & Es1). rewrite <- Es1 in Hrel.
  destruct (takes_oldest ps cam p1 s f rest H1 En1 Hk1 Hrel Hitems) as (p2 & s2 & pkt & R2 & H2 & A2 & En2 & L2 & Hr2 & Hi2).
  destruct (sends_it ps cam f rest p2) as (p3 & R3 & H3 & En3); [constructor; [done..| by rewrite En2 | done | by exists s2]|].
  exists p3. split; [|done]. etrans; [exact R1|]. by etrans.
Qed.

(** The queue is emptied. *)
Lemma delivers_all ps cam l : forall p s,
  streams ps cam p -> p_net p = NHead -> rel (p_sys p) s -> sp_items s = l ->
  exists p' s', reaches bo p p' /\ streams ps cam p' /\ p_net p' = NHead /\ rel (p_sys p') s' /\ sp_items s' = [].
Proof.
  induction l as [|f rest IH]; intros p s H En Hrel Hitems; [by exists p, s|].
  destruct (delivers_oldest ps cam p s f rest H En Hrel Hitems) as (p1 & R1 & [H1 _ _ _ (s1 & Hr1 & Hi1)] & En1).
  destruct (IH p1 s1 H1 En1 Hr1 Hi1) as (p2 & s2 & R2 & Hrest). exists p2, s2. split; [by etrans | done].
Qed.

(** ** One image *)

(** Inside [push] of [f], which the abstract queue takes in state [s0]: before
    and after it has been decided what becomes of the frame. *)
Definition push_state (f : frame) (s0 : spec) (a : sys) : Prop :=
  exists s, rel a s /\
    match sy_capture a with
    | PLock g | PCheck g | PLoop g | PGuard g | PHeader g | PPayload g | PAdvance g => g = f /\ s = s0
    | _ => s = (sp_push (capacity_ q0) f s0).2
    end.

Lemma push_state_step f s0 a e b :
  push_state f s0 a -> capture_step bo a e b -> sy_capture a <> PIdle -> push_state f s0 b.
Proof.
  intros (s & Hrel & Hs) Hst Hne. destruct (simulation bo _ _ _ a e b s (By_capture _ _ _ _ Hst) Hrel) as (s' & Hrel' & Hm).
  exists s'. split; [done|]. destruct Hst; cbn in *; try done; try (by subst).
  all: try (destruct Hs as [-> ->]); try (by inversion Hm).
Qed.

Lemma push_ends p f s0 :
  live p -> p_running p = true -> p_net p = NHead -> sy_capture (p_sys p) <> PIdle -> push_state f s0 (p_sys p) ->
  exists p', reaches bo p p' /\ live p' /\ same_outside p p' /\ sy_capture (p_sys p') = PIdle /\ push_state f s0 (p_sys p').
Proof.
  intros Hi0 Hr Hn Hne Hpush.
  destruct (drive_nat bo (fun p1 => capture_measure (p_sys p1))
    (fun p1 => live p1 /\ same_outside p p1 /\ push_state f s0 (p_sys p1)) (fun p1 => sy_capture (p_sys p1) = PIdle)) with p
    as (p' & H1 & (H2 & H3 & H4) & H5); [|split_and!; [done | by exists (p_sys p), (p_trace p); destruct p | done] | by exists p'].
  intros p1 (Hi & Hsame & Hp1).
  assert (sy_capture (p_sys p1) = PIdle \/ sy_capture (p_sys p1) <> PIdle) as [E|E] by (destruct (sy_capture (p_sys p1)); auto);
    [by left|right].
  assert (forall e b, capture_step bo (p_sys p1) e b -> (capture_measure b < capture_measure (p_sys p1))%nat ->
    exists p', proc_step bo p1 p' /\ (live p' /\ same_outside p p' /\ push_state f s0 (p_sys p')) /\
      (capture_measure (p_sys p') < capture_measure (p_sys p1))%nat) as Hstep.
  { intros e b Hst Hm. exists (ring e b p1). assert (proc_step bo p1 (ring e b p1)) as Hps by by apply Step_capture, Cap_push.
    split_and!; [done | by eapply live_step | by apply same_ring | by eapply push_state_step | done]. }
  destruct (live_rel p1 Hi) as (s & Hrel).
  assert ((exists g, sy_capture (p_sys p1) = PLock g) \/ forall g, sy_capture (p_sys p1) <> PLock g) as [[g Eg]|Hnl]
    by (destruct (sy_capture (p_sys p1)); eauto).
  - assert (sy_owner (p_sys p1) = None) as Ho.
    { destruct Hsame as (sy & tr & E1). assert (p_net p1 = NHead) as En by by rewrite E1.
      assert (sy_main (p_sys p1) = MRun) as Em by (apply running_main; [done | by rewrite E1 | by rewrite En]).
      pose proof (b_shape _ _ _ (li_base _ Hi)) as Hs. rewrite En in Hs. destruct Hs as [Hid _].
      destruct Hrel as [_ (L1 & L2 & L3) _ _]. rewrite Eg in L1. rewrite Hid in L2. rewrite Em in L3.
      by destruct (sy_owner (p_sys p1)) as [[]|]. }
    destruct (p_sys p1) as [q o c n m h] eqn:Es. cbn in Ho, Eg. subst o c.
    eapply Hstep; [apply S_lock | cbn; lia].
  - destruct (capture_progress bo _ _ _ _ s Hrel E Hnl) as (e & b & Hst & Hm). by eapply Hstep.
Qed.

(** An idle client with an empty queue pushes the image of [e]. *)
Lemma pushes_image ps cam p s e a cam' f :
  streams ps cam p -> streaming_ cam = true -> p_net p = NHead -> rel (p_sys p) s -> sp_items s = [] ->
  capture_body e cam = (Some a, cam') -> call_frame MAX_FRAME_SIZE a = Some f ->
  exists p' s', reaches bo p p' /\ streams (ps ++ [a]) cam' p' /\ p_net p' = NHead /\ rel (p_sys p') s' /\ sp_items s' = [f].
Proof.
  intros H Hstr En Hrel Hitems He Hf. pose proof H as [Hi Hr [Hc1 Hc2] Hn Hw [Hp1 Hp2]].
  pose proof (streams_open ps cam p H) as Hopen. pose proof (streams_sys ps cam p H (or_introl En)) as Es.
  assert (cam_ok cam) as Hcok by (rewrite <- Hp2; apply (li_base _ Hi)).
  set (p1 := camera [a] cam' (ring None (enter_push f (p_sys p)) p)).
  assert (proc_step bo p p1) as S1.
  { apply Step_capture, (Cap_call _ _ e); [done | by rewrite Hr, Hp2, Hstr | by rewrite Hp2 |].
    by rewrite (base_max bo q0 Hrep Hmax p (li_base _ Hi)). }
  assert (live p1) as Hi1 by by eapply live_step.
  assert (rel (p_sys p1) s) as Hrel1.
  { destruct (simulation bo (capacity_ q0) MAX_FRAME_SIZE (slot_stride_ q0) (p_sys p) None (p_sys p1) s) as (s' & Hs' & ->); [|done|done].
    pose proof (base_max bo q0 Hrep Hmax p (li_base _ Hi)) as Hmx. cbn. unfold enter_push. revert Hmx. rewrite Es. cbn.
    intros Hmx. apply By_capture, S_call. rewrite Hmx. by eapply (capture_body_ok e cam). }
  destruct (push_ends p1 f s) as (p2 & R2 & Hi2 & (sy & tr & E2) & Hc' & (s2 & Hr2 & Hs2)); [done..|by exists s|].
  rewrite Hc' in Hs2. exists p2, s2. split_and!.
  - by eapply rtc_l.
  - constructor; [done | rewrite E2; done | by rewrite E2 in * | by rewrite E2; cbn; rewrite En | by rewrite E2 | by rewrite E2; cbn; rewrite Hp1].
  - by rewrite E2.
  - done.
  - rewrite Es in Hrel. pose proof (rel_at _ _ _ _ _ Hrel) as R.
    assert (sp_held s !! (sp_next s - capacity_ q0) = None) as Hheld.
    { destruct Hrel as [_ _ _ (tfs & Et & _ & Hin)]. cbn in Et. symmetry in Et. apply fmap_nil_inv in Et. subst tfs.
      destruct (sp_held s !! _) eqn:Eh; [|done]. apply Hin in Eh. by apply not_elem_of_nil in Eh. }
    rewrite Hs2. unfold sp_push, sp_blocked. rewrite <- (rep_shut _ _ _ R), Hopen, Hheld. cbn.
    pose proof (geo_cap q0 (rep_geo _ _ _ Hrep)).
    assert (sp_full (capacity_ q0) s = false) as Hfull by (unfold sp_full; rewrite Hitems; apply Z.leb_gt; cbn; lia).
    unfold sp_make_room. by rewrite Hfull, Hitems.
Qed.
End Delivery.

Section Reception.
Context {COps : SslOps} {CLaws : SslLaws COps} {CProg : SslProgress COps}.
Context {SOps : SslOps} {SLaws : SslLaws SOps} {SProg : SslProgress SOps} {SRel : SslReliable SOps}.
Context {Fs : FsOps} {FLaws : FsLaws Fs} {FProg : FsProgress Fs}.

Lemma reads_everything fs (k : @conn COps) :
  Forall (frame_ok MAX_FRAME_SIZE) fs -> sent k = wire_stream fs -> server_reads (fs, k) (length (sent k)) fs.
Proof.
  intros Hok Hs. destruct (session_reads (fs, k) (length (sent k))) as (complete & H1 & H2 & H3); [by split; [|left]|].
  cbn in *. assert (complete = fs) as -> by (apply (anti_symm prefix); [done|]; apply H2; [done | by rewrite take_ge, Hs by lia]).
  by split_and!.
Qed.

(** The image is delivered, and the network thread back at the head of its loop. *)
Lemma image_delivered bo cfg e0 p0 willing (ce : @connect_env COps) p e a cam f :
  setup_ok (Ops := COps) cfg e0 p0 -> cooperative willing ce -> reaches bo p0 p ->
  p_running p = true -> p_net p <> NUnborn -> (forall k, ssl_ (p_tls p) = Some k -> willing k) ->
  capture_body e (p_camera p) = (Some a, cam) -> call_frame MAX_FRAME_SIZE a = Some f ->
  exists p' closed fs k, reaches bo p p' /\ p_running p' = true /\ p_net p' = NHead /\ p_pushes p' = p_pushes p ++ [a] /\
    connections p' = closed ++ [(fs ++ [f], k)] /\ sent k = wire_stream (fs ++ [f]) /\
    server_reads (fs ++ [f], k) (length (sent k)) (fs ++ [f]).
Proof.
  intros Hs Hco Hr Hrun Hborn Hw He Hf. pose proof (co_fresh _ _ Hco) as Hce.
  destruct (setup_spec bo cfg e0 p0 Hs) as (capture & cam0 & E & R & Hmax & Hcam & _).
  cbv zeta in *. set (q0 := sy_q (p_sys p0)) in *. rewrite E in Hr.
  pose proof (reaches_live bo q0 cam0 _ [CtxNew] R Hmax Hcam ce Hce p Hr) as Hlive.
  destruct (ended_stopped (Ops := COps) bo _ _ _ _ p Hr) as [Hend Hstr]; [apply Hcam|].
  destruct (push_returns bo q0 cam0 _ [CtxNew] R Hmax Hcam ce Hce p Hlive) as (p1 & R1 & Hl1 & Hc1 & sy & tr & E1).
  assert (streams bo q0 (tls_config cfg capture) [CtxNew] willing ce (p_pushes p) (p_camera p) p1) as H1.
  { constructor; [done | by rewrite E1 | | | by rewrite E1 | by rewrite E1].
    - split; [|done]. rewrite E1. cbn. destruct (p_capture p) eqn:Ec; [done|]. by rewrite Hend in Hrun; [|right].
    - rewrite E1. cbn. split; [done|]. intros Hx. by rewrite Hend in Hrun; [|left]. }
  edestruct (comes_home (Ops := COps)) as (p2 & R2 & H2 & En2); [exact R | exact Hmax | exact Hcam | exact Hco | exact H1 |].
  destruct (live_rel bo q0 _ [CtxNew] R Hmax ce p2 (st_live _ _ _ _ _ _ _ _ _ H2)) as (s2 & Hr2).
  edestruct (delivers_all (Ops := COps)) as (p3 & s3 & R3 & H3 & En3 & Hr3 & Hi3);
    [exact R | exact Hmax | exact Hcam | exact Hco | exact H2 | exact En2 | exact Hr2 | reflexivity |].
  edestruct (pushes_image (Ops := COps)) as (p4 & s4 & R4 & H4 & En4 & Hr4 & Hi4);
    [exact R | exact Hmax | exact Hcam | exact Hco | exact H3 | exact Hstr | exact En3 | exact Hr3 | exact Hi3 | exact He | exact Hf |].
  edestruct (delivers_oldest (Ops := COps)) as (p5 & R5 & [H5 A5 _ L5 _] & En5);
    [exact R | exact Hmax | exact Hcam | exact Hco | exact H4 | exact En4 | exact Hr4 | exact Hi4 |].
  assert (reaches bo p p5) as Hall by (do 4 (etrans; [eassumption|]); done).
  unfold attached in A5. rewrite En5 in A5. destruct A5 as [k Hk].
  destruct (reaches_wire bo q0 cam0 (tls_config cfg capture) [CtxNew] R Hmax Hcam eq_refl ce Hce p5) as [_ W _]; [by etrans|].
  specialize (W k Hk). rewrite En5 in W. destruct W as [Hok Hsent].
  destruct (foldl session_step ([], []) (p_calls p5)) as [cur closed] eqn:Es. cbn in *.
  apply last_Some in L5 as [fs ->].
  exists p5, closed, fs, k. split_and!; [done | apply H5 | done | by rewrite (proj1 (st_history _ _ _ _ _ _ _ _ _ H5)) | | done |].
  - unfold connections. by rewrite Es, Hk.
  - by apply reads_everything.
Qed.

(** C4: images get through. From every state of a client that [main] has set up
    and that has not been told to stop, whatever its threads are in the middle
    of and whatever is queued: if the network lets it connect and send, and the
    camera delivers an image that [push] admits, the threads can go on in such a
    way that a server receives exactly this image as the last frame of the
    client's last connection. *)
Theorem image_gets_through bo cfg e0 p0 willing (ce : @connect_env COps) p e a cam f :
  setup_ok (Ops := COps) cfg e0 p0 -> cooperative willing ce -> reaches bo p0 p ->
  p_running p = true -> p_net p <> NUnborn -> (forall k, ssl_ (p_tls p) = Some k -> willing k) ->
  capture_body e (p_camera p) = (Some a, cam) -> call_frame MAX_FRAME_SIZE a = Some f ->
  exists p' closed fs k, reaches bo p p' /\ p_running p' = true /\ p_pushes p' = p_pushes p ++ [a] /\
    connections p' = closed ++ [(fs ++ [f], k)] /\ sent k = wire_stream (fs ++ [f]) /\
    server_reads (fs ++ [f], k) (length (sent k)) (fs ++ [f]).
Proof.
  intros Hs Hco Hr Hrun Hborn Hw He Hf.
  destruct (image_delivered bo cfg e0 p0 willing ce p e a cam f Hs Hco Hr Hrun Hborn Hw He Hf)
    as (p' & closed & fs & k & H1 & H2 & _ & H3). by exists p', closed, fs, k.
Qed.
End Reception.

(** ** A concrete client *)

(** A connection that takes whatever it is given; its state is what was sent. *)
Definition pipe_ops : SslOps := {|
  conn := list byte;
  SSL_write c buf num := (num, c ++ take (Z.to_nat num) buf);
  SSL_read c num := (0, [], c);
  SSL_get_error c n := SSL_ERROR_ZERO_RETURN;
  conn_errno c := 0
|}.

#[export] Program Instance pipe_laws : SslLaws pipe_ops := {
  sent c := c;
  incoming c := []
}.
Next Obligation. intros c buf num n c'. cbn. intros [= <- <-] _. split_and!; [lia | done..]. Qed.
Next Obligation.
  intros c buf num n c'. cbn. intros [= <- <-] Hn. split; [done|]. exists 0%nat. split_and!; [|lia|done].
  by rewrite Z2Nat.nonpos by lia.
Qed.
Next Obligation. intros c num n bs c'. cbn. intros [= <- <- <-]. lia. Qed.
Next Obligation. intros c num n bs c'. cbn. by intros [= <- <- <-]. Qed.

#[export] Program Instance pipe_progress : SslProgress pipe_ops := { patience c := 0%nat }.
Next Obligation. done. Qed.
Next Obligation. done. Qed.

Definition pipe_connect : @connect_env pipe_ops :=
  mkConnectEnv (Ops := pipe_ops) (Some [mkAddrEnv 5 2 (-1) 111 0 0; mkAddrEnv 6 2 (-1) EINPROGRESS 1 0])
    (Some []) true true (1, []).

Lemma pipe_cooperative : cooperative (Ops := pipe_ops) (fun _ => True) pipe_connect.
Proof.
  constructor; [split; [done | by intros k [= <-]] | done | done |].
  intros k buf n w k' _ Hn. cbn. intros [= <- <-]. split; [done | lia].
Qed.

(** The demo client of ProcessTheorems over such connections, with its network
    thread created. *)
Definition pipe_start : @proc pipe_ops :=
  from_option id (proc_start (Ops := pipe_ops) demo_queue demo_camera (TlsClient_new (Ops := pipe_ops) demo_config) [])
    (setup (Ops := pipe_ops) demo_cfg demo_setup).
Definition pipe_client : @proc pipe_ops := set_main MWait (set_net NHead pipe_start).

Lemma pipe_setup_ok : setup_ok (Ops := pipe_ops) demo_cfg demo_setup pipe_start.
Proof. constructor; [by exists demo_args | left; vm_compute; reflexivity | exact demo_mmap_law | reflexivity]. Qed.

Definition pipe_call : push_args := mkPushArgs 0 500 (chars "ab") 2 (PixelFormat_value JPEG) 4 2.
Definition pipe_frame : frame := mkFrame 0 500 (PixelFormat_value JPEG) 4 2 (chars "ab").

Example image_gets_through_witness :
  exists p' closed fs k, reaches (Ops := pipe_ops) ORDER_LITTLE_ENDIAN pipe_client p' /\
    p_pushes p' = [pipe_call] /\ connections p' = closed ++ [(fs ++ [pipe_frame], k)] /\
    server_reads (COps := pipe_ops) (SOps := scripted_ops) (Fs := store_ops)
      (fs ++ [pipe_frame], k) (length k) (fs ++ [pipe_frame]).
Proof.
  destruct (image_gets_through (COps := pipe_ops) (SOps := scripted_ops) (Fs := store_ops) ORDER_LITTLE_ENDIAN
    demo_cfg demo_setup pipe_start (fun _ => True) pipe_connect pipe_client demo_image pipe_call
    (mkCameraCapture (cam_config_ (p_camera pipe_client)) true 1280 720 30 (PixelFormat_value JPEG) true 1) pipe_frame
    pipe_setup_ok pipe_cooperative) as (p' & closed & fs & k & H1 & _ & H2 & H3 & _ & H4);
    [apply rtc_once, Step_main, Main_spawn; reflexivity | reflexivity | discriminate | done | reflexivity | reflexivity |].
  exists p', closed, fs, k. split_and!; [exact H1 | exact H2 | exact H3 | exact H4].
Defined.
