(* ===== verification/ProcessFiles.v ===== *)
(** * From the camera to the servers' disks

    The whole life of a client, up to the end of its network thread: what the
    servers of its connections receive, and what they save. The runs of the
    witnesses deliver an image. *)

From S2P Require Import Prelude Bytes Text Protocol RingQueue RingSpec RingRefine RingProps RingThreads ThreadProps.
From S2P Require Import Getopt CameraCapture CameraProps Main Transport Files TlsClient TlsProps TlsTheorems TlsSteps.
From S2P Require Import Server ServerProps ServerTheorems ServerMain ServerFiles EndToEnd Pipeline.
From S2P Require Import Process ProcessProps ProcessRefine ProcessFlow ProcessWire ProcessSetup ProcessMoves.
From S2P Require Import ProcessShutdown ProcessTheorems ProcessStreams ProcessDelivery.
From stdpp Require Import sorting.
From Stdlib Require Import Strings.Byte.

#[local] Open Scope Z_scope.

(** ** A client that stops *)

Section Stopping.
Context {Ops : SslOps} {Laws : SslLaws Ops} {Prog : SslProgress Ops}.

(** A client whose network thread is at the head of its loop can stop right
    there: the live connection is closed as it is. *)
Lemma stops_here bo cfg e p0 ce p :
  setup_ok cfg e p0 -> fresh_env ce -> reaches bo p0 p -> p_net p = NHead ->
  exists p', reaches bo p0 p' /\ p_net p' = NExit /\ p_pushes p' = p_pushes p /\ sessions (p_calls p') = connections p.
Proof.
  intros Hs Hce R1 N1.
  set (p2 := tls (tlsDisconnect (p_tls p)).2 (tlsDisconnect (p_tls p)).1 (set_net NExit (set_running false p))).
  exists p2. split_and!; [|done|done|].
  - apply (rtc_r _ (set_running false p)); [eapply rtc_r; [exact R1 | by apply Step_signal]|].
    apply Step_network. exact (Net_stop bo (set_running false p) N1 eq_refl).
  - unfold sessions, connections, p2, tlsDisconnect. cbn. rewrite foldl_app.
    destruct (foldl session_step ([], []) (p_calls p)) as [cur closed].
    by destruct (ssl_ (p_tls p)), (0 <=? sockfd_ (p_tls p)); cbn; rewrite ?app_nil_r.
Qed.
End Stopping.

Section Files.
Context {COps : SslOps} {CLaws : SslLaws COps}.
Context {SOps : SslOps} {SLaws : SslLaws SOps} {SProg : SslProgress SOps} {SRel : SslReliable SOps}.
Context {Fs : FsOps} {FLaws : FsLaws Fs} {FProg : FsProgress Fs}.

(** C2: from the camera to the servers. Take a client that [main] has set up
    from a command line, any interleaving of its capture, network and main
    threads and of signals, any frames and failures of the camera, any number
    of connections with any failures, up to the network thread's return. The
    frames that servers receive, reading each connection to its end, are
    complete and unaltered images among those captured, with strictly
    increasing sequence numbers over all connections: nothing is duplicated,
    reordered, mixed up or corrupted; and on each connection all offered frames
    but possibly the last arrive. *)
Theorem client_delivers_in_order bo cfg e p0 (ce : @connect_env COps) p :
  setup_ok (Ops := COps) cfg e p0 -> fresh_env ce -> reaches bo p0 p -> p_net p = NExit ->
  Z.of_nat (length (p_pushes p)) < 2 ^ 64 ->
  exists completes,
    Forall2 (server_receives (SOps := SOps) (Fs := Fs)) (sessions (p_calls p)) completes /\
    concat completes `sublist_of` omap (call_frame MAX_FRAME_SIZE) (p_pushes p) /\
    StronglySorted Z.lt (f_seq <$> concat completes).
Proof. apply client_sessions. Qed.

(** C9: from the camera to the disk. In the situation of the previous theorem,
    take a server that saves frames to a directory whose name has at most 479
    characters (with a longer one snprintf cuts the file names, and frames
    share a file). After reading a connection to its end it has one file per
    received frame, files of different frames have different names, every
    descriptor opened for them is closed again, and, unless a save failed (the
    counter of saved frames tells, as long as it does not pass 2^64), each file
    holds exactly the image that the client captured. *)
Theorem captured_frames_saved bo cfg e p0 (ce : @connect_env COps) p :
  setup_ok (Ops := COps) cfg e p0 -> fresh_env ce -> reaches bo p0 p -> p_net p = NExit ->
  Z.of_nat (length (p_pushes p)) < 2 ^ 64 ->
  exists completes,
    concat completes `sublist_of` omap (call_frame MAX_FRAME_SIZE) (p_pushes p) /\
    forall scfg, save_frames scfg = true -> (length (c_string (output_dir scfg)) <= 479)%nat ->
      Forall2 (server_saves (SOps := SOps) (Fs := Fs) scfg) (sessions (p_calls p)) completes.
Proof.
  intros Hs Hce Hr Hn Hlen. destruct (client_sessions bo cfg e p0 ce p Hs Hce Hr Hn Hlen) as (Hg & cs & H1 & H2 & H3).
  exists cs. split; [done|]. intros scfg Hsave Hdir. by apply sessions_saved.
Qed.

(** C3: at any moment of a client that [main] has set up, whatever its threads
    are doing and however many bytes of each of its connections, the live one
    included, have arrived: a server has received exactly the frames whose
    images have arrived completely; the frames of all connections together are
    complete and unaltered images among those captured so far, with strictly
    increasing sequence numbers. *)
Theorem received_at_any_time bo cfg e p0 (ce : @connect_env COps) p ms :
  setup_ok (Ops := COps) cfg e p0 -> fresh_env ce -> reaches bo p0 p ->
  Z.of_nat (length (p_pushes p)) < 2 ^ 64 -> length ms = length (connections p) ->
  exists completes,
    Forall2 (fun x complete => server_reads x.1 x.2 complete) (zip (connections p) ms) completes /\
    concat completes `sublist_of` omap (call_frame MAX_FRAME_SIZE) (p_pushes p) /\
    StronglySorted Z.lt (f_seq <$> concat completes).
Proof. apply connections_read. Qed.
End Files.

(** ** A client that delivers an image *)

(** The pipe client of ProcessDelivery has sent its image. *)
Lemma pipe_delivered :
  exists p closed, reaches ORDER_LITTLE_ENDIAN pipe_start p /\ p_running p = true /\ p_net p = NHead /\
    p_pushes p = [pipe_call] /\ connections p = closed ++ [([pipe_frame], wire_stream [pipe_frame])].
Proof.
  assert (reaches ORDER_LITTLE_ENDIAN pipe_start pipe_client) as R0 by (apply rtc_once, Step_main, Main_spawn; reflexivity).
  destruct (image_delivered (COps := pipe_ops) (SOps := scripted_ops) (Fs := store_ops) ORDER_LITTLE_ENDIAN
    demo_cfg demo_setup pipe_start (fun _ => True) pipe_connect pipe_client demo_image pipe_call
    (mkCameraCapture (cam_config_ (p_camera pipe_client)) true 1280 720 30 (PixelFormat_value JPEG) true 1) pipe_frame
    pipe_setup_ok pipe_cooperative R0) as (p & closed & fs & k & R & H2 & H3 & H4 & H5 & H6 & _);
    [reflexivity | discriminate | done | reflexivity | reflexivity |].
  change (p_pushes pipe_client ++ [pipe_call]) with [pipe_call] in H4. change (sent k) with k in H6. subst k.
  assert (fs = []) as ->.
  { destruct (connections_offered ORDER_LITTLE_ENDIAN demo_cfg demo_setup pipe_start
      pipe_connect p pipe_setup_ok (co_fresh _ _ pipe_cooperative)) as [_ Hsub]; [by trans pipe_client|].
    rewrite H4, H5, map_app, concat_app in Hsub. apply sublist_length in Hsub.
    change (omap _ [pipe_call]) with [pipe_frame] in Hsub. cbn in Hsub. rewrite !length_app in Hsub. cbn in Hsub.
    destruct fs; [done | cbn in Hsub; lia]. }
  exists p, closed. split_and!; [by trans pipe_client | done..].
Qed.

(** It is told to stop and its network thread returns. *)
Lemma pipe_stopped :
  exists p closed, reaches ORDER_LITTLE_ENDIAN pipe_start p /\ p_net p = NExit /\
    p_pushes p = [pipe_call] /\ sessions (p_calls p) = closed ++ [([pipe_frame], wire_stream [pipe_frame])].
Proof.
  destruct pipe_delivered as (p & closed & R & _ & N & P & C).
  destruct (stops_here ORDER_LITTLE_ENDIAN demo_cfg demo_setup pipe_start pipe_connect p
    pipe_setup_ok (co_fresh _ _ pipe_cooperative) R N) as (p' & R' & N' & P' & C').
  exists p', closed. by rewrite C', P'.
Qed.

(** The server at the other end of that connection. *)
Definition pipe_peer : @conn scripted_ops :=
  mkScripted [Moves 3; Would SSL_ERROR_WANT_READ; Moves 50] [] (wire_stream [pipe_frame]) SSL_ERROR_ZERO_RETURN 0.

Definition pipe_read : option (list received * loop_exit * @client_state scripted_ops store_ops) :=
  handleClient ORDER_BIG_ENDIAN 60 saving_config (replicate 3 true ++ [false]) pipe_peer demo_store demo_stats.
Definition pipe_saved : @client_state scripted_ops store_ops :=
  from_option snd (mkClientState pipe_peer demo_store demo_stats [] 0) pipe_read.

Lemma pipe_peer_of k : k = wire_stream [pipe_frame] -> peer_of (COps := pipe_ops) (SOps := scripted_ops) k pipe_peer.
Proof. intros ->. split; [repeat constructor | reflexivity]. Qed.

(** It reads the image and saves it. *)
Lemma pipe_served :
  converges (fun n => handleClient ORDER_BIG_ENDIAN n saving_config (replicate 3 true ++ [false])
    pipe_peer demo_store demo_stats) ([rx_of pipe_frame], NoHeader, pipe_saved) /\
  frames_saved (cs_stats pipe_saved) = 1 /\
  file (cs_fs pipe_saved) (chars "out/frame_00000000.jpg") = Some (chars "ab").
Proof.
  split; [|split; vm_compute; reflexivity]. exists 60%nat. intros fuel Hf.
  replace fuel with (60 + (fuel - 60))%nat by lia. vm_compute. reflexivity.
Qed.

Lemma rx_of_pipe complete : complete `prefix_of` [pipe_frame] -> map rx_of complete = [rx_of pipe_frame] -> complete = [pipe_frame].
Proof.
  intros [l Hl] H. destruct complete as [|f complete]; [done|]. injection Hl as <- Hl.
  by destruct complete.
Qed.

Example client_delivers_in_order_witness :
  exists p before completes, reaches ORDER_LITTLE_ENDIAN pipe_start p /\ p_pushes p = [pipe_call] /\
    Forall2 (server_receives (COps := pipe_ops) (SOps := scripted_ops) (Fs := store_ops)) (sessions (p_calls p))
      (completes ++ [[pipe_frame]]) /\
    sessions (p_calls p) = before ++ [([pipe_frame], wire_stream [pipe_frame])].
Proof.
  destruct pipe_stopped as (p & closed & R & N & P & C).
  destruct (client_delivers_in_order (COps := pipe_ops) (SOps := scripted_ops) (Fs := store_ops)
    ORDER_LITTLE_ENDIAN demo_cfg demo_setup pipe_start pipe_connect p pipe_setup_ok
    (co_fresh _ _ pipe_cooperative) R N) as (cs & H1 & _ & _).
  - rewrite P. reflexivity.
  - pose proof H1 as H2. rewrite C in H2. apply Forall2_app_inv_l in H2 as (l1 & l2 & _ & H2 & E).
    apply Forall2_cons_inv_l in H2 as (complete & l3 & (Hpre & _ & Hrecv) & H3 & ->). apply Forall2_nil_inv_l in H3 as ->.
    destruct (Hrecv ORDER_BIG_ENDIAN saving_config 3%nat pipe_peer demo_store demo_stats demo_stats_wf
      (pipe_peer_of _ eq_refl) ltac:(cbn; lia)) as (reason & st & Hc & _).
    pose proof (converges_unique _ _ _ Hc (proj1 pipe_served)) as Eq. injection Eq as Eq _ _.
    exists p, closed, l1. split_and!; [exact R | exact P | | exact C].
    rewrite (rx_of_pipe complete Hpre Eq) in E. rewrite <- E. exact H1.
Defined.

Example captured_frames_saved_witness :
  exists p before completes, reaches ORDER_LITTLE_ENDIAN pipe_start p /\ p_pushes p = [pipe_call] /\
    sessions (p_calls p) = before ++ [([pipe_frame], wire_stream [pipe_frame])] /\
    Forall2 (server_saves (COps := pipe_ops) (SOps := scripted_ops) (Fs := store_ops) saving_config)
      (sessions (p_calls p)) completes /\
    rx_filename saving_config (rx_of pipe_frame) = chars "out/frame_00000000.jpg" /\
    file (cs_fs pipe_saved) (chars "out/frame_00000000.jpg") = Some (f_data pipe_frame).
Proof.
  destruct pipe_stopped as (p & closed & R & N & P & C).
  destruct (captured_frames_saved (COps := pipe_ops) (SOps := scripted_ops) (Fs := store_ops)
    ORDER_LITTLE_ENDIAN demo_cfg demo_setup pipe_start pipe_connect p pipe_setup_ok
    (co_fresh _ _ pipe_cooperative) R N) as (cs & Hsub & H).
  - rewrite P. reflexivity.
  - specialize (H saving_config eq_refl ltac:(apply Nat.leb_le; reflexivity)).
    exists p, closed, cs. split_and!; [exact R | exact P | exact C | exact H | reflexivity |].
    rewrite C in H. apply Forall2_app_inv_l in H as (l1 & l2 & _ & H & ->).
    apply Forall2_cons_inv_l in H as (complete & l3 & Hsaves & _ & ->).
    assert (complete `sublist_of` [pipe_frame]) as Hc1.
    { etrans; [|rewrite P in Hsub; exact Hsub]. rewrite concat_app. cbn. by apply sublist_inserts_l, sublist_inserts_r. }
    destruct (Hsaves ORDER_BIG_ENDIAN 3%nat pipe_peer demo_store demo_stats demo_stats_wf
      (pipe_peer_of _ eq_refl) ltac:(cbn; lia)) as (reason & st & Hc & _ & _ & Hfile).
    { apply sublist_length in Hc1. cbn in *. lia. }
    pose proof (converges_unique _ _ _ Hc (proj1 pipe_served)) as Eq. injection Eq as Eq _ ->.
    apply sublist_cons_r in Hc1 as [Hc1|(rest & -> & Hc1)]; apply sublist_nil_r in Hc1; subst; [done|].
    specialize (Hfile (proj1 (proj2 pipe_served))). apply Forall_inv in Hfile. exact Hfile.
Defined.

Example received_at_any_time_witness :
  exists p before completes, reaches ORDER_LITTLE_ENDIAN pipe_start p /\ p_running p = true /\
    connections p = before ++ [([pipe_frame], wire_stream [pipe_frame])] /\
    Forall2 (fun x complete => server_reads (COps := pipe_ops) (SOps := scripted_ops) (Fs := store_ops) x.1 x.2 complete)
      (zip (connections p) (replicate (length (connections p)) 38%nat)) (completes ++ [[pipe_frame]]).
Proof.
  destruct pipe_delivered as (p & closed & R & Hr & N & P & C).
  destruct (received_at_any_time (COps := pipe_ops) (SOps := scripted_ops) (Fs := store_ops)
    ORDER_LITTLE_ENDIAN demo_cfg demo_setup pipe_start pipe_connect p (replicate (length (connections p)) 38%nat)
    pipe_setup_ok (co_fresh _ _ pipe_cooperative) R) as (cs & H1 & _ & _).
  - rewrite P. reflexivity.
  - by rewrite length_replicate.
  - pose proof H1 as H2. rewrite C, length_app, replicate_add, zip_with_app in H2 by (by rewrite length_replicate).
    apply Forall2_app_inv_l in H2 as (l1 & l2 & _ & H2 & E).
    apply Forall2_cons_inv_l in H2 as (complete & l3 & (Hpre & Hall & _) & H3 & ->). apply Forall2_nil_inv_l in H3 as ->.
    exists p, closed, l1. split_and!; [exact R | exact Hr | exact C |].
    assert (complete = [pipe_frame]) as <-; [|rewrite <- E; exact H1].
    apply (anti_symm prefix); [exact Hpre|]. by apply Hall.
Defined.
